(** * MIDI-Pi: a shallow embedding of the playback core

    The development follows the C++ sources:
    - [include/MidiFileParser.h], [src/MidiFileParser.cpp]: the SMF parser,
    - [src/MidiOutput.cpp]: the serial MIDI output,
    - [include/MidiPlayer.h], [src/MidiPlayer.cpp]: the player,
    - [src/main.cpp]: the file length cache.

    Fixed-width unsigned integers are integers in [Z] with the wrap-around
    written out ([u8], [u16], [u32], [u64]); C arrays are lists; a method that
    mutates its object takes the object's state and returns the new one. *)

From Stdlib Require Import ZArith List Lia Bool Sorted.
From Stdlib Require String Ascii.
Import ListNotations.
Import String.StringSyntax.
Delimit Scope string_scope with string.
Open Scope Z_scope.

(** ** Machine integers *)

Definition u8 (x : Z) : Z := x mod 256.
Definition u16 (x : Z) : Z := x mod 65536.
Definition u32 (x : Z) : Z := x mod 4294967296.
Definition u64 (x : Z) : Z := x mod 18446744073709551616.
(** Two's complement 16-bit. *)
Definition s16 (x : Z) : Z := (x + 32768) mod 65536 - 32768.

(** In-place update of an array element; an index past the end changes
    nothing (the sources guard every index). *)
Fixpoint upd_nth {A : Type} (n : nat) (x : A) (l : list A) : list A :=
  match l, n with
  | [], _ => []
  | _ :: tl, O => x :: tl
  | hd :: tl, S n' => hd :: upd_nth n' x tl
  end.

(** ** The file object (SdFat's [FatFile])

    The file is its bytes and a read position.  Medium errors are not
    modelled: a read returns the bytes that are there, a seek fails only
    past the end of the file. *)

Record FatFile : Type := mkFile { fdata : list Z; curPosition : Z }.

Definition fileSize (f : FatFile) : Z := Z.of_nat (length (fdata f)).

Definition available (f : FatFile) : Z := fileSize f - curPosition f.

(** [read(buf, n)]: the bytes obtained and the file moved past them. *)
Definition fread (n : Z) (f : FatFile) : list Z * FatFile :=
  let bs := firstn (Z.to_nat n) (skipn (Z.to_nat (curPosition f)) (fdata f)) in
  (bs, mkFile (fdata f) (curPosition f + Z.of_nat (length bs))).

Definition seekSet (pos : Z) (f : FatFile) : bool * FatFile :=
  if pos <=? fileSize f then (true, mkFile (fdata f) pos) else (false, f).

(** ** MidiFileParser.h: constants and structs *)

Definition MIDI_NOTE_OFF : Z := 0x80.
Definition MIDI_NOTE_ON : Z := 0x90.
Definition MIDI_POLY_AFTERTOUCH : Z := 0xA0.
Definition MIDI_CONTROL_CHANGE : Z := 0xB0.
Definition MIDI_PROGRAM_CHANGE : Z := 0xC0.
Definition MIDI_CHANNEL_AFTERTOUCH : Z := 0xD0.
Definition MIDI_PITCH_BEND : Z := 0xE0.
Definition MIDI_SYSEX : Z := 0xF0.
Definition MIDI_META_EVENT : Z := 0xFF.

Definition META_TRACK_NAME : Z := 0x03.
Definition META_END_OF_TRACK : Z := 0x2F.
Definition META_TEMPO : Z := 0x51.
Definition META_TIME_SIGNATURE : Z := 0x58.

Definition MAX_TRACKS : Z := 16.
Definition TRACK_BUFFER_SIZE : Z := 512.

(** [sysexData] is [None] for the null pointer, otherwise the array. *)
Record MidiEvent : Type := mkEvent {
  deltaTime : Z;
  absoluteTime : Z;
  type : Z;
  channel : Z;
  data1 : Z;
  data2 : Z;
  sysexData : option (list Z);
  sysexLength : Z;
  isMetaEvent : bool;
  trackNumber : Z
}.

(** The default constructor [MidiEvent()]. *)
Definition MidiEvent_new : MidiEvent :=
  mkEvent 0 0 0 0 0 0 None 0 false 0.

(** [operator=]: scalar fields are copied, the SysEx bytes are copied only
    when the source has an array and a positive [sysexLength]; otherwise the
    target is left with the null pointer. *)
Definition MidiEvent_assign (other : MidiEvent) : MidiEvent :=
  mkEvent (deltaTime other) (absoluteTime other) (type other) (channel other)
    (data1 other) (data2 other)
    (match sysexData other with
     | Some d => if 0 <? sysexLength other
                 then Some (firstn (Z.to_nat (sysexLength other)) d)
                 else None
     | None => None
     end)
    (sysexLength other) (isMetaEvent other) (trackNumber other).

(** [info_numTracks] is the struct's [numTracks] (the parser class has a
    member of the same name). *)
Record MidiFileInfo : Type := mkInfo {
  format : Z;
  info_numTracks : Z;
  ticksPerQuarter : Z;
  tempo : Z;
  numerator : Z;
  denominator : Z;
  trackName : list Z
}.

Record TrackState : Type := mkTrack {
  trackStartPos : Z;
  trackEndPos : Z;
  filePosition : Z;
  currentTick : Z;
  runningStatus : Z;
  endOfTrack : bool;
  nextEvent : MidiEvent;
  eventReady : bool;
  buffer : list Z;
  bufferPos : Z;
  bufferSize : Z;
  bufferFilePos : Z
}.

Definition TrackState_zero : TrackState :=
  mkTrack 0 0 0 0 0 false MidiEvent_new false (repeat 0 512) 0 0 0.

(** Field updates of [MidiEvent]. *)
Definition ev_set_timing (dt abs trk : Z) (e : MidiEvent) : MidiEvent :=
  mkEvent dt abs (type e) (channel e) (data1 e) (data2 e)
    (sysexData e) (sysexLength e) (isMetaEvent e) trk.
Definition ev_set_status (ty ch : Z) (e : MidiEvent) : MidiEvent :=
  mkEvent (deltaTime e) (absoluteTime e) ty ch (data1 e) (data2 e)
    None 0 false (trackNumber e).
Definition ev_set_sysex (d : list Z) (len : Z) (e : MidiEvent) : MidiEvent :=
  mkEvent (deltaTime e) (absoluteTime e) (type e) (channel e) (data1 e)
    (data2 e) (Some d) len (isMetaEvent e) (trackNumber e).
Definition ev_set_meta (metaType : Z) (e : MidiEvent) : MidiEvent :=
  mkEvent (deltaTime e) (absoluteTime e) (type e) (channel e) metaType
    (data2 e) (sysexData e) (sysexLength e) true (trackNumber e).
Definition ev_set_data (d1 d2 : Z) (e : MidiEvent) : MidiEvent :=
  mkEvent (deltaTime e) (absoluteTime e) (type e) (channel e) d1 d2
    (sysexData e) (sysexLength e) (isMetaEvent e) (trackNumber e).

(** Field updates of [MidiFileInfo]. *)
Definition info_set_tempo (v : Z) (i : MidiFileInfo) : MidiFileInfo :=
  mkInfo (format i) (info_numTracks i) (ticksPerQuarter i) v
    (numerator i) (denominator i) (trackName i).
Definition info_set_timesig (n d : Z) (i : MidiFileInfo) : MidiFileInfo :=
  mkInfo (format i) (info_numTracks i) (ticksPerQuarter i) (tempo i)
    n d (trackName i).
Definition info_set_trackName (s : list Z) (i : MidiFileInfo) : MidiFileInfo :=
  mkInfo (format i) (info_numTracks i) (ticksPerQuarter i) (tempo i)
    (numerator i) (denominator i) s.

(** Field updates of [TrackState]. *)
Definition tr_set_bufferSize (v : Z) (t : TrackState) : TrackState :=
  mkTrack (trackStartPos t) (trackEndPos t) (filePosition t) (currentTick t)
    (runningStatus t) (endOfTrack t) (nextEvent t) (eventReady t)
    (buffer t) (bufferPos t) v (bufferFilePos t).
Definition tr_set_window (buf : list Z) (pos size fpos : Z) (t : TrackState)
  : TrackState :=
  mkTrack (trackStartPos t) (trackEndPos t) (filePosition t) (currentTick t)
    (runningStatus t) (endOfTrack t) (nextEvent t) (eventReady t)
    buf pos size fpos.
Definition tr_set_cursor (bpos fpos : Z) (t : TrackState) : TrackState :=
  mkTrack (trackStartPos t) (trackEndPos t) fpos (currentTick t)
    (runningStatus t) (endOfTrack t) (nextEvent t) (eventReady t)
    (buffer t) bpos (bufferSize t) (bufferFilePos t).
Definition tr_set_currentTick (v : Z) (t : TrackState) : TrackState :=
  mkTrack (trackStartPos t) (trackEndPos t) (filePosition t) v
    (runningStatus t) (endOfTrack t) (nextEvent t) (eventReady t)
    (buffer t) (bufferPos t) (bufferSize t) (bufferFilePos t).
Definition tr_set_runningStatus (v : Z) (t : TrackState) : TrackState :=
  mkTrack (trackStartPos t) (trackEndPos t) (filePosition t) (currentTick t)
    v (endOfTrack t) (nextEvent t) (eventReady t)
    (buffer t) (bufferPos t) (bufferSize t) (bufferFilePos t).
Definition tr_set_endOfTrack (v : bool) (t : TrackState) : TrackState :=
  mkTrack (trackStartPos t) (trackEndPos t) (filePosition t) (currentTick t)
    (runningStatus t) v (nextEvent t) (eventReady t)
    (buffer t) (bufferPos t) (bufferSize t) (bufferFilePos t).
Definition tr_set_next (e : MidiEvent) (ready : bool) (t : TrackState)
  : TrackState :=
  mkTrack (trackStartPos t) (trackEndPos t) (filePosition t) (currentTick t)
    (runningStatus t) (endOfTrack t) e ready
    (buffer t) (bufferPos t) (bufferSize t) (bufferFilePos t).

Fixpoint bytes_eqb (a b : list Z) : bool :=
  match a, b with
  | [], [] => true
  | x :: a', y :: b' => (x =? y) && bytes_eqb a' b'
  | _, _ => false
  end.

(** The chunk tags, as bytes. *)
Definition tag_MThd : list Z := [77; 84; 104; 100].
Definition tag_MTrk : list Z := [77; 84; 114; 107].

(** ** MidiFileParser.cpp *)

Module MidiFileParser.

(** The parser object.  [midiFile] is [None] for the null pointer.
    [headerJunk] stands for what the local array [char header[4]] holds
    before [read] fills it: the sources leave it uninitialised, so it is an
    arbitrary component of the state. *)
Record t : Type := mk {
  midiFile : option FatFile;
  fileInfo : MidiFileInfo;
  tracks : list TrackState;
  numTracks : Z;
  allTracksEnded : bool;
  fileLengthTicks : Z;
  sysexCount : Z;
  headerJunk : list Z
}.

Definition set_midiFile (f : option FatFile) (p : t) : t :=
  mk f (fileInfo p) (tracks p) (numTracks p) (allTracksEnded p)
    (fileLengthTicks p) (sysexCount p) (headerJunk p).
Definition set_fileInfo (i : MidiFileInfo) (p : t) : t :=
  mk (midiFile p) i (tracks p) (numTracks p) (allTracksEnded p)
    (fileLengthTicks p) (sysexCount p) (headerJunk p).
Definition set_tracks (ts : list TrackState) (p : t) : t :=
  mk (midiFile p) (fileInfo p) ts (numTracks p) (allTracksEnded p)
    (fileLengthTicks p) (sysexCount p) (headerJunk p).
Definition set_numTracks (n : Z) (p : t) : t :=
  mk (midiFile p) (fileInfo p) (tracks p) n (allTracksEnded p)
    (fileLengthTicks p) (sysexCount p) (headerJunk p).
Definition set_allTracksEnded (b : bool) (p : t) : t :=
  mk (midiFile p) (fileInfo p) (tracks p) (numTracks p) b
    (fileLengthTicks p) (sysexCount p) (headerJunk p).
Definition setFileLengthTicks (ticks : Z) (p : t) : t :=
  mk (midiFile p) (fileInfo p) (tracks p) (numTracks p) (allTracksEnded p)
    ticks (sysexCount p) (headerJunk p).
Definition setSysexCount (count : Z) (p : t) : t :=
  mk (midiFile p) (fileInfo p) (tracks p) (numTracks p) (allTracksEnded p)
    (fileLengthTicks p) count (headerJunk p).

Definition getFileInfo (p : t) : MidiFileInfo := fileInfo p.
Definition getFileLengthTicks (p : t) : Z := fileLengthTicks p.

(** [tracks[i]] and [tracks[i] = tr]. *)
Definition getTrack (i : Z) (p : t) : TrackState :=
  nth (Z.to_nat i) (tracks p) TrackState_zero.
Definition setTrack (i : Z) (tr : TrackState) (p : t) : t :=
  set_tracks (upd_nth (Z.to_nat i) tr (tracks p)) p.

(** The constructor: everything zeroed, then the default tempo and time
    signature. *)
Definition new (junk : list Z) : t :=
  mk None (mkInfo 0 0 0 500000 4 4 (repeat 0 64))
     (repeat TrackState_zero 16) 0 false 0 0 junk.

(** [close()] *)
Definition close (p : t) : t :=
  mk None (fileInfo p) (repeat TrackState_zero 16) 0 false 0
     (sysexCount p) (headerJunk p).

Definition read8 (p : t) : Z * t :=
  match midiFile p with
  | Some f =>
      if available f =? 0 then (0, p)
      else let '(bs, f') := fread 1 f in (nth 0 bs 0, set_midiFile (Some f') p)
  | None => (0, p)
  end.

Definition read16 (p : t) : Z * t :=
  let '(b1, p) := read8 p in
  let val := u16 (Z.shiftl b1 8) in
  let '(b2, p) := read8 p in
  (u16 (Z.lor val b2), p).

Definition read32 (p : t) : Z * t :=
  let '(b1, p) := read8 p in
  let val := u32 (Z.shiftl b1 24) in
  let '(b2, p) := read8 p in
  let val := u32 (Z.lor val (Z.shiftl b2 16)) in
  let '(b3, p) := read8 p in
  let val := u32 (Z.lor val (Z.shiftl b3 8)) in
  let '(b4, p) := read8 p in
  (u32 (Z.lor val b4), p).

(** The [do ... while (byte & 0x80)] loop of [readVariableLength]; [None]
    when the fuel runs out before a byte without the high bit is met. *)
Fixpoint readVariableLength_loop (fuel : nat) (value : Z) (p : t)
  : option (Z * t) :=
  match fuel with
  | O => None
  | S fuel' =>
      let '(byte, p) := read8 p in
      let value := Z.lor (u32 (Z.shiftl value 7)) (Z.land byte 0x7F) in
      if Z.land byte 0x80 =? 0 then Some (value, p)
      else readVariableLength_loop fuel' value p
  end.

(** Every byte with the high bit set is a byte taken from the file, so
    one more iteration than there are bytes left is enough. *)
Definition readVariableLength (p : t) : Z * t :=
  let left := match midiFile p with Some f => available f | None => 0 end in
  match readVariableLength_loop (S (Z.to_nat left)) 0 p with
  | Some r => r
  | None => (0, p)
  end.

(** [char header[4]; midiFile->read(header, 4);]: the bytes read, followed
    by whatever the array held for the part that was not filled. *)
Definition readTag (p : t) : list Z * t :=
  match midiFile p with
  | Some f =>
      let '(bs, f') := fread 4 f in
      (firstn 4 (bs ++ skipn (length bs) (headerJunk p)),
       set_midiFile (Some f') p)
  | None => (firstn 4 (headerJunk p), p)
  end.

Definition readMidiHeader (p : t) : bool * t :=
  match midiFile p with
  | None => (false, p)
  | Some _ =>
      let '(header, p) := readTag p in
      if negb (bytes_eqb header tag_MThd) then (false, p) else
      let '(headerLength, p) := read32 p in
      if negb (headerLength =? 6) then (false, p) else
      let '(fmt, p) := read16 p in
      let i := fileInfo p in
      let p := set_fileInfo (mkInfo fmt (info_numTracks i) (ticksPerQuarter i)
                 (tempo i) (numerator i) (denominator i) (trackName i)) p in
      let '(nt, p) := read16 p in
      let i := fileInfo p in
      let p := set_fileInfo (mkInfo (format i) nt (ticksPerQuarter i)
                 (tempo i) (numerator i) (denominator i) (trackName i)) p in
      let p := set_numTracks (u8 nt) p in
      let p := if MAX_TRACKS <? numTracks p
               then set_numTracks MAX_TRACKS p else p in
      let '(tpq, p) := read16 p in
      let i := fileInfo p in
      let p := set_fileInfo (mkInfo (format i) (info_numTracks i) tpq
                 (tempo i) (numerator i) (denominator i) (trackName i)) p in
      (true, p)
  end.

Definition fillTrackBuffer (trackNum : Z) (p : t) : bool * t :=
  if numTracks p <=? trackNum then (false, p) else
  let track := getTrack trackNum p in
  let absoluteFilePos := u32 (trackStartPos track + filePosition track) in
  let trackBytesLeft := u32 (trackEndPos track - filePosition track) in
  if trackBytesLeft =? 0
  then (false, setTrack trackNum (tr_set_bufferSize 0 track) p)
  else
    match midiFile p with
    | None => (false, setTrack trackNum (tr_set_bufferSize 0 track) p)
    | Some f =>
        let '(ok, f) := seekSet absoluteFilePos f in
        if negb ok
        then (false, setTrack trackNum (tr_set_bufferSize 0 track) p)
        else
          let bytesToRead :=
            u16 (if TRACK_BUFFER_SIZE <? trackBytesLeft
                 then TRACK_BUFFER_SIZE else trackBytesLeft) in
          let '(bs, f) := fread bytesToRead f in
          let size := Z.of_nat (length bs) in
          let track :=
            tr_set_window (bs ++ skipn (length bs) (buffer track))
              0 size (filePosition track) track in
          (0 <? size, set_midiFile (Some f) (setTrack trackNum track p))
    end.

Definition readTrackByte (trackNum : Z) (p : t) : Z * t :=
  if numTracks p <=? trackNum then (0, p) else
  let '(ok, p) :=
    if bufferSize (getTrack trackNum p) <=? bufferPos (getTrack trackNum p)
    then fillTrackBuffer trackNum p else (true, p) in
  if negb ok then (0, p) else
  let track := getTrack trackNum p in
  let byte := nth (Z.to_nat (bufferPos track)) (buffer track) 0 in
  (byte,
   setTrack trackNum
     (tr_set_cursor (u16 (bufferPos track + 1)) (u32 (filePosition track + 1))
        track) p).

Fixpoint readTrackVariableLength_loop (fuel : nat) (trackNum value : Z) (p : t)
  : option (Z * t) :=
  match fuel with
  | O => None
  | S fuel' =>
      let '(byte, p) := readTrackByte trackNum p in
      let value := Z.lor (u32 (Z.shiftl value 7)) (Z.land byte 0x7F) in
      if Z.land byte 0x80 =? 0 then Some (value, p)
      else readTrackVariableLength_loop fuel' trackNum value p
  end.

(** How many more bytes [readTrackByte] can deliver: what is left in the
    window plus what is left of the track behind the window. *)
Definition bytesAhead (tr : TrackState) : Z :=
  let inbuf := Z.max 0 (bufferSize tr - bufferPos tr) in
  inbuf + u32 (trackEndPos tr - filePosition tr - inbuf).

(** The loop goes on only after a byte that was really delivered, so
    [bytesAhead + 1] iterations are enough
    (lemma [readTrackVariableLength_loop_total] below, for a track that
    lies inside the file). *)
Definition readTrackVariableLength (trackNum : Z) (p : t) : Z * t :=
  match readTrackVariableLength_loop
          (S (Z.to_nat (bytesAhead (getTrack trackNum p)))) trackNum 0 p with
  | Some r => r
  | None => (0, p)
  end.

(** [for (i = 0; i < length; i++) data[i] = readTrackByte(trackNum);] *)
Fixpoint readTrackBytes (n : nat) (trackNum : Z) (p : t) : list Z * t :=
  match n with
  | O => ([], p)
  | S n' =>
      let '(b, p) := readTrackByte trackNum p in
      let '(bs, p) := readTrackBytes n' trackNum p in
      (b :: bs, p)
  end.

(** [for (i = 0; i < length; i++) readTrackByte(trackNum);] *)
Fixpoint skipTrackBytes (n : nat) (trackNum : Z) (p : t) : t :=
  match n with
  | O => p
  | S n' => skipTrackBytes n' trackNum (snd (readTrackByte trackNum p))
  end.

(** The [META_TEMPO] case of the switch in [readTrackEvent]. *)
Definition metaTempo (trackNum length : Z) (p : t) : t :=
  if length =? 3 then
    let '(b1, p) := readTrackByte trackNum p in
    let tempo := u32 (Z.shiftl b1 16) in
    let '(b2, p) := readTrackByte trackNum p in
    let tempo := u32 (Z.lor tempo (Z.shiftl b2 8)) in
    let '(b3, p) := readTrackByte trackNum p in
    let tempo := u32 (Z.lor tempo b3) in
    if (100000 <=? tempo) && (tempo <=? 10000000)
    then set_fileInfo (info_set_tempo tempo (fileInfo p)) p
    else p
  else skipTrackBytes (Z.to_nat length) trackNum p.

(** The [META_TIME_SIGNATURE] case: a length other than 4 reads nothing. *)
Definition metaTimeSignature (trackNum length : Z) (p : t) : t :=
  if length =? 4 then
    let '(n, p) := readTrackByte trackNum p in
    let '(d, p) := readTrackByte trackNum p in
    let p := set_fileInfo (info_set_timesig n (u8 (Z.shiftl 1 d)) (fileInfo p)) p in
    let '(_, p) := readTrackByte trackNum p in
    let '(_, p) := readTrackByte trackNum p in
    p
  else p.

(** The [META_TRACK_NAME] case; [sizeof(fileInfo.trackName)] is 64. *)
Definition metaTrackName (trackNum length : Z) (p : t) : t :=
  if length <? 64 then
    let '(bs, p) := readTrackBytes (Z.to_nat length) trackNum p in
    let old := trackName (fileInfo p) in
    set_fileInfo
      (info_set_trackName (bs ++ 0 :: skipn (S (Datatypes.length bs)) old)
         (fileInfo p)) p
  else skipTrackBytes (Z.to_nat length) trackNum p.

Definition clearRunningStatus (trackNum : Z) (p : t) : t :=
  setTrack trackNum (tr_set_runningStatus 0 (getTrack trackNum p)) p.

(** [readTrackEvent] from the status byte on: running status, then the
    event by kind. *)
Definition readTrackEvent_status (trackNum : Z) (event : MidiEvent) (p : t)
  : bool * MidiEvent * t :=
  let '(statusByte, p) := readTrackByte trackNum p in
  let track := getTrack trackNum p in
  let '(statusByte, p) :=
    if statusByte <? 0x80
    then (runningStatus track,
          setTrack trackNum
            (tr_set_cursor (u16 (bufferPos track - 1))
               (u32 (filePosition track - 1)) track) p)
    else (statusByte,
          setTrack trackNum (tr_set_runningStatus statusByte track) p) in
  let event :=
    ev_set_status (Z.land statusByte 0xF0) (Z.land statusByte 0x0F) event in
  if (statusByte =? MIDI_SYSEX) || (statusByte =? 0xF7) then
    let '(length, p) := readTrackVariableLength trackNum p in
    let '(bytes, p) := readTrackBytes (Z.to_nat length) trackNum p in
    (true, ev_set_sysex bytes (u16 length) event,
     clearRunningStatus trackNum p)
  else if statusByte =? MIDI_META_EVENT then
    let '(metaType, p) := readTrackByte trackNum p in
    let event := ev_set_meta metaType event in
    let '(length, p) := readTrackVariableLength trackNum p in
    if metaType =? META_TEMPO then
      (true, event, clearRunningStatus trackNum (metaTempo trackNum length p))
    else if metaType =? META_TIME_SIGNATURE then
      (true, event,
       clearRunningStatus trackNum (metaTimeSignature trackNum length p))
    else if metaType =? META_TRACK_NAME then
      (true, event,
       clearRunningStatus trackNum (metaTrackName trackNum length p))
    else if metaType =? META_END_OF_TRACK then
      (false, event,
       setTrack trackNum (tr_set_endOfTrack true (getTrack trackNum p)) p)
    else
      (true, event,
       clearRunningStatus trackNum
         (skipTrackBytes (Z.to_nat length) trackNum p))
  else
    let ty := type event in
    if (ty =? MIDI_NOTE_OFF) || (ty =? MIDI_NOTE_ON)
       || (ty =? MIDI_POLY_AFTERTOUCH) || (ty =? MIDI_CONTROL_CHANGE)
       || (ty =? MIDI_PITCH_BEND) then
      let '(d1, p) := readTrackByte trackNum p in
      let '(d2, p) := readTrackByte trackNum p in
      (true, ev_set_data d1 d2 event, p)
    else if (ty =? MIDI_PROGRAM_CHANGE) || (ty =? MIDI_CHANNEL_AFTERTOUCH)
    then
      let '(d1, p) := readTrackByte trackNum p in
      (true, ev_set_data d1 0 event, p)
    else (false, event, p).

Definition readTrackEvent (trackNum : Z) (event : MidiEvent) (p : t)
  : bool * MidiEvent * t :=
  if numTracks p <=? trackNum then (false, event, p) else
  if endOfTrack (getTrack trackNum p) then (false, event, p) else
  let track := getTrack trackNum p in
  if trackEndPos track <=? filePosition track
  then (false, event, setTrack trackNum (tr_set_endOfTrack true track) p)
  else
    (* delta time *)
    let '(dt, p) := readTrackVariableLength trackNum p in
    let track := getTrack trackNum p in
    let tick := u32 (currentTick track + dt) in
    let p := setTrack trackNum (tr_set_currentTick tick track) p in
    let event := ev_set_timing dt tick trackNum event in
    readTrackEvent_status trackNum event p.

(** The first loop of [initializeTracks]: the track chunk headers. *)
Fixpoint initTrackHeaders (n : nat) (i : Z) (p : t) : bool * t :=
  match n with
  | O => (true, p)
  | S n' =>
      let '(header, p) := readTag p in
      if negb (bytes_eqb header tag_MTrk) then (false, p) else
      let '(trackLength, p) := read32 p in
      match midiFile p with
      | None => (false, p)
      | Some f =>
          let start := u32 (curPosition f) in
          let old := getTrack i p in
          let p :=
            setTrack i
              (mkTrack start trackLength 0 0 0 false (nextEvent old) false
                 (buffer old) 0 0 0) p in
          let '(ok, f) := seekSet (u32 (start + trackLength)) f in
          if negb ok then (false, p)
          else initTrackHeaders n' (i + 1) (set_midiFile (Some f) p)
      end
  end.

(** The second loop of [initializeTracks]: the first event of each track
    is read into [tracks[i].nextEvent]. *)
Fixpoint prefetchTracks (n : nat) (i : Z) (p : t) : t :=
  match n with
  | O => p
  | S n' =>
      let '(_, p) := fillTrackBuffer i p in
      let '(ok, ev, p) := readTrackEvent i (nextEvent (getTrack i p)) p in
      let tr := getTrack i p in
      let p := setTrack i (tr_set_next ev (ok || eventReady tr) tr) p in
      prefetchTracks n' (i + 1) p
  end.

Definition initializeTracks (p : t) : bool * t :=
  match midiFile p with
  | None => (false, p)
  | Some _ =>
      let '(ok, p) := initTrackHeaders (Z.to_nat (numTracks p)) 0 p in
      if negb ok then (false, p)
      else (true, prefetchTracks (Z.to_nat (numTracks p)) 0 p)
  end.

(** The scan of [readNextEvent] for the earliest buffered event. *)
Fixpoint findEarliest (n : nat) (i : Z) (p : t) (earliestTrack earliestTime : Z)
  : Z * Z :=
  match n with
  | O => (earliestTrack, earliestTime)
  | S n' =>
      let tr := getTrack i p in
      if eventReady tr && negb (endOfTrack tr)
         && (absoluteTime (nextEvent tr) <? earliestTime)
      then findEarliest n' (i + 1) p i (absoluteTime (nextEvent tr))
      else findEarliest n' (i + 1) p earliestTrack earliestTime
  end.

(** [readNextEvent(event)]: the flag returned, the caller's [event] after
    the call, the parser after the call. *)
Definition readNextEvent (event : MidiEvent) (p : t) : bool * MidiEvent * t :=
  if allTracksEnded p then (false, event, p) else
  let '(earliestTrack, _) :=
    findEarliest (Z.to_nat (numTracks p)) 0 p (-1) 0xFFFFFFFF in
  if earliestTrack =? -1 then (false, event, set_allTracksEnded true p) else
  let event := MidiEvent_assign (nextEvent (getTrack earliestTrack p)) in
  let '(ok, ev, p) :=
    readTrackEvent earliestTrack (nextEvent (getTrack earliestTrack p)) p in
  let p :=
    setTrack earliestTrack (tr_set_next ev ok (getTrack earliestTrack p)) p in
  (true, event, p).

Definition reset (p : t) : bool * t :=
  match midiFile p with
  | None => (false, p)
  | Some f =>
      let '(ok, f) := seekSet 0 f in
      if negb ok then (false, p) else
      let p := set_midiFile (Some f) p in
      let '(_, p) := readMidiHeader p in
      let '(_, p) := initializeTracks p in
      (true, set_allTracksEnded false p)
  end.

(** [open(filename, file)]; the file name is not used by the sources. *)
Definition open (file : option FatFile) (p : t) : bool * t :=
  let p := set_allTracksEnded false (set_midiFile file p) in
  let i := fileInfo p in
  let p := set_fileInfo (mkInfo (format i) (info_numTracks i)
             (ticksPerQuarter i) 500000 4 4 (repeat 0 64)) p in
  let '(ok, p) := readMidiHeader p in
  if negb ok then (false, p) else
  let '(ok, p) := initializeTracks p in
  if negb ok then (false, p) else
  (true, setFileLengthTicks 0 p).

(** [read24()] *)
Definition read24 (p : t) : Z * t :=
  let '(b1, p) := read8 p in
  let val := u32 (Z.shiftl b1 16) in
  let '(b2, p) := read8 p in
  let val := u32 (Z.lor val (Z.shiftl b2 8)) in
  let '(b3, p) := read8 p in
  (u32 (Z.lor val b3), p).

(** The loop of [getTotalTicks()] from track [i] on. *)
Fixpoint getTotalTicks_loop (n : nat) (i : Z) (p : t) (maxTick : Z) : Z :=
  match n with
  | O => maxTick
  | S n' =>
      getTotalTicks_loop n' (i + 1) p
        (if maxTick <? currentTick (getTrack i p)
         then currentTick (getTrack i p) else maxTick)
  end.

Definition getTotalTicks (p : t) : Z :=
  getTotalTicks_loop (Z.to_nat (numTracks p)) 0 p 0.

Definition isEndOfFile (p : t) : bool := allTracksEnded p.

(** [updateFileLengthFromPlayback(ticks)] *)
Definition updateFileLengthFromPlayback (ticks : Z) (p : t) : t :=
  if fileLengthTicks p <? ticks then setFileLengthTicks ticks p else p.

End MidiFileParser.

(** ** MidiOutput.cpp

    The output object is the list of messages it has handed to the serial
    MIDI library, oldest first.  Each [send...] method checks its arguments
    and hands the message over; the visualizer callbacks touch no state of
    the player and are left out. *)

Inductive MidiMsg : Type :=
| NoteOn (channel note velocity : Z)
| NoteOff (channel note velocity : Z)
| ControlChange (channel cc value : Z)
| ProgramChange (channel program : Z)
| PitchBend (channel bend : Z)
| AfterTouch (channel pressure : Z)
| PolyAfterTouch (channel note pressure : Z)
| SysEx (data : list Z)
| Clock
| Start
| Continue
| Stop.

Module MidiOutput.

Definition t : Type := list MidiMsg.

Definition badChannel (channel : Z) : bool := (channel <? 1) || (16 <? channel).

Definition sendNoteOn (channel note velocity : Z) (o : t) : t :=
  if badChannel channel || (127 <? note) || (127 <? velocity) then o
  else o ++ [NoteOn channel note velocity].

Definition sendNoteOff (channel note velocity : Z) (o : t) : t :=
  if badChannel channel || (127 <? note) || (127 <? velocity) then o
  else o ++ [NoteOff channel note velocity].

Definition sendControlChange (channel cc value : Z) (o : t) : t :=
  if badChannel channel || (127 <? cc) || (127 <? value) then o
  else o ++ [ControlChange channel cc value].

Definition sendProgramChange (channel program : Z) (o : t) : t :=
  if badChannel channel || (127 <? program) then o
  else o ++ [ProgramChange channel program].

Definition sendPitchBend (channel bend : Z) (o : t) : t :=
  if badChannel channel then o else o ++ [PitchBend channel bend].

Definition sendAfterTouch (channel pressure : Z) (o : t) : t :=
  if badChannel channel || (127 <? pressure) then o
  else o ++ [AfterTouch channel pressure].

Definition sendPolyAfterTouch (channel note pressure : Z) (o : t) : t :=
  if badChannel channel || (127 <? note) || (127 <? pressure) then o
  else o ++ [PolyAfterTouch channel note pressure].

Definition sendSysEx (data : list Z) (length : Z) (o : t) : t :=
  o ++ [SysEx (firstn (Z.to_nat length) data)].

Definition sendClock (o : t) : t := o ++ [Clock].
Definition sendStart (o : t) : t := o ++ [Start].
Definition sendContinue (o : t) : t := o ++ [Continue].
Definition sendStop (o : t) : t := o ++ [Stop].

End MidiOutput.

(** ** MidiPlayer.h, MidiPlayer.cpp *)

Inductive PlayerState : Type := STATE_STOPPED | STATE_PLAYING | STATE_PAUSED.

Definition PlayerState_eqb (a b : PlayerState) : bool :=
  match a, b with
  | STATE_STOPPED, STATE_STOPPED => true
  | STATE_PLAYING, STATE_PLAYING => true
  | STATE_PAUSED, STATE_PAUSED => true
  | _, _ => false
  end.

Module MidiPlayer.

(** The player object.  [midiOut] is [None] for the null pointer.
    [midiFile] tells whether the player's file pointer is set; the file
    object it points to is the one the parser holds.  [timer] is the
    hardware microsecond counter as the sequence of values that successive
    calls of [micros()] return, [timerReads] counts the calls made. *)
Record t : Type := mk {
  midiOut : option MidiOutput.t;
  parser : MidiFileParser.t;
  midiFile : bool;
  state : PlayerState;
  ticksElapsed : Z;
  lastUpdateMicros : Z;
  microsecondsPerTick : Z;
  tempoPercent : Z;
  channelMutes : Z;
  velocityScale : Z;
  channelVelocities : list Z;
  userChannelPrograms : list Z;
  userChannelVolumes : list Z;
  userChannelPan : list Z;
  userChannelTranspose : list Z;
  userChannelRouting : list Z;
  nextEvent : MidiEvent;
  eventReady : bool;
  reachedEnd : bool;
  clockEnabled : bool;
  lastClockMicros : Z;
  lastTransportState : PlayerState;
  sysexEnabled : bool;
  timer : nat -> Z;
  timerReads : nat
}.

Definition set_midiOut (midiOut' : option MidiOutput.t) (p : t) : t :=
  mk midiOut' (parser p) (midiFile p) (state p) (ticksElapsed p)
    (lastUpdateMicros p) (microsecondsPerTick p) (tempoPercent p)
    (channelMutes p) (velocityScale p) (channelVelocities p)
    (userChannelPrograms p) (userChannelVolumes p) (userChannelPan p)
    (userChannelTranspose p) (userChannelRouting p) (nextEvent p)
    (eventReady p) (reachedEnd p) (clockEnabled p) (lastClockMicros p)
    (lastTransportState p) (sysexEnabled p) (timer p) (timerReads p).
Definition set_parser (parser' : MidiFileParser.t) (p : t) : t :=
  mk (midiOut p) parser' (midiFile p) (state p) (ticksElapsed p)
    (lastUpdateMicros p) (microsecondsPerTick p) (tempoPercent p)
    (channelMutes p) (velocityScale p) (channelVelocities p)
    (userChannelPrograms p) (userChannelVolumes p) (userChannelPan p)
    (userChannelTranspose p) (userChannelRouting p) (nextEvent p)
    (eventReady p) (reachedEnd p) (clockEnabled p) (lastClockMicros p)
    (lastTransportState p) (sysexEnabled p) (timer p) (timerReads p).
Definition set_midiFile (midiFile' : bool) (p : t) : t :=
  mk (midiOut p) (parser p) midiFile' (state p) (ticksElapsed p)
    (lastUpdateMicros p) (microsecondsPerTick p) (tempoPercent p)
    (channelMutes p) (velocityScale p) (channelVelocities p)
    (userChannelPrograms p) (userChannelVolumes p) (userChannelPan p)
    (userChannelTranspose p) (userChannelRouting p) (nextEvent p)
    (eventReady p) (reachedEnd p) (clockEnabled p) (lastClockMicros p)
    (lastTransportState p) (sysexEnabled p) (timer p) (timerReads p).
Definition set_state (state' : PlayerState) (p : t) : t :=
  mk (midiOut p) (parser p) (midiFile p) state' (ticksElapsed p)
    (lastUpdateMicros p) (microsecondsPerTick p) (tempoPercent p)
    (channelMutes p) (velocityScale p) (channelVelocities p)
    (userChannelPrograms p) (userChannelVolumes p) (userChannelPan p)
    (userChannelTranspose p) (userChannelRouting p) (nextEvent p)
    (eventReady p) (reachedEnd p) (clockEnabled p) (lastClockMicros p)
    (lastTransportState p) (sysexEnabled p) (timer p) (timerReads p).
Definition set_ticksElapsed (ticksElapsed' : Z) (p : t) : t :=
  mk (midiOut p) (parser p) (midiFile p) (state p) ticksElapsed'
    (lastUpdateMicros p) (microsecondsPerTick p) (tempoPercent p)
    (channelMutes p) (velocityScale p) (channelVelocities p)
    (userChannelPrograms p) (userChannelVolumes p) (userChannelPan p)
    (userChannelTranspose p) (userChannelRouting p) (nextEvent p)
    (eventReady p) (reachedEnd p) (clockEnabled p) (lastClockMicros p)
    (lastTransportState p) (sysexEnabled p) (timer p) (timerReads p).
Definition set_lastUpdateMicros (lastUpdateMicros' : Z) (p : t) : t :=
  mk (midiOut p) (parser p) (midiFile p) (state p) (ticksElapsed p)
    lastUpdateMicros' (microsecondsPerTick p) (tempoPercent p)
    (channelMutes p) (velocityScale p) (channelVelocities p)
    (userChannelPrograms p) (userChannelVolumes p) (userChannelPan p)
    (userChannelTranspose p) (userChannelRouting p) (nextEvent p)
    (eventReady p) (reachedEnd p) (clockEnabled p) (lastClockMicros p)
    (lastTransportState p) (sysexEnabled p) (timer p) (timerReads p).
Definition set_microsecondsPerTick (microsecondsPerTick' : Z) (p : t) : t :=
  mk (midiOut p) (parser p) (midiFile p) (state p) (ticksElapsed p)
    (lastUpdateMicros p) microsecondsPerTick' (tempoPercent p)
    (channelMutes p) (velocityScale p) (channelVelocities p)
    (userChannelPrograms p) (userChannelVolumes p) (userChannelPan p)
    (userChannelTranspose p) (userChannelRouting p) (nextEvent p)
    (eventReady p) (reachedEnd p) (clockEnabled p) (lastClockMicros p)
    (lastTransportState p) (sysexEnabled p) (timer p) (timerReads p).
Definition set_tempoPercent (tempoPercent' : Z) (p : t) : t :=
  mk (midiOut p) (parser p) (midiFile p) (state p) (ticksElapsed p)
    (lastUpdateMicros p) (microsecondsPerTick p) tempoPercent'
    (channelMutes p) (velocityScale p) (channelVelocities p)
    (userChannelPrograms p) (userChannelVolumes p) (userChannelPan p)
    (userChannelTranspose p) (userChannelRouting p) (nextEvent p)
    (eventReady p) (reachedEnd p) (clockEnabled p) (lastClockMicros p)
    (lastTransportState p) (sysexEnabled p) (timer p) (timerReads p).
Definition set_channelMutes (channelMutes' : Z) (p : t) : t :=
  mk (midiOut p) (parser p) (midiFile p) (state p) (ticksElapsed p)
    (lastUpdateMicros p) (microsecondsPerTick p) (tempoPercent p)
    channelMutes' (velocityScale p) (channelVelocities p)
    (userChannelPrograms p) (userChannelVolumes p) (userChannelPan p)
    (userChannelTranspose p) (userChannelRouting p) (nextEvent p)
    (eventReady p) (reachedEnd p) (clockEnabled p) (lastClockMicros p)
    (lastTransportState p) (sysexEnabled p) (timer p) (timerReads p).
Definition set_velocityScale (velocityScale' : Z) (p : t) : t :=
  mk (midiOut p) (parser p) (midiFile p) (state p) (ticksElapsed p)
    (lastUpdateMicros p) (microsecondsPerTick p) (tempoPercent p)
    (channelMutes p) velocityScale' (channelVelocities p)
    (userChannelPrograms p) (userChannelVolumes p) (userChannelPan p)
    (userChannelTranspose p) (userChannelRouting p) (nextEvent p)
    (eventReady p) (reachedEnd p) (clockEnabled p) (lastClockMicros p)
    (lastTransportState p) (sysexEnabled p) (timer p) (timerReads p).
Definition set_channelVelocities (channelVelocities' : list Z) (p : t) : t :=
  mk (midiOut p) (parser p) (midiFile p) (state p) (ticksElapsed p)
    (lastUpdateMicros p) (microsecondsPerTick p) (tempoPercent p)
    (channelMutes p) (velocityScale p) channelVelocities'
    (userChannelPrograms p) (userChannelVolumes p) (userChannelPan p)
    (userChannelTranspose p) (userChannelRouting p) (nextEvent p)
    (eventReady p) (reachedEnd p) (clockEnabled p) (lastClockMicros p)
    (lastTransportState p) (sysexEnabled p) (timer p) (timerReads p).
Definition set_userChannelPrograms (userChannelPrograms' : list Z) (p : t) : t :=
  mk (midiOut p) (parser p) (midiFile p) (state p) (ticksElapsed p)
    (lastUpdateMicros p) (microsecondsPerTick p) (tempoPercent p)
    (channelMutes p) (velocityScale p) (channelVelocities p)
    userChannelPrograms' (userChannelVolumes p) (userChannelPan p)
    (userChannelTranspose p) (userChannelRouting p) (nextEvent p)
    (eventReady p) (reachedEnd p) (clockEnabled p) (lastClockMicros p)
    (lastTransportState p) (sysexEnabled p) (timer p) (timerReads p).
Definition set_userChannelVolumes (userChannelVolumes' : list Z) (p : t) : t :=
  mk (midiOut p) (parser p) (midiFile p) (state p) (ticksElapsed p)
    (lastUpdateMicros p) (microsecondsPerTick p) (tempoPercent p)
    (channelMutes p) (velocityScale p) (channelVelocities p)
    (userChannelPrograms p) userChannelVolumes' (userChannelPan p)
    (userChannelTranspose p) (userChannelRouting p) (nextEvent p)
    (eventReady p) (reachedEnd p) (clockEnabled p) (lastClockMicros p)
    (lastTransportState p) (sysexEnabled p) (timer p) (timerReads p).
Definition set_userChannelPan (userChannelPan' : list Z) (p : t) : t :=
  mk (midiOut p) (parser p) (midiFile p) (state p) (ticksElapsed p)
    (lastUpdateMicros p) (microsecondsPerTick p) (tempoPercent p)
    (channelMutes p) (velocityScale p) (channelVelocities p)
    (userChannelPrograms p) (userChannelVolumes p) userChannelPan'
    (userChannelTranspose p) (userChannelRouting p) (nextEvent p)
    (eventReady p) (reachedEnd p) (clockEnabled p) (lastClockMicros p)
    (lastTransportState p) (sysexEnabled p) (timer p) (timerReads p).
Definition set_userChannelTranspose (userChannelTranspose' : list Z) (p : t) : t :=
  mk (midiOut p) (parser p) (midiFile p) (state p) (ticksElapsed p)
    (lastUpdateMicros p) (microsecondsPerTick p) (tempoPercent p)
    (channelMutes p) (velocityScale p) (channelVelocities p)
    (userChannelPrograms p) (userChannelVolumes p) (userChannelPan p)
    userChannelTranspose' (userChannelRouting p) (nextEvent p)
    (eventReady p) (reachedEnd p) (clockEnabled p) (lastClockMicros p)
    (lastTransportState p) (sysexEnabled p) (timer p) (timerReads p).
Definition set_userChannelRouting (userChannelRouting' : list Z) (p : t) : t :=
  mk (midiOut p) (parser p) (midiFile p) (state p) (ticksElapsed p)
    (lastUpdateMicros p) (microsecondsPerTick p) (tempoPercent p)
    (channelMutes p) (velocityScale p) (channelVelocities p)
    (userChannelPrograms p) (userChannelVolumes p) (userChannelPan p)
    (userChannelTranspose p) userChannelRouting' (nextEvent p)
    (eventReady p) (reachedEnd p) (clockEnabled p) (lastClockMicros p)
    (lastTransportState p) (sysexEnabled p) (timer p) (timerReads p).
Definition set_reachedEnd (reachedEnd' : bool) (p : t) : t :=
  mk (midiOut p) (parser p) (midiFile p) (state p) (ticksElapsed p)
    (lastUpdateMicros p) (microsecondsPerTick p) (tempoPercent p)
    (channelMutes p) (velocityScale p) (channelVelocities p)
    (userChannelPrograms p) (userChannelVolumes p) (userChannelPan p)
    (userChannelTranspose p) (userChannelRouting p) (nextEvent p)
    (eventReady p) reachedEnd' (clockEnabled p) (lastClockMicros p)
    (lastTransportState p) (sysexEnabled p) (timer p) (timerReads p).
Definition set_lastClockMicros (lastClockMicros' : Z) (p : t) : t :=
  mk (midiOut p) (parser p) (midiFile p) (state p) (ticksElapsed p)
    (lastUpdateMicros p) (microsecondsPerTick p) (tempoPercent p)
    (channelMutes p) (velocityScale p) (channelVelocities p)
    (userChannelPrograms p) (userChannelVolumes p) (userChannelPan p)
    (userChannelTranspose p) (userChannelRouting p) (nextEvent p)
    (eventReady p) (reachedEnd p) (clockEnabled p) lastClockMicros'
    (lastTransportState p) (sysexEnabled p) (timer p) (timerReads p).
Definition set_timerReads (timerReads' : nat) (p : t) : t :=
  mk (midiOut p) (parser p) (midiFile p) (state p) (ticksElapsed p)
    (lastUpdateMicros p) (microsecondsPerTick p) (tempoPercent p)
    (channelMutes p) (velocityScale p) (channelVelocities p)
    (userChannelPrograms p) (userChannelVolumes p) (userChannelPan p)
    (userChannelTranspose p) (userChannelRouting p) (nextEvent p)
    (eventReady p) (reachedEnd p) (clockEnabled p) (lastClockMicros p)
    (lastTransportState p) (sysexEnabled p) (timer p) timerReads'.
Definition set_next (nextEvent' : MidiEvent) (eventReady' : bool) (p : t) : t :=
  mk (midiOut p) (parser p) (midiFile p) (state p) (ticksElapsed p)
    (lastUpdateMicros p) (microsecondsPerTick p) (tempoPercent p)
    (channelMutes p) (velocityScale p) (channelVelocities p)
    (userChannelPrograms p) (userChannelVolumes p) (userChannelPan p)
    (userChannelTranspose p) (userChannelRouting p) nextEvent' eventReady'
    (reachedEnd p) (clockEnabled p) (lastClockMicros p)
    (lastTransportState p) (sysexEnabled p) (timer p) (timerReads p).
Definition setClockEnabled (clockEnabled' : bool) (p : t) : t :=
  mk (midiOut p) (parser p) (midiFile p) (state p) (ticksElapsed p)
    (lastUpdateMicros p) (microsecondsPerTick p) (tempoPercent p)
    (channelMutes p) (velocityScale p) (channelVelocities p)
    (userChannelPrograms p) (userChannelVolumes p) (userChannelPan p)
    (userChannelTranspose p) (userChannelRouting p) (nextEvent p)
    (eventReady p) (reachedEnd p) clockEnabled' (lastClockMicros p)
    (lastTransportState p) (sysexEnabled p) (timer p) (timerReads p).
Definition setSysexEnabled (sysexEnabled' : bool) (p : t) : t :=
  mk (midiOut p) (parser p) (midiFile p) (state p) (ticksElapsed p)
    (lastUpdateMicros p) (microsecondsPerTick p) (tempoPercent p)
    (channelMutes p) (velocityScale p) (channelVelocities p)
    (userChannelPrograms p) (userChannelVolumes p) (userChannelPan p)
    (userChannelTranspose p) (userChannelRouting p) (nextEvent p)
    (eventReady p) (reachedEnd p) (clockEnabled p) (lastClockMicros p)
    (lastTransportState p) sysexEnabled' (timer p) (timerReads p).

(** The constructor [MidiPlayer(output)]. *)
Definition new (output : option MidiOutput.t) (junk : list Z)
  (hwTimer : nat -> Z) : t :=
  mk output (MidiFileParser.new junk) false STATE_STOPPED 0 0 0 100 0 50
    (repeat 100 16) (repeat 128 16) (repeat 255 16) (repeat 255 16)
    (repeat 0 16) (repeat 255 16) MidiEvent_new false false false 0
    STATE_STOPPED true hwTimer 0.

(** [micros()] *)
Definition micros (p : t) : Z * t :=
  (u32 (timer p (timerReads p)), set_timerReads (S (timerReads p)) p).

(** A call through the [midiOut] pointer.  The sources test the pointer in
    [stopAllNotes], [sendMidiEvent] and [muteChannel]; where they do not,
    the player is only ever built with an output object. *)
Definition toOutput (f : MidiOutput.t -> MidiOutput.t) (p : t) : t :=
  set_midiOut (option_map f (midiOut p)) p.

(** [tempo / info.ticksPerQuarter] with [ticksPerQuarter = 0] is undefined
    in C++; here [x / 0 = 0]. *)
Definition calculateMicrosecondsPerTick (p : t) : t :=
  let info := MidiFileParser.getFileInfo (parser p) in
  let tempo0 := tempo info in
  let tempo1 := u32 (u64 (tempo0 * 1000) / tempoPercent p) in
  set_microsecondsPerTick (tempo1 / ticksPerQuarter info) p.

Fixpoint allNotesOffFrom (n : nat) (ch : Z) (o : MidiOutput.t) : MidiOutput.t :=
  match n with
  | O => o
  | S n' => allNotesOffFrom n' (ch + 1) (MidiOutput.sendControlChange ch 123 0 o)
  end.

(** [for (ch = 1; ch <= 16; ch++) midiOut->sendControlChange(ch, 123, 0);] *)
Definition stopAllNotes (p : t) : t := toOutput (allNotesOffFrom 16 1) p.

Definition readNext (p : t) : t :=
  let '(ok, ev, ps) := MidiFileParser.readNextEvent (nextEvent p) (parser p) in
  set_next ev ok (set_parser ps p).

(** [delay(10)] changes no state. *)
Definition stop (resetToBeginning : bool) (p : t) : t :=
  if PlayerState_eqb (state p) STATE_STOPPED then p else
  let p := set_state STATE_STOPPED p in
  let p := if clockEnabled p then toOutput MidiOutput.sendStop p else p in
  let p := stopAllNotes p in
  if resetToBeginning then
    let '(ok, ps) := MidiFileParser.reset (parser p) in
    let p := set_parser ps p in
    if ok then readNext (set_ticksElapsed 0 p) else p
  else p.

(** The tail of [play()] from [state = STATE_PLAYING] on. *)
Definition play_start (wasStoppedAtStart : bool) (p : t) : t :=
  let p := set_state STATE_PLAYING p in
  let '(now, p) := micros p in
  let p := set_lastUpdateMicros now p in
  let '(now, p) := micros p in
  let p := set_lastClockMicros now p in
  if clockEnabled p then
    if wasStoppedAtStart then toOutput MidiOutput.sendStart p
    else toOutput MidiOutput.sendContinue p
  else p.

Definition play (p : t) : t :=
  if PlayerState_eqb (state p) STATE_PLAYING then p else
  let p := set_reachedEnd false p in
  let p := stopAllNotes p in
  let wasStoppedAtStart :=
    PlayerState_eqb (state p) STATE_STOPPED && (ticksElapsed p =? 0) in
  if wasStoppedAtStart then
    let '(ok, ps) := MidiFileParser.reset (parser p) in
    let p := set_parser ps p in
    if ok then play_start wasStoppedAtStart (readNext p)
    else set_state STATE_STOPPED p
  else play_start wasStoppedAtStart p.

Definition pause (p : t) : t :=
  if negb (PlayerState_eqb (state p) STATE_PLAYING) then p else
  let p := set_state STATE_PAUSED p in
  let p := if clockEnabled p then toOutput MidiOutput.sendStop p else p in
  stopAllNotes p.

Definition loadFile (file : option FatFile) (p : t) : bool * t :=
  match file with
  | None => (false, p)
  | Some _ =>
      let p := stop true p in
      let p := set_ticksElapsed 0 p in
      let p := set_midiFile true p in
      let '(ok, ps) := MidiFileParser.open file (parser p) in
      let p := set_parser ps p in
      if negb ok then (false, set_midiFile false p)
      else (true, readNext p)
  end.

Definition unloadFile (p : t) : t :=
  let p := stop false p in
  set_midiFile false (set_parser (MidiFileParser.close (parser p)) p).

(** [int16_t transposedNote = data1 + transpose], clamped to 0..127. *)
Definition transposeNote (ev : MidiEvent) (p : t) : Z :=
  let transposedNote :=
    data1 ev + nth (Z.to_nat (channel ev)) (userChannelTranspose p) 0 in
  let transposedNote := if transposedNote <? 0 then 0 else transposedNote in
  let transposedNote := if 127 <? transposedNote then 127 else transposedNote in
  u8 transposedNote.

Definition sendMidiEvent (event : MidiEvent) (p : t) : t :=
  match midiOut p with
  | None => p
  | Some _ =>
  if isMetaEvent event && (data1 event =? META_TEMPO)
  then calculateMicrosecondsPerTick p else
  if isMetaEvent event then p else
  if 16 <=? channel event then p else
  let ch := Z.to_nat (channel event) in
  let channel1 := u8 (channel event + 1) in
  let channel1 :=
    if negb (nth ch (userChannelRouting p) 0 =? 255)
    then u8 (nth ch (userChannelRouting p) 0 + 1) else channel1 in
  if negb (Z.land (channelMutes p) (Z.shiftl 1 (channel event)) =? 0)
     && ((type event =? MIDI_NOTE_ON) || (type event =? MIDI_NOTE_OFF))
  then p else
  let ty := type event in
  if ty =? MIDI_NOTE_OFF then
    toOutput (MidiOutput.sendNoteOff channel1 (transposeNote event p)
                (data2 event)) p
  else if ty =? MIDI_NOTE_ON then
    if data2 event =? 0 then
      toOutput (MidiOutput.sendNoteOff channel1 (transposeNote event p) 0) p
    else
      let scaledVelocity := u16 ((data2 event * velocityScale p * 2) / 100) in
      let scaledVelocity :=
        if negb (nth ch (channelVelocities p) 0 =? 0)
        then u16 ((scaledVelocity * nth ch (channelVelocities p) 0) / 100)
        else scaledVelocity in
      let scaledVelocity :=
        if 127 <? scaledVelocity then 127 else scaledVelocity in
      let scaledVelocity :=
        if scaledVelocity <? 1 then 1 else scaledVelocity in
      toOutput (MidiOutput.sendNoteOn channel1 (transposeNote event p)
                  (u8 scaledVelocity)) p
  else if ty =? MIDI_POLY_AFTERTOUCH then
    toOutput (MidiOutput.sendPolyAfterTouch channel1 (data1 event)
                (data2 event)) p
  else if ty =? MIDI_CONTROL_CHANGE then
    if (data1 event =? 7) && (nth ch (userChannelVolumes p) 0 <? 128) then p
    else if (data1 event =? 10) && (nth ch (userChannelPan p) 0 <? 128) then p
    else toOutput (MidiOutput.sendControlChange channel1 (data1 event)
                     (data2 event)) p
  else if ty =? MIDI_PROGRAM_CHANGE then
    if nth ch (userChannelPrograms p) 0 <? 128 then p
    else toOutput (MidiOutput.sendProgramChange channel1 (data1 event)) p
  else if ty =? MIDI_CHANNEL_AFTERTOUCH then
    toOutput (MidiOutput.sendAfterTouch channel1 (data1 event)) p
  else if ty =? MIDI_PITCH_BEND then
    let bend := s16 (Z.lor (Z.shiftl (data2 event) 7) (data1 event)) in
    let bend := s16 (bend - 8192) in
    toOutput (MidiOutput.sendPitchBend channel1 bend) p
  else if ty =? MIDI_SYSEX then
    if negb (sysexEnabled p) then p else
    match sysexData event with
    | Some d =>
        if 0 <? sysexLength event
        then toOutput (MidiOutput.sendSysEx d (sysexLength event)) p
        else p
    | None => p
    end
  else p
  end.

Definition setTempoPercent (percent : Z) (p : t) : t :=
  let percent := if percent <? 500 then 500 else percent in
  let percent := if 2000 <? percent then 2000 else percent in
  calculateMicrosecondsPerTick (set_tempoPercent percent p).

Definition setVelocityScale (scale : Z) (p : t) : t :=
  let scale := if scale <? 1 then 1 else scale in
  let scale := if 100 <? scale then 100 else scale in
  set_velocityScale scale p.

(** The array setters copy 16 entries from the caller's array. *)
Definition setChannelPrograms (programs : list Z) (p : t) : t :=
  set_userChannelPrograms (firstn 16 programs) p.
Definition setChannelVolumes (volumes : list Z) (p : t) : t :=
  set_userChannelVolumes (firstn 16 volumes) p.
Definition setChannelPan (pan : list Z) (p : t) : t :=
  set_userChannelPan (firstn 16 pan) p.
Definition setChannelTranspose (transpose : list Z) (p : t) : t :=
  set_userChannelTranspose (firstn 16 transpose) p.
Definition setChannelVelocityScales (velocities : list Z) (p : t) : t :=
  set_channelVelocities
    (map (fun value => if 200 <? value then 200 else value)
       (firstn 16 velocities)) p.
Definition setChannelRouting (routing : list Z) (p : t) : t :=
  set_userChannelRouting (firstn 16 routing) p.

Definition muteChannel (channel : Z) (p : t) : t :=
  if 16 <=? channel then p else
  let p := set_channelMutes
             (u16 (Z.lor (channelMutes p) (Z.shiftl 1 channel))) p in
  toOutput (MidiOutput.sendControlChange (u8 (channel + 1)) 123 0) p.

Definition unmuteChannel (channel : Z) (p : t) : t :=
  if 16 <=? channel then p else
  set_channelMutes
    (u16 (Z.land (channelMutes p) (Z.lnot (Z.shiftl 1 channel)))) p.

Definition isChannelMuted (channel : Z) (p : t) : bool :=
  if 16 <=? channel then false
  else negb (Z.land (channelMutes p) (Z.shiftl 1 channel) =? 0).

Definition toggleMuteChannel (channel : Z) (p : t) : t :=
  if isChannelMuted channel p then unmuteChannel channel p
  else muteChannel channel p.

Definition ticksToMilliseconds (ticks : Z) (p : t) : Z :=
  if microsecondsPerTick p =? 0 then 0
  else u32 (u64 (ticks * microsecondsPerTick p) / 1000).

Definition millisecondsToTicks (ms : Z) (p : t) : Z :=
  if microsecondsPerTick p =? 0 then 0
  else u32 (u64 (ms * 1000) / microsecondsPerTick p).

Definition MAX_EVENTS_PER_FF : Z := 50000.

(** The skip loop of [fastForward]; [n] is how many more events the
    safety limit allows.  [yield()] changes no state. *)
Fixpoint skipEvents (n : nat) (targetTicks : Z) (p : t) : t :=
  match n with
  | O => p
  | S n' =>
      if eventReady p && (absoluteTime (nextEvent p) <=? targetTicks) then
        let e := nextEvent p in
        let e := mkEvent (deltaTime e) (absoluteTime e) (type e) (channel e)
                   (data1 e) (data2 e) None (sysexLength e) (isMetaEvent e)
                   (trackNumber e) in
        skipEvents n' targetTicks (readNext (set_next e (eventReady p) p))
      else p
  end.

Definition fastForward (milliseconds : Z) (p : t) : t :=
  let wasPlaying := PlayerState_eqb (state p) STATE_PLAYING in
  let p := if wasPlaying then pause p else p in
  let p := stopAllNotes p in
  let targetTicks := u32 (ticksElapsed p + millisecondsToTicks milliseconds p) in
  let maxTicks := MidiFileParser.getFileLengthTicks (parser p) in
  let targetTicks := if maxTicks <? targetTicks then maxTicks else targetTicks in
  let p := skipEvents (Z.to_nat MAX_EVENTS_PER_FF) targetTicks p in
  let p := set_ticksElapsed targetTicks p in
  let '(now, p) := micros p in
  let p := set_lastUpdateMicros now p in
  let p := stopAllNotes p in
  if wasPlaying then play p else p.

(** [getCurrentBPM()]: the product [tempo * 1000] is formed in 32 bits here
    (in [calculateMicrosecondsPerTick] it is formed in 64).  As there, a
    division by [tempoPercent = 0] is undefined in C++; here [x / 0 = 0]. *)
Definition getCurrentBPM (p : t) : Z :=
  let info := MidiFileParser.getFileInfo (parser p) in
  let tempo0 := tempo info in
  let tempo1 := u32 (tempo0 * 1000) / tempoPercent p in
  if tempo1 =? 0 then 120 else u16 (60000000 / tempo1).

(** [getCurrentTimeMs()]: the value returned and the player (a call of
    [micros()] is made while playing). *)
Definition getCurrentTimeMs (p : t) : Z * t :=
  if negb (PlayerState_eqb (state p) STATE_PLAYING)
  then (ticksToMilliseconds (ticksElapsed p) p, p)
  else
    let '(currentMicros, p) := micros p in
    let elapsedMicros := u32 (currentMicros - lastUpdateMicros p) in
    let fractionalMs := elapsedMicros / 1000 in
    (u32 (ticksToMilliseconds (ticksElapsed p) p + fractionalMs), p).

Definition getTotalTimeMs (p : t) : Z :=
  ticksToMilliseconds (MidiFileParser.getFileLengthTicks (parser p)) p.

Definition MAX_EVENTS_PER_REWIND : Z := 50000.

(** [rewind(milliseconds)]; its skip loop is the one of [fastForward]. *)
Definition rewind (milliseconds : Z) (p : t) : t :=
  let wasPlaying := PlayerState_eqb (state p) STATE_PLAYING in
  let p := if wasPlaying then pause p else p in
  let p := stopAllNotes p in
  let rewindTicks := millisecondsToTicks milliseconds p in
  let targetTicks :=
    if rewindTicks <? ticksElapsed p
    then u32 (ticksElapsed p - rewindTicks) else 0 in
  let '(ok, ps) := MidiFileParser.reset (parser p) in
  let p := set_parser ps p in
  if negb ok then p else
  let p := readNext (set_ticksElapsed 0 p) in
  let p :=
    if 0 <? targetTicks
    then set_ticksElapsed targetTicks
           (skipEvents (Z.to_nat MAX_EVENTS_PER_REWIND) targetTicks p)
    else p in
  let '(now, p) := micros p in
  let p := set_lastUpdateMicros now p in
  let p := stopAllNotes p in
  if wasPlaying then play p else p.

(** [seek(milliseconds)] *)
Definition seek (milliseconds : Z) (p : t) : t :=
  let p := stopAllNotes p in
  let '(ok, ps) := MidiFileParser.reset (parser p) in
  let p := set_parser ps p in
  if negb ok then p else
  let p := readNext (set_ticksElapsed 0 p) in
  fastForward milliseconds p.

End MidiPlayer.

(** ** main.cpp: the file length cache

    [lengthCache] holds the [cacheSize] entries in use, oldest first.
    [cardRows] stands for the rows that reading the cache file of the card
    yields (none when the file is missing or its version differs); the
    text format itself is not modelled, and neither is what
    [saveLengthCache] writes: once [cacheLoaded] is set the file is not
    read again. *)

Module LengthCache.

Definition MAX_CACHE_ENTRIES : Z := 500.

Record FileLengthCacheEntry : Type := mkEntry {
  filename : String.string;
  modtime : Z;
  lengthTicks : Z;
  sysexCount : Z
}.

Record t : Type := mk {
  lengthCache : list FileLengthCacheEntry;
  cacheLoaded : bool;
  cardRows : list FileLengthCacheEntry
}.

Definition cacheSize (c : t) : Z := Z.of_nat (length (lengthCache c)).

(** [strncpy(dst, src, 63); dst[63] = 0]: at most 63 characters are kept. *)
Definition strncpy63 (src : String.string) : String.string :=
  String.substring 0 63 src.

(** [strcmp(a, b) == 0] *)
Definition strcmp0 (a b : String.string) : bool := String.eqb a b.

Definition loadLengthCache (c : t) : t :=
  mk (map (fun r => mkEntry (strncpy63 (filename r)) (modtime r)
                      (lengthTicks r) (u16 (sysexCount r)))
        (firstn (Z.to_nat MAX_CACHE_ENTRIES) (cardRows c)))
     true (cardRows c).

Definition ensureLoaded (c : t) : t :=
  if cacheLoaded c then c else loadLengthCache c.

(** The search loop of [getCachedFileLength]: the value returned and the
    value of [*outSysexCount] afterwards ([None] for a null pointer). *)
Fixpoint searchCache (es : list FileLengthCacheEntry) (name : String.string)
  (mtime : Z) (outSysexCount : option Z) : Z * option Z :=
  match es with
  | [] => (0, outSysexCount)
  | e :: rest =>
      if strcmp0 (filename e) name then
        if modtime e =? mtime
        then (lengthTicks e, option_map (fun _ => sysexCount e) outSysexCount)
        else (0, outSysexCount)
      else searchCache rest name mtime outSysexCount
  end.

Definition getCachedFileLength (name : String.string) (mtime : Z)
  (outSysexCount : option Z) (c : t) : Z * option Z * t :=
  let c := ensureLoaded c in
  (searchCache (lengthCache c) name mtime outSysexCount, c).

(** The first loop of [cacheFileLength]: the entry of that name, if there
    is one, is overwritten in place. *)
Fixpoint updateExisting (es : list FileLengthCacheEntry) (name : String.string)
  (mtime ticks sysex : Z) : option (list FileLengthCacheEntry) :=
  match es with
  | [] => None
  | e :: rest =>
      if strcmp0 (filename e) name
      then Some (mkEntry (filename e) mtime ticks sysex :: rest)
      else match updateExisting rest name mtime ticks sysex with
           | Some rest' => Some (e :: rest')
           | None => None
           end
  end.

Definition cacheFileLength (name : String.string) (mtime ticks sysex : Z)
  (c : t) : t :=
  let c := ensureLoaded c in
  match updateExisting (lengthCache c) name mtime ticks sysex with
  | Some es => mk es (cacheLoaded c) (cardRows c)
  | None =>
      let e := mkEntry (strncpy63 name) mtime ticks sysex in
      if cacheSize c <? MAX_CACHE_ENTRIES
      then mk (lengthCache c ++ [e]) (cacheLoaded c) (cardRows c)
      else
        (* entries 1..499 move down by one, the new one goes last *)
        mk (firstn 499 (tl (lengthCache c)) ++ e :: skipn 500 (lengthCache c))
           (cacheLoaded c) (cardRows c)
  end.

End LengthCache.

(** ** main.cpp: solo

    [applySoloLogic()]: [channelSolos] is the global bit mask of the soloed
    channels, [player] the global player object. *)

Fixpoint applySoloLogic_loop (n : nat) (ch : Z) (channelSolos : Z)
  (player : MidiPlayer.t) : MidiPlayer.t :=
  match n with
  | O => player
  | S n' =>
      let isSolo := negb (Z.land channelSolos (Z.shiftl 1 ch) =? 0) in
      applySoloLogic_loop n' (ch + 1) channelSolos
        (if isSolo then player else MidiPlayer.muteChannel ch player)
  end.

Definition applySoloLogic (channelSolos : Z) (player : MidiPlayer.t)
  : MidiPlayer.t :=
  let anySoloActive := negb (channelSolos =? 0) in
  if anySoloActive then applySoloLogic_loop 16 0 channelSolos player
  else player.

(** ** Operations on the player

    The calls the rest of the firmware makes on the player, as a script:
    [sendMidiEvent] stands for the events [update] forwards while playing. *)

Inductive PlayerOp : Type :=
| OpSendMidiEvent (ev : MidiEvent)
| OpMuteChannel (ch : Z)
| OpUnmuteChannel (ch : Z)
| OpToggleMuteChannel (ch : Z)
| OpPlay
| OpPause
| OpStop (resetToBeginning : bool)
| OpFastForward (ms : Z)
| OpLoadFile (file : option FatFile)
| OpUnloadFile
| OpSetTempoPercent (percent : Z)
| OpSetVelocityScale (scale : Z)
| OpSetChannelPrograms (a : list Z)
| OpSetChannelVolumes (a : list Z)
| OpSetChannelPan (a : list Z)
| OpSetChannelTranspose (a : list Z)
| OpSetChannelVelocityScales (a : list Z)
| OpSetChannelRouting (a : list Z)
| OpSetClockEnabled (b : bool)
| OpSetSysexEnabled (b : bool).

Definition runOp (p : MidiPlayer.t) (op : PlayerOp) : MidiPlayer.t :=
  match op with
  | OpSendMidiEvent ev => MidiPlayer.sendMidiEvent ev p
  | OpMuteChannel ch => MidiPlayer.muteChannel ch p
  | OpUnmuteChannel ch => MidiPlayer.unmuteChannel ch p
  | OpToggleMuteChannel ch => MidiPlayer.toggleMuteChannel ch p
  | OpPlay => MidiPlayer.play p
  | OpPause => MidiPlayer.pause p
  | OpStop r => MidiPlayer.stop r p
  | OpFastForward ms => MidiPlayer.fastForward ms p
  | OpLoadFile f => snd (MidiPlayer.loadFile f p)
  | OpUnloadFile => MidiPlayer.unloadFile p
  | OpSetTempoPercent pc => MidiPlayer.setTempoPercent pc p
  | OpSetVelocityScale sc => MidiPlayer.setVelocityScale sc p
  | OpSetChannelPrograms a => MidiPlayer.setChannelPrograms a p
  | OpSetChannelVolumes a => MidiPlayer.setChannelVolumes a p
  | OpSetChannelPan a => MidiPlayer.setChannelPan a p
  | OpSetChannelTranspose a => MidiPlayer.setChannelTranspose a p
  | OpSetChannelVelocityScales a => MidiPlayer.setChannelVelocityScales a p
  | OpSetChannelRouting a => MidiPlayer.setChannelRouting a p
  | OpSetClockEnabled b => MidiPlayer.setClockEnabled b p
  | OpSetSysexEnabled b => MidiPlayer.setSysexEnabled b p
  end.

Definition runOps (ops : list PlayerOp) (p : MidiPlayer.t) : MidiPlayer.t :=
  fold_left runOp ops p.

(** The operations that can clear the mute bit of channel [c]. *)
Definition unmutes (c : Z) (op : PlayerOp) : bool :=
  match op with
  | OpUnmuteChannel ch | OpToggleMuteChannel ch => ch =? c
  | _ => false
  end.

(** ** Sample files and players

    Concrete inputs on which the statements below are exercised. *)

(** A type-0 file, division 96, one track: NoteOn C4 at tick 0, NoteOff at
    tick 96, end of track. *)
Definition sample_type0 : list Z :=
  [0x4D; 0x54; 0x68; 0x64; 0; 0; 0; 6; 0; 0; 0; 1; 0; 0x60;
   0x4D; 0x54; 0x72; 0x6B; 0; 0; 0; 12;
   0; 0x90; 0x3C; 0x64;  0x60; 0x80; 0x3C; 0x40;  0; 0xFF; 0x2F; 0].

Definition no_timer : nat -> Z := fun _ => 0.

(** A player with an output attached, before and after loading
    [sample_type0]. *)
Definition sample_player0 : MidiPlayer.t :=
  MidiPlayer.new (Some []) [0; 0; 0; 0] no_timer.

Definition sample_player : MidiPlayer.t :=
  snd (MidiPlayer.loadFile (Some (mkFile sample_type0 0)) sample_player0).

(** [sample_player] once the length of the file (96 ticks) is known and the
    tempo is set to 100.0 %, then moved forward by 300 ms while stopped. *)
Definition sample_ready : MidiPlayer.t :=
  MidiPlayer.setTempoPercent 1000
    (MidiPlayer.set_parser
       (MidiFileParser.setFileLengthTicks 96 (MidiPlayer.parser sample_player))
       sample_player).

Definition sample_stopped_midway : MidiPlayer.t :=
  MidiPlayer.fastForward 300 sample_ready.

Definition sample_playing : MidiPlayer.t := MidiPlayer.play sample_ready.


(** A file with division 50000 whose track sets the tempo to 100000
    microseconds per quarter note at tick 0 and ends at tick 100000; played
    at 200.0 % one tick lasts one microsecond. *)
Definition sample_fast_file : list Z :=
  [0x4D; 0x54; 0x68; 0x64; 0; 0; 0; 6; 0; 0; 0; 1; 0xC3; 0x50;
   0x4D; 0x54; 0x72; 0x6B; 0; 0; 0; 21;
   0; 0xFF; 0x51; 3; 0x01; 0x86; 0xA0;
   0; 0x90; 0x3C; 0x64;
   0x86; 0x8D; 0x20; 0x80; 0x3C; 0x40;
   0; 0xFF; 0x2F; 0].

(** That file loaded, its length known, the tempo at 200.0 %, and the
    position moved to tick 1000 by [fastForward(1)]. *)
Definition sample_fast_player : MidiPlayer.t :=
  let p := snd (MidiPlayer.loadFile (Some (mkFile sample_fast_file 0))
                  sample_player0) in
  let p := MidiPlayer.set_parser
             (MidiFileParser.setFileLengthTicks 100000 (MidiPlayer.parser p))
             p in
  MidiPlayer.fastForward 1 (MidiPlayer.setTempoPercent 2000 p).

(** [sample_type0] opened by a fresh parser. *)
Definition sample_parser : MidiFileParser.t :=
  snd (MidiFileParser.open (Some (mkFile sample_type0 0))
         (MidiFileParser.new [0; 0; 0; 0])).

(** A type-1 file, division 96, three tracks: track 0 has NoteOn at tick 0
    and NoteOff at tick 96 on channel 0, track 1 NoteOn at tick 0 and
    NoteOff at tick 48 on channel 1, track 2 NoteOn at tick 48 and NoteOff
    at tick 96 on channel 2; each tick is shared by two tracks. *)
Definition sample_three_tracks : list Z :=
  [0x4D; 0x54; 0x68; 0x64; 0; 0; 0; 6; 0; 1; 0; 3; 0; 0x60;
   0x4D; 0x54; 0x72; 0x6B; 0; 0; 0; 12;
   0; 0x90; 0x3C; 0x64;  0x60; 0x80; 0x3C; 0x40;  0; 0xFF; 0x2F; 0;
   0x4D; 0x54; 0x72; 0x6B; 0; 0; 0; 12;
   0; 0x91; 0x40; 0x64;  0x30; 0x81; 0x40; 0x40;  0; 0xFF; 0x2F; 0;
   0x4D; 0x54; 0x72; 0x6B; 0; 0; 0; 12;
   0x30; 0x92; 0x43; 0x64;  0x30; 0x82; 0x43; 0x40;  0; 0xFF; 0x2F; 0].

(** [sample_three_tracks] opened by a fresh parser. *)
Definition sample_three_parser : MidiFileParser.t :=
  snd (MidiFileParser.open (Some (mkFile sample_three_tracks 0))
         (MidiFileParser.new [0; 0; 0; 0])).

(** One track of 16 program changes, each 0x0FFFFFFF ticks (the four-byte
    delta FF FF FF 7F) after the one before, so that the last of them is at
    tick 0xFFFFFFF0; then one more program change [last_delta] ticks later,
    and the end of the track. *)
Definition sample_long_ticks (last_delta : Z) : list Z :=
  [0x4D; 0x54; 0x68; 0x64; 0; 0; 0; 6; 0; 0; 0; 1; 0; 0x60;
   0x4D; 0x54; 0x72; 0x6B; 0; 0; 0; 103]
  ++ concat (repeat [0xFF; 0xFF; 0xFF; 0x7F; 0xC0; 5] 16)
  ++ [last_delta; 0xC0; 6; 0; 0xFF; 0x2F; 0].

(** With 0x10 more ticks the counter of the track wraps to 0; with 0x0F
    more the event is at tick 0xFFFFFFFF. *)
Definition sample_wrap_parser : MidiFileParser.t :=
  snd (MidiFileParser.open (Some (mkFile (sample_long_ticks 0x10) 0))
         (MidiFileParser.new [0; 0; 0; 0])).

Definition sample_sentinel_parser : MidiFileParser.t :=
  snd (MidiFileParser.open (Some (mkFile (sample_long_ticks 0x0F) 0))
         (MidiFileParser.new [0; 0; 0; 0])).

(** [sample_type0] with the header declaring format 2 and division 0. *)
Definition sample_format2_division0 : list Z :=
  [0x4D; 0x54; 0x68; 0x64; 0; 0; 0; 6; 0; 2; 0; 1; 0; 0;
   0x4D; 0x54; 0x72; 0x6B; 0; 0; 0; 12;
   0; 0x90; 0x3C; 0x64;  0x60; 0x80; 0x3C; 0x40;  0; 0xFF; 0x2F; 0].

(** One track whose first delta time is written on six bytes (five of them
    with the high bit set): 81 80 80 80 80 05, then NoteOn C4; NoteOff 96
    ticks later; end of track. *)
Definition sample_long_vlq : list Z :=
  [0x4D; 0x54; 0x68; 0x64; 0; 0; 0; 6; 0; 0; 0; 1; 0; 0x60;
   0x4D; 0x54; 0x72; 0x6B; 0; 0; 0; 17;
   0x81; 0x80; 0x80; 0x80; 0x80; 0x05; 0x90; 0x3C; 0x64;
   0x60; 0x80; 0x3C; 0x40;  0; 0xFF; 0x2F; 0].

(** The parser after [open] on that file, and as it is inside [open] when
    the chunk headers have been read and no event yet. *)
Definition sample_long_vlq_parser : MidiFileParser.t :=
  snd (MidiFileParser.open (Some (mkFile sample_long_vlq 0))
         (MidiFileParser.new [0; 0; 0; 0])).

Definition sample_long_vlq_ready : MidiFileParser.t :=
  snd (MidiFileParser.initTrackHeaders 1 0
         (snd (MidiFileParser.readMidiHeader
                 (MidiFileParser.set_midiFile (Some (mkFile sample_long_vlq 0))
                    (MidiFileParser.new [0; 0; 0; 0]))))).

(** One track that begins with a tempo meta event of three payload bytes
    [b1 b2 b3], followed by the notes of [sample_type0]; and the parser
    inside [open] when the chunk headers of that file have been read. *)
Definition sample_tempo (b1 b2 b3 : Z) : list Z :=
  [0x4D; 0x54; 0x68; 0x64; 0; 0; 0; 6; 0; 0; 0; 1; 0; 0x60;
   0x4D; 0x54; 0x72; 0x6B; 0; 0; 0; 19;
   0; 0xFF; 0x51; 3; b1; b2; b3;
   0; 0x90; 0x3C; 0x64;  0x60; 0x80; 0x3C; 0x40;  0; 0xFF; 0x2F; 0].

Definition sample_tempo_ready (b1 b2 b3 : Z) : MidiFileParser.t :=
  snd (MidiFileParser.initTrackHeaders 1 0
         (snd (MidiFileParser.readMidiHeader
                 (MidiFileParser.set_midiFile
                    (Some (mkFile (sample_tempo b1 b2 b3) 0))
                    (MidiFileParser.new [0; 0; 0; 0]))))).

(** A one-track file with one event of each kind the parser decodes: a
    note on, a note on under running status, a program change, a SysEx
    message, a time signature, a track name and the end of track. *)
Definition sample_kinds_track : list Z :=
  [0; 0x93; 60; 100;
   0x60; 62; 100;
   0; 0xC3; 5;
   0; 0xF0; 3; 0x41; 0x10; 0xF7;
   0; 0xFF; 0x58; 4; 6; 3; 24; 8;
   0; 0xFF; 0x03; 2; 0x48; 0x69;
   0; 0xFF; 0x2F; 0].

Definition sample_kinds : list Z :=
  [0x4D; 0x54; 0x68; 0x64; 0; 0; 0; 6; 0; 0; 0; 1; 0; 0x60;
   0x4D; 0x54; 0x72; 0x6B; 0; 0; 0; 34] ++ sample_kinds_track.

Definition sample_kinds_ready : MidiFileParser.t :=
  snd (MidiFileParser.initTrackHeaders 1 0
         (snd (MidiFileParser.readMidiHeader
                 (MidiFileParser.set_midiFile (Some (mkFile sample_kinds 0))
                    (MidiFileParser.new [0; 0; 0; 0]))))).


(** A track with a text meta event (FF 01), a real-time status byte (F8)
    and a note on behind it. *)
Definition sample_odd_track : list Z :=
  [0; 0xFF; 0x01; 2; 0x48; 0x69;
   0; 0xF8;
   0; 0x90; 60; 100;
   0; 0xFF; 0x2F; 0].

Definition sample_odd : list Z :=
  [0x4D; 0x54; 0x68; 0x64; 0; 0; 0; 6; 0; 0; 0; 1; 0; 0x60;
   0x4D; 0x54; 0x72; 0x6B; 0; 0; 0; 16] ++ sample_odd_track.

Definition sample_odd_ready : MidiFileParser.t :=
  snd (MidiFileParser.initTrackHeaders 1 0
         (snd (MidiFileParser.readMidiHeader
                 (MidiFileParser.set_midiFile (Some (mkFile sample_odd 0))
                    (MidiFileParser.new [0; 0; 0; 0]))))).

(** A header that declares 258 tracks, followed by a chunk with the tag
    MTrl. *)
Definition sample_258_tracks : list Z :=
  [0x4D; 0x54; 0x68; 0x64; 0; 0; 0; 6; 0; 1; 1; 2; 0; 0x60;
   0x4D; 0x54; 0x72; 0x6C; 0; 0; 0; 0].

(** A pitch bend at the centre position on channel 2. *)
Definition sample_pitchBend : MidiEvent :=
  mkEvent 0 0 MIDI_PITCH_BEND 2 0 64 None 0 false 0.

(** [sample_ready] playing with the MIDI clock enabled. *)
Definition sample_playing_clock : MidiPlayer.t :=
  MidiPlayer.play (MidiPlayer.setClockEnabled true sample_ready).

(** A full cache: 500 entries with distinct names. *)
Definition sample_entry_name (i : nat) : String.string :=
  String.String (Ascii.ascii_of_nat (65 + i / 26))
    (String.String (Ascii.ascii_of_nat (65 + i mod 26)) ".mid"%string).

Definition sample_entry (i : nat) : LengthCache.FileLengthCacheEntry :=
  LengthCache.mkEntry (sample_entry_name i) (Z.of_nat i) 100 0.

Definition sample_full_cache : LengthCache.t :=
  LengthCache.mk (map sample_entry (seq 0 500)) true [].

(** An empty cache that has been loaded, a file name, and a name of 64
    characters. *)
Definition sample_cache : LengthCache.t := LengthCache.mk [] true [].

Definition sample_name : String.string := "song.mid"%string.

Definition sample_long_name : String.string :=
  "AAAAAAAAAAAAAAAAAAAAAAAAAAAAAAAAAAAAAAAAAAAAAAAAAAAAAAAAAAAAAAAA"%string.

(** NoteOn, channel 0, note 60, velocity 100. *)
Definition sample_noteOn : MidiEvent :=
  mkEvent 0 0 MIDI_NOTE_ON 0 60 100 None 0 false 0.

(** ** Vocabulary of the statements about the parser *)

(** Track [i] has a buffered event and has not ended: the test of the scan
    in [readNextEvent]. *)
Definition active (i : Z) (p : MidiFileParser.t) : bool :=
  eventReady (MidiFileParser.getTrack i p)
  && negb (endOfTrack (MidiFileParser.getTrack i p)).

(** The tick of the event buffered for track [i]. *)
Definition nextTime (i : Z) (p : MidiFileParser.t) : Z :=
  absoluteTime (nextEvent (MidiFileParser.getTrack i p)).

(** The events that [n] successive calls of [readNextEvent] return, up to
    the first call that returns false. *)
Fixpoint readEvents (n : nat) (p : MidiFileParser.t) : list MidiEvent :=
  match n with
  | O => []
  | S n' =>
      let '(ok, ev, p') := MidiFileParser.readNextEvent MidiEvent_new p in
      if ok then ev :: readEvents n' p' else []
  end.

(** The parser after [n] successive calls of [readNextEvent]. *)
Fixpoint afterCalls (n : nat) (p : MidiFileParser.t) : MidiFileParser.t :=
  match n with
  | O => p
  | S n' => afterCalls n' (snd (MidiFileParser.readNextEvent MidiEvent_new p))
  end.

(** The tick counter of track [i] is a 32-bit value, and it is the tick of
    the event buffered for the track when there is one. *)
Definition trackInv (i : Z) (p : MidiFileParser.t) : Prop :=
  0 <= currentTick (MidiFileParser.getTrack i p) < 4294967296
  /\ (active i p = true ->
      nextTime i p = currentTick (MidiFileParser.getTrack i p)).

(** The state of a parser between calls, once a file is open. *)
Definition parserInv (p : MidiFileParser.t) : Prop :=
  length (MidiFileParser.tracks p) = 16%nat
  /\ 0 <= MidiFileParser.numTracks p <= 16
  /\ forall i, 0 <= i < MidiFileParser.numTracks p -> trackInv i p.

(** No buffered event lies before tick [t], unless the tick counter of its
    track wrapped around 2^32 when the event was read (its tick is then
    smaller than its own delta time). *)
Definition notBefore (t : Z) (p : MidiFileParser.t) : Prop :=
  forall i, 0 <= i < MidiFileParser.numTracks p -> active i p = true ->
    t <= nextTime i p
    \/ nextTime i p < deltaTime (nextEvent (MidiFileParser.getTrack i p)).

(** The state of a parser between calls, from the constructor on: every
    one of the 16 track slots satisfies [trackInv], whatever the number of
    tracks in use. *)
Definition slotsInv (p : MidiFileParser.t) : Prop :=
  length (MidiFileParser.tracks p) = 16%nat
  /\ 0 <= MidiFileParser.numTracks p <= 16
  /\ forall i, 0 <= i < 16 -> trackInv i p.

(** The byte of a file at an offset; 0 past the end, which is what
    [read8] yields there. *)
Definition byteAt (fd : list Z) (i : Z) : Z := nth (Z.to_nat i) fd 0.

Definition be16 (b1 b2 : Z) : Z := b1 * 256 + b2.
Definition be32 (b1 b2 b3 b4 : Z) : Z :=
  b1 * 16777216 + b2 * 65536 + b3 * 256 + b4.

(** The fields of the header chunk as the file declares them. *)
Definition declaredHeaderLength (fd : list Z) : Z :=
  be32 (byteAt fd 4) (byteAt fd 5) (byteAt fd 6) (byteAt fd 7).
Definition declaredFormat (fd : list Z) : Z :=
  be16 (byteAt fd 8) (byteAt fd 9).
Definition declaredDivision (fd : list Z) : Z :=
  be16 (byteAt fd 12) (byteAt fd 13).

(** The content of a file is bytes. *)
Definition isBytes (fd : list Z) : Prop := Forall (fun b => 0 <= b < 256) fd.

(** *** A track as a stream of bytes

    The bytes of track data not yet consumed: from the cursor
    ([trackStartPos + filePosition] in the file) to the end of the track. *)
Definition trackRest (tr : TrackState) (fd : list Z) : list Z :=
  firstn (Z.to_nat (trackEndPos tr - filePosition tr))
    (skipn (Z.to_nat (trackStartPos tr + filePosition tr)) fd).

(** The 512-byte window holds the bytes of the file it was filled from and
    the cursor is inside it or just behind it. *)
Definition windowInSync (tr : TrackState) (fd : list Z) : Prop :=
  0 <= bufferSize tr <= 512
  /\ 0 <= bufferPos tr <= bufferSize tr
  /\ 0 <= bufferFilePos tr
  /\ bufferFilePos tr + bufferSize tr <= trackEndPos tr
  /\ filePosition tr = bufferFilePos tr + bufferPos tr
  /\ forall j, 0 <= j < bufferSize tr ->
       nth (Z.to_nat j) (buffer tr) 0
       = byteAt fd (trackStartPos tr + bufferFilePos tr + j).

(** The window is empty (as at the start, or after a refill that found
    nothing): the next read refills it. *)
Definition windowEmpty (tr : TrackState) : Prop :=
  bufferSize tr = 0 /\ 0 <= bufferPos tr < 65536.

(** The track lies inside the file, the cursor inside the track, and the
    window is in one of its two regular states. *)
Definition trackCoherent (tr : TrackState) (fd : list Z) : Prop :=
  0 <= trackStartPos tr
  /\ 0 <= filePosition tr <= trackEndPos tr
  /\ trackStartPos tr + trackEndPos tr <= Z.of_nat (length fd)
  /\ Z.of_nat (length fd) < 4294967296
  /\ (windowInSync tr fd \/ windowEmpty tr).

(** Track [k] of the parser is a coherent cursor into the file [fd]. *)
Definition cursorView (k : Z) (p : MidiFileParser.t) (fd : list Z) : Prop :=
  0 <= k < MidiFileParser.numTracks p
  /\ (Z.to_nat k < length (MidiFileParser.tracks p))%nat
  /\ (exists pos, MidiFileParser.midiFile p = Some (mkFile fd pos))
  /\ trackCoherent (MidiFileParser.getTrack k p) fd.

(** What reading bytes does not change in a track. *)
Definition sameTrackMeta (tr tr' : TrackState) : Prop :=
  trackStartPos tr' = trackStartPos tr
  /\ trackEndPos tr' = trackEndPos tr
  /\ currentTick tr' = currentTick tr
  /\ runningStatus tr' = runningStatus tr
  /\ endOfTrack tr' = endOfTrack tr
  /\ eventReady tr' = eventReady tr.

(** The value of a variable-length quantity: seven bits per byte, most
    significant group first. *)
Definition vlqStep (acc b : Z) : Z := acc * 128 + b mod 128.
Definition vlqValue (bytes : list Z) : Z := fold_left vlqStep bytes 0.

(** The bytes of one quantity: bytes with the high bit set, then one
    without. *)
Definition isVlq (l : list Z) : Prop :=
  exists cs b, l = cs ++ [b]
    /\ Forall (fun c => 128 <= c < 256) cs /\ 0 <= b < 128.

(** Three bytes as a big-endian number. *)
Definition be24 (l : list Z) : Z :=
  nth 0 l 0 * 65536 + nth 1 l 0 * 256 + nth 2 l 0.

(** Track [k] is a coherent cursor and [rest] is what it has not consumed. *)
Definition streamAt (k : Z) (p : MidiFileParser.t) (fd rest : list Z) : Prop :=
  cursorView k p fd /\ trackRest (MidiFileParser.getTrack k p) fd = rest.

(** From [p] to [p'] the file information and the state of track [k] apart
    from its cursor are as before. *)
Definition undisturbed (k : Z) (p p' : MidiFileParser.t) : Prop :=
  MidiFileParser.fileInfo p' = MidiFileParser.fileInfo p
  /\ sameTrackMeta (MidiFileParser.getTrack k p) (MidiFileParser.getTrack k p').

(** *** Further vocabulary of the statements *)

(** The velocity formula in the words of the specification: scale by the
    global percentage (50 = unchanged), then by the channel percentage when
    that is not 0, integer division at each step, then clamp to 1..127. *)
Definition velocity_formula (v velocityScale channelPct : Z) : Z :=
  let v' := (v * velocityScale * 2) / 100 in
  let v' := if channelPct =? 0 then v' else (v' * channelPct) / 100 in
  Z.max 1 (Z.min 127 v').

(** The 1-based channel an event goes out on: the routing entry of its own
    channel when that is not 255, its own channel otherwise. *)
Definition outputChannel (ev : MidiEvent) (p : MidiPlayer.t) : Z :=
  let r := nth (Z.to_nat (channel ev)) (MidiPlayer.userChannelRouting p) 0 in
  if r =? 255 then u8 (channel ev + 1) else u8 (r + 1).

(** No entry of the list carries the name. *)
Definition unnamed (name : String.string)
    (es : list LengthCache.FileLengthCacheEntry) : Prop :=
  forall e, In e es ->
    LengthCache.strcmp0 (LengthCache.filename e) name = false.

(** One call of [cacheFileLength], as data: name, time stamp, length and
    SysEx count. *)
Record CacheInsert : Type := mkInsert {
  ins_name : String.string;
  ins_modtime : Z;
  ins_ticks : Z;
  ins_sysex : Z
}.

(** The cache after a series of [cacheFileLength] calls. *)
Definition cacheAll (ins : list CacheInsert) (c : LengthCache.t)
  : LengthCache.t :=
  fold_left (fun c i =>
               LengthCache.cacheFileLength (ins_name i) (ins_modtime i)
                 (ins_ticks i) (ins_sysex i) c) ins c.

(** Three insertions: two files, the first of them measured again after it
    changed. *)
Definition sample_inserts : list CacheInsert :=
  [mkInsert "song.mid"%string 7 1000 3; mkInsert "tune.mid"%string 9 480 0;
   mkInsert "song.mid"%string 8 1200 4].

(** CC 123 (All Notes Off), value 0, on the channels 1 to 16. *)
Definition allNotesOffMsgs : list MidiMsg :=
  map (fun ch => ControlChange ch 123 0)
    [1; 2; 3; 4; 5; 6; 7; 8; 9; 10; 11; 12; 13; 14; 15; 16].

(** [k] indexes a slot of the track array. *)
Definition inRange (k : Z) (p : MidiFileParser.t) : Prop :=
  (Z.to_nat k < length (MidiFileParser.tracks p))%nat.

(** From [p] to [p'] only track [k] was read from: the other tracks, the
    number of tracks and the end flag are as before, and the tick counter of
    track [k] has not moved. *)
Record advances (k : Z) (p p' : MidiFileParser.t) : Prop := mkAdvances {
  adv_num : MidiFileParser.numTracks p' = MidiFileParser.numTracks p;
  adv_len : length (MidiFileParser.tracks p')
            = length (MidiFileParser.tracks p);
  adv_ended : MidiFileParser.allTracksEnded p'
              = MidiFileParser.allTracksEnded p;
  adv_junk : MidiFileParser.headerJunk p' = MidiFileParser.headerJunk p;
  adv_other : forall j, j <> Z.to_nat k ->
                nth j (MidiFileParser.tracks p') TrackState_zero
                = nth j (MidiFileParser.tracks p) TrackState_zero;
  adv_tick : currentTick (MidiFileParser.getTrack k p')
             = currentTick (MidiFileParser.getTrack k p);
  adv_ready : eventReady (MidiFileParser.getTrack k p')
              = eventReady (MidiFileParser.getTrack k p)
}.

(** What the scan has found among the tracks [0 .. hi-1]: nothing below
    the sentinel 0xFFFFFFFF, or the first track with the least tick. *)
Definition scanned (hi : Z) (p : MidiFileParser.t) (k time : Z) : Prop :=
  (k = -1 /\ time = 0xFFFFFFFF
   /\ forall j, 0 <= j < hi -> active j p = true -> 0xFFFFFFFF <= nextTime j p)
  \/ (0 <= k < hi /\ active k p = true /\ time = nextTime k p
      /\ time < 0xFFFFFFFF
      /\ (forall j, 0 <= j < hi -> active j p = true -> time <= nextTime j p)
      /\ (forall j, 0 <= j < k -> active j p = true -> time < nextTime j p)).

(** Reading the header moves the file only. *)
Definition fileMoved (p p' : MidiFileParser.t) : Prop :=
  MidiFileParser.tracks p' = MidiFileParser.tracks p
  /\ MidiFileParser.numTracks p' = MidiFileParser.numTracks p
  /\ MidiFileParser.fileInfo p' = MidiFileParser.fileInfo p
  /\ MidiFileParser.headerJunk p' = MidiFileParser.headerJunk p.

(** *** What the parser keeps

    The stored tempo is within the bounds the parser accepts. *)
Definition tempoInRange (p : MidiFileParser.t) : Prop :=
  100000 <= tempo (MidiFileParser.fileInfo p) <= 10000000.

(** From [p] to [p'] the file length and the SysEx count are as before, the
    file is the same bytes (or still absent), and a tempo within the bounds
    is still within them. *)
Record keeps (p p' : MidiFileParser.t) : Prop := mkKeeps {
  keeps_length : MidiFileParser.fileLengthTicks p'
                 = MidiFileParser.fileLengthTicks p;
  keeps_sysex : MidiFileParser.sysexCount p' = MidiFileParser.sysexCount p;
  keeps_data : option_map fdata (MidiFileParser.midiFile p')
               = option_map fdata (MidiFileParser.midiFile p);
  keeps_tempo : tempoInRange p -> tempoInRange p'
}.

(** Two parsers with the same file at the same position and the same
    tracks: they differ at most in the file information, the file length,
    the SysEx count and the end flag. *)
Definition sameTracks (p q : MidiFileParser.t) : Prop :=
  MidiFileParser.midiFile p = MidiFileParser.midiFile q
  /\ MidiFileParser.tracks p = MidiFileParser.tracks q
  /\ MidiFileParser.numTracks p = MidiFileParser.numTracks q
  /\ MidiFileParser.headerJunk p = MidiFileParser.headerJunk q.

(** Two parsers with the same file at the same position (and the same
    stale bytes in the tag buffer): what the reads of the chunk headers see
    of a parser. *)
Definition sameFile (p q : MidiFileParser.t) : Prop :=
  MidiFileParser.midiFile p = MidiFileParser.midiFile q
  /\ MidiFileParser.headerJunk p = MidiFileParser.headerJunk q.

(** The calls a user makes on an open parser, as a script. *)
Inductive ParserCall : Type :=
| CallReadNextEvent (event : MidiEvent)
| CallReset.

Definition runCall (p : MidiFileParser.t) (c : ParserCall) : MidiFileParser.t :=
  match c with
  | CallReadNextEvent event => snd (MidiFileParser.readNextEvent event p)
  | CallReset => snd (MidiFileParser.reset p)
  end.

Definition runCalls (calls : list ParserCall) (p : MidiFileParser.t)
  : MidiFileParser.t :=
  fold_left runCall calls p.

(** The calls that change a parser, from its construction on. *)
Inductive ParserUse : Type :=
| UseOpen (file : option FatFile)
| UseClose
| UseCall (c : ParserCall).

Definition runUse (p : MidiFileParser.t) (u : ParserUse) : MidiFileParser.t :=
  match u with
  | UseOpen file => snd (MidiFileParser.open file p)
  | UseClose => MidiFileParser.close p
  | UseCall c => runCall p c
  end.

Definition runUses (uses : list ParserUse) (p : MidiFileParser.t)
  : MidiFileParser.t :=
  fold_left runUse uses p.

(** [sample_three_tracks] is opened, three events are read, then
    [reset]. *)
Definition sample_read3_reset : list ParserUse :=
  [UseOpen (Some (mkFile sample_three_tracks 0));
   UseCall (CallReadNextEvent MidiEvent_new);
   UseCall (CallReadNextEvent MidiEvent_new);
   UseCall (CallReadNextEvent MidiEvent_new); UseCall CallReset].

(** *** Further vocabulary of the header, the cache and the output

    The track count the header declares. *)
Definition declaredTracks (fd : list Z) : Z :=
  be16 (byteAt fd 10) (byteAt fd 11).

(** Some entry of the list carries the name. *)
Definition named (name : String.string)
    (es : list LengthCache.FileLengthCacheEntry) : bool :=
  existsb (fun e => LengthCache.strcmp0 (LengthCache.filename e) name) es.



(** ** Deciding the byte-stream view

    Boolean versions of [windowInSync], [windowEmpty], [trackCoherent]
    and [streamAt], to establish them on a concrete parser state by
    evaluation. *)

Definition windowInSyncb (tr : TrackState) (fd : list Z) : bool :=
  (0 <=? bufferSize tr) && (bufferSize tr <=? 512)
  && (0 <=? bufferPos tr) && (bufferPos tr <=? bufferSize tr)
  && (0 <=? bufferFilePos tr)
  && (bufferFilePos tr + bufferSize tr <=? trackEndPos tr)
  && (filePosition tr =? bufferFilePos tr + bufferPos tr)
  && forallb
       (fun j => nth j (buffer tr) 0
                 =? byteAt fd (trackStartPos tr + bufferFilePos tr + Z.of_nat j))
       (seq 0 (Z.to_nat (bufferSize tr))).

Definition windowEmptyb (tr : TrackState) : bool :=
  (bufferSize tr =? 0) && (0 <=? bufferPos tr) && (bufferPos tr <? 65536).

Definition trackCoherentb (tr : TrackState) (fd : list Z) : bool :=
  (0 <=? trackStartPos tr)
  && (0 <=? filePosition tr) && (filePosition tr <=? trackEndPos tr)
  && (trackStartPos tr + trackEndPos tr <=? Z.of_nat (length fd))
  && (Z.of_nat (length fd) <? 4294967296)
  && (windowInSyncb tr fd || windowEmptyb tr).

Definition streamAtb (k : Z) (p : MidiFileParser.t) (fd rest : list Z) : bool :=
  (0 <=? k) && (k <? MidiFileParser.numTracks p)
  && (Z.to_nat k <? length (MidiFileParser.tracks p))%nat
  && match MidiFileParser.midiFile p with
     | Some f => bytes_eqb (fdata f) fd
     | None => false
     end
  && trackCoherentb (MidiFileParser.getTrack k p) fd
  && bytes_eqb (trackRest (MidiFileParser.getTrack k p) fd) rest.

(** The parser after [n] calls of [readTrackEvent] for track [k]. *)
Fixpoint afterEvents (n : nat) (k : Z) (p : MidiFileParser.t)
  : MidiFileParser.t :=
  match n with
  | O => p
  | S n' =>
      afterEvents n' k (snd (MidiFileParser.readTrackEvent k MidiEvent_new p))
  end.


(** * Properties *)

(** Closed side conditions are settled by evaluation. *)
Ltac by_evaluation :=
  vm_compute; repeat split; try reflexivity; try discriminate;
  intros; discriminate.

(** ** Arithmetic helpers *)

Lemma u32_small (x : Z) : 0 <= x < 4294967296 -> u32 x = x.
Proof. intros H. unfold u32. apply Z.mod_small. exact H. Qed.

Lemma u16_small (x : Z) : 0 <= x < 65536 -> u16 x = x.
Proof. intros H. unfold u16. apply Z.mod_small. exact H. Qed.

Lemma u8_small (x : Z) : 0 <= x < 256 -> u8 x = x.
Proof. intros H. unfold u8. apply Z.mod_small. exact H. Qed.

Lemma u64_small (x : Z) : 0 <= x < 18446744073709551616 -> u64 x = x.
Proof. intros H. unfold u64. apply Z.mod_small. exact H. Qed.

Lemma u32_range (x : Z) : 0 <= u32 x < 4294967296.
Proof. unfold u32. apply Z.mod_pos_bound. lia. Qed.

Lemma u16_range (x : Z) : 0 <= u16 x < 65536.
Proof. unfold u16. apply Z.mod_pos_bound. lia. Qed.

Lemma u8_range (x : Z) : 0 <= u8 x < 256.
Proof. unfold u8. apply Z.mod_pos_bound. lia. Qed.

Lemma In_firstn_In {A : Type} (x : A) (n : nat) (l : list A) :
  In x (firstn n l) -> In x l.
Proof.
  intros H. rewrite <- (firstn_skipn n l). apply in_or_app. left. exact H.
Qed.

(** ** Tempo: microseconds per tick *)

Lemma scaled_tempo_fits (mpq pc : Z) :
  100000 <= mpq <= 10000000 -> 500 <= pc <= 2000 ->
  u32 (u64 (mpq * 1000) / pc) = mpq * 1000 / pc.
Proof.
  intros Hm Hp.
  rewrite u64_small by lia.
  apply u32_small. split.
  - apply Z.div_pos; lia.
  - apply Z.div_lt_upper_bound; lia.
Qed.

Lemma microsecondsPerTick_formula (p : MidiPlayer.t) :
  100000 <= tempo (MidiFileParser.fileInfo (MidiPlayer.parser p)) <= 10000000 ->
  0 < ticksPerQuarter (MidiFileParser.fileInfo (MidiPlayer.parser p)) ->
  500 <= MidiPlayer.tempoPercent p <= 2000 ->
  MidiPlayer.microsecondsPerTick (MidiPlayer.calculateMicrosecondsPerTick p)
  = (tempo (MidiFileParser.fileInfo (MidiPlayer.parser p)) * 1000)
    / (MidiPlayer.tempoPercent p
       * ticksPerQuarter (MidiFileParser.fileInfo (MidiPlayer.parser p))).
Proof.
  intros Ht Hd Hp.
  unfold MidiPlayer.calculateMicrosecondsPerTick, MidiFileParser.getFileInfo.
  cbn [MidiPlayer.microsecondsPerTick MidiPlayer.set_microsecondsPerTick].
  rewrite scaled_tempo_fits by assumption.
  apply Z.div_div; lia.
Qed.

(** C3. With the tempo percentage (in tenths of a percent) in 500..2000,
    a positive division and a stored tempo in 100000..10000000 microseconds
    per quarter note, [calculateMicrosecondsPerTick] stores exactly
    floor((microsPerQuarter * 1000) / (tempoPercent * division)): nothing
    wraps in the 64-bit product or in the 32-bit quotient. *)
Theorem calculateMicrosecondsPerTick_exact (p : MidiPlayer.t) :
  100000 <= tempo (MidiFileParser.fileInfo (MidiPlayer.parser p)) <= 10000000 ->
  0 < ticksPerQuarter (MidiFileParser.fileInfo (MidiPlayer.parser p)) ->
  500 <= MidiPlayer.tempoPercent p <= 2000 ->
  MidiPlayer.microsecondsPerTick (MidiPlayer.calculateMicrosecondsPerTick p)
  = (tempo (MidiFileParser.fileInfo (MidiPlayer.parser p)) * 1000)
    / (MidiPlayer.tempoPercent p
       * ticksPerQuarter (MidiFileParser.fileInfo (MidiPlayer.parser p))).
Proof. exact (microsecondsPerTick_formula p). Qed.

Lemma calculateMicrosecondsPerTick_exact_witness :
  100000 <= 500000 <= 10000000 /\ 0 < 96 /\ 500 <= 1000 <= 2000
  /\ MidiPlayer.microsecondsPerTick
       (MidiPlayer.calculateMicrosecondsPerTick
          (MidiPlayer.set_tempoPercent 1000 sample_player))
     = (500000 * 1000) / (1000 * 96).
Proof.
  split; [lia|]. split; [lia|]. split; [lia|].
  apply (calculateMicrosecondsPerTick_exact
           (MidiPlayer.set_tempoPercent 1000 sample_player));
    vm_compute; try split; intros; discriminate.
Defined.

(** [setTempoPercent] keeps a percentage within 500..2000 as it is and
    recomputes the tick length from it. *)
Lemma setTempoPercent_exact (percent : Z) (p : MidiPlayer.t) :
  100000 <= tempo (MidiFileParser.fileInfo (MidiPlayer.parser p)) <= 10000000 ->
  0 < ticksPerQuarter (MidiFileParser.fileInfo (MidiPlayer.parser p)) ->
  500 <= percent <= 2000 ->
  MidiPlayer.tempoPercent (MidiPlayer.setTempoPercent percent p) = percent
  /\ MidiPlayer.microsecondsPerTick (MidiPlayer.setTempoPercent percent p)
     = (tempo (MidiFileParser.fileInfo (MidiPlayer.parser p)) * 1000)
       / (percent
          * ticksPerQuarter (MidiFileParser.fileInfo (MidiPlayer.parser p))).
Proof.
  intros Ht Hd Hp.
  assert (Hclamp : (if 2000 <? (if percent <? 500 then 500 else percent)
                    then 2000 else (if percent <? 500 then 500 else percent))
                   = percent).
  { destruct (percent <? 500) eqn:E1; [apply Z.ltb_lt in E1; lia|].
    destruct (2000 <? percent) eqn:E2; [apply Z.ltb_lt in E2; lia|].
    reflexivity. }
  unfold MidiPlayer.setTempoPercent. rewrite Hclamp. split; [reflexivity|].
  apply (microsecondsPerTick_formula
           (MidiPlayer.set_tempoPercent percent p)); assumption.
Qed.

(** ** NoteOn velocity scaling *)

Lemma transposeNote_range (ev : MidiEvent) (p : MidiPlayer.t) :
  0 <= MidiPlayer.transposeNote ev p <= 127.
Proof.
  unfold MidiPlayer.transposeNote.
  set (n := data1 ev + _).
  destruct (n <? 0) eqn:E1.
  - rewrite u8_small; cbn; lia.
  - apply Z.ltb_ge in E1.
    destruct (127 <? n) eqn:E2.
    + rewrite u8_small; lia.
    + apply Z.ltb_ge in E2. rewrite u8_small; lia.
Qed.

Lemma velocity_formula_range (v s c : Z) : 1 <= velocity_formula v s c <= 127.
Proof. unfold velocity_formula. lia. Qed.

Lemma scaledVelocity_code (v s c : Z) :
  0 <= v <= 255 -> 0 <= s <= 255 -> 0 <= c <= 255 ->
  let sv := u16 ((v * s * 2) / 100) in
  let sv := if negb (c =? 0) then u16 ((sv * c) / 100) else sv in
  let sv := if 127 <? sv then 127 else sv in
  let sv := if sv <? 1 then 1 else sv in
  u8 sv = velocity_formula v s c.
Proof.
  intros Hv Hs Hc. cbv zeta.
  assert (H1 : 0 <= (v * s * 2) / 100 <= 1301).
  { split.
    - apply Z.div_pos; nia.
    - apply Z.div_le_upper_bound; nia. }
  rewrite (u16_small ((v * s * 2) / 100)) by lia.
  unfold velocity_formula.
  destruct (c =? 0) eqn:Ec; cbn [negb].
  - destruct (127 <? v * s * 2 / 100) eqn:E1.
    + apply Z.ltb_lt in E1. rewrite u8_small; cbn; lia.
    + apply Z.ltb_ge in E1.
      destruct (v * s * 2 / 100 <? 1) eqn:E2.
      * apply Z.ltb_lt in E2. rewrite u8_small; cbn; lia.
      * apply Z.ltb_ge in E2. rewrite u8_small; lia.
  - apply Z.eqb_neq in Ec.
    assert (H2 : 0 <= (v * s * 2 / 100 * c) / 100 <= 3400).
    { split.
      - apply Z.div_pos; nia.
      - apply Z.div_le_upper_bound; nia. }
    rewrite (u16_small (v * s * 2 / 100 * c / 100)) by lia.
    destruct (127 <? v * s * 2 / 100 * c / 100) eqn:E1.
    + apply Z.ltb_lt in E1. rewrite u8_small; cbn; lia.
    + apply Z.ltb_ge in E1.
      destruct (v * s * 2 / 100 * c / 100 <? 1) eqn:E2.
      * apply Z.ltb_lt in E2. rewrite u8_small; cbn; lia.
      * apply Z.ltb_ge in E2. rewrite u8_small; lia.
Qed.

Lemma sendMidiEvent_noteOn (ev : MidiEvent) (p : MidiPlayer.t) (o : MidiOutput.t) :
  MidiPlayer.midiOut p = Some o ->
  isMetaEvent ev = false ->
  type ev = MIDI_NOTE_ON ->
  0 <= channel ev < 16 ->
  MidiPlayer.isChannelMuted (channel ev) p = false ->
  0 <= data2 ev <= 255 ->
  0 <= MidiPlayer.velocityScale p <= 255 ->
  0 <= nth (Z.to_nat (channel ev)) (MidiPlayer.channelVelocities p) 0 <= 255 ->
  MidiPlayer.sendMidiEvent ev p
  = MidiPlayer.set_midiOut
      (Some (if data2 ev =? 0
             then MidiOutput.sendNoteOff (outputChannel ev p)
                    (MidiPlayer.transposeNote ev p) 0 o
             else MidiOutput.sendNoteOn (outputChannel ev p)
                    (MidiPlayer.transposeNote ev p)
                    (velocity_formula (data2 ev) (MidiPlayer.velocityScale p)
                       (nth (Z.to_nat (channel ev))
                          (MidiPlayer.channelVelocities p) 0)) o)) p.
Proof.
  intros Ho Hmeta Hty Hch Hmute Hv Hs Hc.
  unfold MidiPlayer.sendMidiEvent. rewrite Ho, Hmeta. cbn [andb].
  replace (16 <=? channel ev) with false by (symmetry; apply Z.leb_gt; lia).
  unfold MidiPlayer.isChannelMuted in Hmute.
  replace (16 <=? channel ev) with false in Hmute
    by (symmetry; apply Z.leb_gt; lia).
  rewrite Hmute. cbn [andb]. rewrite Hty.
  change (MIDI_NOTE_ON =? MIDI_NOTE_OFF) with false.
  change (MIDI_NOTE_ON =? MIDI_NOTE_ON) with true. cbv iota.
  assert (Hroute :
    (if negb (nth (Z.to_nat (channel ev)) (MidiPlayer.userChannelRouting p) 0
              =? 255)
     then u8 (nth (Z.to_nat (channel ev)) (MidiPlayer.userChannelRouting p) 0
              + 1)
     else u8 (channel ev + 1)) = outputChannel ev p).
  { unfold outputChannel.
    destruct (nth (Z.to_nat (channel ev)) (MidiPlayer.userChannelRouting p) 0
              =? 255); reflexivity. }
  rewrite Hroute.
  destruct (data2 ev =? 0) eqn:Ez.
  - unfold MidiPlayer.toOutput. rewrite Ho. reflexivity.
  - unfold MidiPlayer.toOutput. rewrite Ho. cbn [option_map].
    pose proof (scaledVelocity_code (data2 ev) (MidiPlayer.velocityScale p)
                  (nth (Z.to_nat (channel ev)) (MidiPlayer.channelVelocities p)
                     0) Hv Hs Hc) as Hsv.
    cbv zeta in Hsv. rewrite Hsv. reflexivity.
Qed.

(** C2. A NoteOn that reaches the emit stage (a channel event on channel
    0..15 that the mute gate lets through, an output being attached) with
    velocity v > 0 is handed to the output as a NoteOn whose velocity is
    [velocity_formula]: (v * velocityScale * 2) / 100, then times the
    channel percentage over 100 exactly when that percentage is not 0, then
    clamped to 1..127, in exact integer arithmetic (so for velocityScale = 50
    the velocity goes through v * 50 * 2 / 100).  With velocity 0 it is
    handed over as a NoteOff with velocity 0.  When the outgoing channel is
    a MIDI channel (1..16) the message is the one appended to the output
    stream. *)
Theorem noteOn_velocity_scaling (ev : MidiEvent) (p : MidiPlayer.t)
  (o : MidiOutput.t) :
  MidiPlayer.midiOut p = Some o ->
  isMetaEvent ev = false ->
  type ev = MIDI_NOTE_ON ->
  0 <= channel ev < 16 ->
  MidiPlayer.isChannelMuted (channel ev) p = false ->
  0 <= data2 ev <= 255 ->
  0 <= MidiPlayer.velocityScale p <= 255 ->
  0 <= nth (Z.to_nat (channel ev)) (MidiPlayer.channelVelocities p) 0 <= 255 ->
  (0 < data2 ev ->
   MidiPlayer.midiOut (MidiPlayer.sendMidiEvent ev p)
   = Some (MidiOutput.sendNoteOn (outputChannel ev p)
             (MidiPlayer.transposeNote ev p)
             (velocity_formula (data2 ev) (MidiPlayer.velocityScale p)
                (nth (Z.to_nat (channel ev)) (MidiPlayer.channelVelocities p) 0))
             o)
   /\ (1 <= outputChannel ev p <= 16 ->
       MidiPlayer.midiOut (MidiPlayer.sendMidiEvent ev p)
       = Some (o ++ [NoteOn (outputChannel ev p)
                       (MidiPlayer.transposeNote ev p)
                       (velocity_formula (data2 ev)
                          (MidiPlayer.velocityScale p)
                          (nth (Z.to_nat (channel ev))
                             (MidiPlayer.channelVelocities p) 0))])))
  /\ (data2 ev = 0 ->
      MidiPlayer.midiOut (MidiPlayer.sendMidiEvent ev p)
      = Some (MidiOutput.sendNoteOff (outputChannel ev p)
                (MidiPlayer.transposeNote ev p) 0 o)
      /\ (1 <= outputChannel ev p <= 16 ->
          MidiPlayer.midiOut (MidiPlayer.sendMidiEvent ev p)
          = Some (o ++ [NoteOff (outputChannel ev p)
                          (MidiPlayer.transposeNote ev p) 0]))).
Proof.
  intros Ho Hmeta Hty Hch Hmute Hv Hs Hc.
  rewrite (sendMidiEvent_noteOn ev p o Ho Hmeta Hty Hch Hmute Hv Hs Hc).
  cbn [MidiPlayer.midiOut MidiPlayer.set_midiOut].
  pose proof (transposeNote_range ev p) as Hn.
  pose proof (velocity_formula_range (data2 ev) (MidiPlayer.velocityScale p)
                (nth (Z.to_nat (channel ev)) (MidiPlayer.channelVelocities p) 0))
    as Hvel.
  split.
  - intros Hpos.
    replace (data2 ev =? 0) with false by (symmetry; apply Z.eqb_neq; lia).
    split; [reflexivity|].
    intros Hout. unfold MidiOutput.sendNoteOn, MidiOutput.badChannel.
    replace (outputChannel ev p <? 1) with false
      by (symmetry; apply Z.ltb_ge; lia).
    replace (16 <? outputChannel ev p) with false
      by (symmetry; apply Z.ltb_ge; lia).
    replace (127 <? MidiPlayer.transposeNote ev p) with false
      by (symmetry; apply Z.ltb_ge; lia).
    replace (127 <? velocity_formula _ _ _) with false
      by (symmetry; apply Z.ltb_ge; lia).
    reflexivity.
  - intros Hz. rewrite Hz. cbn [Z.eqb].
    split; [reflexivity|].
    intros Hout. unfold MidiOutput.sendNoteOff, MidiOutput.badChannel.
    replace (outputChannel ev p <? 1) with false
      by (symmetry; apply Z.ltb_ge; lia).
    replace (16 <? outputChannel ev p) with false
      by (symmetry; apply Z.ltb_ge; lia).
    replace (127 <? MidiPlayer.transposeNote ev p) with false
      by (symmetry; apply Z.ltb_ge; lia).
    reflexivity.
Qed.

Lemma noteOn_velocity_scaling_witness :
  0 < data2 sample_noteOn
  /\ MidiPlayer.midiOut (MidiPlayer.sendMidiEvent sample_noteOn sample_player)
     = Some [NoteOn 1 60 100].
Proof.
  split; [reflexivity|].
  refine (proj2 (proj1 (noteOn_velocity_scaling sample_noteOn sample_player []
                          _ _ _ _ _ _ _ _) _) _);
    by_evaluation.
Defined.

(** ** The file length cache *)

Section Cache.
Import LengthCache.

Lemma substring_all (s : String.string) (m : nat) :
  (String.length s <= m)%nat -> String.substring 0 m s = s.
Proof.
  revert m. induction s as [|a s IH]; intros m Hm.
  - destruct m; reflexivity.
  - destruct m as [|m]; cbn in Hm; [lia|].
    cbn. rewrite IH by lia. reflexivity.
Qed.

Lemma strncpy63_short (n : String.string) :
  (String.length n <= 63)%nat -> strncpy63 n = n.
Proof. intros H. unfold strncpy63. apply substring_all. exact H. Qed.

Lemma updateExisting_None (es : list FileLengthCacheEntry) name m L S :
  updateExisting es name m L S = None -> unnamed name es.
Proof.
  induction es as [|e es IH]; intros H x Hx; [destruct Hx|].
  cbn in H. destruct (strcmp0 (filename e) name) eqn:E; [discriminate|].
  destruct (updateExisting es name m L S) eqn:U; [discriminate|].
  destruct Hx as [<-|Hx]; [exact E | apply IH; [reflexivity | exact Hx]].
Qed.

Lemma updateExisting_Some (es es' : list FileLengthCacheEntry) name m L S :
  updateExisting es name m L S = Some es' ->
  exists l1 e l2,
    es = l1 ++ e :: l2 /\ es' = l1 ++ mkEntry (filename e) m L S :: l2
    /\ unnamed name l1 /\ strcmp0 (filename e) name = true.
Proof.
  revert es'. induction es as [|e es IH]; intros es' H; [discriminate|].
  cbn in H. destruct (strcmp0 (filename e) name) eqn:E.
  - injection H as <-. exists [], e, es. repeat split; auto.
    intros x [].
  - destruct (updateExisting es name m L S) as [r|] eqn:U; [|discriminate].
    injection H as <-.
    destruct (IH r eq_refl) as (l1 & e0 & l2 & -> & -> & Hl1 & He0).
    exists (e :: l1), e0, l2. repeat split; auto.
    intros x [<-|Hx]; [exact E | apply Hl1; exact Hx].
Qed.

Lemma searchCache_skip (l1 l2 : list FileLengthCacheEntry) name m out :
  unnamed name l1 ->
  searchCache (l1 ++ l2) name m out = searchCache l2 name m out.
Proof.
  induction l1 as [|e l1 IH]; intros H; [reflexivity|].
  cbn. rewrite (H e (or_introl eq_refl)).
  apply IH. intros x Hx. apply H. right. exact Hx.
Qed.

Lemma unnamed_firstn_tl (name : String.string) (es : list FileLengthCacheEntry)
  (k : nat) : unnamed name es -> unnamed name (firstn k (tl es)).
Proof.
  intros H x Hx. apply H.
  apply In_firstn_In in Hx. destruct es; [destruct Hx | right; exact Hx].
Qed.

(** What [cacheFileLength] leaves in the array: the entry for the name is
    the first one a search for that name meets. *)
Lemma cacheFileLength_shape (name : String.string) (m L S : Z) (c : t) :
  (String.length name <= 63)%nat ->
  exists l1 e l2,
    lengthCache (cacheFileLength name m L S c) = l1 ++ e :: l2
    /\ unnamed name l1
    /\ strcmp0 (filename e) name = true
    /\ modtime e = m /\ lengthTicks e = L /\ sysexCount e = S.
Proof.
  intros Hlen. unfold cacheFileLength.
  destruct (updateExisting (lengthCache (ensureLoaded c)) name m L S)
    as [es|] eqn:U.
  - destruct (updateExisting_Some _ _ _ _ _ _ U)
      as (l1 & e & l2 & _ & -> & Hl1 & He).
    exists l1, (mkEntry (filename e) m L S), l2.
    split; [reflexivity|]. split; [exact Hl1|]. split; [exact He|].
    cbn. auto.
  - pose proof (updateExisting_None _ _ _ _ _ U) as Hun.
    assert (Hnew : strcmp0 (filename (mkEntry (strncpy63 name) m L S)) name
                   = true).
    { cbn. rewrite strncpy63_short by exact Hlen. apply String.eqb_refl. }
    destruct (cacheSize (ensureLoaded c) <? MAX_CACHE_ENTRIES).
    + exists (lengthCache (ensureLoaded c)),
        (mkEntry (strncpy63 name) m L S), [].
      split; [reflexivity|]. split; [exact Hun|]. split; [exact Hnew|].
      cbn. auto.
    + exists (firstn 499 (tl (lengthCache (ensureLoaded c)))),
        (mkEntry (strncpy63 name) m L S),
        (skipn 500 (lengthCache (ensureLoaded c))).
      split; [reflexivity|].
      split; [apply unnamed_firstn_tl; exact Hun|].
      split; [exact Hnew|]. cbn. auto.
Qed.

Lemma cacheFileLength_loaded (name : String.string) (m L S : Z) (c : t) :
  cacheLoaded (cacheFileLength name m L S c) = true.
Proof.
  unfold cacheFileLength.
  assert (H : cacheLoaded (ensureLoaded c) = true).
  { unfold ensureLoaded. destruct (cacheLoaded c) eqn:E; [exact E | reflexivity]. }
  destruct (updateExisting _ _ _ _ _); [exact H|].
  destruct (_ <? _); exact H.
Qed.

(** In a list with distinct names, a search under a name of the list
    compares the time stamp of that very entry. *)
Lemma searchCache_unique (es : list FileLengthCacheEntry)
  (e : FileLengthCacheEntry) (m : Z) (out : option Z) :
  NoDup (map filename es) -> In e es ->
  searchCache es (filename e) m out
  = if modtime e =? m
    then (lengthTicks e, option_map (fun _ => sysexCount e) out)
    else (0, out).
Proof.
  induction es as [|x es IH]; intros Hnd Hin; [destruct Hin|].
  cbn in Hnd. inversion Hnd as [|? ? Hx Hnd']; subst.
  cbn. destruct Hin as [->|Hin].
  - unfold strcmp0. rewrite String.eqb_refl. reflexivity.
  - destruct (strcmp0 (filename x) (filename e)) eqn:E.
    + unfold strcmp0 in E. apply String.eqb_eq in E.
      exfalso. apply Hx. rewrite E. apply in_map. exact Hin.
    + apply IH; assumption.
Qed.

End Cache.

Section CacheClaims.
Import LengthCache.

(** Insertion under a name of at most 63 characters keeps the names of the
    stored entries distinct. *)
Lemma cacheFileLength_names_distinct (name : String.string) (m L S : Z) (c : t) :
  (String.length name <= 63)%nat ->
  (length (lengthCache (ensureLoaded c)) <= 500)%nat ->
  NoDup (map filename (lengthCache (ensureLoaded c))) ->
  NoDup (map filename (lengthCache (cacheFileLength name m L S c))).
Proof.
  intros Hlen Hsz Hnd. unfold cacheFileLength.
  destruct (updateExisting (lengthCache (ensureLoaded c)) name m L S)
    as [es|] eqn:U.
  - destruct (updateExisting_Some _ _ _ _ _ _ U)
      as (l1 & e & l2 & Heq & -> & _ & _).
    cbn. rewrite Heq in Hnd. rewrite map_app in *. exact Hnd.
  - pose proof (updateExisting_None _ _ _ _ _ U) as Hun.
    assert (Hfresh : forall l, unnamed name l -> ~ In name (map filename l)).
    { intros l Hl Hin. apply in_map_iff in Hin.
      destruct Hin as (x & Hx & Hin). specialize (Hl x Hin).
      unfold strcmp0 in Hl. rewrite Hx, String.eqb_refl in Hl. discriminate. }
    assert (Hsnoc : forall l, NoDup (map filename l) -> unnamed name l ->
              NoDup (map filename (l ++ [mkEntry (strncpy63 name) m L S]))).
    { intros l Hl Hu. rewrite map_app. cbn.
      rewrite strncpy63_short by exact Hlen.
      apply NoDup_app.
      - exact Hl.
      - constructor; [intros [] | constructor].
      - intros a Ha [<-|[]]. exact (Hfresh l Hu Ha). }
    destruct (cacheSize (ensureLoaded c) <? MAX_CACHE_ENTRIES) eqn:E.
    + cbn [lengthCache]. apply Hsnoc; assumption.
    + cbn [lengthCache].
      rewrite (skipn_all2 (lengthCache (ensureLoaded c))) by lia.
      apply Hsnoc.
      * destruct (lengthCache (ensureLoaded c)) as [|x l]; cbn [tl].
        { rewrite firstn_nil. constructor. }
        cbn in Hnd. inversion Hnd as [|? ? _ Hl]; subst.
        rewrite <- (firstn_skipn 499 l), map_app in Hl.
        apply NoDup_app_remove_r in Hl. exact Hl.
      * apply unnamed_firstn_tl. exact Hun.
Qed.

Lemma cacheFileLength_bound (name : String.string) (m L S : Z) (c : t) :
  (length (lengthCache (ensureLoaded c)) <= 500)%nat ->
  (length (lengthCache (cacheFileLength name m L S c)) <= 500)%nat.
Proof.
  intros H. unfold cacheFileLength.
  destruct (updateExisting (lengthCache (ensureLoaded c)) name m L S)
    as [es|] eqn:U.
  - destruct (updateExisting_Some _ _ _ _ _ _ U)
      as (l1 & e & l2 & Heq & -> & _ & _).
    cbn [lengthCache]. rewrite Heq in H.
    rewrite length_app in *. cbn [length] in *. exact H.
  - unfold MAX_CACHE_ENTRIES, cacheSize.
    destruct (Z.ltb_spec (Z.of_nat (length (lengthCache (ensureLoaded c)))) 500)
      as [Hlt|Hge]; cbn [lengthCache].
    + rewrite length_app. cbn [length]. lia.
    + rewrite length_app. cbn [length].
      rewrite length_firstn, length_skipn.
      destruct (lengthCache (ensureLoaded c)) as [|x l];
        cbn [length tl] in *; lia.
Qed.

Lemma ensureLoaded_loaded (c : t) : cacheLoaded c = true -> ensureLoaded c = c.
Proof. intros H. unfold ensureLoaded. rewrite H. reflexivity. Qed.

(** A cache that is empty once loaded and is then filled by
    [cacheFileLength] calls under names of at most 63 characters holds at
    most 500 entries, with distinct names. *)
Lemma cacheAll_names_distinct (ins : list CacheInsert) :
  forall c,
  Forall (fun i => (String.length (ins_name i) <= 63)%nat) ins ->
  (length (lengthCache (ensureLoaded c)) <= 500)%nat ->
  NoDup (map filename (lengthCache (ensureLoaded c))) ->
  (length (lengthCache (ensureLoaded (cacheAll ins c))) <= 500)%nat
  /\ NoDup (map filename (lengthCache (ensureLoaded (cacheAll ins c)))).
Proof.
  induction ins as [|i ins IH]; intros c Hs Hl Hn; [split; assumption|].
  inversion Hs as [|? ? Hi Hs']; subst.
  cbn [cacheAll fold_left]. apply IH; [exact Hs'| |].
  - rewrite ensureLoaded_loaded by apply cacheFileLength_loaded.
    apply cacheFileLength_bound. exact Hl.
  - rewrite ensureLoaded_loaded by apply cacheFileLength_loaded.
    apply cacheFileLength_names_distinct; assumption.
Qed.

(** C9.  Names reach the cache as the base name of a directory entry read
    into a 64-byte buffer, so they have at most 63 characters, which is what
    the name field of an entry holds.  For such a name, a lookup right after
    [cacheFileLength name m L S] returns [L] and stores [S] through
    [outSysexCount], and a lookup of the same name under another time stamp
    returns 0, the value that stands for "absent", and leaves
    [*outSysexCount] alone.  For every entry stored in a cache that was
    empty and has been filled by [cacheFileLength] calls under such names, a
    lookup of its name under its time stamp returns its length and SysEx
    count, and under another time stamp returns 0 in the same way; the
    latter holds in any loaded cache whose entries have distinct names. *)
Theorem cache_insert_then_lookup (name : String.string) (m L S : Z)
  (out : option Z) (c : t) :
  (String.length name <= 63)%nat ->
  fst (getCachedFileLength name m out (cacheFileLength name m L S c))
  = (L, option_map (fun _ => S) out)
  /\ (forall m', m' <> m ->
      fst (getCachedFileLength name m' out (cacheFileLength name m L S c))
      = (0, out))
  /\ (forall e m',
      cacheLoaded c = true ->
      NoDup (map filename (lengthCache c)) ->
      In e (lengthCache c) ->
      m' <> modtime e ->
      fst (getCachedFileLength (filename e) m' out c) = (0, out))
  /\ (forall ins c0 e m',
      lengthCache (ensureLoaded c0) = [] ->
      Forall (fun i => (String.length (ins_name i) <= 63)%nat) ins ->
      In e (lengthCache (ensureLoaded (cacheAll ins c0))) ->
      (fst (getCachedFileLength (filename e) (modtime e) out (cacheAll ins c0))
       = (lengthTicks e, option_map (fun _ => sysexCount e) out))
      /\ (m' <> modtime e ->
          fst (getCachedFileLength (filename e) m' out (cacheAll ins c0))
          = (0, out))).
Proof.
  intros Hlen.
  destruct (cacheFileLength_shape name m L S c Hlen)
    as (l1 & e & l2 & Hshape & Hl1 & He & Hm & HL & HS).
  assert (Hload : ensureLoaded (cacheFileLength name m L S c)
                  = cacheFileLength name m L S c).
  { unfold ensureLoaded. rewrite cacheFileLength_loaded. reflexivity. }
  split; [|split; [|split]].
  - unfold getCachedFileLength. cbn [fst]. rewrite Hload, Hshape.
    rewrite searchCache_skip by exact Hl1.
    cbn. rewrite He, Hm, Z.eqb_refl, HL, HS. reflexivity.
  - intros m' Hm'. unfold getCachedFileLength. cbn [fst].
    rewrite Hload, Hshape.
    rewrite searchCache_skip by exact Hl1.
    cbn. rewrite He, Hm.
    replace (m =? m') with false by (symmetry; apply Z.eqb_neq; lia).
    reflexivity.
  - intros x m' Hc Hnd Hin Hm'. unfold getCachedFileLength. cbn [fst].
    unfold ensureLoaded. rewrite Hc.
    rewrite searchCache_unique by assumption.
    replace (modtime x =? m') with false by (symmetry; apply Z.eqb_neq; lia).
    reflexivity.
  - intros ins c0 x m' Hempty Hshort Hin.
    destruct (cacheAll_names_distinct ins c0 Hshort) as (_ & Hnd).
    { rewrite Hempty. cbn. lia. }
    { rewrite Hempty. constructor. }
    unfold getCachedFileLength. cbn [fst].
    rewrite !searchCache_unique by assumption.
    rewrite Z.eqb_refl. split; [reflexivity|].
    intros Hm'.
    replace (modtime x =? m') with false by (symmetry; apply Z.eqb_neq; lia).
    reflexivity.
Qed.

End CacheClaims.

Lemma cache_insert_then_lookup_witness :
  (String.length sample_name <= 63)%nat
  /\ fst (LengthCache.getCachedFileLength sample_name 7 (Some 0)
            (LengthCache.cacheFileLength sample_name 7 1000 3 sample_cache))
     = (1000, Some 3)
  /\ fst (LengthCache.getCachedFileLength sample_name 8 (Some 0)
            (LengthCache.cacheFileLength sample_name 7 1000 3 sample_cache))
     = (0, Some 0)
  /\ fst (LengthCache.getCachedFileLength "song.mid"%string 7 (Some 0)
            (cacheAll sample_inserts sample_cache))
     = (0, Some 0)
  /\ fst (LengthCache.getCachedFileLength "song.mid"%string 8 (Some 0)
            (cacheAll sample_inserts sample_cache))
     = (1200, Some 4).
Proof.
  assert (H : (String.length sample_name <= 63)%nat) by (cbn; lia).
  assert (H1 : LengthCache.lengthCache (LengthCache.ensureLoaded sample_cache)
               = []) by reflexivity.
  assert (H2 : Forall (fun i => (String.length (ins_name i) <= 63)%nat)
                 sample_inserts).
  { repeat constructor; cbn; lia. }
  assert (H3 : In (LengthCache.mkEntry "song.mid"%string 8 1200 4)
                 (LengthCache.lengthCache
                    (LengthCache.ensureLoaded
                       (cacheAll sample_inserts sample_cache))))
    by (vm_compute; left; reflexivity).
  assert (H4 : 7 <> 8) by lia.
  destruct (cache_insert_then_lookup sample_name 7 1000 3 (Some 0)
              sample_cache H) as (T1 & T2 & _ & T4).
  split; [exact H|]. split; [exact T1|].
  split; [apply T2; lia|].
  destruct (T4 sample_inserts sample_cache
              (LengthCache.mkEntry "song.mid"%string 8 1200 4) 7 H1 H2 H3)
    as (T5 & T6).
  split; [exact (T6 H4)|exact T5].
Defined.

(** Why the bound on the name: were a name of more than 63 characters
    passed, the entry would be stored under the first 63 of them, and the
    lookup, which compares with the whole name, would not find it. *)
Lemma cache_lookup_misses_long_name :
  fst (LengthCache.getCachedFileLength sample_long_name 7 (Some 0)
         (LengthCache.cacheFileLength sample_long_name 7 1000 3 sample_cache))
  = (0, Some 0)
  /\ fst (LengthCache.getCachedFileLength sample_long_name 7 (Some 0)
            (LengthCache.cacheFileLength sample_long_name 7 1000 3
               sample_cache))
     <> (1000, Some 3).
Proof. split; [reflexivity | discriminate]. Qed.

(** ** A reset parser and a newly opened one

    [reset] reads the header and the tracks again as [open] does, on a
    parser that differs from the one [open] works on in the file
    information, the file length and the end flag; none of the reads looks
    at these. *)

Section SameTracks.
Import MidiFileParser.

Lemma sameTracks_refl (p : t) : sameTracks p p.
Proof. unfold sameTracks. auto. Qed.

Lemma sameTracks_sym (p q : t) : sameTracks p q -> sameTracks q p.
Proof. unfold sameTracks. intros (A & B & C & E). auto. Qed.

Lemma sameTracks_trans (p q r : t) :
  sameTracks p q -> sameTracks q r -> sameTracks p r.
Proof.
  unfold sameTracks. intros (A & B & C & E) (A' & B' & C' & E').
  repeat split; congruence.
Qed.






Lemma sameTracks_set_allTracksEnded (b c : bool) (p q : t) :
  sameTracks p q ->
  sameTracks (set_allTracksEnded b p) (set_allTracksEnded c q).
Proof. intros H. exact H. Qed.

Lemma sameTracks_setFileLengthTicks (l : Z) (p q : t) :
  sameTracks p q -> sameTracks p (setFileLengthTicks l q).
Proof. intros H. exact H. Qed.

(** ** The reads of the header *)






(** ** Reading a track *)













(** ** The tracks of a file, and the merge *)





(** ** The end flag is written by [readNextEvent], [reset] and [open]
    only *)
























End SameTracks.

(** *** What [open] accepts *)

Section SameFile.
Import MidiFileParser.







Lemma sameFile_set_numTracks (a b : Z) (p q : t) :
  sameFile p q -> sameFile (set_numTracks a p) (set_numTracks b q).
Proof. intros H. exact H. Qed.




End SameFile.

(** ** Transport: [stop] *)

Lemma allNotesOffFrom_16 (o : MidiOutput.t) :
  MidiPlayer.allNotesOffFrom 16 1 o = o ++ allNotesOffMsgs.
Proof.
  cbn. repeat rewrite <- app_assoc. reflexivity.
Qed.

Lemma stopAllNotes_out (p : MidiPlayer.t) (o : MidiOutput.t) :
  MidiPlayer.midiOut p = Some o ->
  MidiPlayer.stopAllNotes p
  = MidiPlayer.set_midiOut (Some (o ++ allNotesOffMsgs)) p.
Proof.
  intros H. unfold MidiPlayer.stopAllNotes, MidiPlayer.toOutput.
  rewrite H. cbn [option_map]. rewrite allNotesOffFrom_16. reflexivity.
Qed.

Lemma reset_with_file (ps : MidiFileParser.t) :
  MidiFileParser.midiFile ps <> None ->
  fst (MidiFileParser.reset ps) = true.
Proof.
  intros H. unfold MidiFileParser.reset.
  destruct (MidiFileParser.midiFile ps) as [f|]; [|contradiction].
  unfold seekSet.
  replace (0 <=? fileSize f) with true
    by (symmetry; apply Z.leb_le; unfold fileSize; lia).
  cbn [negb].
  destruct (MidiFileParser.readMidiHeader _) as [b1 p1].
  destruct (MidiFileParser.initializeTracks _) as [b2 p2].
  reflexivity.
Qed.




(** ** Seeking: [fastForward] *)

Lemma toOutput_fields (f : MidiOutput.t -> MidiOutput.t) (p : MidiPlayer.t) :
  MidiPlayer.ticksElapsed (MidiPlayer.toOutput f p) = MidiPlayer.ticksElapsed p
  /\ MidiPlayer.microsecondsPerTick (MidiPlayer.toOutput f p)
     = MidiPlayer.microsecondsPerTick p
  /\ MidiPlayer.parser (MidiPlayer.toOutput f p) = MidiPlayer.parser p
  /\ MidiPlayer.state (MidiPlayer.toOutput f p) = MidiPlayer.state p
  /\ MidiPlayer.channelMutes (MidiPlayer.toOutput f p)
     = MidiPlayer.channelMutes p.
Proof. unfold MidiPlayer.toOutput. cbn. auto. Qed.

Lemma pause_fields (p : MidiPlayer.t) :
  MidiPlayer.ticksElapsed (MidiPlayer.pause p) = MidiPlayer.ticksElapsed p
  /\ MidiPlayer.microsecondsPerTick (MidiPlayer.pause p)
     = MidiPlayer.microsecondsPerTick p
  /\ MidiPlayer.parser (MidiPlayer.pause p) = MidiPlayer.parser p
  /\ (MidiPlayer.state p = STATE_PLAYING ->
      MidiPlayer.state (MidiPlayer.pause p) = STATE_PAUSED).
Proof.
  unfold MidiPlayer.pause.
  destruct (PlayerState_eqb (MidiPlayer.state p) STATE_PLAYING) eqn:E;
    cbn [negb].
  - unfold MidiPlayer.stopAllNotes.
    destruct (MidiPlayer.clockEnabled _); unfold MidiPlayer.toOutput; cbn; auto.
  - repeat split; auto. intros H. rewrite H in E. discriminate.
Qed.

Lemma readNext_fields (p : MidiPlayer.t) :
  MidiPlayer.state (MidiPlayer.readNext p) = MidiPlayer.state p
  /\ MidiPlayer.ticksElapsed (MidiPlayer.readNext p) = MidiPlayer.ticksElapsed p
  /\ MidiPlayer.midiOut (MidiPlayer.readNext p) = MidiPlayer.midiOut p
  /\ MidiPlayer.clockEnabled (MidiPlayer.readNext p) = MidiPlayer.clockEnabled p
  /\ MidiPlayer.channelMutes (MidiPlayer.readNext p) = MidiPlayer.channelMutes p.
Proof.
  unfold MidiPlayer.readNext.
  destruct (MidiFileParser.readNextEvent _ _) as [[b e] ps]. cbn. auto.
Qed.

Lemma skipEvents_fields (n : nat) (target : Z) (p : MidiPlayer.t) :
  MidiPlayer.state (MidiPlayer.skipEvents n target p) = MidiPlayer.state p
  /\ MidiPlayer.midiOut (MidiPlayer.skipEvents n target p) = MidiPlayer.midiOut p
  /\ MidiPlayer.clockEnabled (MidiPlayer.skipEvents n target p)
     = MidiPlayer.clockEnabled p
  /\ MidiPlayer.channelMutes (MidiPlayer.skipEvents n target p)
     = MidiPlayer.channelMutes p.
Proof.
  revert p. induction n as [|n IH]; intros p; cbn [MidiPlayer.skipEvents].
  - auto.
  - destruct (MidiPlayer.eventReady p && _); [|auto].
    destruct (IH (MidiPlayer.readNext
                    (MidiPlayer.set_next
                       (mkEvent (deltaTime (MidiPlayer.nextEvent p))
                          (absoluteTime (MidiPlayer.nextEvent p))
                          (type (MidiPlayer.nextEvent p))
                          (channel (MidiPlayer.nextEvent p))
                          (data1 (MidiPlayer.nextEvent p))
                          (data2 (MidiPlayer.nextEvent p)) None
                          (sysexLength (MidiPlayer.nextEvent p))
                          (isMetaEvent (MidiPlayer.nextEvent p))
                          (trackNumber (MidiPlayer.nextEvent p)))
                       (MidiPlayer.eventReady p) p)))
      as (H1 & H2 & H3 & H4).
    rewrite H1, H2, H3, H4.
    match goal with |- context [MidiPlayer.readNext ?q] =>
      destruct (readNext_fields q) as (R1 & _ & R3 & R4 & R5) end.
    rewrite R1, R3, R4, R5. cbn. auto.
Qed.

(** Resuming from Paused does not touch the position. *)
Lemma play_start_fields (w : bool) (p : MidiPlayer.t) :
  MidiPlayer.ticksElapsed (MidiPlayer.play_start w p) = MidiPlayer.ticksElapsed p
  /\ MidiPlayer.channelMutes (MidiPlayer.play_start w p)
     = MidiPlayer.channelMutes p.
Proof.
  unfold MidiPlayer.play_start, MidiPlayer.micros, MidiPlayer.toOutput. cbn.
  destruct (MidiPlayer.clockEnabled p); [destruct w|]; cbn; auto.
Qed.

Lemma play_keeps_position (p : MidiPlayer.t) :
  MidiPlayer.state p <> STATE_STOPPED ->
  MidiPlayer.ticksElapsed (MidiPlayer.play p) = MidiPlayer.ticksElapsed p.
Proof.
  intros Hs. unfold MidiPlayer.play.
  destruct (PlayerState_eqb (MidiPlayer.state p) STATE_PLAYING); [reflexivity|].
  cbv zeta.
  replace (PlayerState_eqb
             (MidiPlayer.state
                (MidiPlayer.stopAllNotes (MidiPlayer.set_reachedEnd false p)))
             STATE_STOPPED) with false.
  - cbn [andb]. rewrite (proj1 (play_start_fields _ _)).
    unfold MidiPlayer.stopAllNotes, MidiPlayer.toOutput. reflexivity.
  - unfold MidiPlayer.stopAllNotes, MidiPlayer.toOutput.
    cbn [MidiPlayer.state MidiPlayer.set_midiOut MidiPlayer.set_reachedEnd].
    destruct (MidiPlayer.state p); [contradiction | reflexivity | reflexivity].
Qed.

(** The position [fastForward] leaves, as the code computes it: the target
    is the 32-bit sum of the position and the tick count, clamped to the
    file length; the skip loop has no say in it. *)
Lemma fastForward_position (ms : Z) (p : MidiPlayer.t) :
  MidiPlayer.ticksElapsed (MidiPlayer.fastForward ms p)
  = Z.min (u32 (MidiPlayer.ticksElapsed p + MidiPlayer.millisecondsToTicks ms p))
      (MidiFileParser.getFileLengthTicks (MidiPlayer.parser p)).
Proof.
  unfold MidiPlayer.fastForward.
  generalize (Z.to_nat MidiPlayer.MAX_EVENTS_PER_FF). intros limit.
  set (p1 := if PlayerState_eqb (MidiPlayer.state p) STATE_PLAYING
             then MidiPlayer.pause p else p).
  assert (H1 : MidiPlayer.ticksElapsed p1 = MidiPlayer.ticksElapsed p
               /\ MidiPlayer.microsecondsPerTick p1
                  = MidiPlayer.microsecondsPerTick p
               /\ MidiPlayer.parser p1 = MidiPlayer.parser p
               /\ (PlayerState_eqb (MidiPlayer.state p) STATE_PLAYING = true ->
                   MidiPlayer.state p1 = STATE_PAUSED)).
  { subst p1. destruct (PlayerState_eqb _ _) eqn:E.
    - destruct (pause_fields p) as (A & B & C & D).
      repeat split; auto. intros _. apply D.
      destruct (MidiPlayer.state p); try discriminate; reflexivity.
    - repeat split; auto. discriminate. }
  destruct H1 as (T1 & M1 & P1 & S1).
  set (p2 := MidiPlayer.stopAllNotes p1).
  destruct (toOutput_fields (MidiPlayer.allNotesOffFrom 16 1) p1)
    as (T2 & M2 & P2 & S2 & _).
  fold (MidiPlayer.stopAllNotes p1) in T2, M2, P2, S2. fold p2 in T2, M2, P2, S2.
  assert (Hmtt : MidiPlayer.millisecondsToTicks ms p2
                 = MidiPlayer.millisecondsToTicks ms p).
  { unfold MidiPlayer.millisecondsToTicks. rewrite M2, M1. reflexivity. }
  rewrite Hmtt, T2, T1, P2, P1.
  set (sum := u32 (MidiPlayer.ticksElapsed p + MidiPlayer.millisecondsToTicks ms p)).
  set (maxTicks := MidiFileParser.getFileLengthTicks (MidiPlayer.parser p)).
  set (target := if maxTicks <? sum then maxTicks else sum).
  assert (Htarget : target = Z.min sum maxTicks).
  { subst target. destruct (maxTicks <? sum) eqn:E.
    - apply Z.ltb_lt in E. lia.
    - apply Z.ltb_ge in E. lia. }
  set (p3 := MidiPlayer.skipEvents limit target p2).
  destruct (skipEvents_fields limit target p2) as (S3 & _). fold p3 in S3.
  unfold MidiPlayer.micros. cbn [MidiPlayer.timerReads MidiPlayer.timer
    MidiPlayer.set_ticksElapsed].
  set (p4 := MidiPlayer.stopAllNotes _).
  assert (H4 : MidiPlayer.ticksElapsed p4 = target
               /\ MidiPlayer.state p4 = MidiPlayer.state p3).
  { subst p4. unfold MidiPlayer.stopAllNotes, MidiPlayer.toOutput. cbn. auto. }
  destruct H4 as (T4 & S4).
  destruct (PlayerState_eqb (MidiPlayer.state p) STATE_PLAYING) eqn:E.
  - rewrite play_keeps_position.
    + rewrite T4. exact Htarget.
    + rewrite S4, S3, S2, (S1 eq_refl). discriminate.
  - rewrite T4. exact Htarget.
Qed.

Lemma millisecondsToTicks_nonneg (ms : Z) (p : MidiPlayer.t) :
  0 <= MidiPlayer.millisecondsToTicks ms p.
Proof.
  unfold MidiPlayer.millisecondsToTicks.
  destruct (MidiPlayer.microsecondsPerTick p =? 0); [lia|].
  apply u32_range.
Qed.

(** C10, as the code has it.  On return from [fastForward(ms)] the position
    is the minimum of the file length and the sum of the position before and
    [millisecondsToTicks(ms)], that sum being the 32-bit one the code forms
    (modulo 2^32); it is the plain sum whenever that is below 2^32.  How
    many events the skip loop consumed plays no part.  While the file
    length is 0 or [microsecondsPerTick] is 0 the position does not
    advance. *)
Theorem fastForward_position_clamped (ms : Z) (p : MidiPlayer.t) :
  0 <= MidiPlayer.ticksElapsed p < 4294967296 ->
  MidiPlayer.ticksElapsed (MidiPlayer.fastForward ms p)
  = Z.min (u32 (MidiPlayer.ticksElapsed p + MidiPlayer.millisecondsToTicks ms p))
      (MidiFileParser.getFileLengthTicks (MidiPlayer.parser p))
  /\ (MidiPlayer.ticksElapsed p + MidiPlayer.millisecondsToTicks ms p
      < 4294967296 ->
      MidiPlayer.ticksElapsed (MidiPlayer.fastForward ms p)
      = Z.min (MidiPlayer.ticksElapsed p + MidiPlayer.millisecondsToTicks ms p)
          (MidiFileParser.getFileLengthTicks (MidiPlayer.parser p)))
  /\ (MidiFileParser.getFileLengthTicks (MidiPlayer.parser p) = 0
      \/ MidiPlayer.microsecondsPerTick p = 0 ->
      MidiPlayer.ticksElapsed (MidiPlayer.fastForward ms p)
      <= MidiPlayer.ticksElapsed p).
Proof.
  intros Ht. rewrite fastForward_position.
  pose proof (millisecondsToTicks_nonneg ms p) as Hm.
  split; [reflexivity|]. split.
  - intros Hsum. rewrite u32_small by lia. reflexivity.
  - intros [HL|Hmpt].
    + rewrite HL. lia.
    + unfold MidiPlayer.millisecondsToTicks. rewrite Hmpt. cbn [Z.eqb].
      rewrite Z.add_0_r, u32_small by lia. lia.
Qed.

Lemma fastForward_position_clamped_witness :
  0 <= MidiPlayer.ticksElapsed sample_ready < 4294967296
  /\ MidiPlayer.ticksElapsed (MidiPlayer.fastForward 300 sample_ready)
     = Z.min (0 + 57) 96.
Proof.
  assert (H : 0 <= MidiPlayer.ticksElapsed sample_ready < 4294967296)
    by by_evaluation.
  split; [exact H|].
  refine (proj1 (proj2 (fastForward_position_clamped 300 sample_ready H)) _).
  vm_compute. reflexivity.
Defined.

(** The statement of C10 with the plain sum fails when the 32-bit sum wraps:
    at tick 1000, one microsecond per tick, file length 100000,
    [fastForward(4294967)] asks for 4294967000 more ticks; the code lands on
    tick 704 = (1000 + 4294967000) mod 2^32, not on min(4294968000, 100000). *)
Lemma fastForward_sum_wraps :
  MidiPlayer.ticksElapsed sample_fast_player = 1000
  /\ MidiPlayer.millisecondsToTicks 4294967 sample_fast_player = 4294967000
  /\ MidiFileParser.getFileLengthTicks (MidiPlayer.parser sample_fast_player)
     = 100000
  /\ MidiPlayer.ticksElapsed (MidiPlayer.fastForward 4294967 sample_fast_player)
     = 704
  /\ MidiPlayer.ticksElapsed (MidiPlayer.fastForward 4294967 sample_fast_player)
     <> Z.min (1000 + 4294967000) 100000.
Proof.
  repeat split; try (vm_compute; reflexivity).
  vm_compute. discriminate.
Qed.

(** ** The mute gate *)

Lemma testbit_1 (k : Z) : Z.testbit 1 k = (k =? 0).
Proof. destruct k; reflexivity. Qed.

Lemma testbit_shiftl_1 (d c : Z) :
  0 <= c -> Z.testbit (Z.shiftl 1 d) c = (c =? d).
Proof.
  intros Hc. rewrite Z.shiftl_spec by exact Hc. rewrite testbit_1.
  destruct (c - d =? 0) eqn:E1, (c =? d) eqn:E2; try reflexivity.
  - apply Z.eqb_eq in E1. apply Z.eqb_neq in E2. lia.
  - apply Z.eqb_neq in E1. apply Z.eqb_eq in E2. lia.
Qed.

(** [mask & (1 << c)] is not 0 exactly when bit [c] of the mask is set. *)
Lemma land_bit_test (x c : Z) :
  0 <= c -> (Z.land x (Z.shiftl 1 c) =? 0) = negb (Z.testbit x c).
Proof.
  intros Hc. destruct (Z.testbit x c) eqn:Eb; cbn [negb].
  - apply Z.eqb_neq. intros H0.
    assert (Hb : Z.testbit (Z.land x (Z.shiftl 1 c)) c = true).
    { rewrite Z.land_spec, Eb, testbit_shiftl_1 by exact Hc.
      rewrite Z.eqb_refl. reflexivity. }
    rewrite H0, Z.bits_0 in Hb. discriminate.
  - apply Z.eqb_eq. apply Z.bits_inj'. intros n Hn.
    rewrite Z.land_spec, Z.bits_0, testbit_shiftl_1 by exact Hn.
    destruct (n =? c) eqn:E.
    + apply Z.eqb_eq in E. subst n. rewrite Eb. reflexivity.
    + apply andb_false_r.
Qed.

Lemma testbit_u16 (x c : Z) :
  0 <= c < 16 -> Z.testbit (u16 x) c = Z.testbit x c.
Proof.
  intros Hc. unfold u16. change 65536 with (2 ^ 16).
  apply Z.mod_pow2_bits_low. lia.
Qed.

Lemma isChannelMuted_bit (c : Z) (p : MidiPlayer.t) :
  0 <= c < 16 ->
  MidiPlayer.isChannelMuted c p = Z.testbit (MidiPlayer.channelMutes p) c.
Proof.
  intros Hc. unfold MidiPlayer.isChannelMuted.
  replace (16 <=? c) with false by (symmetry; apply Z.leb_gt; lia).
  rewrite land_bit_test by lia. apply negb_involutive.
Qed.

Ltac psimpl :=
  cbn [MidiPlayer.midiOut MidiPlayer.parser MidiPlayer.midiFile MidiPlayer.state
       MidiPlayer.ticksElapsed MidiPlayer.lastUpdateMicros
       MidiPlayer.microsecondsPerTick MidiPlayer.tempoPercent
       MidiPlayer.channelMutes MidiPlayer.velocityScale
       MidiPlayer.channelVelocities MidiPlayer.userChannelPrograms
       MidiPlayer.userChannelVolumes MidiPlayer.userChannelPan
       MidiPlayer.userChannelTranspose MidiPlayer.userChannelRouting
       MidiPlayer.nextEvent MidiPlayer.eventReady MidiPlayer.reachedEnd
       MidiPlayer.clockEnabled MidiPlayer.lastClockMicros
       MidiPlayer.lastTransportState MidiPlayer.sysexEnabled MidiPlayer.timer
       MidiPlayer.timerReads
       MidiPlayer.set_midiOut MidiPlayer.set_parser MidiPlayer.set_midiFile
       MidiPlayer.set_state MidiPlayer.set_ticksElapsed
       MidiPlayer.set_lastUpdateMicros MidiPlayer.set_microsecondsPerTick
       MidiPlayer.set_tempoPercent MidiPlayer.set_channelMutes
       MidiPlayer.set_velocityScale MidiPlayer.set_channelVelocities
       MidiPlayer.set_userChannelPrograms MidiPlayer.set_userChannelVolumes
       MidiPlayer.set_userChannelPan MidiPlayer.set_userChannelTranspose
       MidiPlayer.set_userChannelRouting MidiPlayer.set_reachedEnd
       MidiPlayer.set_lastClockMicros MidiPlayer.set_timerReads
       MidiPlayer.set_next MidiPlayer.setClockEnabled
       MidiPlayer.setSysexEnabled MidiPlayer.toOutput fst snd].

(** Only the three mute methods write [channelMutes]. *)
Lemma stopAllNotes_mutes (p : MidiPlayer.t) :
  MidiPlayer.channelMutes (MidiPlayer.stopAllNotes p) = MidiPlayer.channelMutes p.
Proof. unfold MidiPlayer.stopAllNotes. psimpl. reflexivity. Qed.

Lemma readNext_mutes (p : MidiPlayer.t) :
  MidiPlayer.channelMutes (MidiPlayer.readNext p) = MidiPlayer.channelMutes p.
Proof. apply readNext_fields. Qed.

Lemma stop_mutes (r : bool) (p : MidiPlayer.t) :
  MidiPlayer.channelMutes (MidiPlayer.stop r p) = MidiPlayer.channelMutes p.
Proof.
  unfold MidiPlayer.stop.
  destruct (PlayerState_eqb _ _); [reflexivity|].
  destruct r.
  - destruct (MidiFileParser.reset _) as [ok ps].
    destruct ok; [rewrite readNext_mutes|]; psimpl;
      rewrite stopAllNotes_mutes; destruct (MidiPlayer.clockEnabled _);
      psimpl; reflexivity.
  - rewrite stopAllNotes_mutes. destruct (MidiPlayer.clockEnabled _);
      psimpl; reflexivity.
Qed.

Lemma pause_mutes (p : MidiPlayer.t) :
  MidiPlayer.channelMutes (MidiPlayer.pause p) = MidiPlayer.channelMutes p.
Proof.
  unfold MidiPlayer.pause.
  destruct (negb _); [reflexivity|].
  rewrite stopAllNotes_mutes. destruct (MidiPlayer.clockEnabled _);
    psimpl; reflexivity.
Qed.

Lemma play_mutes (p : MidiPlayer.t) :
  MidiPlayer.channelMutes (MidiPlayer.play p) = MidiPlayer.channelMutes p.
Proof.
  unfold MidiPlayer.play.
  destruct (PlayerState_eqb _ _); [reflexivity|].
  cbv zeta.
  destruct (PlayerState_eqb _ _ && _).
  - destruct (MidiFileParser.reset _) as [ok ps]. destruct ok.
    + rewrite (proj2 (play_start_fields _ _)), readNext_mutes. psimpl.
      rewrite stopAllNotes_mutes. psimpl. reflexivity.
    + psimpl. rewrite stopAllNotes_mutes. psimpl. reflexivity.
  - rewrite (proj2 (play_start_fields _ _)), stopAllNotes_mutes. psimpl.
    reflexivity.
Qed.

Lemma fastForward_mutes (ms : Z) (p : MidiPlayer.t) :
  MidiPlayer.channelMutes (MidiPlayer.fastForward ms p)
  = MidiPlayer.channelMutes p.
Proof.
  unfold MidiPlayer.fastForward.
  generalize (Z.to_nat MidiPlayer.MAX_EVENTS_PER_FF). intros limit.
  cbv zeta. unfold MidiPlayer.micros.
  assert (H : forall q, MidiPlayer.channelMutes
            (if PlayerState_eqb (MidiPlayer.state p) STATE_PLAYING
             then MidiPlayer.play q else q) = MidiPlayer.channelMutes q).
  { intros q. destruct (PlayerState_eqb _ _); [apply play_mutes|reflexivity]. }
  rewrite H, stopAllNotes_mutes. psimpl.
  match goal with |- context [MidiPlayer.skipEvents ?n ?t ?q] =>
    destruct (skipEvents_fields n t q) as (_ & _ & _ & Hm) end.
  rewrite Hm, stopAllNotes_mutes.
  destruct (PlayerState_eqb _ _); [apply pause_mutes|reflexivity].
Qed.

Lemma loadFile_mutes (f : option FatFile) (p : MidiPlayer.t) :
  MidiPlayer.channelMutes (snd (MidiPlayer.loadFile f p))
  = MidiPlayer.channelMutes p.
Proof.
  unfold MidiPlayer.loadFile. destruct f as [f|]; [|reflexivity].
  psimpl. destruct (MidiFileParser.open _ _) as [ok ps]. destruct ok; cbn [negb].
  - psimpl. rewrite readNext_mutes. psimpl. apply stop_mutes.
  - psimpl. apply stop_mutes.
Qed.

Lemma unloadFile_mutes (p : MidiPlayer.t) :
  MidiPlayer.channelMutes (MidiPlayer.unloadFile p) = MidiPlayer.channelMutes p.
Proof. unfold MidiPlayer.unloadFile. psimpl. apply stop_mutes. Qed.

Lemma sendMidiEvent_mutes (ev : MidiEvent) (p : MidiPlayer.t) :
  MidiPlayer.channelMutes (MidiPlayer.sendMidiEvent ev p)
  = MidiPlayer.channelMutes p.
Proof.
  unfold MidiPlayer.sendMidiEvent, MidiPlayer.calculateMicrosecondsPerTick.
  destruct (MidiPlayer.midiOut p); [|reflexivity].
  repeat match goal with
         | |- context [if ?b then _ else _] => destruct b
         | |- context [match sysexData ?e with _ => _ end] =>
             destruct (sysexData e)
         end; psimpl; reflexivity.
Qed.

Lemma muteChannel_sets_bit (c : Z) (p : MidiPlayer.t) :
  0 <= c < 16 ->
  Z.testbit (MidiPlayer.channelMutes (MidiPlayer.muteChannel c p)) c = true.
Proof.
  intros Hc. unfold MidiPlayer.muteChannel.
  replace (16 <=? c) with false by (symmetry; apply Z.leb_gt; lia).
  psimpl. rewrite testbit_u16, Z.lor_spec, testbit_shiftl_1 by lia.
  rewrite Z.eqb_refl. apply orb_true_r.
Qed.

Lemma runOp_keeps_mute (c : Z) (op : PlayerOp) (p : MidiPlayer.t) :
  0 <= c < 16 ->
  unmutes c op = false ->
  Z.testbit (MidiPlayer.channelMutes p) c = true ->
  Z.testbit (MidiPlayer.channelMutes (runOp p op)) c = true.
Proof.
  intros Hc Hop Hbit.
  assert (Hmute : forall d q,
            Z.testbit (MidiPlayer.channelMutes q) c = true ->
            Z.testbit (MidiPlayer.channelMutes (MidiPlayer.muteChannel d q)) c
            = true).
  { intros d q Hq. unfold MidiPlayer.muteChannel.
    destruct (16 <=? d); [exact Hq|]. psimpl.
    rewrite testbit_u16, Z.lor_spec, Hq by lia. reflexivity. }
  assert (Hunmute : forall d q, (d =? c) = false ->
            Z.testbit (MidiPlayer.channelMutes q) c = true ->
            Z.testbit (MidiPlayer.channelMutes (MidiPlayer.unmuteChannel d q)) c
            = true).
  { intros d q Hd Hq. unfold MidiPlayer.unmuteChannel.
    destruct (16 <=? d); [exact Hq|]. psimpl.
    rewrite testbit_u16, Z.land_spec, Hq, Z.lnot_spec, testbit_shiftl_1 by lia.
    rewrite Z.eqb_sym, Hd. reflexivity. }
  destruct op; cbn [runOp]; cbn [unmutes] in Hop.
  - rewrite sendMidiEvent_mutes. exact Hbit.
  - apply Hmute. exact Hbit.
  - apply Hunmute; assumption.
  - unfold MidiPlayer.toggleMuteChannel.
    destruct (MidiPlayer.isChannelMuted ch p);
      [apply Hunmute; assumption | apply Hmute; exact Hbit].
  - rewrite play_mutes. exact Hbit.
  - rewrite pause_mutes. exact Hbit.
  - rewrite stop_mutes. exact Hbit.
  - rewrite fastForward_mutes. exact Hbit.
  - rewrite loadFile_mutes. exact Hbit.
  - rewrite unloadFile_mutes. exact Hbit.
  - unfold MidiPlayer.setTempoPercent, MidiPlayer.calculateMicrosecondsPerTick.
    psimpl. exact Hbit.
  - unfold MidiPlayer.setVelocityScale. psimpl. exact Hbit.
  - exact Hbit.
  - exact Hbit.
  - exact Hbit.
  - exact Hbit.
  - exact Hbit.
  - exact Hbit.
  - exact Hbit.
  - exact Hbit.
Qed.

Lemma runOps_keep_mute (c : Z) (ops : list PlayerOp) (p : MidiPlayer.t) :
  0 <= c < 16 ->
  forallb (fun op => negb (unmutes c op)) ops = true ->
  Z.testbit (MidiPlayer.channelMutes p) c = true ->
  Z.testbit (MidiPlayer.channelMutes (runOps ops p)) c = true.
Proof.
  intros Hc. revert p. induction ops as [|op ops IH]; intros p Hops Hbit.
  - exact Hbit.
  - cbn in Hops. apply andb_true_iff in Hops. destruct Hops as [Hop Hops].
    apply negb_true_iff in Hop.
    unfold runOps. cbn [fold_left]. apply IH; [exact Hops|].
    apply runOp_keeps_mute; assumption.
Qed.

(** A muted channel swallows its NoteOn and NoteOff events. *)
Lemma sendMidiEvent_muted_note (ev : MidiEvent) (q : MidiPlayer.t) :
  0 <= channel ev < 16 ->
  Z.testbit (MidiPlayer.channelMutes q) (channel ev) = true ->
  type ev = MIDI_NOTE_ON \/ type ev = MIDI_NOTE_OFF ->
  MidiPlayer.midiOut (MidiPlayer.sendMidiEvent ev q) = MidiPlayer.midiOut q.
Proof.
  intros Hc Hbit Hty. unfold MidiPlayer.sendMidiEvent.
  destruct (MidiPlayer.midiOut q) as [o|] eqn:Ho; [|exact Ho].
  destruct (isMetaEvent ev && (data1 ev =? META_TEMPO)).
  { unfold MidiPlayer.calculateMicrosecondsPerTick. psimpl. exact Ho. }
  destruct (isMetaEvent ev); [exact Ho|].
  replace (16 <=? channel ev) with false by (symmetry; apply Z.leb_gt; lia).
  rewrite land_bit_test, Hbit by lia. cbn [negb andb].
  replace ((type ev =? MIDI_NOTE_ON) || (type ev =? MIDI_NOTE_OFF)) with true.
  - exact Ho.
  - destruct Hty as [-> | ->]; reflexivity.
Qed.

(** For every other event the mute mask is not looked at. *)
Lemma sendMidiEvent_other_ignores_mutes (ev : MidiEvent) (q : MidiPlayer.t)
  (m : Z) :
  type ev <> MIDI_NOTE_ON -> type ev <> MIDI_NOTE_OFF ->
  MidiPlayer.midiOut (MidiPlayer.sendMidiEvent ev (MidiPlayer.set_channelMutes m q))
  = MidiPlayer.midiOut (MidiPlayer.sendMidiEvent ev q).
Proof.
  intros Hon Hoff.
  unfold MidiPlayer.sendMidiEvent, MidiPlayer.calculateMicrosecondsPerTick,
    MidiPlayer.transposeNote.
  psimpl.
  replace (type ev =? MIDI_NOTE_ON) with false
    by (symmetry; apply Z.eqb_neq; exact Hon).
  replace (type ev =? MIDI_NOTE_OFF) with false
    by (symmetry; apply Z.eqb_neq; exact Hoff).
  cbn [orb]. rewrite !andb_false_r.
  destruct (MidiPlayer.midiOut q); [|reflexivity].
  repeat match goal with
         | |- context [if ?b then _ else _] => destruct b
         | |- context [match sysexData ?e with _ => _ end] =>
             destruct (sysexData e)
         end; psimpl; reflexivity.
Qed.

(** C5. Channel [c] in 0..15 is muted with [muteChannel c] and any script of
    player operations follows in which channel [c] is neither unmuted nor
    toggled.  Then the player hands no NoteOn and no NoteOff of an event
    whose own channel (before routing) is [c] to the output, while every
    other event on channel [c] (control change, program change, pitch bend,
    aftertouch, SysEx) yields exactly the output it yields with the mute bit
    of [c] cleared. *)
Theorem mute_gate (c : Z) (ops : list PlayerOp) (p : MidiPlayer.t)
  (ev : MidiEvent) :
  0 <= c < 16 ->
  forallb (fun op => negb (unmutes c op)) ops = true ->
  channel ev = c ->
  MidiPlayer.isChannelMuted c (runOps ops (MidiPlayer.muteChannel c p)) = true
  /\ (type ev = MIDI_NOTE_ON \/ type ev = MIDI_NOTE_OFF ->
      MidiPlayer.midiOut
        (MidiPlayer.sendMidiEvent ev (runOps ops (MidiPlayer.muteChannel c p)))
      = MidiPlayer.midiOut (runOps ops (MidiPlayer.muteChannel c p)))
  /\ (type ev <> MIDI_NOTE_ON -> type ev <> MIDI_NOTE_OFF ->
      MidiPlayer.midiOut
        (MidiPlayer.sendMidiEvent ev (runOps ops (MidiPlayer.muteChannel c p)))
      = MidiPlayer.midiOut
          (MidiPlayer.sendMidiEvent ev
             (MidiPlayer.unmuteChannel c
                (runOps ops (MidiPlayer.muteChannel c p))))).
Proof.
  intros Hc Hops Hch.
  pose proof (runOps_keep_mute c ops (MidiPlayer.muteChannel c p) Hc Hops
                (muteChannel_sets_bit c p Hc)) as Hbit.
  split; [|split].
  - rewrite isChannelMuted_bit by exact Hc. exact Hbit.
  - intros Hty. apply sendMidiEvent_muted_note; rewrite ?Hch; assumption.
  - intros Hon Hoff. unfold MidiPlayer.unmuteChannel.
    replace (16 <=? c) with false by (symmetry; apply Z.leb_gt; lia).
    symmetry. apply sendMidiEvent_other_ignores_mutes; assumption.
Qed.

Lemma mute_gate_witness :
  0 <= 0 < 16
  /\ forallb (fun op => negb (unmutes 0 op))
       [OpPlay; OpMuteChannel 1; OpUnmuteChannel 1;
        OpSendMidiEvent sample_noteOn] = true
  /\ channel sample_noteOn = 0
  /\ MidiPlayer.midiOut
       (MidiPlayer.sendMidiEvent sample_noteOn
          (runOps [OpPlay; OpMuteChannel 1; OpUnmuteChannel 1;
                   OpSendMidiEvent sample_noteOn]
             (MidiPlayer.muteChannel 0 sample_ready)))
     = MidiPlayer.midiOut
         (runOps [OpPlay; OpMuteChannel 1; OpUnmuteChannel 1;
                  OpSendMidiEvent sample_noteOn]
            (MidiPlayer.muteChannel 0 sample_ready)).
Proof.
  assert (H1 : 0 <= 0 < 16) by lia.
  assert (H2 : forallb (fun op => negb (unmutes 0 op))
                 [OpPlay; OpMuteChannel 1; OpUnmuteChannel 1;
                  OpSendMidiEvent sample_noteOn] = true) by reflexivity.
  assert (H3 : channel sample_noteOn = 0) by reflexivity.
  split; [exact H1|]. split; [exact H2|]. split; [exact H3|].
  apply (proj1 (proj2 (mute_gate 0 _ sample_ready sample_noteOn H1 H2 H3))).
  left. reflexivity.
Defined.

(** ** Bytes put together with shifts and ors *)

Lemma lor_mul_pow2_add (hi lo k : Z) :
  0 <= k -> 0 <= lo < 2 ^ k -> Z.lor (hi * 2 ^ k) lo = hi * 2 ^ k + lo.
Proof.
  intros Hk Hlo.
  assert (Hland : Z.land (hi * 2 ^ k) lo = 0).
  { apply Z.bits_inj'. intros n Hn. rewrite Z.land_spec, Z.bits_0.
    destruct (Z.ltb_spec n k) as [Hlt|Hge].
    - rewrite Z.mul_pow2_bits_low by exact Hlt. reflexivity.
    - rewrite <- (Z.mod_small lo (2 ^ k)) by exact Hlo.
      rewrite Z.mod_pow2_bits_high by lia. apply andb_false_r. }
  rewrite <- Z.lxor_lor by exact Hland.
  symmetry. apply Z.add_nocarry_lxor. exact Hland.
Qed.

Lemma shiftl_lor_add (hi lo k : Z) :
  0 <= k -> 0 <= lo < 2 ^ k -> Z.lor (Z.shiftl hi k) lo = hi * 2 ^ k + lo.
Proof.
  intros Hk Hlo. rewrite Z.shiftl_mul_pow2 by exact Hk.
  apply lor_mul_pow2_add; assumption.
Qed.

Lemma land_7F (b : Z) : Z.land b 0x7F = b mod 128.
Proof. change 0x7F with (Z.ones 7). rewrite Z.land_ones by lia. reflexivity. Qed.

(** One step of the variable-length loop: seven more bits, modulo 2^32. *)
Lemma vlq_step (value byte : Z) :
  Z.lor (u32 (Z.shiftl value 7)) (Z.land byte 0x7F)
  = u32 (value * 128 + byte mod 128).
Proof.
  rewrite land_7F. unfold u32.
  rewrite Z.shiftl_mul_pow2 by lia. change (2 ^ 7) with 128.
  pose proof (Z.mod_pos_bound byte 128 ltac:(lia)) as Hb.
  change 4294967296 with (33554432 * 128).
  rewrite Z.mul_mod_distr_r by lia.
  change 128 with (2 ^ 7) at 1.
  rewrite lor_mul_pow2_add by (change (2 ^ 7) with 128; lia).
  change (2 ^ 7) with 128.
  pose proof (Z.mod_pos_bound value 33554432 ltac:(lia)) as Hv.
  symmetry.
  rewrite <- (Z.mul_mod_distr_r value 33554432 128) by lia.
  rewrite <- Z.add_mod_idemp_l by lia.
  rewrite Z.mul_mod_distr_r by lia.
  apply Z.mod_small. lia.
Qed.

Lemma vlq_step_range (value byte : Z) :
  0 <= Z.lor (u32 (Z.shiftl value 7)) (Z.land byte 0x7F) < 4294967296.
Proof. rewrite vlq_step. apply u32_range. Qed.

(** Big-endian values of two, three and four bytes. *)
Lemma be16_value (b1 b2 : Z) :
  0 <= b1 < 256 -> 0 <= b2 < 256 ->
  u16 (Z.lor (u16 (Z.shiftl b1 8)) b2) = b1 * 256 + b2.
Proof.
  intros H1 H2.
  rewrite (u16_small (Z.shiftl b1 8))
    by (rewrite Z.shiftl_mul_pow2 by lia; change (2 ^ 8) with 256; lia).
  rewrite shiftl_lor_add by (change (2 ^ 8) with 256; lia).
  change (2 ^ 8) with 256. apply u16_small. lia.
Qed.

Lemma be24_value (b1 b2 b3 : Z) :
  0 <= b1 < 256 -> 0 <= b2 < 256 -> 0 <= b3 < 256 ->
  u32 (Z.lor (u32 (Z.lor (u32 (Z.shiftl b1 16)) (Z.shiftl b2 8))) b3)
  = b1 * 65536 + b2 * 256 + b3.
Proof.
  intros H1 H2 H3.
  rewrite (u32_small (Z.shiftl b1 16))
    by (rewrite Z.shiftl_mul_pow2 by lia; change (2 ^ 16) with 65536; lia).
  rewrite (Z.shiftl_mul_pow2 b2 8) by lia. change (2 ^ 8) with 256.
  rewrite shiftl_lor_add by (change (2 ^ 16) with 65536; lia).
  change (2 ^ 16) with 65536.
  rewrite (u32_small (b1 * 65536 + b2 * 256)) by lia.
  replace (b1 * 65536 + b2 * 256) with ((b1 * 256 + b2) * 2 ^ 8)
    by (change (2 ^ 8) with 256; lia).
  rewrite lor_mul_pow2_add by (change (2 ^ 8) with 256; lia).
  change (2 ^ 8) with 256. rewrite u32_small by lia. lia.
Qed.

Lemma be32_value (b1 b2 b3 b4 : Z) :
  0 <= b1 < 256 -> 0 <= b2 < 256 -> 0 <= b3 < 256 -> 0 <= b4 < 256 ->
  u32 (Z.lor (u32 (Z.lor (u32 (Z.lor (u32 (Z.shiftl b1 24)) (Z.shiftl b2 16)))
                     (Z.shiftl b3 8))) b4)
  = b1 * 16777216 + b2 * 65536 + b3 * 256 + b4.
Proof.
  intros H1 H2 H3 H4.
  rewrite (u32_small (Z.shiftl b1 24))
    by (rewrite Z.shiftl_mul_pow2 by lia; change (2 ^ 24) with 16777216; lia).
  rewrite (Z.shiftl_mul_pow2 b2 16) by lia. change (2 ^ 16) with 65536.
  rewrite (Z.shiftl_mul_pow2 b3 8) by lia. change (2 ^ 8) with 256.
  rewrite shiftl_lor_add by (change (2 ^ 24) with 16777216; lia).
  change (2 ^ 24) with 16777216.
  rewrite (u32_small (b1 * 16777216 + b2 * 65536)) by lia.
  replace (b1 * 16777216 + b2 * 65536) with ((b1 * 256 + b2) * 2 ^ 16)
    by (change (2 ^ 16) with 65536; lia).
  rewrite lor_mul_pow2_add by (change (2 ^ 16) with 65536; lia).
  change (2 ^ 16) with 65536.
  rewrite (u32_small ((b1 * 256 + b2) * 65536 + b3 * 256)) by lia.
  replace ((b1 * 256 + b2) * 65536 + b3 * 256)
    with (((b1 * 256 + b2) * 256 + b3) * 2 ^ 8)
    by (change (2 ^ 8) with 256; lia).
  rewrite lor_mul_pow2_add by (change (2 ^ 8) with 256; lia).
  change (2 ^ 8) with 256. rewrite u32_small by lia. lia.
Qed.

(** ** The parser: what reading from one track leaves alone *)

Lemma length_upd_nth {A : Type} (n : nat) (x : A) (l : list A) :
  length (upd_nth n x l) = length l.
Proof.
  revert n. induction l as [|a l IH]; intros [|n]; cbn; auto.
Qed.

Lemma nth_upd_nth_same {A : Type} (n : nat) (x d : A) (l : list A) :
  (n < length l)%nat -> nth n (upd_nth n x l) d = x.
Proof.
  revert n. induction l as [|a l IH]; intros [|n] H; cbn in *; try lia; auto.
  apply IH. lia.
Qed.

Lemma nth_upd_nth_other {A : Type} (n m : nat) (x d : A) (l : list A) :
  m <> n -> nth m (upd_nth n x l) d = nth m l d.
Proof.
  revert n m. induction l as [|a l IH]; intros [|n] [|m] H; cbn; auto; try lia.
Qed.

Section ParserFrame.
Import MidiFileParser.

Lemma advances_refl (k : Z) (p : t) : advances k p p.
Proof. constructor; auto. Qed.

Lemma advances_trans (k : Z) (p q r : t) :
  advances k p q -> advances k q r -> advances k p r.
Proof.
  intros [A1 A2 A3 A4 A5 A6 A7] [B1 B2 B3 B4 B5 B6 B7].
  constructor; try congruence.
  intros j Hj. rewrite B5, A5 by exact Hj. reflexivity.
Qed.

Lemma advances_inRange (k : Z) (p q : t) :
  advances k p q -> inRange k p -> inRange k q.
Proof. intros A H. unfold inRange in *. rewrite (adv_len _ _ _ A). exact H. Qed.

Lemma getTrack_setTrack (k : Z) (tr : TrackState) (p : t) :
  inRange k p -> getTrack k (setTrack k tr p) = tr.
Proof.
  intros H. unfold getTrack, setTrack. cbn. apply nth_upd_nth_same. exact H.
Qed.

Lemma advances_setTrack (k : Z) (tr : TrackState) (p : t) :
  inRange k p ->
  currentTick tr = currentTick (getTrack k p)
  /\ eventReady tr = eventReady (getTrack k p) ->
  advances k p (setTrack k tr p).
Proof.
  intros H [Ht Hr]. constructor; try reflexivity.
  - unfold setTrack. cbn [tracks set_tracks]. apply length_upd_nth.
  - intros j Hj. unfold setTrack. cbn [tracks set_tracks].
    apply nth_upd_nth_other. exact Hj.
  - rewrite getTrack_setTrack by exact H. exact Ht.
  - rewrite getTrack_setTrack by exact H. exact Hr.
Qed.

Lemma advances_set_midiFile (k : Z) (f : option FatFile) (p q : t) :
  advances k p q -> advances k p (set_midiFile f q).
Proof. intros [A1 A2 A3 A4 A5 A6 A7]. constructor; auto. Qed.

Lemma advances_set_fileInfo (k : Z) (i : MidiFileInfo) (p q : t) :
  advances k p q -> advances k p (set_fileInfo i q).
Proof. intros [A1 A2 A3 A4 A5 A6 A7]. constructor; auto. Qed.

Lemma fillTrackBuffer_advances (k : Z) (p : t) :
  inRange k p -> advances k p (snd (fillTrackBuffer k p)).
Proof.
  intros H. unfold fillTrackBuffer.
  destruct (numTracks p <=? k); [apply advances_refl|].
  destruct (_ =? 0); [apply advances_setTrack; [exact H|split; reflexivity]|].
  destruct (midiFile p) as [f|];
    [|apply advances_setTrack; [exact H|split; reflexivity]].
  destruct (seekSet _ f) as [ok f']. destruct ok; cbn [negb];
    [|apply advances_setTrack; [exact H|split; reflexivity]].
  destruct (fread _ f') as [bs f'']. cbn [snd].
  apply advances_set_midiFile. apply advances_setTrack; [exact H|split; reflexivity].
Qed.

Lemma readTrackByte_advances (k : Z) (p : t) :
  inRange k p -> advances k p (snd (readTrackByte k p)).
Proof.
  intros H. unfold readTrackByte.
  destruct (numTracks p <=? k); [apply advances_refl|].
  assert (A : advances k p
                (snd (if bufferSize (getTrack k p) <=? bufferPos (getTrack k p)
                      then fillTrackBuffer k p else (true, p)))).
  { destruct (_ <=? _); [apply fillTrackBuffer_advances; exact H
                        |apply advances_refl]. }
  destruct (if bufferSize (getTrack k p) <=? bufferPos (getTrack k p)
            then fillTrackBuffer k p else (true, p)) as [ok p1].
  cbn [snd] in A. destruct ok; cbn [negb snd]; [|exact A].
  eapply advances_trans; [exact A|].
  apply advances_setTrack; [eapply advances_inRange; eassumption|split; reflexivity].
Qed.

Lemma readTrackVariableLength_loop_advances (fuel : nat) (k v : Z) (p : t)
  (v' : Z) (p' : t) :
  inRange k p ->
  readTrackVariableLength_loop fuel k v p = Some (v', p') ->
  advances k p p' /\ 0 <= v' < 4294967296.
Proof.
  revert v p. induction fuel as [|fuel IH]; intros v p H E; [discriminate|].
  cbn [readTrackVariableLength_loop] in E.
  pose proof (readTrackByte_advances k p H) as A.
  destruct (readTrackByte k p) as [b p1]. cbn [snd] in A.
  destruct (Z.land b 128 =? 0).
  - injection E as <- <-. split; [exact A | apply vlq_step_range].
  - destruct (IH _ _ (advances_inRange _ _ _ A H) E) as [A' R].
    split; [eapply advances_trans; eassumption | exact R].
Qed.

Lemma readTrackVariableLength_advances (k : Z) (p : t) :
  inRange k p ->
  advances k p (snd (readTrackVariableLength k p))
  /\ 0 <= fst (readTrackVariableLength k p) < 4294967296.
Proof.
  intros H. unfold readTrackVariableLength.
  destruct (readTrackVariableLength_loop _ k 0 p) as [[v p']|] eqn:E.
  - cbn [fst snd]. eapply readTrackVariableLength_loop_advances; eassumption.
  - cbn [fst snd]. split; [apply advances_refl | lia].
Qed.

Lemma readTrackBytes_advances (n : nat) (k : Z) (p : t) :
  inRange k p -> advances k p (snd (readTrackBytes n k p)).
Proof.
  revert p. induction n as [|n IH]; intros p H; cbn [readTrackBytes].
  - apply advances_refl.
  - pose proof (readTrackByte_advances k p H) as A.
    destruct (readTrackByte k p) as [b p1]. cbn [snd] in A.
    pose proof (IH p1 (advances_inRange _ _ _ A H)) as B.
    destruct (readTrackBytes n k p1) as [bs p2]. cbn [snd] in *.
    eapply advances_trans; eassumption.
Qed.

Lemma skipTrackBytes_advances (n : nat) (k : Z) (p : t) :
  inRange k p -> advances k p (skipTrackBytes n k p).
Proof.
  revert p. induction n as [|n IH]; intros p H; cbn [skipTrackBytes].
  - apply advances_refl.
  - pose proof (readTrackByte_advances k p H) as A.
    eapply advances_trans; [exact A|].
    apply IH. eapply advances_inRange; eassumption.
Qed.

End ParserFrame.

(** Reads one byte and keeps what is known about the state so far. *)
Ltac read_byte k p H A b p1 :=
  pose proof (readTrackByte_advances k p H) as A;
  destruct (MidiFileParser.readTrackByte k p) as [b p1]; cbn [snd] in A.

Section MetaFrame.
Import MidiFileParser.

Lemma metaTempo_advances (k len : Z) (p : t) :
  inRange k p -> advances k p (metaTempo k len p).
Proof.
  intros H. unfold metaTempo.
  destruct (len =? 3); [|apply skipTrackBytes_advances; exact H].
  read_byte k p H A1 b1 p1.
  pose proof (advances_inRange _ _ _ A1 H) as H1.
  read_byte k p1 H1 A2 b2 p2.
  pose proof (advances_inRange _ _ _ A2 H1) as H2.
  read_byte k p2 H2 A3 b3 p3.
  assert (A : advances k p p3)
    by (eapply advances_trans; [|exact A3];
        eapply advances_trans; eassumption).
  destruct (_ && _); [apply advances_set_fileInfo|]; exact A.
Qed.

Lemma metaTimeSignature_advances (k len : Z) (p : t) :
  inRange k p -> advances k p (metaTimeSignature k len p).
Proof.
  intros H. unfold metaTimeSignature.
  destruct (len =? 4); [|apply advances_refl].
  read_byte k p H A1 b1 p1.
  pose proof (advances_inRange _ _ _ A1 H) as H1.
  read_byte k p1 H1 A2 b2 p2.
  pose proof (advances_inRange _ _ _ A2 H1) as H2.
  assert (A12 : advances k p (set_fileInfo
                  (info_set_timesig b1 (u8 (Z.shiftl 1 b2)) (fileInfo p2)) p2))
    by (apply advances_set_fileInfo; eapply advances_trans; eassumption).
  set (q := set_fileInfo _ p2) in *.
  pose proof (advances_inRange _ _ _ A12 H) as Hq.
  read_byte k q Hq A3 b3 p3.
  pose proof (advances_inRange _ _ _ A3 Hq) as H3.
  read_byte k p3 H3 A4 b4 p4.
  eapply advances_trans; [exact A12|].
  eapply advances_trans; eassumption.
Qed.

Lemma metaTrackName_advances (k len : Z) (p : t) :
  inRange k p -> advances k p (metaTrackName k len p).
Proof.
  intros H. unfold metaTrackName.
  destruct (len <? 64); [|apply skipTrackBytes_advances; exact H].
  pose proof (readTrackBytes_advances (Z.to_nat len) k p H) as A.
  destruct (readTrackBytes _ k p) as [bs p1]. cbn [snd] in A.
  apply advances_set_fileInfo. exact A.
Qed.

Lemma clearRunningStatus_advances (k : Z) (p : t) :
  inRange k p -> advances k p (clearRunningStatus k p).
Proof.
  intros H. unfold clearRunningStatus.
  apply advances_setTrack; [exact H|split; reflexivity].
Qed.

End MetaFrame.

Section ReadTrackEvent.
Import MidiFileParser.

Lemma readTrackEvent_status_spec (k : Z) (ev : MidiEvent) (p : t)
  (ok : bool) (ev' : MidiEvent) (p' : t) :
  inRange k p ->
  readTrackEvent_status k ev p = (ok, ev', p') ->
  advances k p p'
  /\ deltaTime ev' = deltaTime ev /\ absoluteTime ev' = absoluteTime ev.
Proof.
  intros H E. unfold readTrackEvent_status in E.
  read_byte k p H A0 sb p0.
  pose proof (advances_inRange _ _ _ A0 H) as H0.
  set (tr := getTrack k p0) in *.
  assert (A1 : advances k p
            (snd (if sb <? 128
                  then (runningStatus tr,
                        setTrack k (tr_set_cursor (u16 (bufferPos tr - 1))
                                      (u32 (filePosition tr - 1)) tr) p0)
                  else (sb, setTrack k (tr_set_runningStatus sb tr) p0)))).
  { destruct (sb <? 128); cbn [snd];
      (eapply advances_trans; [exact A0|]);
      (apply advances_setTrack; [exact H0|split; reflexivity]). }
  destruct (if sb <? 128 then _ else _) as [status p1]. cbn [snd] in A1.
  pose proof (advances_inRange _ _ _ A1 H) as H1.
  destruct ((status =? MIDI_SYSEX) || (status =? 247)).
  { (* SysEx *)
    destruct (readTrackVariableLength_advances k p1 H1) as [A2 _].
    destruct (readTrackVariableLength k p1) as [len p2]. cbn [snd] in A2.
    pose proof (advances_inRange _ _ _ A2 H1) as H2.
    pose proof (readTrackBytes_advances (Z.to_nat len) k p2 H2) as A3.
    destruct (readTrackBytes _ k p2) as [bs p3]. cbn [snd] in A3.
    pose proof (advances_inRange _ _ _ A3 H2) as H3.
    injection E as <- <- <-. split; [|split; reflexivity].
    eapply advances_trans; [exact A1|].
    eapply advances_trans; [exact A2|].
    eapply advances_trans; [exact A3|].
    apply clearRunningStatus_advances. exact H3. }
  destruct (status =? MIDI_META_EVENT).
  { (* meta *)
    read_byte k p1 H1 A2 metaType p2.
    pose proof (advances_inRange _ _ _ A2 H1) as H2.
    destruct (readTrackVariableLength_advances k p2 H2) as [A3 _].
    destruct (readTrackVariableLength k p2) as [len p3]. cbn [snd] in A3.
    pose proof (advances_inRange _ _ _ A3 H2) as H3.
    assert (A : advances k p p3)
      by (eapply advances_trans; [exact A1|];
          eapply advances_trans; eassumption).
    assert (Hclear : forall q, advances k p3 q ->
              advances k p (clearRunningStatus k q)).
    { intros q Aq. eapply advances_trans; [exact A|].
      eapply advances_trans; [exact Aq|].
      apply clearRunningStatus_advances.
      eapply advances_inRange; eassumption. }
    destruct (metaType =? META_TEMPO).
    { injection E as <- <- <-. split; [|split; reflexivity].
      apply Hclear. apply metaTempo_advances. exact H3. }
    destruct (metaType =? META_TIME_SIGNATURE).
    { injection E as <- <- <-. split; [|split; reflexivity].
      apply Hclear. apply metaTimeSignature_advances. exact H3. }
    destruct (metaType =? META_TRACK_NAME).
    { injection E as <- <- <-. split; [|split; reflexivity].
      apply Hclear. apply metaTrackName_advances. exact H3. }
    destruct (metaType =? META_END_OF_TRACK).
    { injection E as <- <- <-. split; [|split; reflexivity].
      eapply advances_trans; [exact A|].
      apply advances_setTrack; [exact H3|split; reflexivity]. }
    injection E as <- <- <-. split; [|split; reflexivity].
    apply Hclear. apply skipTrackBytes_advances. exact H3. }
  (* channel voice *)
  cbv zeta in E.
  destruct (_ || _ || _ || _ || _).
  { read_byte k p1 H1 A2 d1 p2.
    pose proof (advances_inRange _ _ _ A2 H1) as H2.
    read_byte k p2 H2 A3 d2 p3.
    injection E as <- <- <-. split; [|split; reflexivity].
    eapply advances_trans; [exact A1|].
    eapply advances_trans; eassumption. }
  destruct (_ || _).
  { read_byte k p1 H1 A2 d1 p2.
    injection E as <- <- <-. split; [|split; reflexivity].
    eapply advances_trans; eassumption. }
  injection E as <- <- <-. split; [exact A1|split; reflexivity].
Qed.

(** What [readTrackEvent] does to the parser, as far as the merge of the
    tracks is concerned: the other tracks are left alone; the tick counter
    of the track read is either unchanged or has the delta time added
    modulo 2^32; on success the event carries the new tick. *)
Lemma readTrackEvent_spec (k : Z) (ev : MidiEvent) (p : t)
  (ok : bool) (ev' : MidiEvent) (p' : t) :
  inRange k p ->
  readTrackEvent k ev p = (ok, ev', p') ->
  numTracks p' = numTracks p
  /\ length (tracks p') = length (tracks p)
  /\ allTracksEnded p' = allTracksEnded p
  /\ headerJunk p' = headerJunk p
  /\ (forall j, j <> Z.to_nat k ->
      nth j (tracks p') TrackState_zero = nth j (tracks p) TrackState_zero)
  /\ (0 <= currentTick (getTrack k p) < 4294967296 ->
      0 <= currentTick (getTrack k p') < 4294967296)
  /\ eventReady (getTrack k p') = eventReady (getTrack k p)
  /\ (ok = true ->
      absoluteTime ev' = currentTick (getTrack k p')
      /\ absoluteTime ev'
         = u32 (currentTick (getTrack k p) + deltaTime ev')
      /\ 0 <= deltaTime ev' < 4294967296).
Proof.
  intros H E. unfold readTrackEvent in E.
  assert (Hsame : forall q, advances k p q ->
            numTracks q = numTracks p
            /\ length (tracks q) = length (tracks p)
            /\ allTracksEnded q = allTracksEnded p
            /\ headerJunk q = headerJunk p
            /\ (forall j, j <> Z.to_nat k ->
                nth j (tracks q) TrackState_zero
                = nth j (tracks p) TrackState_zero)
            /\ (0 <= currentTick (getTrack k p) < 4294967296 ->
                0 <= currentTick (getTrack k q) < 4294967296)
            /\ eventReady (getTrack k q) = eventReady (getTrack k p)).
  { intros q [A1 A2 A3 A4 A5 A6 A7]. rewrite A6. auto 10. }
  destruct (numTracks p <=? k).
  { injection E as <- <- <-.
    destruct (Hsame p (advances_refl k p)) as (S1 & S2 & S3 & S4 & S5 & S6 & S7).
    split; [exact S1|]. split; [exact S2|]. split; [exact S3|].
    split; [exact S4|]. split; [exact S5|]. split; [exact S6|].
    split; [exact S7|discriminate]. }
  destruct (endOfTrack (getTrack k p)).
  { injection E as <- <- <-.
    destruct (Hsame p (advances_refl k p)) as (S1 & S2 & S3 & S4 & S5 & S6 & S7).
    split; [exact S1|]. split; [exact S2|]. split; [exact S3|].
    split; [exact S4|]. split; [exact S5|]. split; [exact S6|].
    split; [exact S7|discriminate]. }
  destruct (trackEndPos (getTrack k p) <=? filePosition (getTrack k p)).
  { injection E as <- <- <-.
    destruct (Hsame _ (advances_setTrack k
                         (tr_set_endOfTrack true (getTrack k p)) p H
                         (conj eq_refl eq_refl)))
      as (S1 & S2 & S3 & S4 & S5 & S6 & S7).
    split; [exact S1|]. split; [exact S2|]. split; [exact S3|].
    split; [exact S4|]. split; [exact S5|]. split; [exact S6|].
    split; [exact S7|discriminate]. }
  destruct (readTrackVariableLength_advances k p H) as [A1 Rdt].
  destruct (readTrackVariableLength k p) as [dt p1]. cbn [fst snd] in A1, Rdt.
  pose proof (advances_inRange _ _ _ A1 H) as H1.
  set (tick := u32 (currentTick (getTrack k p1) + dt)) in *.
  set (p2 := setTrack k (tr_set_currentTick tick (getTrack k p1)) p1) in *.
  assert (H2 : inRange k p2).
  { unfold inRange, p2, setTrack. cbn [tracks set_tracks].
    rewrite length_upd_nth. exact H1. }
  assert (T2 : currentTick (getTrack k p2) = tick).
  { unfold p2. rewrite getTrack_setTrack by exact H1. reflexivity. }
  destruct (readTrackEvent_status_spec k _ p2 ok ev' p' H2 E)
    as (A3 & Hdt & Habs).
  cbn [deltaTime absoluteTime ev_set_timing] in Hdt, Habs.
  assert (R2 : eventReady (getTrack k p2) = eventReady (getTrack k p1)).
  { unfold p2. rewrite getTrack_setTrack by exact H1. reflexivity. }
  destruct A1 as [B1 B2 B3 B4 B5 B6 B7].
  destruct A3 as [C1 C2 C3 C4 C5 C6 C7].
  assert (Tick : tick = u32 (currentTick (getTrack k p) + dt))
    by (unfold tick; rewrite B6; reflexivity).
  split; [|split; [|split; [|split; [|split; [|split; [|split]]]]]].
  - rewrite C1. unfold p2, setTrack. cbn [numTracks set_tracks]. exact B1.
  - rewrite C2. unfold p2, setTrack. cbn [tracks set_tracks].
    rewrite length_upd_nth. exact B2.
  - rewrite C3. unfold p2, setTrack. cbn [allTracksEnded set_tracks]. exact B3.
  - rewrite C4. unfold p2, setTrack. cbn [headerJunk set_tracks]. exact B4.
  - intros j Hj. rewrite C5 by exact Hj.
    unfold p2, setTrack. cbn [tracks set_tracks].
    rewrite nth_upd_nth_other by exact Hj. apply B5. exact Hj.
  - intros _. rewrite C6, T2. apply u32_range.
  - rewrite C7, R2. exact B7.
  - intros _. rewrite C6, T2, Habs, Hdt. repeat split; auto.
    + lia.
    + lia.
Qed.

End ReadTrackEvent.

(** ** The merge of the tracks: [readNextEvent] *)

Section Merge.
Import MidiFileParser.

Lemma findEarliest_scanned (n : nat) (i : Z) (p : t) (k time : Z) :
  0 <= i -> scanned i p k time ->
  scanned (i + Z.of_nat n) p (fst (findEarliest n i p k time))
    (snd (findEarliest n i p k time)).
Proof.
  revert i k time. induction n as [|n IH]; intros i k time Hi Hs.
  - cbn [findEarliest fst snd]. rewrite Z.add_0_r. exact Hs.
  - cbn [findEarliest].
    replace (i + Z.of_nat (S n)) with ((i + 1) + Z.of_nat n) by lia.
    fold (active i p). fold (nextTime i p).
    destruct (active i p && (nextTime i p <? time)) eqn:C.
    + apply andb_true_iff in C. destruct C as [Ha Hlt].
      apply Z.ltb_lt in Hlt.
      apply IH; [lia|]. right.
      destruct Hs as [(-> & -> & Hall) | (Hk & Hak & -> & Hsent & Hall & Hfirst)].
      * split; [lia|]. split; [exact Ha|]. split; [reflexivity|].
        split; [exact Hlt|]. split.
        -- intros j Hj Haj.
           destruct (Z.eq_dec j i) as [->|Hne]; [lia|].
           specialize (Hall j ltac:(lia) Haj). lia.
        -- intros j Hj Haj. specialize (Hall j ltac:(lia) Haj). lia.
      * split; [lia|]. split; [exact Ha|]. split; [reflexivity|].
        split; [lia|]. split.
        -- intros j Hj Haj.
           destruct (Z.eq_dec j i) as [->|Hne]; [lia|].
           specialize (Hall j ltac:(lia) Haj). lia.
        -- intros j Hj Haj. specialize (Hall j ltac:(lia) Haj). lia.
    + apply IH; [lia|].
      assert (Hi' : active i p = true -> time <= nextTime i p).
      { intros Ha. rewrite Ha in C. cbn [andb] in C.
        apply Z.ltb_ge in C. exact C. }
      destruct Hs as [(-> & -> & Hall) | (Hk & Hak & -> & Hsent & Hall & Hfirst)].
      * left. split; [reflexivity|]. split; [reflexivity|].
        intros j Hj Haj.
        destruct (Z.eq_dec j i) as [->|Hne]; [apply Hi'; exact Haj|].
        apply Hall; [lia|exact Haj].
      * right. split; [lia|]. split; [exact Hak|]. split; [reflexivity|].
        split; [exact Hsent|]. split; [|exact Hfirst].
        intros j Hj Haj.
        destruct (Z.eq_dec j i) as [->|Hne]; [apply Hi'; exact Haj|].
        apply Hall; [lia|exact Haj].
Qed.

Lemma findEarliest_all (p : t) :
  scanned (numTracks p) p
    (fst (findEarliest (Z.to_nat (numTracks p)) 0 p (-1) 0xFFFFFFFF))
    (snd (findEarliest (Z.to_nat (numTracks p)) 0 p (-1) 0xFFFFFFFF)).
Proof.
  assert (H0 : scanned 0 p (-1) 0xFFFFFFFF).
  { left. repeat split; auto. intros j Hj. lia. }
  pose proof (findEarliest_scanned (Z.to_nat (numTracks p)) 0 p (-1)
                0xFFFFFFFF ltac:(lia) H0) as H.
  cbn [Z.add] in H.
  destruct (Z.le_gt_cases 0 (numTracks p)) as [Hn|Hn].
  - rewrite Z2Nat.id in H by exact Hn. exact H.
  - replace (Z.to_nat (numTracks p)) with O in * by lia.
    cbn [findEarliest fst snd] in *.
    left. repeat split; auto. intros j Hj. lia.
Qed.

(** The call of [readNextEvent], seen from outside: on [true] the event of
    the first track with the least tick among the active ones, that tick
    being below the sentinel; on [false] the caller's event untouched, and
    either the end flag was set already or no active track has a tick below
    the sentinel. *)
Lemma readNextEvent_selects (ev : MidiEvent) (p : t)
  (ok : bool) (ev' : MidiEvent) (p' : t) :
  readNextEvent ev p = (ok, ev', p') ->
  (ok = true ->
   exists k,
     0 <= k < numTracks p /\ active k p = true
     /\ ev' = MidiEvent_assign (nextEvent (getTrack k p))
     /\ nextTime k p < 0xFFFFFFFF
     /\ (forall j, 0 <= j < numTracks p -> active j p = true ->
         nextTime k p <= nextTime j p)
     /\ (forall j, 0 <= j < k -> active j p = true ->
         nextTime k p < nextTime j p))
  /\ (ok = false ->
      ev' = ev
      /\ (allTracksEnded p = true
          \/ forall j, 0 <= j < numTracks p -> active j p = true ->
             0xFFFFFFFF <= nextTime j p)).
Proof.
  intros E. unfold readNextEvent in E.
  destruct (allTracksEnded p) eqn:Hend.
  { injection E as <- <- <-. split; [discriminate|]. intros _. auto. }
  pose proof (findEarliest_all p) as Hs.
  destruct (findEarliest (Z.to_nat (numTracks p)) 0 p (-1) 0xFFFFFFFF)
    as [k time]. cbn [fst snd] in Hs.
  destruct (k =? -1) eqn:Hk.
  { injection E as <- <- <-. split; [discriminate|]. intros _.
    split; [reflexivity|]. right.
    apply Z.eqb_eq in Hk.
    destruct Hs as [(_ & _ & Hall) | (Hr & _)]; [exact Hall | lia]. }
  apply Z.eqb_neq in Hk.
  destruct Hs as [(-> & _) | (Hr & Ha & -> & Hsent & Hall & Hfirst)];
    [contradiction|].
  destruct (readTrackEvent k (nextEvent (getTrack k p)) p) as [[ok1 ev1] p1].
  injection E as <- <- <-.
  split; [|discriminate]. intros _.
  exists k. repeat split; auto; lia.
Qed.

End Merge.

Section MergeInvariant.
Import MidiFileParser.

Lemma getTrack_setTrack_other (i k : Z) (tr : TrackState) (p : t) :
  Z.to_nat i <> Z.to_nat k -> getTrack i (setTrack k tr p) = getTrack i p.
Proof.
  intros H. unfold getTrack, setTrack. cbn [tracks set_tracks].
  apply nth_upd_nth_other. exact H.
Qed.

Lemma u32_sum_cases (a d : Z) :
  0 <= a < 4294967296 -> 0 <= d < 4294967296 ->
  a <= u32 (a + d) \/ u32 (a + d) < d.
Proof.
  intros Ha Hd. destruct (Z.lt_ge_cases (a + d) 4294967296) as [Hs|Hs].
  - left. rewrite u32_small by lia. lia.
  - right. unfold u32.
    replace (a + d) with ((a + d - 4294967296) + 1 * 4294967296) by lia.
    rewrite Z.mod_add by lia. rewrite Z.mod_small by lia. lia.
Qed.

(** One successful call keeps the invariant, and afterwards no buffered
    event lies before the event returned (wrap-around apart). *)
Lemma readNextEvent_step (ev : MidiEvent) (p : t) (e : MidiEvent) (p' : t) :
  parserInv p ->
  readNextEvent ev p = (true, e, p') ->
  parserInv p' /\ notBefore (absoluteTime e) p'.
Proof.
  intros (Hlen & Hnum & Hinv) E.
  pose proof E as E0. unfold readNextEvent in E.
  destruct (allTracksEnded p); [discriminate|].
  pose proof (findEarliest_all p) as Hs.
  destruct (findEarliest (Z.to_nat (numTracks p)) 0 p (-1) 0xFFFFFFFF)
    as [k time]. cbn [fst snd] in Hs.
  destruct (k =? -1) eqn:Hk; [discriminate|]. apply Z.eqb_neq in Hk.
  destruct Hs as [(-> & _) | (Hr & Ha & -> & Hsent & Hall & Hfirst)];
    [contradiction|].
  assert (Hin : inRange k p) by (unfold inRange; lia).
  destruct (readTrackEvent k (nextEvent (getTrack k p)) p)
    as [[ok1 ev1] p1] eqn:R.
  destruct (readTrackEvent_spec k _ p ok1 ev1 p1 Hin R)
    as (Rnum & Rlen & _ & _ & Rother & Rtick & _ & Rok).
  injection E as <- <-.
  assert (Hin1 : inRange k p1) by (unfold inRange; lia).
  set (trk := tr_set_next ev1 ok1 (getTrack k p1)).
  assert (Gk : getTrack k (setTrack k trk p1) = trk)
    by (apply getTrack_setTrack; exact Hin1).
  assert (Go : forall i, 0 <= i < numTracks p -> i <> k ->
            getTrack i (setTrack k trk p1) = getTrack i p).
  { intros i Hi Hne. rewrite getTrack_setTrack_other by lia.
    unfold getTrack. apply Rother. lia. }
  destruct (Hinv k Hr) as (Tk & Ak). specialize (Ak Ha).
  assert (Habs : absoluteTime (MidiEvent_assign (nextEvent (getTrack k p)))
                 = nextTime k p) by reflexivity.
  split.
  - split; [|split].
    + unfold setTrack. cbn [tracks set_tracks]. rewrite length_upd_nth. lia.
    + unfold setTrack. cbn [numTracks set_tracks]. lia.
    + intros i Hi. unfold setTrack in Hi. cbn [numTracks set_tracks] in Hi.
      rewrite Rnum in Hi.
      destruct (Z.eq_dec i k) as [->|Hne].
      * unfold trackInv, active, nextTime. rewrite Gk.
        cbn [trk currentTick eventReady endOfTrack nextEvent tr_set_next].
        split; [apply Rtick; exact Tk|].
        intros Hact. apply andb_true_iff in Hact. destruct Hact as [Hok _].
        apply Rok. exact Hok.
      * unfold trackInv, active, nextTime. rewrite (Go i Hi Hne).
        apply Hinv. exact Hi.
  - intros i Hi Hact. unfold setTrack in Hi. cbn [numTracks set_tracks] in Hi.
    rewrite Rnum in Hi. rewrite Habs.
    destruct (Z.eq_dec i k) as [->|Hne].
    + unfold active, nextTime in *. rewrite Gk in *.
      cbn [trk eventReady endOfTrack nextEvent tr_set_next] in *.
      apply andb_true_iff in Hact. destruct Hact as [Hok _].
      destruct (Rok Hok) as (_ & Hsum & Hdt).
      rewrite Hsum. fold (nextTime k p) in Ak. rewrite <- Ak.
      apply u32_sum_cases; [rewrite Ak; exact Tk | exact Hdt].
    + left. unfold active, nextTime in *. rewrite (Go i Hi Hne) in *.
      apply Hall; assumption.
Qed.

Lemma parserInv_notBefore_0 (p : t) : parserInv p -> notBefore 0 p.
Proof.
  intros (_ & _ & Hinv) i Hi Ha. left.
  destruct (Hinv i Hi) as (Tk & Ak). rewrite (Ak Ha). lia.
Qed.

(** The merged stream from a state that satisfies the invariant. *)
Lemma readEvents_sorted (n : nat) (p : t) (t0 : Z) :
  parserInv p -> notBefore t0 p ->
  (forall e, In e (readEvents n p) -> deltaTime e <= absoluteTime e) ->
  Sorted Z.le (t0 :: map absoluteTime (readEvents n p)).
Proof.
  revert p t0. induction n as [|n IH]; intros p t0 Hinv Hnb Hwrap.
  - cbn. constructor; constructor.
  - cbn [readEvents] in *.
    destruct (readNextEvent MidiEvent_new p) as [[ok e] p'] eqn:E.
    destruct ok; [|cbn; constructor; constructor].
    destruct (readNextEvent_step _ _ _ _ Hinv E) as (Hinv' & Hnb').
    destruct (readNextEvent_selects _ _ _ _ _ E) as (Hsel & _).
    destruct (Hsel eq_refl) as (k & Hk & Ha & -> & _).
    cbn [map]. constructor.
    + apply IH; [exact Hinv' | exact Hnb' |].
      intros x Hx. apply Hwrap. right. exact Hx.
    + constructor.
      specialize (Hwrap _ (or_introl eq_refl)).
      destruct (Hnb k Hk Ha) as [Hle|Hw].
      * exact Hle.
      * exfalso. cbn in Hwrap. unfold nextTime in Hw. lia.
Qed.

End MergeInvariant.

(** ** Opening a file establishes the invariant *)

Section OpenInvariant.
Import MidiFileParser.

Lemma fileMoved_refl (p : t) : fileMoved p p.
Proof. repeat split. Qed.

Lemma fileMoved_trans (p q r : t) :
  fileMoved p q -> fileMoved q r -> fileMoved p r.
Proof.
  intros (A1 & A2 & A3 & A4) (B1 & B2 & B3 & B4).
  repeat split; congruence.
Qed.

Lemma read8_moved (p : t) : fileMoved p (snd (read8 p)).
Proof.
  unfold read8. destruct (midiFile p) as [f|]; [|apply fileMoved_refl].
  destruct (available f =? 0); [apply fileMoved_refl|].
  destruct (fread 1 f) as [bs f']. repeat split.
Qed.

Lemma read16_moved (p : t) : fileMoved p (snd (read16 p)).
Proof.
  unfold read16.
  pose proof (read8_moved p) as A. destruct (read8 p) as [b1 p1].
  pose proof (read8_moved p1) as B. destruct (read8 p1) as [b2 p2].
  cbn [snd] in *. eapply fileMoved_trans; eassumption.
Qed.

Lemma read32_moved (p : t) : fileMoved p (snd (read32 p)).
Proof.
  unfold read32.
  pose proof (read8_moved p) as A. destruct (read8 p) as [b1 p1].
  pose proof (read8_moved p1) as B. destruct (read8 p1) as [b2 p2].
  pose proof (read8_moved p2) as C. destruct (read8 p2) as [b3 p3].
  pose proof (read8_moved p3) as D. destruct (read8 p3) as [b4 p4].
  cbn [snd] in *.
  eapply fileMoved_trans; [exact A|].
  eapply fileMoved_trans; [exact B|].
  eapply fileMoved_trans; eassumption.
Qed.

Lemma readTag_moved (p : t) : fileMoved p (snd (readTag p)).
Proof.
  unfold readTag. destruct (midiFile p) as [f|]; [|apply fileMoved_refl].
  destruct (fread 4 f) as [bs f']. repeat split.
Qed.

Lemma readMidiHeader_tracks (p : t) :
  tracks (snd (readMidiHeader p)) = tracks p
  /\ headerJunk (snd (readMidiHeader p)) = headerJunk p
  /\ (fst (readMidiHeader p) = true ->
      0 <= numTracks (snd (readMidiHeader p)) <= 16).
Proof.
  unfold readMidiHeader.
  destruct (midiFile p) as [f|]; [|cbn; repeat split; discriminate].
  pose proof (readTag_moved p) as A. destruct (readTag p) as [hdr p1].
  cbn [snd] in A. destruct A as (A1 & _ & _ & A4).
  destruct (negb (bytes_eqb hdr tag_MThd));
    [cbn [fst snd]; repeat split; auto; discriminate|].
  pose proof (read32_moved p1) as B. destruct (read32 p1) as [len p2].
  cbn [snd] in B. destruct B as (B1 & _ & _ & B4).
  destruct (negb (len =? 6));
    [cbn [fst snd]; repeat split; try congruence; discriminate|].
  pose proof (read16_moved p2) as C. destruct (read16 p2) as [fmt p3].
  cbn [snd] in C. destruct C as (C1 & _ & _ & C4).
  set (p3' := set_fileInfo _ p3).
  pose proof (read16_moved p3') as D. destruct (read16 p3') as [nt p4].
  cbn [snd] in D. destruct D as (D1 & _ & _ & D4).
  set (p4' := set_numTracks (u8 nt) (set_fileInfo _ p4)).
  set (p5 := if MAX_TRACKS <? numTracks p4'
             then set_numTracks MAX_TRACKS p4' else p4').
  assert (H5 : tracks p5 = tracks p4 /\ headerJunk p5 = headerJunk p4
               /\ 0 <= numTracks p5 <= 16).
  { subst p5 p4'. cbn [numTracks set_numTracks set_fileInfo].
    pose proof (u8_range nt) as Hu.
    destruct (MAX_TRACKS <? u8 nt) eqn:Hc.
    - cbn. unfold MAX_TRACKS. repeat split; lia.
    - apply Z.ltb_ge in Hc. unfold MAX_TRACKS in Hc. cbn. repeat split; lia. }
  destruct H5 as (E1 & E4 & E2).
  pose proof (read16_moved p5) as F. destruct (read16 p5) as [tpq p6].
  cbn [snd] in F. destruct F as (F1 & F2 & _ & F4).
  cbn [fst snd tracks numTracks headerJunk set_fileInfo].
  subst p3'. cbn [tracks headerJunk set_fileInfo] in D1, D4.
  repeat split; try congruence; lia.
Qed.

Lemma initTrackHeaders_spec (n : nat) (i : Z) (p p' : t) :
  0 <= i -> (Z.to_nat i + n <= length (tracks p))%nat ->
  initTrackHeaders n i p = (true, p') ->
  length (tracks p') = length (tracks p)
  /\ numTracks p' = numTracks p
  /\ headerJunk p' = headerJunk p
  /\ (forall j, 0 <= j < i -> getTrack j p' = getTrack j p)
  /\ (forall j, i <= j < i + Z.of_nat n ->
      currentTick (getTrack j p') = 0 /\ eventReady (getTrack j p') = false).
Proof.
  revert i p. induction n as [|n IH]; intros i p Hi Hlen E.
  - cbn in E. injection E as <-.
    do 4 (split; [intros; reflexivity|]). intros j Hj. lia.
  - cbn [initTrackHeaders] in E.
    pose proof (readTag_moved p) as A. destruct (readTag p) as [hdr p1].
    cbn [snd] in A. destruct A as (A1 & A2 & _ & A4).
    destruct (negb (bytes_eqb hdr tag_MTrk)); [discriminate|].
    pose proof (read32_moved p1) as B. destruct (read32 p1) as [len p2].
    cbn [snd] in B. destruct B as (B1 & B2 & _ & B4).
    destruct (midiFile p2) as [f|]; [|discriminate].
    set (tr := mkTrack _ _ _ _ _ _ _ _ _ _ _ _) in E.
    destruct (seekSet _ f) as [ok f']. destruct ok; cbn [negb] in E;
      [|discriminate].
    assert (Hin : inRange i p2) by (unfold inRange; rewrite B1, A1; lia).
    assert (Hlen2 : length (tracks (set_midiFile (Some f') (setTrack i tr p2)))
                    = length (tracks p)).
    { unfold setTrack. cbn [tracks set_tracks set_midiFile].
      rewrite length_upd_nth. congruence. }
    destruct (IH (i + 1) _ ltac:(lia) ltac:(rewrite Hlen2; lia) E)
      as (I1 & I2 & I3 & I4 & I5).
    assert (G : forall j, getTrack j (set_midiFile (Some f') (setTrack i tr p2))
                          = getTrack j (setTrack i tr p2)) by reflexivity.
    split; [congruence|]. split.
    { rewrite I2. cbn. congruence. }
    split.
    { rewrite I3. cbn. congruence. }
    split.
    + intros j Hj. rewrite I4 by lia. rewrite G.
      rewrite getTrack_setTrack_other by lia.
      unfold getTrack. congruence.
    + intros j Hj. destruct (Z.eq_dec j i) as [->|Hne].
      * rewrite I4 by lia. rewrite G, getTrack_setTrack by exact Hin.
        split; reflexivity.
      * apply I5. lia.
Qed.

Lemma trackInv_same (j : Z) (p q : t) :
  getTrack j q = getTrack j p -> trackInv j p -> trackInv j q.
Proof.
  intros H. unfold trackInv, active, nextTime. rewrite H. auto.
Qed.

Lemma prefetchTracks_spec (n : nat) (i : Z) (p : t) :
  0 <= i -> (Z.to_nat i + n <= length (tracks p))%nat ->
  (forall j, 0 <= j < i -> trackInv j p) ->
  (forall j, i <= j < i + Z.of_nat n ->
     currentTick (getTrack j p) = 0 /\ eventReady (getTrack j p) = false) ->
  length (tracks (prefetchTracks n i p)) = length (tracks p)
  /\ numTracks (prefetchTracks n i p) = numTracks p
  /\ headerJunk (prefetchTracks n i p) = headerJunk p
  /\ forall j, 0 <= j < i + Z.of_nat n -> trackInv j (prefetchTracks n i p).
Proof.
  revert i p. induction n as [|n IH]; intros i p Hi Hlen Hdone Htodo.
  - cbn [prefetchTracks]. do 3 (split; [reflexivity|]).
    intros j Hj. apply Hdone. lia.
  - cbn [prefetchTracks].
    assert (Hin : inRange i p) by (unfold inRange; lia).
    pose proof (fillTrackBuffer_advances i p Hin) as A.
    destruct (fillTrackBuffer i p) as [okf p0]. cbn [snd] in A.
    pose proof (advances_inRange _ _ _ A Hin) as Hin0.
    destruct (readTrackEvent i (nextEvent (getTrack i p0)) p0)
      as [[ok ev] p1] eqn:R.
    destruct (readTrackEvent_spec i _ p0 ok ev p1 Hin0 R)
      as (Rnum & Rlen & _ & Rjunk & Rother & Rtick & Rready & Rok).
    destruct A as [A1 A2 A3 A4 A5 A6 A7].
    assert (Hin1 : inRange i p1) by (unfold inRange in *; lia).
    set (tr := getTrack i p1).
    set (p2 := setTrack i (tr_set_next ev (ok || eventReady tr) tr) p1).
    assert (Hlen2 : length (tracks p2) = length (tracks p)).
    { unfold p2, setTrack. cbn [tracks set_tracks].
      rewrite length_upd_nth. lia. }
    assert (Go : forall j, 0 <= j -> j <> i -> getTrack j p2 = getTrack j p).
    { intros j Hj Hne. unfold p2.
      rewrite getTrack_setTrack_other by lia.
      unfold getTrack. rewrite Rother, A5 by lia. reflexivity. }
    destruct (Htodo i ltac:(lia)) as (T0 & R0).
    assert (Hi2 : trackInv i p2).
    { unfold trackInv, active, nextTime, p2.
      rewrite getTrack_setTrack by exact Hin1.
      cbn [currentTick eventReady endOfTrack nextEvent tr_set_next].
      split.
      - apply Rtick. rewrite A6, T0. lia.
      - intros Hact. apply andb_true_iff in Hact. destruct Hact as [Hok _].
        unfold tr in Hok. rewrite Rready, A7, R0, orb_false_r in Hok.
        apply Rok. exact Hok. }
    destruct (IH (i + 1) p2 ltac:(lia) ltac:(rewrite Hlen2; lia)) as
      (I1 & I2 & I3 & I4).
    + intros j Hj. destruct (Z.eq_dec j i) as [->|Hne]; [exact Hi2|].
      apply (trackInv_same j p p2); [apply Go; lia|apply Hdone; lia].
    + intros j Hj. rewrite Go by lia. apply Htodo. lia.
    + split; [congruence|]. split.
      { rewrite I2. unfold p2, setTrack. cbn [numTracks set_tracks]. lia. }
      split.
      { rewrite I3. unfold p2, setTrack. cbn [headerJunk set_tracks].
        congruence. }
      intros j Hj. apply I4. lia.
Qed.

Lemma initializeTracks_inv (p p' : t) :
  length (tracks p) = 16%nat -> 0 <= numTracks p <= 16 ->
  initializeTracks p = (true, p') -> parserInv p'.
Proof.
  intros Hlen Hnum E. unfold initializeTracks in E.
  destruct (midiFile p); [|discriminate].
  destruct (initTrackHeaders (Z.to_nat (numTracks p)) 0 p) as [ok p1] eqn:I.
  destruct ok; cbn [negb] in E; [|discriminate].
  injection E as <-.
  destruct (initTrackHeaders_spec (Z.to_nat (numTracks p)) 0 p p1 ltac:(lia)
              ltac:(lia) I)
    as (I1 & I2 & _ & _ & I5).
  destruct (prefetchTracks_spec (Z.to_nat (numTracks p1)) 0 p1 ltac:(lia)
              ltac:(lia)) as (P1 & P2 & _ & P4).
  - intros j Hj. lia.
  - intros j Hj. apply I5. lia.
  - rewrite I2 in *. split; [lia|]. split; [lia|].
    intros i Hi. apply P4. lia.
Qed.

(** A parser with its 16 track slots that has opened a file satisfies the
    invariant. *)
Lemma open_inv (file : option FatFile) (p0 p : t) :
  length (tracks p0) = 16%nat ->
  open file p0 = (true, p) -> parserInv p.
Proof.
  intros Hlen E. unfold open in E.
  set (pa := set_fileInfo _ _) in E.
  assert (Ha : tracks pa = tracks p0) by reflexivity.
  destruct (readMidiHeader_tracks pa) as (H1 & _ & H2).
  destruct (readMidiHeader pa) as [ok1 p1]. cbn [fst snd] in H1, H2.
  destruct ok1; cbn [negb] in E; [|discriminate].
  destruct (initializeTracks p1) as [ok2 p2] eqn:I.
  destruct ok2; cbn [negb] in E; [|discriminate].
  injection E as <-.
  pose proof (initializeTracks_inv p1 p2 ltac:(congruence) (H2 eq_refl) I)
    as (J1 & J2 & J3).
  split; [exact J1|]. split; [exact J2|]. exact J3.
Qed.

End OpenInvariant.

(** ** The invariant from the constructor on *)

Section Slots.
Import MidiFileParser.

Lemma slotsInv_parserInv (p : t) : slotsInv p -> parserInv p.
Proof.
  intros (A & B & C). split; [exact A|]. split; [exact B|].
  intros i Hi. apply C. lia.
Qed.

Lemma trackInv_fresh (j : Z) (p : t) :
  currentTick (getTrack j p) = 0 -> eventReady (getTrack j p) = false ->
  trackInv j p.
Proof.
  intros T R. unfold trackInv, active. rewrite T, R. cbn [andb].
  split; [lia | discriminate].
Qed.

Lemma new_slots (junk : list Z) : slotsInv (new junk).
Proof.
  split; [reflexivity|]. split; [cbn; lia|].
  intros i Hi. apply trackInv_fresh.
  - unfold getTrack, new. cbn [tracks].
    destruct (nth_in_or_default (Z.to_nat i) (repeat TrackState_zero 16)
                TrackState_zero) as [H|H].
    + apply repeat_spec in H. rewrite H. reflexivity.
    + rewrite H. reflexivity.
  - unfold getTrack, new. cbn [tracks].
    destruct (nth_in_or_default (Z.to_nat i) (repeat TrackState_zero 16)
                TrackState_zero) as [H|H].
    + apply repeat_spec in H. rewrite H. reflexivity.
    + rewrite H. reflexivity.
Qed.

Lemma close_slots (p : t) : slotsInv (close p).
Proof.
  split; [reflexivity|]. split; [cbn; lia|].
  intros i Hi. apply trackInv_fresh.
  - unfold getTrack, close. cbn [tracks].
    destruct (nth_in_or_default (Z.to_nat i) (repeat TrackState_zero 16)
                TrackState_zero) as [H|H].
    + apply repeat_spec in H. rewrite H. reflexivity.
    + rewrite H. reflexivity.
  - unfold getTrack, close. cbn [tracks].
    destruct (nth_in_or_default (Z.to_nat i) (repeat TrackState_zero 16)
                TrackState_zero) as [H|H].
    + apply repeat_spec in H. rewrite H. reflexivity.
    + rewrite H. reflexivity.
Qed.

(** Whatever its result, reading the header leaves a number of tracks of
    at most 16. *)
Lemma readMidiHeader_numTracks (p : t) :
  0 <= numTracks p <= 16 ->
  0 <= numTracks (snd (readMidiHeader p)) <= 16.
Proof.
  intros Hn.
  destruct (readMidiHeader p) as [ok p1] eqn:E. cbn [snd].
  destruct ok.
  - pose proof (readMidiHeader_tracks p) as (_ & _ & H).
    rewrite E in H. apply H. reflexivity.
  - unfold readMidiHeader in E.
    destruct (midiFile p) as [f|]; [|injection E as <-; exact Hn].
    pose proof (readTag_moved p) as A. destruct (readTag p) as [hdr q1].
    cbn [snd] in A. destruct A as (_ & A2 & _ & _).
    destruct (negb (bytes_eqb hdr tag_MThd));
      [injection E as <-; lia|].
    pose proof (read32_moved q1) as B. destruct (read32 q1) as [len q2].
    cbn [snd] in B. destruct B as (_ & B2 & _ & _).
    destruct (negb (len =? 6)); [injection E as <-; lia|].
    destruct (read16 q2) as [fmt q3].
    destruct (read16 (set_fileInfo _ q3)) as [nt q4].
    destruct (read16 _) as [tpq q6].
    discriminate.
Qed.

Lemma readMidiHeader_slots (p : t) :
  slotsInv p -> slotsInv (snd (readMidiHeader p)).
Proof.
  intros (A & B & C).
  pose proof (readMidiHeader_tracks p) as (T & _ & _).
  split; [congruence|]. split; [apply readMidiHeader_numTracks; exact B|].
  intros i Hi. apply (trackInv_same i p); [|apply C; exact Hi].
  unfold getTrack. rewrite T. reflexivity.
Qed.

(** Whatever its result, the first loop of [initializeTracks] leaves each
    slot as it was or with tick 0 and no buffered event. *)
Lemma initTrackHeaders_any (n : nat) (i : Z) (p : t) :
  0 <= i -> (Z.to_nat i + n <= length (tracks p))%nat ->
  length (tracks (snd (initTrackHeaders n i p))) = length (tracks p)
  /\ numTracks (snd (initTrackHeaders n i p)) = numTracks p
  /\ forall j, 0 <= j ->
       getTrack j (snd (initTrackHeaders n i p)) = getTrack j p
       \/ (currentTick (getTrack j (snd (initTrackHeaders n i p))) = 0
           /\ eventReady (getTrack j (snd (initTrackHeaders n i p))) = false).
Proof.
  revert i p. induction n as [|n IH]; intros i p Hi Hlen.
  - cbn. repeat split. intros j _. left. reflexivity.
  - cbn [initTrackHeaders].
    pose proof (readTag_moved p) as A. destruct (readTag p) as [hdr p1].
    cbn [snd] in A. destruct A as (A1 & A2 & _ & _).
    destruct (negb (bytes_eqb hdr tag_MTrk)).
    { cbn [snd]. split; [congruence|]. split; [exact A2|].
      intros j _. left. unfold getTrack. rewrite A1. reflexivity. }
    pose proof (read32_moved p1) as B. destruct (read32 p1) as [len p2].
    cbn [snd] in B. destruct B as (B1 & B2 & _ & _).
    destruct (midiFile p2) as [f|].
    2:{ cbn [snd]. split; [congruence|]. split; [congruence|].
        intros j _. left. unfold getTrack. rewrite B1, A1. reflexivity. }
    set (tr := mkTrack _ _ _ _ _ _ _ _ _ _ _ _).
    assert (Hin : inRange i p2) by (unfold inRange; rewrite B1, A1; lia).
    assert (Hone : forall j, 0 <= j ->
              getTrack j (setTrack i tr p2) = getTrack j p
              \/ (currentTick (getTrack j (setTrack i tr p2)) = 0
                  /\ eventReady (getTrack j (setTrack i tr p2)) = false)).
    { intros j Hj. destruct (Z.eq_dec j i) as [->|Hne].
      - right. rewrite getTrack_setTrack by exact Hin. split; reflexivity.
      - left. rewrite getTrack_setTrack_other by lia.
        unfold getTrack. rewrite B1, A1. reflexivity. }
    assert (Hl1 : length (tracks (setTrack i tr p2)) = length (tracks p)).
    { unfold setTrack. cbn [tracks set_tracks].
      rewrite length_upd_nth. congruence. }
    assert (Hn1 : numTracks (setTrack i tr p2) = numTracks p).
    { unfold setTrack. cbn [numTracks set_tracks]. congruence. }
    destruct (seekSet _ f) as [ok f']. destruct ok; cbn [negb].
    2:{ cbn [snd]. split; [exact Hl1|]. split; [exact Hn1|]. exact Hone. }
    set (p3 := set_midiFile (Some f') (setTrack i tr p2)).
    assert (Hl3 : length (tracks p3) = length (tracks p)) by exact Hl1.
    destruct (IH (i + 1) p3 ltac:(lia) ltac:(rewrite Hl3; lia))
      as (I1 & I2 & I3).
    split; [congruence|]. split; [rewrite I2; exact Hn1|].
    intros j Hj. destruct (I3 j Hj) as [Hs|Hf]; [|right; exact Hf].
    rewrite Hs. exact (Hone j Hj).
Qed.

(** The second loop of [initializeTracks] leaves the slots from
    [i + n] on alone. *)
Lemma prefetchTracks_above (n : nat) (i : Z) (p : t) :
  0 <= i -> (Z.to_nat i + n <= length (tracks p))%nat ->
  forall j, i + Z.of_nat n <= j ->
    getTrack j (prefetchTracks n i p) = getTrack j p.
Proof.
  revert i p. induction n as [|n IH]; intros i p Hi Hlen j Hj.
  - reflexivity.
  - cbn [prefetchTracks].
    assert (Hin : inRange i p) by (unfold inRange; lia).
    pose proof (fillTrackBuffer_advances i p Hin) as A.
    destruct (fillTrackBuffer i p) as [okf p0]. cbn [snd] in A.
    pose proof (advances_inRange _ _ _ A Hin) as Hin0.
    destruct (readTrackEvent i (nextEvent (getTrack i p0)) p0)
      as [[ok ev] p1] eqn:R.
    destruct (readTrackEvent_spec i _ p0 ok ev p1 Hin0 R)
      as (Rnum & Rlen & _ & _ & Rother & _).
    destruct A as [A1 A2 A3 A4 A5 A6 A7].
    set (tr := getTrack i p1).
    set (p2 := setTrack i (tr_set_next ev (ok || eventReady tr) tr) p1).
    assert (Hlen2 : length (tracks p2) = length (tracks p)).
    { unfold p2, setTrack. cbn [tracks set_tracks].
      rewrite length_upd_nth. lia. }
    rewrite (IH (i + 1) p2 ltac:(lia) ltac:(rewrite Hlen2; lia) j ltac:(lia)).
    unfold p2. rewrite getTrack_setTrack_other by lia.
    unfold getTrack. rewrite Rother, A5 by lia. reflexivity.
Qed.

Lemma initializeTracks_slots (p : t) :
  slotsInv p -> slotsInv (snd (initializeTracks p)).
Proof.
  intros (Hlen & Hnum & Hinv). unfold initializeTracks.
  destruct (midiFile p); [|split; [exact Hlen|split; [exact Hnum|exact Hinv]]].
  destruct (initTrackHeaders_any (Z.to_nat (numTracks p)) 0 p ltac:(lia)
              ltac:(lia)) as (I1 & I2 & I3).
  assert (Hinv1 : forall j, 0 <= j < 16 ->
            trackInv j (snd (initTrackHeaders (Z.to_nat (numTracks p)) 0 p))).
  { intros j Hj. destruct (I3 j ltac:(lia)) as [Hs|(T & R)].
    - apply (trackInv_same j p); [exact Hs|apply Hinv; exact Hj].
    - apply trackInv_fresh; assumption. }
  destruct (initTrackHeaders (Z.to_nat (numTracks p)) 0 p) as [ok p1] eqn:I.
  cbn [snd] in I1, I2, I3, Hinv1.
  destruct ok; cbn [negb snd].
  2:{ split; [congruence|]. split; [lia|exact Hinv1]. }
  destruct (initTrackHeaders_spec (Z.to_nat (numTracks p)) 0 p p1 ltac:(lia)
              ltac:(lia) I) as (_ & _ & _ & _ & I5).
  destruct (prefetchTracks_spec (Z.to_nat (numTracks p1)) 0 p1 ltac:(lia)
              ltac:(lia)) as (P1 & P2 & _ & P4).
  - intros j Hj. lia.
  - intros j Hj. apply I5. lia.
  - split; [congruence|]. split; [lia|].
    intros j Hj. destruct (Z.lt_ge_cases j (numTracks p1)) as [Hlt|Hge].
    + apply P4. lia.
    + apply (trackInv_same j p1); [|apply Hinv1; exact Hj].
      apply prefetchTracks_above; lia.
Qed.

Lemma slotsInv_tracks (p q : t) :
  tracks q = tracks p -> numTracks q = numTracks p ->
  slotsInv p -> slotsInv q.
Proof.
  intros T N (A & B & C). split; [congruence|]. split; [lia|].
  intros i Hi. apply (trackInv_same i p); [|apply C; exact Hi].
  unfold getTrack. rewrite T. reflexivity.
Qed.

Lemma open_slots (file : option FatFile) (p : t) :
  slotsInv p -> slotsInv (snd (open file p)).
Proof.
  intros H. unfold open.
  set (pa := set_fileInfo _ _).
  assert (Ha : slotsInv pa)
    by (apply (slotsInv_tracks p); [reflexivity|reflexivity|exact H]).
  pose proof (readMidiHeader_slots pa Ha) as H1.
  destruct (readMidiHeader pa) as [ok1 p1]. cbn [snd] in H1.
  destruct ok1; cbn [negb]; [|exact H1].
  pose proof (initializeTracks_slots p1 H1) as H2.
  destruct (initializeTracks p1) as [ok2 p2]. cbn [snd] in H2.
  destruct ok2; cbn [negb snd]; [|exact H2].
  apply (slotsInv_tracks p2); [reflexivity|reflexivity|exact H2].
Qed.

Lemma reset_slots (p : t) : slotsInv p -> slotsInv (snd (reset p)).
Proof.
  intros H. unfold reset.
  destruct (midiFile p) as [f|]; [|exact H].
  destruct (seekSet 0 f) as [ok f']. destruct ok; cbn [negb]; [|exact H].
  set (pa := set_midiFile (Some f') p).
  assert (Ha : slotsInv pa)
    by (apply (slotsInv_tracks p); [reflexivity|reflexivity|exact H]).
  pose proof (readMidiHeader_slots pa Ha) as H1.
  destruct (readMidiHeader pa) as [ok1 p1]. cbn [snd] in H1.
  pose proof (initializeTracks_slots p1 H1) as H2.
  destruct (initializeTracks p1) as [ok2 p2]. cbn [snd] in H2.
  cbn [snd].
  apply (slotsInv_tracks p2); [reflexivity|reflexivity|exact H2].
Qed.

Lemma readNextEvent_slots (ev : MidiEvent) (p : t) :
  slotsInv p -> slotsInv (snd (readNextEvent ev p)).
Proof.
  intros H. pose proof H as (Hlen & Hnum & Hinv).
  destruct (readNextEvent ev p) as [[ok e] p'] eqn:E. cbn [snd].
  destruct ok.
  - destruct (readNextEvent_step ev p e p' (slotsInv_parserInv p H) E)
      as ((L & N & I) & _).
    split; [exact L|]. split; [exact N|].
    intros i Hi. destruct (Z.lt_ge_cases i (numTracks p')) as [Hlt|Hge];
      [apply I; lia|].
    unfold readNextEvent in E.
    destruct (allTracksEnded p); [discriminate|].
    pose proof (findEarliest_all p) as Hs.
    destruct (findEarliest (Z.to_nat (numTracks p)) 0 p (-1) 0xFFFFFFFF)
      as [k time]. cbn [fst snd] in Hs.
    destruct (k =? -1) eqn:Hk; [discriminate|]. apply Z.eqb_neq in Hk.
    destruct Hs as [(-> & _) | (Hr & _)]; [contradiction|].
    assert (Hin : inRange k p) by (unfold inRange; lia).
    destruct (readTrackEvent k (nextEvent (getTrack k p)) p)
      as [[ok1 ev1] p1] eqn:R.
    destruct (readTrackEvent_spec k _ p ok1 ev1 p1 Hin R)
      as (Rnum & Rlen & _ & _ & Rother & _).
    injection E as <- <-.
    unfold setTrack in Hge. cbn [numTracks set_tracks] in Hge.
    apply (trackInv_same i p); [|apply Hinv; exact Hi].
    rewrite getTrack_setTrack_other by lia.
    unfold getTrack. apply Rother. lia.
  - unfold readNextEvent in E.
    destruct (allTracksEnded p); [injection E as <- <-; exact H|].
    destruct (findEarliest (Z.to_nat (numTracks p)) 0 p (-1) 0xFFFFFFFF)
      as [k time].
    destruct (k =? -1).
    + injection E as <- <-.
      apply (slotsInv_tracks p); [reflexivity|reflexivity|exact H].
    + destruct (readTrackEvent k (nextEvent (getTrack k p)) p)
        as [[ok1 ev1] p1]. discriminate.
Qed.

Lemma runCalls_slots (calls : list ParserCall) :
  forall p, slotsInv p -> slotsInv (runCalls calls p).
Proof.
  induction calls as [|c calls IH]; intros p H; [exact H|].
  cbn [runCalls fold_left]. apply IH. destruct c; cbn [runCall].
  - apply readNextEvent_slots. exact H.
  - apply reset_slots. exact H.
Qed.

Lemma runUses_slots (uses : list ParserUse) :
  forall p, slotsInv p -> slotsInv (runUses uses p).
Proof.
  induction uses as [|u uses IH]; intros p H; [exact H|].
  cbn [runUses fold_left]. apply IH. destruct u; cbn [runUse].
  - apply open_slots. exact H.
  - apply close_slots.
  - apply (runCalls_slots [c]). exact H.
Qed.

(** The events returned from any state reached from the constructor by
    calls of [open], [close], [readNextEvent] and [reset]. *)
Lemma readEvents_sorted_after (junk : list Z) (uses : list ParserUse)
  (n : nat) :
  let p := runUses uses (new junk) in
  (forall e, In e (readEvents n p) -> deltaTime e <= absoluteTime e) ->
  Sorted Z.le (map absoluteTime (readEvents n p)).
Proof.
  intros p Hwrap.
  assert (Hinv : parserInv p).
  { apply slotsInv_parserInv. apply runUses_slots, new_slots. }
  pose proof (readEvents_sorted n p 0 Hinv (parserInv_notBefore_0 p Hinv)
                Hwrap) as Hs.
  inversion Hs; assumption.
Qed.

End Slots.

(** C1, as the code has it.  In every state of the parser a call of
    [readNextEvent] that returns true returns the buffered event of the
    first track, in index order, that has the least tick among the tracks
    with a buffered event that have not ended, that tick being below
    0xFFFFFFFF (the value the scan starts from); a call that returns false
    leaves the caller's event alone, and then the end flag was set already
    or no such track has a tick below 0xFFFFFFFF; when every track has
    ended the call returns false.  After [open], and in every state that a
    newly constructed parser reaches by calls of [open], [close],
    [readNextEvent] and [reset] (after [reset] in particular), the ticks of
    the events that successive calls return are non-decreasing as long as
    no track's 32-bit tick counter wraps around, that is, as long as every
    event returned has deltaTime <= absoluteTime. *)
Theorem readNextEvent_merges_tracks (file : option FatFile)
  (p0 p : MidiFileParser.t) (n : nat) :
  length (MidiFileParser.tracks p0) = 16%nat ->
  MidiFileParser.open file p0 = (true, p) ->
  (forall q ev ok ev' q',
     MidiFileParser.readNextEvent ev q = (ok, ev', q') ->
     (ok = true ->
      exists k,
        0 <= k < MidiFileParser.numTracks q /\ active k q = true
        /\ ev' = MidiEvent_assign (nextEvent (MidiFileParser.getTrack k q))
        /\ nextTime k q < 0xFFFFFFFF
        /\ (forall j, 0 <= j < MidiFileParser.numTracks q ->
            active j q = true -> nextTime k q <= nextTime j q)
        /\ (forall j, 0 <= j < k -> active j q = true ->
            nextTime k q < nextTime j q))
     /\ (ok = false ->
         ev' = ev
         /\ (MidiFileParser.allTracksEnded q = true
             \/ forall j, 0 <= j < MidiFileParser.numTracks q ->
                active j q = true -> 0xFFFFFFFF <= nextTime j q)))
  /\ (forall q ev,
      (forall j, 0 <= j < MidiFileParser.numTracks q ->
         endOfTrack (MidiFileParser.getTrack j q) = true) ->
      fst (fst (MidiFileParser.readNextEvent ev q)) = false)
  /\ ((forall e, In e (readEvents n p) -> deltaTime e <= absoluteTime e) ->
      Sorted Z.le (map absoluteTime (readEvents n p)))
  /\ (forall junk uses,
      (forall e,
         In e (readEvents n (runUses uses (MidiFileParser.new junk))) ->
         deltaTime e <= absoluteTime e) ->
      Sorted Z.le
        (map absoluteTime
           (readEvents n (runUses uses (MidiFileParser.new junk))))).
Proof.
  intros Hlen Hopen.
  split; [|split; [|split]].
  - intros q ev ok ev' q' E. exact (readNextEvent_selects ev q ok ev' q' E).
  - intros q ev Hall.
    destruct (MidiFileParser.readNextEvent ev q) as [[ok ev'] q'] eqn:E.
    cbn [fst]. destruct ok; [|reflexivity].
    destruct (readNextEvent_selects ev q true ev' q' E) as (Hsel & _).
    destruct (Hsel eq_refl) as (k & Hk & Ha & _).
    unfold active in Ha. rewrite (Hall k Hk) in Ha.
    rewrite andb_false_r in Ha. discriminate.
  - intros Hwrap.
    pose proof (open_inv file p0 p Hlen Hopen) as Hinv.
    pose proof (readEvents_sorted n p 0 Hinv (parserInv_notBefore_0 p Hinv)
                  Hwrap) as Hs.
    inversion Hs; assumption.
  - intros junk uses Hwrap.
    exact (readEvents_sorted_after junk uses n Hwrap).
Qed.

Lemma readNextEvent_merges_tracks_witness :
  length (MidiFileParser.tracks (MidiFileParser.new [0; 0; 0; 0])) = 16%nat
  /\ MidiFileParser.open (Some (mkFile sample_three_tracks 0))
       (MidiFileParser.new [0; 0; 0; 0]) = (true, sample_three_parser)
  /\ (forall e, In e (readEvents 9 sample_three_parser) ->
      deltaTime e <= absoluteTime e)
  /\ nextTime 0 sample_three_parser = 0
  /\ nextTime 1 sample_three_parser = 0
  /\ (forall ev' q',
      MidiFileParser.readNextEvent MidiEvent_new sample_three_parser
      = (true, ev', q') ->
      ev' = MidiEvent_assign
              (nextEvent (MidiFileParser.getTrack 0 sample_three_parser)))
  /\ map (fun e => (absoluteTime e, trackNumber e))
       (readEvents 9 sample_three_parser)
     = [(0, 0); (0, 1); (48, 1); (48, 2); (96, 0); (96, 2)]
  /\ Sorted Z.le (map absoluteTime (readEvents 9 sample_three_parser))
  /\ map (fun e => (absoluteTime e, trackNumber e))
       (readEvents 9
          (runUses sample_read3_reset (MidiFileParser.new [0; 0; 0; 0])))
     = [(0, 0); (0, 1); (48, 1); (48, 2); (96, 0); (96, 2)]
  /\ Sorted Z.le
       (map absoluteTime
          (readEvents 9
             (runUses sample_read3_reset (MidiFileParser.new [0; 0; 0; 0])))).
Proof.
  assert (H1 : length (MidiFileParser.tracks (MidiFileParser.new [0; 0; 0; 0]))
               = 16%nat) by reflexivity.
  assert (H2 : MidiFileParser.open (Some (mkFile sample_three_tracks 0))
                 (MidiFileParser.new [0; 0; 0; 0])
               = (true, sample_three_parser))
    by (vm_compute; reflexivity).
  assert (Hev : readEvents 9 sample_three_parser
                = [mkEvent 0 0 144 0 60 100 None 0 false 0;
                   mkEvent 0 0 144 1 64 100 None 0 false 1;
                   mkEvent 48 48 128 1 64 64 None 0 false 1;
                   mkEvent 48 48 144 2 67 100 None 0 false 2;
                   mkEvent 96 96 128 0 60 64 None 0 false 0;
                   mkEvent 48 96 128 2 67 64 None 0 false 2])
    by (vm_compute; reflexivity).
  assert (H3 : forall e, In e (readEvents 9 sample_three_parser) ->
                 deltaTime e <= absoluteTime e).
  { rewrite Hev. intros e [<-|[<-|[<-|[<-|[<-|[<-|[]]]]]]]; cbn; lia. }
  assert (Hev' : readEvents 9
                   (runUses sample_read3_reset
                      (MidiFileParser.new [0; 0; 0; 0]))
                 = [mkEvent 0 0 144 0 60 100 None 0 false 0;
                    mkEvent 0 0 144 1 64 100 None 0 false 1;
                    mkEvent 48 48 128 1 64 64 None 0 false 1;
                    mkEvent 48 48 144 2 67 100 None 0 false 2;
                    mkEvent 96 96 128 0 60 64 None 0 false 0;
                    mkEvent 48 96 128 2 67 64 None 0 false 2])
    by (vm_compute; reflexivity).
  assert (H4 : forall e,
            In e (readEvents 9
                    (runUses sample_read3_reset
                       (MidiFileParser.new [0; 0; 0; 0]))) ->
            deltaTime e <= absoluteTime e).
  { rewrite Hev'. intros e [<-|[<-|[<-|[<-|[<-|[<-|[]]]]]]]; cbn; lia. }
  assert (N0 : nextTime 0 sample_three_parser = 0) by (vm_compute; reflexivity).
  assert (N1 : nextTime 1 sample_three_parser = 0) by (vm_compute; reflexivity).
  assert (N2 : nextTime 2 sample_three_parser = 48)
    by (vm_compute; reflexivity).
  assert (A0 : active 0 sample_three_parser = true)
    by (vm_compute; reflexivity).
  assert (Nt : MidiFileParser.numTracks sample_three_parser = 3)
    by (vm_compute; reflexivity).
  destruct (readNextEvent_merges_tracks (Some (mkFile sample_three_tracks 0))
              (MidiFileParser.new [0; 0; 0; 0]) sample_three_parser 9%nat
              H1 H2) as (Tsel & _ & Tord & Tany).
  split; [exact H1|]. split; [exact H2|]. split; [exact H3|].
  split; [exact N0|]. split; [exact N1|]. split.
  { intros ev' q' E.
    destruct (Tsel _ _ _ _ _ E) as (Hsel & _).
    destruct (Hsel eq_refl) as (k & Hk & _ & -> & _ & _ & Hfirst).
    assert (Hk0 : k = 0).
    { revert Hk Hfirst. revert Nt A0 N0 N1 N2.
      generalize sample_three_parser. clear. intros q Nt A0 N0 N1 N2 Hk Hfirst.
      rewrite Nt in Hk.
      destruct (Z.eq_dec k 0) as [e0|Hne]; [exact e0|].
      pose proof (Hfirst 0 ltac:(lia) A0) as Hlt. rewrite N0 in Hlt.
      assert (Hc : k = 1 \/ k = 2) by lia.
      destruct Hc as [-> | ->].
      - rewrite N1 in Hlt. lia.
      - rewrite N2 in Hlt. lia. }
    rewrite Hk0. reflexivity. }
  split; [rewrite Hev; reflexivity|].
  split; [exact (Tord H3)|].
  split; [rewrite Hev'; reflexivity|].
  exact (Tany [0; 0; 0; 0] sample_read3_reset H4).
Defined.

(** The statement of C1 for every file fails at the ends of the 32-bit
    range.  In the first file the sixteenth event is at tick 4294967280 and
    the seventeenth, 16 ticks later, is returned with tick 0: the stream
    decreases.  In the second file the seventeenth event is at tick
    0xFFFFFFFF: it is buffered and its track has not ended, yet
    [readNextEvent] returns false. *)
Lemma merge_breaks_at_32_bit_limits :
  MidiFileParser.open (Some (mkFile (sample_long_ticks 0x10) 0))
    (MidiFileParser.new [0; 0; 0; 0]) = (true, sample_wrap_parser)
  /\ map absoluteTime (skipn 15 (readEvents 17 sample_wrap_parser))
     = [4294967280; 0]
  /\ MidiFileParser.open (Some (mkFile (sample_long_ticks 0x0F) 0))
       (MidiFileParser.new [0; 0; 0; 0]) = (true, sample_sentinel_parser)
  /\ active 0 (afterCalls 16 sample_sentinel_parser) = true
  /\ endOfTrack (MidiFileParser.getTrack 0 (afterCalls 16 sample_sentinel_parser))
     = false
  /\ nextTime 0 (afterCalls 16 sample_sentinel_parser) = 4294967295
  /\ fst (fst (MidiFileParser.readNextEvent MidiEvent_new
                 (afterCalls 16 sample_sentinel_parser))) = false.
Proof.
  do 6 (split; [vm_compute; reflexivity|]). vm_compute. reflexivity.
Qed.

(** ** The header chunk *)

Section Header.
Import MidiFileParser.

Lemma byteAt_range (fd : list Z) (i : Z) : isBytes fd -> 0 <= byteAt fd i < 256.
Proof.
  intros H. unfold byteAt.
  destruct (Nat.lt_ge_cases (Z.to_nat i) (length fd)) as [Hlt|Hge].
  - unfold isBytes in H. rewrite Forall_forall in H. apply H.
    apply nth_In. exact Hlt.
  - rewrite nth_overflow by exact Hge. lia.
Qed.

Lemma byteAt_past_end (fd : list Z) (i : Z) :
  Z.of_nat (length fd) <= i -> byteAt fd i = 0.
Proof. intros H. unfold byteAt. apply nth_overflow. lia. Qed.

Lemma firstn_1_skipn {A : Type} (n : nat) (l : list A) (d : A) :
  (n < length l)%nat -> firstn 1 (skipn n l) = [nth n l d].
Proof.
  revert n. induction l as [|a l IH]; intros n H; cbn in H; [lia|].
  destruct n as [|n]; [reflexivity|]. cbn. apply IH. lia.
Qed.

Lemma set_midiFile_same (p : t) (f : FatFile) :
  midiFile p = Some f -> set_midiFile (Some f) p = p.
Proof. intros H. destruct p. cbn in *. subst. reflexivity. Qed.

(** [read8] at a known position of a known file. *)
Lemma read8_at (p : t) (fd : list Z) (pos : Z) :
  midiFile p = Some (mkFile fd pos) ->
  0 <= pos <= Z.of_nat (length fd) ->
  read8 p = (byteAt fd pos,
             set_midiFile
               (Some (mkFile fd (Z.min (pos + 1) (Z.of_nat (length fd))))) p).
Proof.
  intros Hf Hpos. unfold read8. rewrite Hf.
  unfold available, fileSize. cbn [fdata curPosition].
  destruct (Z.of_nat (length fd) - pos =? 0) eqn:E.
  - apply Z.eqb_eq in E.
    rewrite byteAt_past_end by lia.
    replace (Z.min (pos + 1) (Z.of_nat (length fd))) with pos by lia.
    rewrite set_midiFile_same by exact Hf. reflexivity.
  - apply Z.eqb_neq in E. unfold fread. cbn [fdata curPosition].
    change (Z.to_nat 1) with 1%nat.
    rewrite (firstn_1_skipn (Z.to_nat pos) fd 0) by lia.
    cbn [length nth]. unfold byteAt.
    replace (Z.min (pos + 1) (Z.of_nat (length fd))) with (pos + 1) by lia.
    reflexivity.
Qed.

Lemma byteAt_min (fd : list Z) (i : Z) :
  byteAt fd (Z.min i (Z.of_nat (length fd))) = byteAt fd i.
Proof.
  destruct (Z.le_gt_cases i (Z.of_nat (length fd))) as [H|H].
  - rewrite Z.min_l by exact H. reflexivity.
  - rewrite Z.min_r by lia. rewrite !byteAt_past_end by lia. reflexivity.
Qed.

Lemma set_midiFile_twice (f g : option FatFile) (p : t) :
  set_midiFile f (set_midiFile g p) = set_midiFile f p.
Proof. reflexivity. Qed.

(** The same with the position given as "offset [x], or the end of the
    file if that comes first", the form in which positions come out of
    reads. *)
Lemma read8_from (p : t) (fd : list Z) (x : Z) :
  midiFile p = Some (mkFile fd (Z.min x (Z.of_nat (length fd)))) ->
  0 <= x ->
  read8 p = (byteAt fd x,
             set_midiFile
               (Some (mkFile fd (Z.min (x + 1) (Z.of_nat (length fd))))) p).
Proof.
  intros Hf Hx.
  rewrite (read8_at p fd _ Hf) by lia.
  rewrite byteAt_min.
  replace (Z.min (Z.min x (Z.of_nat (length fd)) + 1) (Z.of_nat (length fd)))
    with (Z.min (x + 1) (Z.of_nat (length fd))) by lia.
  reflexivity.
Qed.

Lemma read16_from (p : t) (fd : list Z) (x : Z) :
  isBytes fd ->
  midiFile p = Some (mkFile fd (Z.min x (Z.of_nat (length fd)))) ->
  0 <= x ->
  read16 p = (be16 (byteAt fd x) (byteAt fd (x + 1)),
              set_midiFile
                (Some (mkFile fd (Z.min (x + 2) (Z.of_nat (length fd))))) p).
Proof.
  intros Hb Hf Hx. unfold read16.
  rewrite (read8_from p fd x Hf Hx).
  rewrite (read8_from _ fd (x + 1)) by (try reflexivity; lia).
  rewrite set_midiFile_twice.
  rewrite be16_value by (apply byteAt_range; exact Hb).
  replace (x + 1 + 1) with (x + 2) by lia. reflexivity.
Qed.

Lemma read32_from (p : t) (fd : list Z) (x : Z) :
  isBytes fd ->
  midiFile p = Some (mkFile fd (Z.min x (Z.of_nat (length fd)))) ->
  0 <= x ->
  read32 p = (be32 (byteAt fd x) (byteAt fd (x + 1)) (byteAt fd (x + 2))
                (byteAt fd (x + 3)),
              set_midiFile
                (Some (mkFile fd (Z.min (x + 4) (Z.of_nat (length fd))))) p).
Proof.
  intros Hb Hf Hx. unfold read32.
  rewrite (read8_from p fd x Hf Hx).
  rewrite (read8_from _ fd (x + 1)) by (try reflexivity; lia).
  rewrite set_midiFile_twice.
  rewrite (read8_from _ fd (x + 1 + 1)) by (try reflexivity; lia).
  rewrite set_midiFile_twice.
  rewrite (read8_from _ fd (x + 1 + 1 + 1)) by (try reflexivity; lia).
  rewrite set_midiFile_twice.
  rewrite be32_value by (apply byteAt_range; exact Hb).
  replace (x + 1 + 1) with (x + 2) by lia.
  replace (x + 2 + 1) with (x + 3) by lia.
  replace (x + 3 + 1) with (x + 4) by lia.
  reflexivity.
Qed.

Lemma bytes_eqb_eq (a b : list Z) : bytes_eqb a b = true <-> a = b.
Proof.
  revert b. induction a as [|x a IH]; intros [|y b]; cbn;
    split; intros H; try discriminate; auto.
  - apply andb_true_iff in H. destruct H as [H1 H2].
    apply Z.eqb_eq in H1. apply IH in H2. congruence.
  - injection H as -> ->. rewrite Z.eqb_refl. apply IH. reflexivity.
Qed.

(** [readTag] at the start of a file. *)
Lemma readTag_at_start (p : t) (fd : list Z) :
  midiFile p = Some (mkFile fd 0) ->
  readTag p
  = (firstn 4 (firstn 4 fd ++ skipn (length (firstn 4 fd)) (headerJunk p)),
     set_midiFile (Some (mkFile fd (Z.of_nat (length (firstn 4 fd))))) p).
Proof.
  intros Hf. unfold readTag. rewrite Hf. unfold fread.
  cbn [fdata curPosition]. change (Z.to_nat 0) with 0%nat.
  change (Z.to_nat 4) with 4%nat. cbn [skipn]. reflexivity.
Qed.

End Header.

Section HeaderClaims.
Import MidiFileParser.

Lemma firstn_4_length (fd : list Z) :
  firstn 4 fd = tag_MThd -> (4 <= length fd)%nat.
Proof.
  intros H. assert (L : length (firstn 4 fd) = 4%nat) by (rewrite H; reflexivity).
  rewrite length_firstn in L. lia.
Qed.

(** After the tag the file stands at offset 4, or at its end. *)
Lemma readTag_position (fd : list Z) :
  Z.of_nat (length (firstn 4 fd)) = Z.min 4 (Z.of_nat (length fd)).
Proof. rewrite length_firstn. lia. Qed.

Lemma readMidiHeader_rejects (p : t) (fd : list Z) :
  isBytes fd ->
  midiFile p = Some (mkFile fd 0) ->
  firstn 4 fd <> tag_MThd \/ declaredHeaderLength fd <> 6 ->
  fst (readMidiHeader p) = false.
Proof.
  intros Hb Hf Hbad. unfold readMidiHeader. rewrite Hf.
  rewrite (readTag_at_start p fd Hf).
  set (hdr := firstn 4 (firstn 4 fd ++ _)).
  destruct (bytes_eqb hdr tag_MThd) eqn:Eh; cbn [negb]; [|reflexivity].
  apply bytes_eqb_eq in Eh.
  rewrite readTag_position.
  rewrite (read32_from _ fd 4 Hb) by (try reflexivity; lia).
  assert (Hlen : be32 (byteAt fd 4) (byteAt fd (4 + 1)) (byteAt fd (4 + 2))
                   (byteAt fd (4 + 3)) <> 6).
  { destruct (Nat.le_gt_cases 4 (length fd)) as [Hl|Hl].
    - destruct Hbad as [Hsig|Hlen]; [|exact Hlen].
      exfalso. apply Hsig. rewrite <- Eh. subst hdr.
      rewrite firstn_app.
      rewrite (firstn_all2 (n := 4) (firstn 4 fd))
        by (rewrite length_firstn; lia).
      replace (4 - length (firstn 4 fd))%nat with 0%nat
        by (rewrite length_firstn; lia).
      cbn [firstn]. rewrite app_nil_r. reflexivity.
    - rewrite !byteAt_past_end by lia. unfold be32. lia. }
  replace (_ =? 6) with false by (symmetry; apply Z.eqb_neq; exact Hlen).
  reflexivity.
Qed.

Lemma readMidiHeader_accepts (p : t) (fd : list Z) :
  isBytes fd ->
  midiFile p = Some (mkFile fd 0) ->
  firstn 4 fd = tag_MThd -> declaredHeaderLength fd = 6 ->
  fst (readMidiHeader p) = true
  /\ format (fileInfo (snd (readMidiHeader p))) = declaredFormat fd
  /\ ticksPerQuarter (fileInfo (snd (readMidiHeader p))) = declaredDivision fd.
Proof.
  intros Hb Hf Hsig Hlen. unfold readMidiHeader. rewrite Hf.
  rewrite (readTag_at_start p fd Hf).
  pose proof (firstn_4_length fd Hsig) as Hl.
  assert (Hhdr : firstn 4 (firstn 4 fd ++ skipn (length (firstn 4 fd))
                                            (headerJunk p)) = tag_MThd).
  { rewrite firstn_app.
    rewrite (firstn_all2 (n := 4) (firstn 4 fd))
      by (rewrite length_firstn; lia).
    replace (4 - length (firstn 4 fd))%nat with 0%nat
      by (rewrite length_firstn; lia).
    cbn [firstn]. rewrite app_nil_r. exact Hsig. }
  rewrite Hhdr. change (bytes_eqb tag_MThd tag_MThd) with true. cbn [negb].
  rewrite readTag_position.
  rewrite (read32_from _ fd 4 Hb) by (try reflexivity; lia).
  change (be32 (byteAt fd 4) (byteAt fd (4 + 1)) (byteAt fd (4 + 2))
            (byteAt fd (4 + 3))) with (declaredHeaderLength fd).
  rewrite Hlen. cbn [Z.eqb Pos.eqb negb].
  rewrite (read16_from _ fd (4 + 4) Hb) by (try reflexivity; lia).
  rewrite (read16_from _ fd (4 + 4 + 2) Hb) by (try reflexivity; lia).
  match goal with
  | |- context [read16 (if ?c then ?a else ?b)] =>
      assert (Hpos : midiFile (if c then a else b)
                     = Some (mkFile fd (Z.min (4 + 4 + 2 + 2)
                                          (Z.of_nat (length fd)))))
        by (destruct c; reflexivity);
      assert (Hfmt : format (fileInfo (if c then a else b))
                     = declaredFormat fd)
        by (destruct c; reflexivity);
      set (q := if c then a else b) in *
  end.
  rewrite (read16_from q fd (4 + 4 + 2 + 2) Hb Hpos) by lia.
  cbn [fst snd fileInfo set_fileInfo format ticksPerQuarter].
  split; [reflexivity|]. split; [exact Hfmt|reflexivity].
Qed.

(** C4, as the code has it.  [open] returns false when the file does not
    begin with the tag MThd or when the header length it declares is not 6.
    The format and the division are read and stored without any test: a
    header with the tag and the length 6 is accepted whatever format and
    division it declares. *)
Theorem open_checks_tag_and_length (fd : list Z) (p : t) :
  isBytes fd ->
  (firstn 4 fd <> tag_MThd \/ declaredHeaderLength fd <> 6 ->
   fst (open (Some (mkFile fd 0)) p) = false)
  /\ (firstn 4 fd = tag_MThd -> declaredHeaderLength fd = 6 ->
      forall q, midiFile q = Some (mkFile fd 0) ->
        fst (readMidiHeader q) = true
        /\ format (fileInfo (snd (readMidiHeader q))) = declaredFormat fd
        /\ ticksPerQuarter (fileInfo (snd (readMidiHeader q)))
           = declaredDivision fd).
Proof.
  intros Hb. split.
  - intros Hbad. unfold open.
    set (pa := set_fileInfo _ _).
    pose proof (readMidiHeader_rejects pa fd Hb eq_refl Hbad) as Hr.
    destruct (readMidiHeader pa) as [ok p1]. cbn [fst] in Hr. subst ok.
    reflexivity.
  - intros Hsig Hlen q Hq. apply readMidiHeader_accepts; assumption.
Qed.

End HeaderClaims.

Lemma open_checks_tag_and_length_witness :
  isBytes [0x52; 0x49; 0x46; 0x46; 0; 0; 0; 6]
  /\ firstn 4 [0x52; 0x49; 0x46; 0x46; 0; 0; 0; 6] <> tag_MThd
  /\ fst (MidiFileParser.open
            (Some (mkFile [0x52; 0x49; 0x46; 0x46; 0; 0; 0; 6] 0))
            (MidiFileParser.new [0; 0; 0; 0])) = false.
Proof.
  assert (H1 : isBytes [0x52; 0x49; 0x46; 0x46; 0; 0; 0; 6])
    by (repeat constructor; lia).
  assert (H2 : firstn 4 [0x52; 0x49; 0x46; 0x46; 0; 0; 0; 6] <> tag_MThd)
    by discriminate.
  split; [exact H1|]. split; [exact H2|].
  apply (proj1 (open_checks_tag_and_length _ (MidiFileParser.new [0; 0; 0; 0])
                  H1)).
  left. exact H2.
Defined.

(** The statement of C4 fails for the format and the division: a file whose
    header declares format 2 and division 0 is opened, and both values are
    stored. *)
Lemma open_accepts_format2_division0 :
  declaredFormat sample_format2_division0 = 2
  /\ declaredDivision sample_format2_division0 = 0
  /\ fst (MidiFileParser.open (Some (mkFile sample_format2_division0 0))
            (MidiFileParser.new [0; 0; 0; 0])) = true
  /\ format (MidiFileParser.fileInfo
               (snd (MidiFileParser.open
                       (Some (mkFile sample_format2_division0 0))
                       (MidiFileParser.new [0; 0; 0; 0])))) = 2
  /\ ticksPerQuarter
       (MidiFileParser.fileInfo
          (snd (MidiFileParser.open (Some (mkFile sample_format2_division0 0))
                  (MidiFileParser.new [0; 0; 0; 0])))) = 0.
Proof.
  do 4 (split; [vm_compute; reflexivity|]). vm_compute. reflexivity.
Qed.

(** ** A track read as a stream of bytes *)

Section TrackStream.
Import MidiFileParser.

Lemma nth_firstn_skipn {A : Type} (n m j : nat) (l : list A) (d : A) :
  (j < n)%nat -> nth j (firstn n (skipn m l)) d = nth (m + j) l d.
Proof.
  intros H. rewrite nth_firstn.
  destruct (Nat.ltb_spec j n); [|lia]. apply nth_skipn.
Qed.

Lemma firstn_S_skipn {A : Type} (n m : nat) (l : list A) (d : A) :
  (m < length l)%nat ->
  firstn (S n) (skipn m l) = nth m l d :: firstn n (skipn (S m) l).
Proof.
  revert m. induction l as [|a l IH]; intros m H; cbn in H; [lia|].
  destruct m as [|m]; [reflexivity|].
  change (skipn (S m) (a :: l)) with (skipn m l).
  change (skipn (S (S m)) (a :: l)) with (skipn (S m) l).
  change (nth (S m) (a :: l) d) with (nth m l d).
  apply IH. lia.
Qed.

Lemma trackRest_length (tr : TrackState) (fd : list Z) :
  trackCoherent tr fd ->
  Z.of_nat (length (trackRest tr fd)) = trackEndPos tr - filePosition tr.
Proof.
  intros (Hs & Hp & Hl & _). unfold trackRest.
  rewrite length_firstn, length_skipn. lia.
Qed.

Lemma trackRest_cons (tr tr' : TrackState) (fd : list Z) :
  trackCoherent tr fd ->
  filePosition tr < trackEndPos tr ->
  trackStartPos tr' = trackStartPos tr ->
  trackEndPos tr' = trackEndPos tr ->
  filePosition tr' = filePosition tr + 1 ->
  trackRest tr fd
  = byteAt fd (trackStartPos tr + filePosition tr) :: trackRest tr' fd.
Proof.
  intros (Hs & Hp & Hl & _) Hlt E1 E2 E3. unfold trackRest, byteAt.
  rewrite E1, E2, E3.
  replace (Z.to_nat (trackEndPos tr - filePosition tr))
    with (S (Z.to_nat (trackEndPos tr - (filePosition tr + 1)))) by lia.
  replace (Z.to_nat (trackStartPos tr + (filePosition tr + 1)))
    with (S (Z.to_nat (trackStartPos tr + filePosition tr))) by lia.
  apply firstn_S_skipn. lia.
Qed.

Lemma trackRest_nil (tr : TrackState) (fd : list Z) :
  trackEndPos tr <= filePosition tr -> trackRest tr fd = [].
Proof.
  intros H. unfold trackRest.
  replace (Z.to_nat (trackEndPos tr - filePosition tr)) with 0%nat by lia.
  reflexivity.
Qed.

(** A refill of the window when the track has bytes left. *)
Lemma fillTrackBuffer_fills (k : Z) (p : t) (fd : list Z) :
  cursorView k p fd ->
  filePosition (getTrack k p) < trackEndPos (getTrack k p) ->
  exists bs pos,
    fillTrackBuffer k p
    = (true,
       set_midiFile (Some (mkFile fd pos))
         (setTrack k
            (tr_set_window (bs ++ skipn (length bs) (buffer (getTrack k p)))
               0 (Z.of_nat (length bs)) (filePosition (getTrack k p))
               (getTrack k p)) p))
    /\ 0 < Z.of_nat (length bs) <= 512
    /\ Z.of_nat (length bs)
       <= trackEndPos (getTrack k p) - filePosition (getTrack k p)
    /\ forall j, (j < length bs)%nat ->
         nth j bs 0
         = byteAt fd (trackStartPos (getTrack k p)
                      + filePosition (getTrack k p) + Z.of_nat j).
Proof.
  intros (Hk & Hin & (pos & Hf) & Hs & Hp & Hl & H32 & _) Hlt.
  unfold fillTrackBuffer.
  destruct (Z.leb_spec (numTracks p) k) as [?|_]; [lia|].
  set (tr := getTrack k p) in *.
  rewrite (u32_small (trackStartPos tr + filePosition tr)) by lia.
  rewrite (u32_small (trackEndPos tr - filePosition tr)) by lia.
  destruct (Z.eqb_spec (trackEndPos tr - filePosition tr) 0) as [?|_]; [lia|].
  rewrite Hf. unfold seekSet, fileSize. cbn [fdata].
  destruct (Z.leb_spec (trackStartPos tr + filePosition tr)
              (Z.of_nat (length fd))) as [_|?]; [|lia].
  cbn [negb]. unfold fread. cbn [fdata curPosition].
  set (n := u16 (if TRACK_BUFFER_SIZE <? trackEndPos tr - filePosition tr
                 then TRACK_BUFFER_SIZE
                 else trackEndPos tr - filePosition tr)).
  assert (Hn : 0 < n <= 512 /\ n <= trackEndPos tr - filePosition tr).
  { unfold n, TRACK_BUFFER_SIZE.
    destruct (Z.ltb_spec 512 (trackEndPos tr - filePosition tr)).
    - rewrite u16_small by lia. lia.
    - rewrite u16_small by lia. lia. }
  set (bs := firstn (Z.to_nat n)
               (skipn (Z.to_nat (trackStartPos tr + filePosition tr)) fd)).
  assert (Hbs : length bs = Z.to_nat n).
  { unfold bs. rewrite length_firstn, length_skipn. lia. }
  exists bs, (trackStartPos tr + filePosition tr + Z.of_nat (length bs)).
  split.
  { destruct (Z.ltb_spec 0 (Z.of_nat (length bs))) as [_|?]; [|lia].
    reflexivity. }
  split; [lia|]. split; [lia|].
  intros j Hj. unfold bs, byteAt. rewrite nth_firstn_skipn by lia.
  f_equal. lia.
Qed.


Lemma cursor_step (T : TrackState) (fd : list Z) :
  0 <= trackStartPos T ->
  trackStartPos T + trackEndPos T <= Z.of_nat (length fd) ->
  Z.of_nat (length fd) < 4294967296 ->
  windowInSync T fd ->
  bufferPos T < bufferSize T ->
  nth (Z.to_nat (bufferPos T)) (buffer T) 0
  = byteAt fd (trackStartPos T + filePosition T)
  /\ trackCoherent
       (tr_set_cursor (u16 (bufferPos T + 1)) (u32 (filePosition T + 1)) T) fd
  /\ u32 (filePosition T + 1) = filePosition T + 1.
Proof.
  intros Hs Hl H32 (W1 & W2 & W3 & W4 & W5 & W6) Hlt.
  assert (E16 : u16 (bufferPos T + 1) = bufferPos T + 1)
    by (apply u16_small; lia).
  assert (E32 : u32 (filePosition T + 1) = filePosition T + 1)
    by (apply u32_small; lia).
  split; [|split; [|exact E32]].
  - rewrite W6 by lia. f_equal. lia.
  - rewrite E16, E32. unfold trackCoherent, tr_set_cursor.
    cbn [trackStartPos trackEndPos filePosition].
    split; [exact Hs|]. split; [lia|]. split; [exact Hl|]. split; [exact H32|].
    left. unfold windowInSync.
    cbn [bufferSize bufferPos bufferFilePos trackEndPos filePosition buffer
         trackStartPos].
    split; [exact W1|]. split; [lia|]. split; [exact W3|]. split; [exact W4|].
    split; [lia|exact W6].
Qed.

Lemma getTrack_set_midiFile (k : Z) (f : option FatFile) (p : t) :
  getTrack k (set_midiFile f p) = getTrack k p.
Proof. reflexivity. Qed.

Lemma getTrack_set_fileInfo (k : Z) (i : MidiFileInfo) (p : t) :
  getTrack k (set_fileInfo i p) = getTrack k p.
Proof. reflexivity. Qed.

Lemma cursorView_setTrack (k : Z) (tr : TrackState) (p : t) (fd : list Z) :
  cursorView k p fd -> trackCoherent tr fd ->
  cursorView k (setTrack k tr p) fd.
Proof.
  intros (Hk & Hin & Hf & _) Hc. unfold cursorView.
  rewrite getTrack_setTrack by exact Hin.
  split; [exact Hk|]. split; [|split; [exact Hf|exact Hc]].
  unfold setTrack. cbn [tracks set_tracks]. rewrite length_upd_nth. exact Hin.
Qed.

Lemma cursorView_set_midiFile (k pos : Z) (p : t) (fd : list Z) :
  cursorView k p fd -> cursorView k (set_midiFile (Some (mkFile fd pos)) p) fd.
Proof.
  intros (Hk & Hin & Hf & Hc).
  split; [exact Hk|]. split; [exact Hin|]. split; [|exact Hc].
  exists pos. reflexivity.
Qed.

Lemma cursorView_set_fileInfo (k : Z) (i : MidiFileInfo) (p : t) (fd : list Z) :
  cursorView k p fd -> cursorView k (set_fileInfo i p) fd.
Proof. intros H. exact H. Qed.

Lemma sameTrackMeta_refl (tr : TrackState) : sameTrackMeta tr tr.
Proof. repeat split. Qed.

Lemma sameTrackMeta_trans (a b c : TrackState) :
  sameTrackMeta a b -> sameTrackMeta b c -> sameTrackMeta a c.
Proof.
  intros (A1 & A2 & A3 & A4 & A5 & A6) (B1 & B2 & B3 & B4 & B5 & B6).
  unfold sameTrackMeta. repeat split; congruence.
Qed.

(** Reading a byte when the track has one left: it is the byte of the file
    under the cursor, and the cursor moves on by one. *)
Lemma readTrackByte_next (k : Z) (p : t) (fd : list Z) :
  cursorView k p fd ->
  filePosition (getTrack k p) < trackEndPos (getTrack k p) ->
  exists p',
    readTrackByte k p
    = (byteAt fd (trackStartPos (getTrack k p) + filePosition (getTrack k p)),
       p')
    /\ cursorView k p' fd
    /\ fileInfo p' = fileInfo p
    /\ sameTrackMeta (getTrack k p) (getTrack k p')
    /\ filePosition (getTrack k p') = filePosition (getTrack k p) + 1.
Proof.
  intros V Hlt. pose proof V as (Hk & Hin & (pos & Hf) & Hs & Hp & Hl & H32 & Hw).
  unfold readTrackByte.
  destruct (Z.leb_spec (numTracks p) k) as [?|_]; [lia|].
  destruct (Z.leb_spec (bufferSize (getTrack k p)) (bufferPos (getTrack k p)))
    as [Hex|Hlive].
  - destruct (fillTrackBuffer_fills k p fd V Hlt)
      as (bs & pos' & E & Hn & Hn' & Hnth).
    rewrite E. cbn [negb]. rewrite getTrack_set_midiFile.
    rewrite getTrack_setTrack by exact Hin.
    set (tr := getTrack k p) in *.
    set (T := tr_set_window (bs ++ skipn (length bs) (buffer tr)) 0
                (Z.of_nat (length bs)) (filePosition tr) tr).
    assert (WT : windowInSync T fd).
    { unfold windowInSync, T, tr_set_window.
      cbn [bufferSize bufferPos bufferFilePos trackEndPos filePosition buffer
           trackStartPos].
      split; [lia|]. split; [lia|]. split; [lia|]. split; [lia|].
      split; [lia|]. intros j Hj. rewrite app_nth1 by lia.
      rewrite Hnth by lia. f_equal. lia. }
    destruct (cursor_step T fd) as (Hb & Hc & E32);
      [exact Hs|exact Hl|exact H32|exact WT|cbn; lia|].
    assert (V1 : cursorView k
                   (set_midiFile (Some (mkFile fd pos')) (setTrack k T p)) fd).
    { apply cursorView_set_midiFile. apply cursorView_setTrack; [exact V|].
      split; [exact Hs|]. split; [exact Hp|]. split; [exact Hl|].
      split; [exact H32|]. left. exact WT. }
    rewrite Hb. eexists. split; [reflexivity|].
    split; [apply cursorView_setTrack; [exact V1|exact Hc]|].
    split; [reflexivity|].
    rewrite getTrack_setTrack by (apply V1).
    split; [repeat split|exact E32].
  - cbn [negb]. set (tr := getTrack k p) in *.
    assert (WT : windowInSync tr fd).
    { destruct Hw as [W|(W & W')]; [exact W|lia]. }
    destruct (cursor_step tr fd) as (Hb & Hc & E32);
      [exact Hs|exact Hl|exact H32|exact WT|exact Hlive|].
    rewrite Hb. eexists. split; [reflexivity|].
    split; [apply cursorView_setTrack; assumption|].
    split; [reflexivity|]. rewrite getTrack_setTrack by exact Hin.
    split; [repeat split|exact E32].
Qed.

(** Reading at the end of the track: nothing is delivered, the byte is 0
    and the cursor stays. *)
Lemma readTrackByte_at_end (k : Z) (p : t) (fd : list Z) :
  cursorView k p fd ->
  filePosition (getTrack k p) = trackEndPos (getTrack k p) ->
  exists p',
    readTrackByte k p = (0, p')
    /\ cursorView k p' fd
    /\ fileInfo p' = fileInfo p
    /\ sameTrackMeta (getTrack k p) (getTrack k p')
    /\ filePosition (getTrack k p') = filePosition (getTrack k p).
Proof.
  intros V Heq. pose proof V as (Hk & Hin & (pos & Hf) & Hs & Hp & Hl & H32 & Hw).
  unfold readTrackByte.
  destruct (Z.leb_spec (numTracks p) k) as [?|_]; [lia|].
  set (tr := getTrack k p) in *.
  assert (Hex : bufferSize tr <= bufferPos tr).
  { destruct Hw as [(W1 & W2 & W3 & W4 & W5 & _)|(W & W')]; lia. }
  assert (Hb : 0 <= bufferPos tr < 65536).
  { destruct Hw as [(W1 & W2 & _)|(W & W')]; lia. }
  destruct (Z.leb_spec (bufferSize tr) (bufferPos tr)) as [_|?]; [|lia].
  unfold fillTrackBuffer.
  destruct (Z.leb_spec (numTracks p) k) as [?|_]; [lia|].
  fold tr.
  replace (trackEndPos tr - filePosition tr) with 0 by lia.
  change (u32 0 =? 0) with true.
  cbn [negb]. eexists. split; [reflexivity|].
  split; [|split; [reflexivity|]].
  - apply cursorView_setTrack; [exact V|].
    unfold trackCoherent, tr_set_bufferSize.
    cbn [trackStartPos trackEndPos filePosition].
    split; [exact Hs|]. split; [lia|]. split; [exact Hl|]. split; [exact H32|].
    right. unfold windowEmpty. cbn [bufferSize bufferPos]. lia.
  - rewrite getTrack_setTrack by exact Hin. split; [repeat split|reflexivity].
Qed.


Lemma undisturbed_refl (k : Z) (p : t) : undisturbed k p p.
Proof. split; [reflexivity|apply sameTrackMeta_refl]. Qed.

Lemma undisturbed_trans (k : Z) (p q r : t) :
  undisturbed k p q -> undisturbed k q r -> undisturbed k p r.
Proof.
  intros [A1 A2] [B1 B2]. split; [congruence|].
  eapply sameTrackMeta_trans; eassumption.
Qed.

(** The two cases of [readTrackByte] on the stream of the track. *)
Lemma readTrackByte_cons (k : Z) (p : t) (fd : list Z) (b : Z) (rest : list Z) :
  streamAt k p fd (b :: rest) ->
  exists p', readTrackByte k p = (b, p')
    /\ streamAt k p' fd rest /\ undisturbed k p p'.
Proof.
  intros [V E]. pose proof V as (_ & _ & _ & C).
  assert (Hlt : filePosition (getTrack k p) < trackEndPos (getTrack k p)).
  { destruct (Z.lt_ge_cases (filePosition (getTrack k p))
                (trackEndPos (getTrack k p))) as [H|H]; [exact H|].
    rewrite trackRest_nil in E by lia. discriminate. }
  destruct (readTrackByte_next k p fd V Hlt) as (p' & R & V' & I & M & F).
  rewrite (trackRest_cons _ (getTrack k p') fd C Hlt) in E;
    [|apply M|apply M|exact F].
  injection E as Eb Er. rewrite Eb in R.
  exists p'. split; [exact R|]. split; [split; assumption|split; assumption].
Qed.

Lemma readTrackByte_nil (k : Z) (p : t) (fd : list Z) :
  streamAt k p fd [] ->
  exists p', readTrackByte k p = (0, p')
    /\ streamAt k p' fd [] /\ undisturbed k p p'.
Proof.
  intros [V E]. pose proof V as (_ & _ & _ & C).
  pose proof (trackRest_length _ _ C) as L. rewrite E in L. cbn in L.
  destruct (readTrackByte_at_end k p fd V) as (p' & R & V' & I & M & F);
    [lia|].
  exists p'. split; [exact R|]. split; [|split; assumption].
  split; [exact V'|]. apply trackRest_nil.
  destruct M as (_ & M2 & _). lia.
Qed.

(** ** Variable-length quantities *)

Lemma land_80_continue (c : Z) : 128 <= c < 256 -> (Z.land c 0x80 =? 0) = false.
Proof.
  intros H. change 0x80 with (Z.shiftl 1 7). rewrite land_bit_test by lia.
  assert (E : Z.testbit c 7 = true).
  { apply Z.testbit_true; [lia|]. change (2 ^ 7) with 128.
    replace (c / 128) with 1 by (apply Z.div_unique with (c - 128); lia).
    reflexivity. }
  rewrite E. reflexivity.
Qed.

Lemma land_80_last (b : Z) : 0 <= b < 128 -> (Z.land b 0x80 =? 0) = true.
Proof.
  intros H. change 0x80 with (Z.shiftl 1 7). rewrite land_bit_test by lia.
  assert (E : Z.testbit b 7 = false).
  { apply Z.testbit_false; [lia|]. change (2 ^ 7) with 128.
    rewrite Z.div_small by lia. reflexivity. }
  rewrite E. reflexivity.
Qed.


Lemma vlqStep_mod (x y b : Z) : u32 x = u32 y -> u32 (vlqStep x b) = u32 (vlqStep y b).
Proof.
  unfold u32, vlqStep. intros H.
  rewrite (Z.add_mod (x * 128)), (Z.add_mod (y * 128)) by lia.
  rewrite (Z.mul_mod x), (Z.mul_mod y) by lia. rewrite H. reflexivity.
Qed.

Lemma vlq_fold_mod (l : list Z) (x y : Z) :
  u32 x = u32 y -> u32 (fold_left vlqStep l x) = u32 (fold_left vlqStep l y).
Proof.
  revert x y. induction l as [|a l IH]; intros x y H; cbn [fold_left].
  - exact H.
  - apply IH. apply vlqStep_mod. exact H.
Qed.

Lemma u32_idem (x : Z) : u32 (u32 x) = u32 x.
Proof. apply u32_small. apply u32_range. Qed.

Lemma readTrackVariableLength_loop_stream (k : Z) (fd : list Z) (cs : list Z) :
  forall (fuel : nat) (v b : Z) (rest : list Z) (p : t),
  Forall (fun c => 128 <= c < 256) cs -> 0 <= b < 128 ->
  streamAt k p fd (cs ++ b :: rest) ->
  (length cs < fuel)%nat ->
  exists p',
    readTrackVariableLength_loop fuel k v p
    = Some (u32 (fold_left vlqStep (cs ++ [b]) v), p')
    /\ streamAt k p' fd rest /\ undisturbed k p p'.
Proof.
  induction cs as [|c cs IH]; intros fuel v b rest p Hcs Hb St Hfuel.
  - destruct fuel as [|fuel]; [cbn in Hfuel; lia|].
    cbn [app] in St. destruct (readTrackByte_cons _ _ _ _ _ St) as (p' & R & S' & U).
    cbn [readTrackVariableLength_loop]. rewrite R.
    rewrite land_80_last by exact Hb. rewrite vlq_step.
    exists p'. split; [reflexivity|]. split; assumption.
  - destruct fuel as [|fuel]; [cbn in Hfuel; lia|].
    cbn [app] in St. destruct (readTrackByte_cons _ _ _ _ _ St) as (p1 & R & S1 & U1).
    cbn [readTrackVariableLength_loop]. rewrite R.
    rewrite land_80_continue by (inversion Hcs; assumption).
    rewrite vlq_step.
    destruct (IH fuel (u32 (v * 128 + c mod 128)) b rest p1)
      as (p' & R' & S' & U'); [inversion Hcs; assumption|exact Hb|exact S1
                              |cbn in Hfuel; lia|].
    exists p'. split; [|split; [exact S'|eapply undisturbed_trans; eassumption]].
    rewrite R'. do 2 f_equal. cbn [app fold_left].
    apply vlq_fold_mod. apply u32_idem.
Qed.

Lemma bytesAhead_rest (tr : TrackState) (fd : list Z) :
  trackCoherent tr fd ->
  bytesAhead tr = Z.of_nat (length (trackRest tr fd)).
Proof.
  intros C. rewrite (trackRest_length _ _ C).
  destruct C as (Hs & Hp & Hl & H32 & [W|W]); unfold bytesAhead.
  - destruct W as (W1 & W2 & W3 & W4 & W5 & _).
    rewrite Z.max_r by lia. rewrite u32_small by lia. lia.
  - destruct W as (W1 & W2). rewrite Z.max_l by lia.
    rewrite u32_small by lia. lia.
Qed.

(** Reading a quantity of any number of bytes: all its bytes are consumed,
    the result is the low 32 bits of its value. *)
Lemma readTrackVariableLength_stream (k : Z) (p : t) (fd q rest : list Z) :
  isVlq q ->
  streamAt k p fd (q ++ rest) ->
  exists p',
    readTrackVariableLength k p = (u32 (vlqValue q), p')
    /\ streamAt k p' fd rest /\ undisturbed k p p'.
Proof.
  intros (cs & b & -> & Hcs & Hb) St. rewrite <- app_assoc in St. cbn [app] in St.
  unfold readTrackVariableLength.
  destruct (readTrackVariableLength_loop_stream k fd cs
              (S (Z.to_nat (bytesAhead (getTrack k p)))) 0 b rest p Hcs Hb St)
    as (p' & R & S' & U).
  { destruct St as [V E]. rewrite (bytesAhead_rest _ fd) by apply V.
    rewrite E. rewrite length_app. cbn [length]. lia. }
  rewrite R. exists p'. split; [reflexivity|split; assumption].
Qed.

(** The loop always comes to an end: at the latest on the byte 0 that
    [readTrackByte] gives at the end of the track. *)
Lemma readTrackVariableLength_loop_some (k : Z) (fd : list Z) (rest : list Z) :
  forall (fuel : nat) (v : Z) (p : t),
  streamAt k p fd rest -> (length rest < fuel)%nat ->
  exists r, readTrackVariableLength_loop fuel k v p = Some r.
Proof.
  induction rest as [|b rest IH]; intros fuel v p St Hfuel.
  - destruct fuel as [|fuel]; [cbn in Hfuel; lia|].
    destruct (readTrackByte_nil _ _ _ St) as (p' & R & _).
    cbn [readTrackVariableLength_loop]. rewrite R.
    change (Z.land 0 128 =? 0) with true. cbv iota. eexists. reflexivity.
  - destruct fuel as [|fuel]; [cbn in Hfuel; lia|].
    destruct (readTrackByte_cons _ _ _ _ _ St) as (p' & R & S' & _).
    cbn [readTrackVariableLength_loop]. rewrite R.
    destruct (Z.land b 128 =? 0); [eexists; reflexivity|].
    apply IH; [exact S'|cbn in Hfuel; lia].
Qed.

Lemma readTrackVariableLength_loop_total (k : Z) (p : t) (fd : list Z) :
  cursorView k p fd ->
  exists r,
    readTrackVariableLength_loop
      (S (Z.to_nat (bytesAhead (getTrack k p)))) k 0 p = Some r.
Proof.
  intros V.
  apply (readTrackVariableLength_loop_some k fd (trackRest (getTrack k p) fd)).
  - split; [exact V|reflexivity].
  - rewrite (bytesAhead_rest _ fd) by apply V. lia.
Qed.

End TrackStream.

(** ** Variable-length quantities of any length *)

Section Vlq.
Import MidiFileParser.

Lemma vlq_fold_bound (l : list Z) (v : Z) :
  0 <= v ->
  0 <= fold_left vlqStep l v < (v + 1) * 128 ^ Z.of_nat (length l).
Proof.
  revert v. induction l as [|a l IH]; intros v Hv.
  - cbn. lia.
  - cbn [fold_left length]. rewrite Nat2Z.inj_succ, Z.pow_succ_r by lia.
    pose proof (Z.mod_pos_bound a 128 ltac:(lia)) as Ha.
    assert (Hs : 0 <= vlqStep v a) by (unfold vlqStep; lia).
    specialize (IH _ Hs).
    assert (Hp : 0 < 128 ^ Z.of_nat (length l)) by (apply Z.pow_pos_nonneg; lia).
    unfold vlqStep in *. nia.
Qed.

Lemma vlqValue_four_bytes (q : list Z) :
  (length q <= 4)%nat -> u32 (vlqValue q) = vlqValue q.
Proof.
  intros H. apply u32_small. unfold vlqValue.
  pose proof (vlq_fold_bound q 0 ltac:(lia)) as B.
  assert (128 ^ Z.of_nat (length q) <= 128 ^ 4)
    by (apply Z.pow_le_mono_r; lia).
  change (128 ^ 4) with 268435456 in *. lia.
Qed.

(** C7, as the code has it.  The loop of [readTrackVariableLength] has no
    limit on the number of bytes: a quantity made of any number of bytes
    with the high bit set and a last byte without it is read to its end,
    the cursor of the track is then behind its last byte, the result is the
    value of the quantity in 32-bit arithmetic (the value itself when the
    quantity has at most four bytes), and the end-of-track flag of the track
    is what it was. *)
Theorem readTrackVariableLength_reads_all_bytes (k : Z) (p : t) (fd q rest : list Z) :
  isVlq q ->
  streamAt k p fd (q ++ rest) ->
  exists p',
    readTrackVariableLength k p = (u32 (vlqValue q), p')
    /\ streamAt k p' fd rest
    /\ endOfTrack (getTrack k p') = endOfTrack (getTrack k p)
    /\ ((length q <= 4)%nat -> u32 (vlqValue q) = vlqValue q).
Proof.
  intros Hq St.
  destruct (readTrackVariableLength_stream k p fd q rest Hq St)
    as (p' & R & S' & U).
  exists p'. split; [exact R|]. split; [exact S'|].
  split; [apply U|apply vlqValue_four_bytes].
Qed.

End Vlq.

Lemma readTrackVariableLength_reads_all_bytes_witness :
  isVlq [0x81; 0x80; 0x80; 0x80; 0x80; 0x05]
  /\ streamAt 0 sample_long_vlq_ready sample_long_vlq
       ([0x81; 0x80; 0x80; 0x80; 0x80; 0x05]
        ++ [0x90; 0x3C; 0x64; 0x60; 0x80; 0x3C; 0x40; 0; 0xFF; 0x2F; 0])
  /\ exists p',
       MidiFileParser.readTrackVariableLength 0 sample_long_vlq_ready
       = (u32 (vlqValue [0x81; 0x80; 0x80; 0x80; 0x80; 0x05]), p')
       /\ streamAt 0 p' sample_long_vlq
            [0x90; 0x3C; 0x64; 0x60; 0x80; 0x3C; 0x40; 0; 0xFF; 0x2F; 0]
       /\ endOfTrack (MidiFileParser.getTrack 0 p')
          = endOfTrack (MidiFileParser.getTrack 0 sample_long_vlq_ready)
       /\ ((length [0x81; 0x80; 0x80; 0x80; 0x80; 0x05] <= 4)%nat ->
           u32 (vlqValue [0x81; 0x80; 0x80; 0x80; 0x80; 0x05])
           = vlqValue [0x81; 0x80; 0x80; 0x80; 0x80; 0x05]).
Proof.
  assert (H1 : isVlq [0x81; 0x80; 0x80; 0x80; 0x80; 0x05]).
  { exists [0x81; 0x80; 0x80; 0x80; 0x80], 0x05.
    split; [reflexivity|]. split; [repeat constructor; lia|lia]. }
  assert (H2 : streamAt 0 sample_long_vlq_ready sample_long_vlq
       ([0x81; 0x80; 0x80; 0x80; 0x80; 0x05]
        ++ [0x90; 0x3C; 0x64; 0x60; 0x80; 0x3C; 0x40; 0; 0xFF; 0x2F; 0])).
  { split; [|vm_compute; reflexivity].
    split; [by_evaluation|]. split; [vm_compute; lia|].
    split; [exists 39; vm_compute; reflexivity|].
    split; [by_evaluation|]. split; [by_evaluation|].
    split; [by_evaluation|]. split; [by_evaluation|].
    right. split; [vm_compute; reflexivity|by_evaluation]. }
  split; [exact H1|]. split; [exact H2|].
  exact (readTrackVariableLength_reads_all_bytes 0 sample_long_vlq_ready sample_long_vlq _ _ H1 H2).
Defined.

(** The statement of C7 fails: the first delta time of [sample_long_vlq] has
    five bytes with the high bit set; [open] reads it (as 5, its value in
    32-bit arithmetic), the track is not ended, its cursor is behind the six
    bytes and the three of the event, and the events of the track are
    delivered. *)
Lemma long_vlq_does_not_end_track :
  isVlq [0x81; 0x80; 0x80; 0x80; 0x80; 0x05]
  /\ trackRest (MidiFileParser.getTrack 0 sample_long_vlq_ready) sample_long_vlq
     = [0x81; 0x80; 0x80; 0x80; 0x80; 0x05]
       ++ [0x90; 0x3C; 0x64; 0x60; 0x80; 0x3C; 0x40; 0; 0xFF; 0x2F; 0]
  /\ fst (MidiFileParser.open (Some (mkFile sample_long_vlq 0))
            (MidiFileParser.new [0; 0; 0; 0])) = true
  /\ endOfTrack (MidiFileParser.getTrack 0 sample_long_vlq_parser) = false
  /\ filePosition (MidiFileParser.getTrack 0 sample_long_vlq_parser) = 9
  /\ readEvents 5 sample_long_vlq_parser
     = [mkEvent 5 5 144 0 60 100 None 0 false 0;
        mkEvent 96 101 128 0 60 64 None 0 false 0].
Proof.
  split.
  { exists [0x81; 0x80; 0x80; 0x80; 0x80], 0x05.
    split; [reflexivity|]. split; [repeat constructor; lia|lia]. }
  do 4 (split; [vm_compute; reflexivity|]). vm_compute. reflexivity.
Qed.

Section FileVlq.
Import MidiFileParser.

Lemma skipn_cons_inv {A : Type} (n : nat) (l tl : list A) (a d : A) :
  skipn n l = a :: tl ->
  (n < length l)%nat /\ nth n l d = a /\ skipn (S n) l = tl.
Proof.
  revert l. induction n as [|n IH]; intros l H.
  - destruct l as [|x l]; [discriminate|]. cbn in H. injection H as -> ->.
    cbn. split; [lia|]. split; reflexivity.
  - destruct l as [|x l]; [discriminate|].
    change (skipn (S n) (x :: l)) with (skipn n l) in H.
    destruct (IH l H) as (H1 & H2 & H3). cbn [length nth].
    split; [lia|]. split; [exact H2|exact H3].
Qed.

Lemma readVariableLength_loop_file (fd cs : list Z) :
  forall (fuel : nat) (v b pos : Z) (rest : list Z) (p : t),
  Forall (fun c => 128 <= c < 256) cs -> 0 <= b < 128 ->
  midiFile p = Some (mkFile fd pos) -> 0 <= pos ->
  skipn (Z.to_nat pos) fd = cs ++ b :: rest ->
  (length cs < fuel)%nat ->
  readVariableLength_loop fuel v p
  = Some (u32 (fold_left vlqStep (cs ++ [b]) v),
          set_midiFile
            (Some (mkFile fd (pos + Z.of_nat (length cs) + 1))) p).
Proof.
  induction cs as [|c cs IH]; intros fuel v b pos rest p Hcs Hb Hf Hpos E Hfuel.
  - destruct fuel as [|fuel]; [cbn in Hfuel; lia|].
    cbn [app] in E. destruct (skipn_cons_inv _ _ _ _ 0 E) as (H1 & H2 & H3).
    cbn [readVariableLength_loop].
    rewrite (read8_at p fd pos Hf) by lia. unfold byteAt. rewrite H2.
    replace (Z.min (pos + 1) (Z.of_nat (length fd))) with (pos + 1) by lia.
    rewrite land_80_last by exact Hb. rewrite vlq_step.
    cbn [length]. rewrite Z.add_0_r. reflexivity.
  - destruct fuel as [|fuel]; [cbn in Hfuel; lia|].
    cbn [app] in E. destruct (skipn_cons_inv _ _ _ _ 0 E) as (H1 & H2 & H3).
    cbn [readVariableLength_loop].
    rewrite (read8_at p fd pos Hf) by lia. unfold byteAt. rewrite H2.
    replace (Z.min (pos + 1) (Z.of_nat (length fd))) with (pos + 1) by lia.
    rewrite land_80_continue by (inversion Hcs; assumption).
    rewrite vlq_step.
    rewrite (IH fuel _ b (pos + 1) rest);
      [|inversion Hcs; assumption|exact Hb
       |reflexivity|lia
       |replace (Z.to_nat (pos + 1)) with (S (Z.to_nat pos)) by lia; exact H3
       |cbn in Hfuel; lia].
    rewrite set_midiFile_twice. cbn [app fold_left length].
    f_equal. f_equal.
    + apply vlq_fold_mod. apply u32_idem.
    + replace (pos + 1 + Z.of_nat (length cs) + 1)
        with (pos + Z.of_nat (S (length cs)) + 1) by lia.
      reflexivity.
Qed.

(** [readVariableLength], the same loop on the file itself: a quantity of
    any number of bytes is read to its end. *)
Lemma readVariableLength_reads_all (p : t) (fd q rest : list Z) (pos : Z) :
  isVlq q ->
  midiFile p = Some (mkFile fd pos) -> 0 <= pos ->
  skipn (Z.to_nat pos) fd = q ++ rest ->
  readVariableLength p
  = (u32 (vlqValue q),
     set_midiFile (Some (mkFile fd (pos + Z.of_nat (length q)))) p).
Proof.
  intros (cs & b & -> & Hcs & Hb) Hf Hpos E.
  rewrite <- app_assoc in E. cbn [app] in E.
  unfold readVariableLength. rewrite Hf.
  rewrite (readVariableLength_loop_file fd cs _ 0 b pos rest p Hcs Hb Hf Hpos E).
  - rewrite length_app. cbn [length]. unfold vlqValue.
    replace (pos + Z.of_nat (length cs) + 1)
      with (pos + Z.of_nat (length cs + 1)) by lia.
    reflexivity.
  - assert (L : length (skipn (Z.to_nat pos) fd) = length (cs ++ b :: rest))
      by (rewrite E; reflexivity).
    rewrite length_skipn, length_app in L. cbn [length] in L.
    unfold available, fileSize. cbn [fdata curPosition]. lia.
Qed.

End FileVlq.

(** ** The tempo meta event *)

Section Tempo.
Import MidiFileParser.

Lemma streamAt_setTrack (k : Z) (p : t) (fd rest : list Z) (tr : TrackState) :
  streamAt k p fd rest ->
  trackCoherent tr fd -> trackRest tr fd = rest ->
  streamAt k (setTrack k tr p) fd rest.
Proof.
  intros [V E] C R. split.
  - apply cursorView_setTrack; assumption.
  - rewrite getTrack_setTrack by apply V. exact R.
Qed.

Lemma streamAt_currentTick (k v : Z) (p : t) (fd rest : list Z) :
  streamAt k p fd rest ->
  streamAt k (setTrack k (tr_set_currentTick v (getTrack k p)) p) fd rest.
Proof.
  intros St. apply streamAt_setTrack; [exact St| |apply St].
  destruct St as [(_ & _ & _ & C) _]. exact C.
Qed.

Lemma streamAt_runningStatus (k v : Z) (p : t) (fd rest : list Z) :
  streamAt k p fd rest ->
  streamAt k (setTrack k (tr_set_runningStatus v (getTrack k p)) p) fd rest.
Proof.
  intros St. apply streamAt_setTrack; [exact St| |apply St].
  destruct St as [(_ & _ & _ & C) _]. exact C.
Qed.

Lemma skipTrackBytes_stream (k : Z) (fd : list Z) (bytes : list Z) :
  forall (rest : list Z) (p : t),
  streamAt k p fd (bytes ++ rest) ->
  streamAt k (skipTrackBytes (length bytes) k p) fd rest
  /\ undisturbed k p (skipTrackBytes (length bytes) k p).
Proof.
  induction bytes as [|b bytes IH]; intros rest p St.
  - cbn [length skipTrackBytes]. split; [exact St|apply undisturbed_refl].
  - cbn [app] in St.
    destruct (readTrackByte_cons _ _ _ _ _ St) as (p1 & R & S1 & U1).
    cbn [length skipTrackBytes]. rewrite R. cbn [snd].
    destruct (IH rest p1 S1) as [S2 U2].
    split; [exact S2|eapply undisturbed_trans; eassumption].
Qed.

(** The tempo case on the stream: a payload of three bytes is read as a
    number and stored when it is in the range; any other payload is
    skipped. *)
Lemma metaTempo_stream (k len : Z) (p : t) (fd payload rest : list Z) :
  streamAt k p fd (payload ++ rest) ->
  Z.of_nat (length payload) = len ->
  isBytes payload ->
  streamAt k (metaTempo k len p) fd rest
  /\ (length payload = 3%nat -> 100000 <= be24 payload <= 10000000 ->
      fileInfo (metaTempo k len p) = info_set_tempo (be24 payload) (fileInfo p))
  /\ (length payload <> 3%nat \/ be24 payload < 100000
      \/ 10000000 < be24 payload ->
      fileInfo (metaTempo k len p) = fileInfo p).
Proof.
  intros St Hlen Hb. unfold metaTempo.
  destruct (Z.eqb_spec len 3) as [E3|N3].
  - destruct payload as [|b1 [|b2 [|b3 [|b4 payload]]]];
      cbn [length] in Hlen; try lia.
    cbn [app] in St.
    destruct (readTrackByte_cons _ _ _ _ _ St) as (p1 & R1 & S1 & U1).
    destruct (readTrackByte_cons _ _ _ _ _ S1) as (p2 & R2 & S2 & U2).
    destruct (readTrackByte_cons _ _ _ _ _ S2) as (p3 & R3 & S3 & U3).
    rewrite R1, R2, R3.
    assert (Hi : fileInfo p3 = fileInfo p)
      by (destruct U1, U2, U3; congruence).
    inversion Hb as [|? ? B1 Hb1]; subst.
    inversion Hb1 as [|? ? B2 Hb2]; subst.
    inversion Hb2 as [|? ? B3 _]; subst.
    rewrite be24_value by assumption.
    change (be24 [b1; b2; b3]) with (b1 * 65536 + b2 * 256 + b3).
    set (v := b1 * 65536 + b2 * 256 + b3).
    destruct (Z.leb_spec 100000 v) as [L1|L1];
      destruct (Z.leb_spec v 10000000) as [L2|L2]; cbn [andb].
    + split; [exact S3|]. split.
      * intros _ _. cbn [fileInfo set_fileInfo]. rewrite Hi. reflexivity.
      * intros [H|[H|H]]; [exfalso; apply H; reflexivity|lia|lia].
    + split; [exact S3|]. split; [intros _ ?; lia|intros _; exact Hi].
    + split; [exact S3|]. split; [intros _ ?; lia|intros _; exact Hi].
    + split; [exact S3|]. split; [intros _ ?; lia|intros _; exact Hi].
  - rewrite <- Hlen, Nat2Z.id.
    destruct (skipTrackBytes_stream k fd payload rest p St) as [S1 U1].
    split; [exact S1|]. split; [intros H; lia|intros _; apply U1].
Qed.


Lemma streamAt_clearRunningStatus (k : Z) (p : t) (fd rest : list Z) :
  streamAt k p fd rest -> streamAt k (clearRunningStatus k p) fd rest.
Proof. apply streamAt_runningStatus. Qed.

(** C6.  A tempo meta event (any delta time, FF 51, a declared length, and
    as many payload bytes as declared) is read by [readTrackEvent] with the
    whole payload consumed.  When the payload has three bytes and their
    big-endian value is between 100000 and 10000000, the field [tempo] of
    the file information holds that value afterwards and the other fields
    are as before; in every other case the file information, and with it
    the tempo, is what it was before. *)
Theorem tempo_meta_updates_iff_valid (k : Z) (ev : MidiEvent) (p : t)
    (fd delta len payload rest : list Z) :
  streamAt k p fd (delta ++ [0xFF; 0x51] ++ len ++ payload ++ rest) ->
  endOfTrack (getTrack k p) = false ->
  isVlq delta -> isVlq len ->
  Z.of_nat (length payload) = u32 (vlqValue len) ->
  isBytes payload ->
  exists ev' p',
    readTrackEvent k ev p = (true, ev', p')
    /\ streamAt k p' fd rest
    /\ (length payload = 3%nat -> 100000 <= be24 payload <= 10000000 ->
        tempo (fileInfo p') = be24 payload
        /\ fileInfo p'
           = mkInfo (format (fileInfo p)) (info_numTracks (fileInfo p))
               (ticksPerQuarter (fileInfo p)) (be24 payload)
               (numerator (fileInfo p)) (denominator (fileInfo p))
               (trackName (fileInfo p)))
    /\ (length payload <> 3%nat \/ be24 payload < 100000
        \/ 10000000 < be24 payload ->
        tempo (fileInfo p') = tempo (fileInfo p)
        /\ fileInfo p' = fileInfo p).
Proof.
  intros St Hend Hd Hl Hlen Hb.
  pose proof St as [V E]. pose proof V as (Hk & _ & _ & C).
  unfold readTrackEvent.
  destruct (Z.leb_spec (numTracks p) k) as [?|_]; [lia|].
  rewrite Hend.
  destruct (Z.leb_spec (trackEndPos (getTrack k p)) (filePosition (getTrack k p)))
    as [Hle|_].
  { rewrite trackRest_nil in E by exact Hle.
    destruct Hd as (cs & b & -> & _). destruct cs; discriminate. }
  destruct (readTrackVariableLength_stream k p fd delta _ Hd St)
    as (p1 & R1 & S1 & U1).
  rewrite R1.
  pose proof (streamAt_currentTick k
                (u32 (currentTick (getTrack k p1) + u32 (vlqValue delta)))
                p1 fd _ S1) as S2.
  set (p2 := setTrack k (tr_set_currentTick _ (getTrack k p1)) p1) in *.
  assert (I2 : fileInfo p2 = fileInfo p) by (destruct U1; assumption).
  unfold readTrackEvent_status.
  cbn [app] in S2.
  destruct (readTrackByte_cons _ _ _ _ _ S2) as (p3 & R3 & S3 & U3).
  rewrite R3. change (255 <? 128) with false. cbv iota.
  pose proof (streamAt_runningStatus k 255 p3 fd _ S3) as S4.
  set (p4 := setTrack k (tr_set_runningStatus 255 (getTrack k p3)) p3) in *.
  assert (I4 : fileInfo p4 = fileInfo p)
    by (change (fileInfo p4) with (fileInfo p3); destruct U3; congruence).
  change ((255 =? MIDI_SYSEX) || (255 =? 247)) with false.
  change (255 =? MIDI_META_EVENT) with true. cbv iota.
  destruct (readTrackByte_cons _ _ _ _ _ S4) as (p5 & R5 & S5 & U5).
  rewrite R5.
  destruct (readTrackVariableLength_stream k p5 fd len _ Hl S5)
    as (p6 & R6 & S6 & U6).
  rewrite R6. change (81 =? META_TEMPO) with true. cbv iota.
  assert (I6 : fileInfo p6 = fileInfo p) by (destruct U5, U6; congruence).
  destruct (metaTempo_stream k (u32 (vlqValue len)) p6 fd payload rest S6 Hlen Hb)
    as (S7 & A & B).
  eexists. eexists. split; [reflexivity|].
  split; [apply streamAt_clearRunningStatus; exact S7|].
  split.
  - intros H3 Hr. change (fileInfo (clearRunningStatus k ?q)) with (fileInfo q).
    rewrite (A H3 Hr), I6. split; reflexivity.
  - intros H. change (fileInfo (clearRunningStatus k ?q)) with (fileInfo q).
    rewrite (B H), I6. split; reflexivity.
Qed.

End Tempo.

Lemma tempo_meta_updates_iff_valid_witness :
  streamAt 0 (sample_tempo_ready 6 26 128) (sample_tempo 6 26 128)
    ([0] ++ [0xFF; 0x51] ++ [3] ++ [6; 26; 128]
     ++ [0; 0x90; 0x3C; 0x64; 0x60; 0x80; 0x3C; 0x40; 0; 0xFF; 0x2F; 0])
  /\ endOfTrack (MidiFileParser.getTrack 0 (sample_tempo_ready 6 26 128)) = false
  /\ isVlq [0] /\ isVlq [3]
  /\ Z.of_nat (length [6; 26; 128]) = u32 (vlqValue [3])
  /\ isBytes [6; 26; 128]
  /\ exists ev' p',
       MidiFileParser.readTrackEvent 0 MidiEvent_new (sample_tempo_ready 6 26 128)
       = (true, ev', p')
       /\ streamAt 0 p' (sample_tempo 6 26 128)
            [0; 0x90; 0x3C; 0x64; 0x60; 0x80; 0x3C; 0x40; 0; 0xFF; 0x2F; 0]
       /\ tempo (MidiFileParser.fileInfo p') = 400000.
Proof.
  assert (H1 : streamAt 0 (sample_tempo_ready 6 26 128) (sample_tempo 6 26 128)
    ([0] ++ [0xFF; 0x51] ++ [3] ++ [6; 26; 128]
     ++ [0; 0x90; 0x3C; 0x64; 0x60; 0x80; 0x3C; 0x40; 0; 0xFF; 0x2F; 0])).
  { split; [|vm_compute; reflexivity].
    split; [by_evaluation|]. split; [vm_compute; lia|].
    split; [exists 41; vm_compute; reflexivity|].
    split; [by_evaluation|]. split; [by_evaluation|].
    split; [by_evaluation|]. split; [by_evaluation|].
    right. split; [vm_compute; reflexivity|by_evaluation]. }
  assert (H2 : endOfTrack (MidiFileParser.getTrack 0 (sample_tempo_ready 6 26 128))
               = false) by (vm_compute; reflexivity).
  assert (H3 : isVlq [0]).
  { exists [], 0. split; [reflexivity|]. split; [constructor|lia]. }
  assert (H4 : isVlq [3]).
  { exists [], 3. split; [reflexivity|]. split; [constructor|lia]. }
  assert (H5 : Z.of_nat (length [6; 26; 128]) = u32 (vlqValue [3]))
    by (vm_compute; reflexivity).
  assert (H6 : isBytes [6; 26; 128]) by (repeat constructor; lia).
  assert (H7 : length [6; 26; 128] = 3%nat) by reflexivity.
  assert (H8 : 100000 <= be24 [6; 26; 128] <= 10000000)
    by (vm_compute; split; discriminate).
  split; [exact H1|]. split; [exact H2|]. split; [exact H3|].
  split; [exact H4|]. split; [exact H5|]. split; [exact H6|].
  destruct (tempo_meta_updates_iff_valid 0 MidiEvent_new
              (sample_tempo_ready 6 26 128) (sample_tempo 6 26 128)
              [0] [3] [6; 26; 128]
              [0; 0x90; 0x3C; 0x64; 0x60; 0x80; 0x3C; 0x40; 0; 0xFF; 0x2F; 0]
              H1 H2 H3 H4 H5 H6)
    as (ev' & p' & R & S' & A & _).
  exists ev', p'. split; [exact R|]. split; [exact S'|].
  exact (proj1 (A H7 H8)).
Defined.

(** The same on whole files: [open] reads the first event of the track; the
    tempo 06 1A 80 = 400000 is stored, 00 00 01 and FF FF FF leave the
    default of 500000. *)
Lemma tempo_examples :
  tempo (MidiFileParser.fileInfo
           (snd (MidiFileParser.open (Some (mkFile (sample_tempo 6 26 128) 0))
                   (MidiFileParser.new [0; 0; 0; 0])))) = 400000
  /\ tempo (MidiFileParser.fileInfo
           (snd (MidiFileParser.open (Some (mkFile (sample_tempo 0 0 1) 0))
                   (MidiFileParser.new [0; 0; 0; 0])))) = 500000
  /\ tempo (MidiFileParser.fileInfo
           (snd (MidiFileParser.open (Some (mkFile (sample_tempo 255 255 255) 0))
                   (MidiFileParser.new [0; 0; 0; 0])))) = 500000.
Proof. split; [|split]; vm_compute; reflexivity. Qed.

(** * Further properties of the code

    ** What reading leaves alone in the parser *)

Section Keeps.
Import MidiFileParser.

Lemma keeps_refl (p : t) : keeps p p.
Proof. constructor; auto. Qed.

Lemma keeps_trans (p q r : t) : keeps p q -> keeps q r -> keeps p r.
Proof.
  intros [A1 A2 A3 A4] [B1 B2 B3 B4]. constructor; try congruence. auto.
Qed.

Lemma keeps_setTrack (k : Z) (tr : TrackState) (p q : t) :
  keeps p q -> keeps p (setTrack k tr q).
Proof. intros [A1 A2 A3 A4]. constructor; auto. Qed.

Lemma keeps_set_midiFile (f : FatFile) (pos : Z) (p q : t) :
  keeps p q -> midiFile q = Some f ->
  keeps p (set_midiFile (Some (mkFile (fdata f) pos)) q).
Proof.
  intros [A1 A2 A3 A4] H. constructor; auto.
  rewrite <- A3, H. reflexivity.
Qed.

Lemma keeps_set_fileInfo (i : MidiFileInfo) (p q : t) :
  keeps p q -> tempo i = tempo (fileInfo q) -> keeps p (set_fileInfo i q).
Proof.
  intros [A1 A2 A3 A4] H. constructor; auto.
  intros Hp. specialize (A4 Hp). unfold tempoInRange in *. cbn. rewrite H.
  exact A4.
Qed.

Lemma keeps_set_numTracks (n : Z) (p q : t) :
  keeps p q -> keeps p (set_numTracks n q).
Proof. intros [A1 A2 A3 A4]. constructor; auto. Qed.

Lemma keeps_set_allTracksEnded (b : bool) (p q : t) :
  keeps p q -> keeps p (set_allTracksEnded b q).
Proof. intros [A1 A2 A3 A4]. constructor; auto. Qed.

Lemma read8_keeps (p q : t) : keeps p q -> keeps p (snd (read8 q)).
Proof.
  intros K. unfold read8. destruct (midiFile q) as [f|] eqn:Hf; [|exact K].
  destruct (available f =? 0); [exact K|].
  unfold fread. cbn [snd]. apply keeps_set_midiFile; assumption.
Qed.

Lemma read16_keeps (p q : t) : keeps p q -> keeps p (snd (read16 q)).
Proof.
  intros K. unfold read16.
  pose proof (read8_keeps p q K) as A. destruct (read8 q) as [b1 p1].
  pose proof (read8_keeps p p1 A) as B. destruct (read8 p1) as [b2 p2].
  exact B.
Qed.

Lemma read32_keeps (p q : t) : keeps p q -> keeps p (snd (read32 q)).
Proof.
  intros K. unfold read32.
  pose proof (read8_keeps p q K) as A. destruct (read8 q) as [b1 p1].
  pose proof (read8_keeps p p1 A) as B. destruct (read8 p1) as [b2 p2].
  pose proof (read8_keeps p p2 B) as C. destruct (read8 p2) as [b3 p3].
  pose proof (read8_keeps p p3 C) as D. destruct (read8 p3) as [b4 p4].
  exact D.
Qed.

Lemma readTag_keeps (p q : t) : keeps p q -> keeps p (snd (readTag q)).
Proof.
  intros K. unfold readTag. destruct (midiFile q) as [f|] eqn:Hf; [|exact K].
  unfold fread. cbn [snd]. apply keeps_set_midiFile; assumption.
Qed.

Lemma readMidiHeader_keeps (p q : t) :
  keeps p q -> keeps p (snd (readMidiHeader q)).
Proof.
  intros K. unfold readMidiHeader.
  destruct (midiFile q) as [f|] eqn:Hf; [|exact K].
  pose proof (readTag_keeps p q K) as A. destruct (readTag q) as [hd p1].
  cbn [snd] in A.
  destruct (negb (bytes_eqb hd tag_MThd)); [exact A|].
  pose proof (read32_keeps p p1 A) as B. destruct (read32 p1) as [hl p2].
  cbn [snd] in B.
  destruct (negb (hl =? 6)); [exact B|].
  pose proof (read16_keeps p p2 B) as C. destruct (read16 p2) as [fmt p3].
  cbn [snd] in C.
  match goal with |- context [read16 (set_fileInfo ?i p3)] =>
    pose proof (read16_keeps p _ (keeps_set_fileInfo i p p3 C eq_refl)) as D;
    destruct (read16 (set_fileInfo i p3)) as [nt p4] end.
  cbn [snd] in D.
  match goal with |- context [set_numTracks (u8 nt) (set_fileInfo ?i p4)] =>
    pose proof (keeps_set_numTracks (u8 nt) p _
                  (keeps_set_fileInfo i p p4 D eq_refl)) as E;
    set (p5 := set_numTracks (u8 nt) (set_fileInfo i p4)) in * end.
  assert (F : keeps p (if MAX_TRACKS <? numTracks p5
                       then set_numTracks MAX_TRACKS p5 else p5)).
  { destruct (MAX_TRACKS <? numTracks p5); [|exact E].
    apply keeps_set_numTracks. exact E. }
  pose proof (read16_keeps p _ F) as G.
  destruct (read16 (if MAX_TRACKS <? numTracks p5
                    then set_numTracks MAX_TRACKS p5 else p5)) as [tpq p6].
  cbn [snd] in *. apply keeps_set_fileInfo; [exact G|reflexivity].
Qed.

Lemma fillTrackBuffer_keeps (k : Z) (p q : t) :
  keeps p q -> keeps p (snd (fillTrackBuffer k q)).
Proof.
  intros K. unfold fillTrackBuffer.
  destruct (numTracks q <=? k); [exact K|].
  destruct (_ =? 0); [apply keeps_setTrack; exact K|].
  destruct (midiFile q) as [f|] eqn:Hf; [|apply keeps_setTrack; exact K].
  unfold seekSet. destruct (_ <=? fileSize f); cbn [negb];
    [|apply keeps_setTrack; exact K].
  unfold fread. cbn [snd fdata curPosition].
  apply (keeps_set_midiFile f); [apply keeps_setTrack; exact K|exact Hf].
Qed.

Lemma readTrackByte_keeps (k : Z) (p q : t) :
  keeps p q -> keeps p (snd (readTrackByte k q)).
Proof.
  intros K. unfold readTrackByte.
  destruct (numTracks q <=? k); [exact K|].
  assert (A : keeps p
                (snd (if bufferSize (getTrack k q) <=? bufferPos (getTrack k q)
                      then fillTrackBuffer k q else (true, q)))).
  { destruct (_ <=? _); [apply fillTrackBuffer_keeps; exact K|exact K]. }
  destruct (if bufferSize (getTrack k q) <=? bufferPos (getTrack k q)
            then fillTrackBuffer k q else (true, q)) as [ok p1].
  cbn [snd] in A. destruct ok; cbn [negb snd]; [|exact A].
  apply keeps_setTrack. exact A.
Qed.

Lemma readTrackVariableLength_loop_keeps (fuel : nat) (k v : Z) (p q : t)
  (v' : Z) (q' : t) :
  keeps p q ->
  readTrackVariableLength_loop fuel k v q = Some (v', q') -> keeps p q'.
Proof.
  revert v q. induction fuel as [|fuel IH]; intros v q K E; [discriminate|].
  cbn [readTrackVariableLength_loop] in E.
  pose proof (readTrackByte_keeps k p q K) as A.
  destruct (readTrackByte k q) as [b p1]. cbn [snd] in A.
  destruct (Z.land b 128 =? 0).
  - injection E as <- <-. exact A.
  - eapply IH; eassumption.
Qed.

Lemma readTrackVariableLength_keeps (k : Z) (p q : t) :
  keeps p q -> keeps p (snd (readTrackVariableLength k q)).
Proof.
  intros K. unfold readTrackVariableLength.
  destruct (readTrackVariableLength_loop _ k 0 q) as [[v p']|] eqn:E;
    cbn [snd]; [|exact K].
  eapply readTrackVariableLength_loop_keeps; eassumption.
Qed.

Lemma readTrackBytes_keeps (n : nat) (k : Z) (p q : t) :
  keeps p q -> keeps p (snd (readTrackBytes n k q)).
Proof.
  revert q. induction n as [|n IH]; intros q K; cbn [readTrackBytes].
  - exact K.
  - pose proof (readTrackByte_keeps k p q K) as A.
    destruct (readTrackByte k q) as [b p1]. cbn [snd] in A.
    pose proof (IH p1 A) as B.
    destruct (readTrackBytes n k p1) as [bs p2]. exact B.
Qed.

Lemma skipTrackBytes_keeps (n : nat) (k : Z) (p q : t) :
  keeps p q -> keeps p (skipTrackBytes n k q).
Proof.
  revert q. induction n as [|n IH]; intros q K; cbn [skipTrackBytes].
  - exact K.
  - apply IH. apply readTrackByte_keeps. exact K.
Qed.


Lemma keeps_store_tempo (i : MidiFileInfo) (p q : t) :
  keeps p q -> 100000 <= tempo i <= 10000000 -> keeps p (set_fileInfo i q).
Proof.
  intros [A1 A2 A3 A4] H. constructor; auto.
Qed.

Lemma metaTempo_keeps (k len : Z) (p q : t) :
  keeps p q -> keeps p (metaTempo k len q).
Proof.
  intros K. unfold metaTempo.
  destruct (len =? 3); [|apply skipTrackBytes_keeps; exact K].
  pose proof (readTrackByte_keeps k p q K) as A.
  destruct (readTrackByte k q) as [b1 p1]. cbn [snd] in A.
  pose proof (readTrackByte_keeps k p p1 A) as B.
  destruct (readTrackByte k p1) as [b2 p2]. cbn [snd] in B.
  pose proof (readTrackByte_keeps k p p2 B) as C.
  destruct (readTrackByte k p2) as [b3 p3]. cbn [snd] in C.
  match goal with |- context [(100000 <=? ?v) && (?v <=? 10000000)] =>
    destruct (Z.leb_spec 100000 v); destruct (Z.leb_spec v 10000000);
    cbn [andb]; try exact C end.
  apply keeps_store_tempo; [exact C|]. cbn [tempo info_set_tempo]. lia.
Qed.

Lemma metaTimeSignature_keeps (k len : Z) (p q : t) :
  keeps p q -> keeps p (metaTimeSignature k len q).
Proof.
  intros K. unfold metaTimeSignature.
  destruct (len =? 4); [|exact K].
  pose proof (readTrackByte_keeps k p q K) as A.
  destruct (readTrackByte k q) as [b1 p1]. cbn [snd] in A.
  pose proof (readTrackByte_keeps k p p1 A) as B.
  destruct (readTrackByte k p1) as [b2 p2]. cbn [snd] in B.
  match goal with |- context [readTrackByte k (set_fileInfo ?i p2)] =>
    pose proof (readTrackByte_keeps k p _
                  (keeps_set_fileInfo i p p2 B eq_refl)) as C;
    destruct (readTrackByte k (set_fileInfo i p2)) as [b3 p3] end.
  cbn [snd] in C.
  pose proof (readTrackByte_keeps k p p3 C) as D.
  destruct (readTrackByte k p3) as [b4 p4]. exact D.
Qed.

Lemma metaTrackName_keeps (k len : Z) (p q : t) :
  keeps p q -> keeps p (metaTrackName k len q).
Proof.
  intros K. unfold metaTrackName.
  destruct (len <? 64); [|apply skipTrackBytes_keeps; exact K].
  pose proof (readTrackBytes_keeps (Z.to_nat len) k p q K) as A.
  destruct (readTrackBytes (Z.to_nat len) k q) as [bs p1]. cbn [snd] in A.
  apply keeps_set_fileInfo; [exact A|reflexivity].
Qed.

Lemma clearRunningStatus_keeps (k : Z) (p q : t) :
  keeps p q -> keeps p (clearRunningStatus k q).
Proof. intros K. unfold clearRunningStatus. apply keeps_setTrack. exact K. Qed.

Lemma readTrackEvent_status_keeps (k : Z) (ev : MidiEvent) (p q : t) :
  keeps p q -> keeps p (snd (readTrackEvent_status k ev q)).
Proof.
  intros K. unfold readTrackEvent_status.
  pose proof (readTrackByte_keeps k p q K) as A.
  destruct (readTrackByte k q) as [sb p1]. cbn [snd] in A.
  assert (B : keeps p
    (snd (if sb <? 128
          then (runningStatus (getTrack k p1),
                setTrack k
                  (tr_set_cursor (u16 (bufferPos (getTrack k p1) - 1))
                     (u32 (filePosition (getTrack k p1) - 1))
                     (getTrack k p1)) p1)
          else (sb, setTrack k (tr_set_runningStatus sb (getTrack k p1)) p1)))).
  { destruct (sb <? 128); cbn [snd]; apply keeps_setTrack; exact A. }
  destruct (if sb <? 128 then _ else _) as [st p2]. cbn [snd] in B.
  destruct ((st =? MIDI_SYSEX) || (st =? 247)).
  { pose proof (readTrackVariableLength_keeps k p p2 B) as C.
    destruct (readTrackVariableLength k p2) as [len p3]. cbn [snd] in C.
    pose proof (readTrackBytes_keeps (Z.to_nat len) k p p3 C) as D.
    destruct (readTrackBytes (Z.to_nat len) k p3) as [bs p4]. cbn [snd] in *.
    apply clearRunningStatus_keeps. exact D. }
  destruct (st =? MIDI_META_EVENT).
  { pose proof (readTrackByte_keeps k p p2 B) as C.
    destruct (readTrackByte k p2) as [mt p3]. cbn [snd] in C.
    pose proof (readTrackVariableLength_keeps k p p3 C) as D.
    destruct (readTrackVariableLength k p3) as [len p4]. cbn [snd] in D.
    destruct (mt =? META_TEMPO);
      [cbn [snd]; apply clearRunningStatus_keeps, metaTempo_keeps; exact D|].
    destruct (mt =? META_TIME_SIGNATURE);
      [cbn [snd]; apply clearRunningStatus_keeps, metaTimeSignature_keeps;
       exact D|].
    destruct (mt =? META_TRACK_NAME);
      [cbn [snd]; apply clearRunningStatus_keeps, metaTrackName_keeps;
       exact D|].
    destruct (mt =? META_END_OF_TRACK);
      [cbn [snd]; apply keeps_setTrack; exact D|].
    cbn [snd]. apply clearRunningStatus_keeps, skipTrackBytes_keeps. exact D. }
  match goal with |- context [if ?c then _ else _] => destruct c end.
  { pose proof (readTrackByte_keeps k p p2 B) as C.
    destruct (readTrackByte k p2) as [d1 p3]. cbn [snd] in C.
    pose proof (readTrackByte_keeps k p p3 C) as D.
    destruct (readTrackByte k p3) as [d2 p4]. exact D. }
  match goal with |- context [if ?c then _ else _] => destruct c end.
  { pose proof (readTrackByte_keeps k p p2 B) as C.
    destruct (readTrackByte k p2) as [d1 p3]. exact C. }
  exact B.
Qed.

Lemma readTrackEvent_keeps (k : Z) (ev : MidiEvent) (p q : t) :
  keeps p q -> keeps p (snd (readTrackEvent k ev q)).
Proof.
  intros K. unfold readTrackEvent.
  destruct (numTracks q <=? k); [exact K|].
  destruct (endOfTrack (getTrack k q)); [exact K|].
  destruct (_ <=? _); [cbn [snd]; apply keeps_setTrack; exact K|].
  pose proof (readTrackVariableLength_keeps k p q K) as A.
  destruct (readTrackVariableLength k q) as [dt p1]. cbn [snd] in A.
  apply readTrackEvent_status_keeps. apply keeps_setTrack. exact A.
Qed.

Lemma initTrackHeaders_keeps (n : nat) (i : Z) (p q : t) :
  keeps p q -> keeps p (snd (initTrackHeaders n i q)).
Proof.
  revert i q. induction n as [|n IH]; intros i q K; cbn [initTrackHeaders].
  - exact K.
  - pose proof (readTag_keeps p q K) as A. destruct (readTag q) as [hd p1].
    cbn [snd] in A.
    destruct (negb (bytes_eqb hd tag_MTrk)); [exact A|].
    pose proof (read32_keeps p p1 A) as B. destruct (read32 p1) as [len p2].
    cbn [snd] in B.
    destruct (midiFile p2) as [f|] eqn:Hf; [|exact B].
    unfold seekSet.
    match goal with |- context [if ?c then _ else _] => destruct c end;
      cbn [negb]; [|cbn [snd]; apply keeps_setTrack; exact B].
    apply IH. apply (keeps_set_midiFile f);
      [apply keeps_setTrack; exact B|exact Hf].
Qed.

Lemma prefetchTracks_keeps (n : nat) (i : Z) (p q : t) :
  keeps p q -> keeps p (prefetchTracks n i q).
Proof.
  revert i q. induction n as [|n IH]; intros i q K; cbn [prefetchTracks].
  - exact K.
  - pose proof (fillTrackBuffer_keeps i p q K) as A.
    destruct (fillTrackBuffer i q) as [b p1]. cbn [snd] in A.
    pose proof (readTrackEvent_keeps i (nextEvent (getTrack i p1)) p p1 A) as B.
    destruct (readTrackEvent i (nextEvent (getTrack i p1)) p1) as [[ok ev] p2].
    cbn [snd] in B. apply IH. apply keeps_setTrack. exact B.
Qed.

Lemma initializeTracks_keeps (p q : t) :
  keeps p q -> keeps p (snd (initializeTracks q)).
Proof.
  intros K. unfold initializeTracks.
  destruct (midiFile q); [|exact K].
  pose proof (initTrackHeaders_keeps (Z.to_nat (numTracks q)) 0 p q K) as A.
  destruct (initTrackHeaders (Z.to_nat (numTracks q)) 0 q) as [ok p1].
  cbn [snd] in A. destruct ok; cbn [negb snd]; [|exact A].
  apply prefetchTracks_keeps. exact A.
Qed.

Lemma readNextEvent_keeps (ev : MidiEvent) (p : t) :
  keeps p (snd (readNextEvent ev p)).
Proof.
  unfold readNextEvent.
  destruct (allTracksEnded p); [apply keeps_refl|].
  destruct (findEarliest _ 0 p (-1) 4294967295) as [k tm].
  destruct (k =? -1);
    [cbn [snd]; apply keeps_set_allTracksEnded, keeps_refl|].
  pose proof (readTrackEvent_keeps k (nextEvent (getTrack k p)) p p
                (keeps_refl p)) as A.
  destruct (readTrackEvent k (nextEvent (getTrack k p)) p) as [[ok e] p1].
  cbn [snd] in *. apply keeps_setTrack. exact A.
Qed.

Lemma reset_keeps (p : t) : keeps p (snd (reset p)).
Proof.
  unfold reset. destruct (midiFile p) as [f|] eqn:Hf; [|apply keeps_refl].
  unfold seekSet.
  destruct (0 <=? fileSize f); cbn [negb]; [|apply keeps_refl].
  pose proof (readMidiHeader_keeps p _
                (keeps_set_midiFile f 0 p p (keeps_refl p) Hf)) as A.
  destruct (readMidiHeader (set_midiFile (Some (mkFile (fdata f) 0)) p))
    as [b1 p1].
  cbn [snd] in A.
  pose proof (initializeTracks_keeps p p1 A) as B.
  destruct (initializeTracks p1) as [b2 p2]. cbn [snd] in *.
  apply keeps_set_allTracksEnded. exact B.
Qed.

(** [open] starts from the default tempo. *)
Lemma open_tempoInRange (file : option FatFile) (p : t) :
  tempoInRange (snd (open file p)).
Proof.
  unfold open.
  set (p0 := set_fileInfo _ (set_allTracksEnded false (set_midiFile file p))).
  assert (T0 : tempoInRange p0) by (unfold tempoInRange; cbn; lia).
  pose proof (readMidiHeader_keeps p0 p0 (keeps_refl p0)) as A.
  destruct (readMidiHeader p0) as [b1 p1]. cbn [snd] in A.
  destruct b1; cbn [negb snd]; [|apply A; exact T0].
  pose proof (initializeTracks_keeps p0 p1 A) as B.
  destruct (initializeTracks p1) as [b2 p2]. cbn [snd] in B.
  destruct b2; cbn [negb snd]; apply B; exact T0.
Qed.

End Keeps.

Lemma runCalls_keeps (calls : list ParserCall) (p : MidiFileParser.t) :
  keeps p (runCalls calls p).
Proof.
  unfold runCalls. revert p. induction calls as [|c calls IH]; intros p.
  - apply keeps_refl.
  - cbn [fold_left]. eapply keeps_trans; [|apply IH].
    destruct c as [ev|]; cbn [runCall];
      [apply readNextEvent_keeps|apply reset_keeps].
Qed.

(** X8.  Whatever the file holds, after [open] and any sequence of calls of
    [readNextEvent] and [reset] the stored tempo is between 100000 and
    10000000 microseconds per quarter note: [open] sets the default of
    500000 and a tempo event is stored only when its value is within these
    bounds. *)
Theorem stored_tempo_stays_in_range (file : option FatFile)
  (p0 : MidiFileParser.t) (calls : list ParserCall) :
  100000
  <= tempo (MidiFileParser.fileInfo
              (runCalls calls (snd (MidiFileParser.open file p0))))
  <= 10000000.
Proof.
  apply (keeps_tempo _ _ (runCalls_keeps calls _)).
  apply open_tempoInRange.
Qed.

(** X9.  Calls of [readNextEvent] and [reset] never change the file length
    and the SysEx count the parser holds (they are set by the length scan or
    from the cache), and never change the bytes of the file or drop the
    file. *)
Theorem reading_keeps_length_and_file (calls : list ParserCall)
  (p : MidiFileParser.t) :
  MidiFileParser.getFileLengthTicks (runCalls calls p)
  = MidiFileParser.getFileLengthTicks p
  /\ MidiFileParser.sysexCount (runCalls calls p) = MidiFileParser.sysexCount p
  /\ option_map fdata (MidiFileParser.midiFile (runCalls calls p))
     = option_map fdata (MidiFileParser.midiFile p).
Proof.
  destruct (runCalls_keeps calls p) as [A B C _].
  split; [exact A|]. split; [exact B|exact C].
Qed.

(** ** Seeking backwards and to a position: [rewind], [seek] *)

Lemma keeps_file_present (p q : MidiFileParser.t) :
  keeps p q ->
  MidiFileParser.midiFile p <> None -> MidiFileParser.midiFile q <> None.
Proof.
  intros [_ _ K _] H. destruct (MidiFileParser.midiFile q); [discriminate|].
  destruct (MidiFileParser.midiFile p); [discriminate|contradiction].
Qed.

Lemma readNext_timing (p : MidiPlayer.t) :
  MidiPlayer.microsecondsPerTick (MidiPlayer.readNext p)
  = MidiPlayer.microsecondsPerTick p
  /\ MidiPlayer.tempoPercent (MidiPlayer.readNext p) = MidiPlayer.tempoPercent p
  /\ keeps (MidiPlayer.parser p) (MidiPlayer.parser (MidiPlayer.readNext p)).
Proof.
  unfold MidiPlayer.readNext.
  pose proof (readNextEvent_keeps (MidiPlayer.nextEvent p) (MidiPlayer.parser p))
    as K.
  destruct (MidiFileParser.readNextEvent _ _) as [[b e] ps]. cbn [snd] in K.
  cbn. auto.
Qed.

Lemma skipEvents_timing (n : nat) (target : Z) (p : MidiPlayer.t) :
  MidiPlayer.ticksElapsed (MidiPlayer.skipEvents n target p)
  = MidiPlayer.ticksElapsed p
  /\ MidiPlayer.microsecondsPerTick (MidiPlayer.skipEvents n target p)
     = MidiPlayer.microsecondsPerTick p
  /\ keeps (MidiPlayer.parser p)
       (MidiPlayer.parser (MidiPlayer.skipEvents n target p)).
Proof.
  revert p. induction n as [|n IH]; intros p; cbn [MidiPlayer.skipEvents].
  - split; [reflexivity|]. split; [reflexivity|apply keeps_refl].
  - destruct (MidiPlayer.eventReady p && _);
      [|split; [reflexivity|]; split; [reflexivity|apply keeps_refl]].
    match goal with |- context [MidiPlayer.readNext ?q] =>
      destruct (IH (MidiPlayer.readNext q)) as (H1 & H2 & H3);
      destruct (readNext_timing q) as (R1 & _ & R3);
      destruct (readNext_fields q) as (_ & R2 & _) end.
    rewrite H1, H2, R1, R2.
    split; [reflexivity|]. split; [reflexivity|].
    eapply keeps_trans; [exact R3|exact H3].
Qed.

(** The position [rewind] leaves: the position less the tick count, or 0
    when that would be before the start.  With no file attached the parser
    cannot be reset and the position stays. *)
Lemma rewind_position (ms : Z) (p : MidiPlayer.t) :
  0 <= MidiPlayer.ticksElapsed p < 4294967296 ->
  (MidiFileParser.midiFile (MidiPlayer.parser p) <> None ->
   MidiPlayer.ticksElapsed (MidiPlayer.rewind ms p)
   = Z.max 0 (MidiPlayer.ticksElapsed p - MidiPlayer.millisecondsToTicks ms p))
  /\ (MidiFileParser.midiFile (MidiPlayer.parser p) = None ->
      MidiPlayer.ticksElapsed (MidiPlayer.rewind ms p)
      = MidiPlayer.ticksElapsed p).
Proof.
  intros Hte. unfold MidiPlayer.rewind.
  generalize (Z.to_nat MidiPlayer.MAX_EVENTS_PER_REWIND). intros limit.
  set (p1 := if PlayerState_eqb (MidiPlayer.state p) STATE_PLAYING
             then MidiPlayer.pause p else p).
  assert (H1 : MidiPlayer.ticksElapsed p1 = MidiPlayer.ticksElapsed p
               /\ MidiPlayer.microsecondsPerTick p1
                  = MidiPlayer.microsecondsPerTick p
               /\ MidiPlayer.parser p1 = MidiPlayer.parser p
               /\ (PlayerState_eqb (MidiPlayer.state p) STATE_PLAYING = true ->
                   MidiPlayer.state p1 = STATE_PAUSED)).
  { subst p1. destruct (PlayerState_eqb _ _) eqn:E.
    - destruct (pause_fields p) as (A & B & C & D).
      repeat split; auto. intros _. apply D.
      destruct (MidiPlayer.state p); try discriminate; reflexivity.
    - repeat split; auto. discriminate. }
  destruct H1 as (T1 & M1 & P1 & S1).
  set (p2 := MidiPlayer.stopAllNotes p1).
  destruct (toOutput_fields (MidiPlayer.allNotesOffFrom 16 1) p1)
    as (T2 & M2 & P2 & S2 & _).
  fold (MidiPlayer.stopAllNotes p1) in T2, M2, P2, S2. fold p2 in T2, M2, P2, S2.
  assert (Hmtt : MidiPlayer.millisecondsToTicks ms p2
                 = MidiPlayer.millisecondsToTicks ms p).
  { unfold MidiPlayer.millisecondsToTicks. rewrite M2, M1. reflexivity. }
  rewrite Hmtt, T2, T1, P2, P1.
  pose proof (millisecondsToTicks_nonneg ms p) as Hrt.
  set (rt := MidiPlayer.millisecondsToTicks ms p) in *.
  set (te := MidiPlayer.ticksElapsed p) in *.
  set (target := if rt <? te then u32 (te - rt) else 0).
  assert (Htarget : target = Z.max 0 (te - rt)).
  { subst target. destruct (Z.ltb_spec rt te).
    - rewrite u32_small by lia. lia.
    - lia. }
  split.
  - intros Hfile. pose proof (reset_with_file _ Hfile) as Hok.
    destruct (MidiFileParser.reset (MidiPlayer.parser p)) as [ok ps].
    cbn [fst] in Hok. subst ok. cbn [negb].
    set (p3 := MidiPlayer.readNext _).
    assert (T3 : MidiPlayer.ticksElapsed p3 = 0 /\ MidiPlayer.state p3 = MidiPlayer.state p1).
    { subst p3.
      match goal with |- context [MidiPlayer.readNext ?q] =>
        destruct (readNext_fields q) as (R1 & R2 & _) end.
      rewrite R1, R2.
      cbn [MidiPlayer.state MidiPlayer.ticksElapsed MidiPlayer.set_ticksElapsed
           MidiPlayer.set_parser].
      split; [reflexivity|exact S2]. }
    destruct T3 as (T3 & S3).
    set (p4 := if 0 <? target then _ else p3).
    assert (T4 : MidiPlayer.ticksElapsed p4 = target
                 /\ MidiPlayer.state p4 = MidiPlayer.state p1).
    { subst p4. destruct (Z.ltb_spec 0 target).
      - cbn [MidiPlayer.ticksElapsed MidiPlayer.set_ticksElapsed
             MidiPlayer.state].
        rewrite (proj1 (skipEvents_fields limit target p3)).
        split; [reflexivity|exact S3].
      - split; [lia|exact S3]. }
    destruct T4 as (T4 & S4).
    unfold MidiPlayer.micros.
    cbn [MidiPlayer.timerReads MidiPlayer.timer].
    set (p5 := MidiPlayer.stopAllNotes _).
    assert (T5 : MidiPlayer.ticksElapsed p5 = target
                 /\ MidiPlayer.state p5 = MidiPlayer.state p1).
    { subst p5. unfold MidiPlayer.stopAllNotes, MidiPlayer.toOutput.
      cbn. split; assumption. }
    destruct T5 as (T5 & S5).
    destruct (PlayerState_eqb (MidiPlayer.state p) STATE_PLAYING) eqn:E.
    + rewrite play_keeps_position; [rewrite T5; exact Htarget|].
      rewrite S5, (S1 eq_refl). discriminate.
    + rewrite T5. exact Htarget.
  - intros Hnone. unfold MidiFileParser.reset. rewrite Hnone. cbn [negb].
    cbn [MidiPlayer.ticksElapsed MidiPlayer.set_parser]. rewrite T2. exact T1.
Qed.


Lemma readNext_length (p : MidiPlayer.t) :
  MidiFileParser.getFileLengthTicks (MidiPlayer.parser (MidiPlayer.readNext p))
  = MidiFileParser.getFileLengthTicks (MidiPlayer.parser p).
Proof. apply (keeps_length _ _ (proj2 (proj2 (readNext_timing p)))). Qed.

(** The position [seek] leaves, counted from the start of the file. *)
Lemma seek_position (ms : Z) (p : MidiPlayer.t) :
  MidiFileParser.midiFile (MidiPlayer.parser p) <> None ->
  MidiPlayer.ticksElapsed (MidiPlayer.seek ms p)
  = Z.min (MidiPlayer.millisecondsToTicks ms p)
      (MidiFileParser.getFileLengthTicks (MidiPlayer.parser p)).
Proof.
  intros Hfile. unfold MidiPlayer.seek.
  set (p2 := MidiPlayer.stopAllNotes p).
  destruct (toOutput_fields (MidiPlayer.allNotesOffFrom 16 1) p)
    as (T2 & M2 & P2 & S2 & _).
  fold (MidiPlayer.stopAllNotes p) in T2, M2, P2, S2. fold p2 in T2, M2, P2, S2.
  rewrite P2.
  pose proof (reset_with_file _ Hfile) as Hok.
  pose proof (reset_keeps (MidiPlayer.parser p)) as K.
  destruct (MidiFileParser.reset (MidiPlayer.parser p)) as [ok ps].
  cbn [fst snd] in Hok, K. subst ok. cbn [negb].
  rewrite fastForward_position.
  match goal with |- context [MidiPlayer.readNext ?q] =>
    destruct (readNext_fields q) as (_ & R2 & _);
    destruct (readNext_timing q) as (R3 & _ & R4);
    set (p3 := MidiPlayer.readNext q) in * end.
  assert (Hm : MidiPlayer.millisecondsToTicks ms p3
               = MidiPlayer.millisecondsToTicks ms p).
  { unfold MidiPlayer.millisecondsToTicks. rewrite R3.
    cbn [MidiPlayer.microsecondsPerTick MidiPlayer.set_ticksElapsed
         MidiPlayer.set_parser].
    rewrite M2. reflexivity. }
  rewrite Hm, R2.
  cbn [MidiPlayer.ticksElapsed MidiPlayer.set_ticksElapsed].
  unfold MidiFileParser.getFileLengthTicks.
  rewrite (keeps_length _ _ R4).
  cbn [MidiPlayer.parser MidiPlayer.set_ticksElapsed MidiPlayer.set_parser].
  rewrite (keeps_length _ _ K).
  rewrite Z.add_0_l.
  assert (Hr : 0 <= MidiPlayer.millisecondsToTicks ms p < 4294967296).
  { unfold MidiPlayer.millisecondsToTicks.
    destruct (_ =? 0); [lia|apply u32_range]. }
  rewrite u32_small by exact Hr. reflexivity.
Qed.

(** X1.  With a file attached, [rewind(ms)] leaves the position at the
    position before less [millisecondsToTicks(ms)], or at 0 when that would
    be before the start of the file. *)
Theorem rewind_goes_back_or_to_start (ms : Z) (p : MidiPlayer.t) :
  0 <= MidiPlayer.ticksElapsed p < 4294967296 ->
  MidiFileParser.midiFile (MidiPlayer.parser p) <> None ->
  MidiPlayer.ticksElapsed (MidiPlayer.rewind ms p)
  = Z.max 0 (MidiPlayer.ticksElapsed p - MidiPlayer.millisecondsToTicks ms p).
Proof. intros Ht Hf. exact (proj1 (rewind_position ms p Ht) Hf). Qed.

Lemma rewind_goes_back_or_to_start_witness :
  0 <= MidiPlayer.ticksElapsed sample_stopped_midway < 4294967296
  /\ MidiFileParser.midiFile (MidiPlayer.parser sample_stopped_midway) <> None
  /\ MidiPlayer.ticksElapsed (MidiPlayer.rewind 100 sample_stopped_midway)
     = Z.max 0 (MidiPlayer.ticksElapsed sample_stopped_midway
                - MidiPlayer.millisecondsToTicks 100 sample_stopped_midway).
Proof.
  assert (H1 : 0 <= MidiPlayer.ticksElapsed sample_stopped_midway < 4294967296)
    by by_evaluation.
  assert (H2 : MidiFileParser.midiFile (MidiPlayer.parser sample_stopped_midway)
               <> None) by (vm_compute; discriminate).
  split; [exact H1|]. split; [exact H2|].
  exact (rewind_goes_back_or_to_start 100 sample_stopped_midway H1 H2).
Defined.

(** X2.  With a file attached, [seek(ms)] leaves the position at
    [millisecondsToTicks(ms)] counted from the start of the file, or at the
    file length when that is less. *)
Theorem seek_lands_on_target (ms : Z) (p : MidiPlayer.t) :
  MidiFileParser.midiFile (MidiPlayer.parser p) <> None ->
  MidiPlayer.ticksElapsed (MidiPlayer.seek ms p)
  = Z.min (MidiPlayer.millisecondsToTicks ms p)
      (MidiFileParser.getFileLengthTicks (MidiPlayer.parser p)).
Proof. exact (seek_position ms p). Qed.

Lemma seek_lands_on_target_witness :
  MidiFileParser.midiFile (MidiPlayer.parser sample_stopped_midway) <> None
  /\ MidiPlayer.ticksElapsed (MidiPlayer.seek 200 sample_stopped_midway)
     = Z.min (MidiPlayer.millisecondsToTicks 200 sample_stopped_midway)
         (MidiFileParser.getFileLengthTicks
            (MidiPlayer.parser sample_stopped_midway)).
Proof.
  assert (H : MidiFileParser.midiFile (MidiPlayer.parser sample_stopped_midway)
              <> None) by (vm_compute; discriminate).
  split; [exact H|]. exact (seek_lands_on_target 200 sample_stopped_midway H).
Defined.

(** ** Beats per minute, milliseconds and ticks *)

(** X3.  For a stored tempo from 100000 up to 4294967 microseconds per
    quarter note (the greatest whose product with 1000 fits 32 bits) and a
    tempo percentage in 500..2000, [getCurrentBPM] returns
    60000000 / (tempo * 1000 / tempoPercent), a value between 6 and 1200. *)
Theorem getCurrentBPM_exact (p : MidiPlayer.t) :
  100000 <= tempo (MidiFileParser.fileInfo (MidiPlayer.parser p)) <= 4294967 ->
  500 <= MidiPlayer.tempoPercent p <= 2000 ->
  MidiPlayer.getCurrentBPM p
  = 60000000
    / (tempo (MidiFileParser.fileInfo (MidiPlayer.parser p)) * 1000
       / MidiPlayer.tempoPercent p)
  /\ 6 <= MidiPlayer.getCurrentBPM p <= 1200.
Proof.
  intros Ht Hp. unfold MidiPlayer.getCurrentBPM, MidiFileParser.getFileInfo.
  set (tm := tempo (MidiFileParser.fileInfo (MidiPlayer.parser p))) in *.
  set (pc := MidiPlayer.tempoPercent p) in *.
  rewrite u32_small by lia.
  assert (Hq : 50000 <= tm * 1000 / pc <= 8589934).
  { split.
    - apply Z.div_le_lower_bound; lia.
    - apply Z.div_le_upper_bound; lia. }
  destruct (Z.eqb_spec (tm * 1000 / pc) 0) as [E|_]; [lia|].
  assert (Hb : 6 <= 60000000 / (tm * 1000 / pc) <= 1200).
  { split.
    - apply Z.div_le_lower_bound; lia.
    - apply Z.div_le_upper_bound; lia. }
  rewrite u16_small by lia. split; [reflexivity|exact Hb].
Qed.

Lemma getCurrentBPM_exact_witness :
  100000 <= tempo (MidiFileParser.fileInfo (MidiPlayer.parser sample_ready))
  <= 4294967
  /\ 500 <= MidiPlayer.tempoPercent sample_ready <= 2000
  /\ MidiPlayer.getCurrentBPM sample_ready
     = 60000000
       / (tempo (MidiFileParser.fileInfo (MidiPlayer.parser sample_ready))
          * 1000 / MidiPlayer.tempoPercent sample_ready)
  /\ 6 <= MidiPlayer.getCurrentBPM sample_ready <= 1200.
Proof.
  assert (H1 : 100000
               <= tempo (MidiFileParser.fileInfo (MidiPlayer.parser sample_ready))
               <= 4294967) by by_evaluation.
  assert (H2 : 500 <= MidiPlayer.tempoPercent sample_ready <= 2000)
    by by_evaluation.
  split; [exact H1|]. split; [exact H2|].
  exact (getCurrentBPM_exact sample_ready H1 H2).
Defined.

(** With a scaled tempo of 0 the answer is the default of 120. *)
Lemma getCurrentBPM_default (p : MidiPlayer.t) :
  tempo (MidiFileParser.fileInfo (MidiPlayer.parser p)) = 0 ->
  MidiPlayer.getCurrentBPM p = 120.
Proof.
  intros H. unfold MidiPlayer.getCurrentBPM, MidiFileParser.getFileInfo.
  rewrite H. reflexivity.
Qed.

(** ** Milliseconds and ticks *)

Lemma millisecondsToTicks_value (ms : Z) (p : MidiPlayer.t) :
  0 < MidiPlayer.microsecondsPerTick p ->
  0 <= ms < 4294967296 ->
  ms * 1000 / MidiPlayer.microsecondsPerTick p < 4294967296 ->
  MidiPlayer.millisecondsToTicks ms p
  = ms * 1000 / MidiPlayer.microsecondsPerTick p.
Proof.
  intros Hu Hms Hfit. unfold MidiPlayer.millisecondsToTicks.
  destruct (Z.eqb_spec (MidiPlayer.microsecondsPerTick p) 0); [lia|].
  rewrite u64_small by lia. apply u32_small. split; [|exact Hfit].
  apply Z.div_pos; lia.
Qed.

Lemma ticksToMilliseconds_value (ticks : Z) (p : MidiPlayer.t) :
  0 < MidiPlayer.microsecondsPerTick p < 4294967296 ->
  0 <= ticks < 4294967296 ->
  ticks * MidiPlayer.microsecondsPerTick p / 1000 < 4294967296 ->
  MidiPlayer.ticksToMilliseconds ticks p
  = ticks * MidiPlayer.microsecondsPerTick p / 1000.
Proof.
  intros Hu Ht Hfit. unfold MidiPlayer.ticksToMilliseconds.
  destruct (Z.eqb_spec (MidiPlayer.microsecondsPerTick p) 0); [lia|].
  rewrite u64_small by nia. apply u32_small. split; [|exact Hfit].
  apply Z.div_pos; nia.
Qed.

(** X4.  Milliseconds turned into ticks and back lose less than one tick
    and one millisecond, and never gain: with a positive
    [microsecondsPerTick] and a tick count that fits 32 bits,
    [ticksToMilliseconds(millisecondsToTicks(ms))] is at most [ms], and
    [ms * 1000] is less than that value plus one, times 1000, plus
    [microsecondsPerTick]. *)
Theorem time_round_trip (ms : Z) (p : MidiPlayer.t) :
  0 < MidiPlayer.microsecondsPerTick p < 4294967296 ->
  0 <= ms < 4294967296 ->
  ms * 1000 / MidiPlayer.microsecondsPerTick p < 4294967296 ->
  MidiPlayer.ticksToMilliseconds (MidiPlayer.millisecondsToTicks ms p) p <= ms
  /\ ms * 1000
     < (MidiPlayer.ticksToMilliseconds (MidiPlayer.millisecondsToTicks ms p) p
        + 1) * 1000
       + MidiPlayer.microsecondsPerTick p.
Proof.
  intros Hu Hms Hfit.
  rewrite (millisecondsToTicks_value ms p) by lia.
  set (u := MidiPlayer.microsecondsPerTick p) in *.
  set (t := ms * 1000 / u) in *.
  assert (Ht0 : 0 <= t) by (apply Z.div_pos; lia).
  assert (Hlo : u * t <= ms * 1000) by (apply Z.mul_div_le; lia).
  assert (Hhi : ms * 1000 < u * (t + 1)).
  { unfold t. replace (ms * 1000 / u + 1) with (Z.succ (ms * 1000 / u)) by lia.
    apply Z.mul_succ_div_gt. lia. }
  assert (Hq : t * u / 1000 <= ms).
  { apply Z.div_le_upper_bound; lia. }
  rewrite (ticksToMilliseconds_value t p); [|lia|lia|fold u; lia].
  fold u. split; [exact Hq|].
  assert (Hm : t * u < 1000 * (t * u / 1000 + 1)).
  { replace (t * u / 1000 + 1) with (Z.succ (t * u / 1000)) by lia.
    apply Z.mul_succ_div_gt. lia. }
  lia.
Qed.

Lemma time_round_trip_witness :
  0 < MidiPlayer.microsecondsPerTick sample_ready < 4294967296
  /\ 0 <= 100 < 4294967296
  /\ 100 * 1000 / MidiPlayer.microsecondsPerTick sample_ready < 4294967296
  /\ MidiPlayer.ticksToMilliseconds
       (MidiPlayer.millisecondsToTicks 100 sample_ready) sample_ready <= 100
  /\ 100 * 1000
     < (MidiPlayer.ticksToMilliseconds
          (MidiPlayer.millisecondsToTicks 100 sample_ready) sample_ready + 1)
       * 1000
       + MidiPlayer.microsecondsPerTick sample_ready.
Proof.
  assert (H1 : 0 < MidiPlayer.microsecondsPerTick sample_ready < 4294967296)
    by by_evaluation.
  assert (H2 : 0 <= 100 < 4294967296) by lia.
  assert (H3 : 100 * 1000 / MidiPlayer.microsecondsPerTick sample_ready
               < 4294967296) by by_evaluation.
  split; [exact H1|]. split; [exact H2|]. split; [exact H3|].
  exact (time_round_trip 100 sample_ready H1 H2 H3).
Defined.

(** ** Mute bits and solo *)

Lemma u16_ext (a b : Z) :
  (forall n, 0 <= n < 16 -> Z.testbit a n = Z.testbit b n) -> u16 a = u16 b.
Proof.
  intros H. apply Z.bits_inj'. intros n Hn.
  destruct (Z.lt_ge_cases n 16) as [Hlt|Hge].
  - rewrite !testbit_u16 by lia. apply H. lia.
  - unfold u16. change 65536 with (2 ^ 16).
    rewrite !Z.mod_pow2_bits_high by lia. reflexivity.
Qed.

Lemma muteChannel_bits (c d : Z) (p : MidiPlayer.t) :
  0 <= c < 16 -> 0 <= d < 16 ->
  MidiPlayer.isChannelMuted d (MidiPlayer.muteChannel c p)
  = (d =? c) || MidiPlayer.isChannelMuted d p.
Proof.
  intros Hc Hd. rewrite !isChannelMuted_bit by exact Hd.
  unfold MidiPlayer.muteChannel.
  destruct (Z.leb_spec 16 c); [lia|].
  unfold MidiPlayer.toOutput.
  cbn [MidiPlayer.channelMutes MidiPlayer.set_midiOut
       MidiPlayer.set_channelMutes].
  rewrite testbit_u16, Z.lor_spec, testbit_shiftl_1 by lia.
  apply orb_comm.
Qed.

Lemma unmuteChannel_bits (c d : Z) (p : MidiPlayer.t) :
  0 <= c < 16 -> 0 <= d < 16 ->
  MidiPlayer.isChannelMuted d (MidiPlayer.unmuteChannel c p)
  = negb (d =? c) && MidiPlayer.isChannelMuted d p.
Proof.
  intros Hc Hd. rewrite !isChannelMuted_bit by exact Hd.
  unfold MidiPlayer.unmuteChannel.
  destruct (Z.leb_spec 16 c); [lia|].
  cbn [MidiPlayer.channelMutes MidiPlayer.set_channelMutes].
  rewrite testbit_u16, Z.land_spec, Z.lnot_spec, testbit_shiftl_1 by lia.
  apply andb_comm.
Qed.

(** X6.  Toggling the mute of a channel twice restores the mute mask (a
    16-bit value). *)
Theorem toggleMuteChannel_twice (c : Z) (p : MidiPlayer.t) :
  0 <= c < 16 ->
  0 <= MidiPlayer.channelMutes p < 65536 ->
  MidiPlayer.channelMutes
    (MidiPlayer.toggleMuteChannel c (MidiPlayer.toggleMuteChannel c p))
  = MidiPlayer.channelMutes p.
Proof.
  intros Hc Hm.
  transitivity (u16 (MidiPlayer.channelMutes p)); [|apply u16_small; exact Hm].
  unfold MidiPlayer.toggleMuteChannel.
  destruct (MidiPlayer.isChannelMuted c p) eqn:E.
  - rewrite unmuteChannel_bits, E by lia. rewrite Z.eqb_refl. cbn [negb andb].
    rewrite isChannelMuted_bit in E by lia.
    unfold MidiPlayer.muteChannel, MidiPlayer.unmuteChannel.
    destruct (Z.leb_spec 16 c); [lia|]. unfold MidiPlayer.toOutput.
    cbn [MidiPlayer.channelMutes MidiPlayer.set_midiOut
         MidiPlayer.set_channelMutes].
    apply u16_ext. intros n Hn.
    rewrite Z.lor_spec, testbit_u16, Z.land_spec, Z.lnot_spec,
      testbit_shiftl_1 by lia.
    destruct (Z.eqb_spec n c) as [->|_].
    + rewrite E. reflexivity.
    + cbn [negb]. rewrite andb_true_r, orb_false_r. reflexivity.
  - rewrite muteChannel_bits by lia. rewrite Z.eqb_refl. cbn [orb].
    rewrite isChannelMuted_bit in E by lia.
    unfold MidiPlayer.muteChannel, MidiPlayer.unmuteChannel.
    destruct (Z.leb_spec 16 c); [lia|]. unfold MidiPlayer.toOutput.
    cbn [MidiPlayer.channelMutes MidiPlayer.set_midiOut
         MidiPlayer.set_channelMutes].
    apply u16_ext. intros n Hn.
    rewrite Z.land_spec, testbit_u16, Z.lor_spec, Z.lnot_spec,
      testbit_shiftl_1 by lia.
    destruct (Z.eqb_spec n c) as [->|_].
    + rewrite E. reflexivity.
    + cbn [negb]. rewrite andb_true_r, orb_false_r. reflexivity.
Qed.

Lemma toggleMuteChannel_twice_witness :
  0 <= 3 < 16
  /\ 0 <= MidiPlayer.channelMutes sample_ready < 65536
  /\ MidiPlayer.channelMutes
       (MidiPlayer.toggleMuteChannel 3
          (MidiPlayer.toggleMuteChannel 3 sample_ready))
     = MidiPlayer.channelMutes sample_ready.
Proof.
  assert (H1 : 0 <= 3 < 16) by lia.
  assert (H2 : 0 <= MidiPlayer.channelMutes sample_ready < 65536)
    by by_evaluation.
  split; [exact H1|]. split; [exact H2|].
  exact (toggleMuteChannel_twice 3 sample_ready H1 H2).
Defined.

(** X5.  [muteChannel c] mutes channel [c] and [unmuteChannel c] unmutes
    it; neither changes whether any other channel is muted. *)
Theorem mute_unmute_touch_one_channel (c d : Z) (p : MidiPlayer.t) :
  0 <= c < 16 -> 0 <= d < 16 ->
  MidiPlayer.isChannelMuted d (MidiPlayer.muteChannel c p)
  = (d =? c) || MidiPlayer.isChannelMuted d p
  /\ MidiPlayer.isChannelMuted d (MidiPlayer.unmuteChannel c p)
     = negb (d =? c) && MidiPlayer.isChannelMuted d p.
Proof.
  intros Hc Hd. split;
    [apply muteChannel_bits|apply unmuteChannel_bits]; assumption.
Qed.

Lemma mute_unmute_touch_one_channel_witness :
  0 <= 3 < 16 /\ 0 <= 5 < 16
  /\ MidiPlayer.isChannelMuted 5 (MidiPlayer.muteChannel 3 sample_ready)
     = (5 =? 3) || MidiPlayer.isChannelMuted 5 sample_ready
  /\ MidiPlayer.isChannelMuted 5 (MidiPlayer.unmuteChannel 3 sample_ready)
     = negb (5 =? 3) && MidiPlayer.isChannelMuted 5 sample_ready.
Proof.
  assert (H1 : 0 <= 3 < 16) by lia.
  assert (H2 : 0 <= 5 < 16) by lia.
  split; [exact H1|]. split; [exact H2|].
  exact (mute_unmute_touch_one_channel 3 5 sample_ready H1 H2).
Defined.

Lemma applySoloLogic_loop_bits (n : nat) (ch solos d : Z) (p : MidiPlayer.t) :
  0 <= ch -> ch + Z.of_nat n <= 16 -> 0 <= d < 16 ->
  MidiPlayer.isChannelMuted d (applySoloLogic_loop n ch solos p)
  = MidiPlayer.isChannelMuted d p
    || ((ch <=? d) && (d <? ch + Z.of_nat n) && negb (Z.testbit solos d)).
Proof.
  revert ch p. induction n as [|n IH]; intros ch p Hch Hn Hd.
  - cbn [applySoloLogic_loop].
    destruct (Z.leb_spec ch d), (Z.ltb_spec d (ch + Z.of_nat 0)); try lia;
      cbn [andb]; rewrite orb_false_r; reflexivity.
  - cbn [applySoloLogic_loop]. rewrite IH by lia.
    rewrite land_bit_test by lia. rewrite negb_involutive.
    destruct (Z.testbit solos ch) eqn:Es.
    + destruct (Z.eqb_spec d ch) as [->|Hne].
      * rewrite Es. cbn [negb]. rewrite !andb_false_r. reflexivity.
      * f_equal. f_equal.
        destruct (Z.leb_spec (ch + 1) d), (Z.leb_spec ch d),
          (Z.ltb_spec d (ch + 1 + Z.of_nat n)),
          (Z.ltb_spec d (ch + Z.of_nat (S n))); try lia; reflexivity.
    + rewrite muteChannel_bits by lia.
      destruct (Z.eqb_spec d ch) as [->|Hne].
      * rewrite Es. cbn [orb negb].
        destruct (Z.leb_spec ch ch), (Z.ltb_spec ch (ch + Z.of_nat (S n)));
          first [lia | cbn [andb]; rewrite orb_true_r; reflexivity].
      * cbn [orb]. f_equal. f_equal.
        destruct (Z.leb_spec (ch + 1) d), (Z.leb_spec ch d),
          (Z.ltb_spec d (ch + 1 + Z.of_nat n)),
          (Z.ltb_spec d (ch + Z.of_nat (S n))); try lia; reflexivity.
Qed.

(** X7.  After [applySoloLogic], a channel is muted when it was muted
    before or when some channel is soloed and this one is not; no mute is
    ever cleared, also not when the last solo is taken away. *)
Theorem applySoloLogic_mutes (solos d : Z) (p : MidiPlayer.t) :
  0 <= d < 16 ->
  MidiPlayer.isChannelMuted d (applySoloLogic solos p)
  = MidiPlayer.isChannelMuted d p
    || (negb (solos =? 0) && negb (Z.testbit solos d)).
Proof.
  intros Hd. unfold applySoloLogic.
  destruct (solos =? 0); cbn [negb andb].
  - rewrite orb_false_r. reflexivity.
  - rewrite applySoloLogic_loop_bits by lia.
    destruct (Z.leb_spec 0 d), (Z.ltb_spec d (0 + Z.of_nat 16)); try lia.
    reflexivity.
Qed.

Lemma applySoloLogic_mutes_witness :
  0 <= 4 < 16
  /\ MidiPlayer.isChannelMuted 4 (applySoloLogic 5 sample_ready)
     = MidiPlayer.isChannelMuted 4 sample_ready
       || (negb (5 =? 0) && negb (Z.testbit 5 4)).
Proof.
  assert (H : 0 <= 4 < 16) by lia.
  split; [exact H|]. exact (applySoloLogic_mutes 5 4 sample_ready H).
Defined.

(** ** Decoding of track events

    [readTrackEvent] on the byte-stream view of a track: what each kind
    of event consumes and returns. *)

Section EventStream.
Import MidiFileParser.

(** After a byte was delivered the window is in sync and the cursor is
    not at its start: the byte can be taken back. *)
Lemma cursor_step_inSync (T : TrackState) (fd : list Z) :
  0 <= trackStartPos T ->
  trackStartPos T + trackEndPos T <= Z.of_nat (length fd) ->
  Z.of_nat (length fd) < 4294967296 ->
  windowInSync T fd ->
  bufferPos T < bufferSize T ->
  windowInSync
    (tr_set_cursor (u16 (bufferPos T + 1)) (u32 (filePosition T + 1)) T) fd
  /\ 1 <= u16 (bufferPos T + 1).
Proof.
  intros Hs Hl H32 (W1 & W2 & W3 & W4 & W5 & W6) Hlt.
  rewrite (u16_small (bufferPos T + 1)) by lia.
  rewrite (u32_small (filePosition T + 1)) by lia.
  split; [|lia]. unfold windowInSync, tr_set_cursor.
  cbn [bufferSize bufferPos bufferFilePos trackEndPos filePosition buffer
       trackStartPos].
  split; [exact W1|]. split; [lia|]. split; [exact W3|]. split; [exact W4|].
  split; [lia|exact W6].
Qed.

Lemma readTrackByte_next_inSync (k : Z) (p : t) (fd : list Z) :
  cursorView k p fd ->
  filePosition (getTrack k p) < trackEndPos (getTrack k p) ->
  windowInSync (getTrack k (snd (readTrackByte k p))) fd
  /\ 1 <= bufferPos (getTrack k (snd (readTrackByte k p))).
Proof.
  intros V Hlt. pose proof V as (Hk & Hin & (pos & Hf) & Hs & Hp & Hl & H32 & Hw).
  unfold readTrackByte.
  destruct (Z.leb_spec (numTracks p) k) as [?|_]; [lia|].
  destruct (Z.leb_spec (bufferSize (getTrack k p)) (bufferPos (getTrack k p)))
    as [Hex|Hlive].
  - destruct (fillTrackBuffer_fills k p fd V Hlt)
      as (bs & pos' & E & Hn & Hn' & Hnth).
    rewrite E. cbn [negb snd].
    rewrite getTrack_setTrack
      by (unfold inRange, setTrack; cbn [tracks set_tracks set_midiFile];
          rewrite length_upd_nth; exact Hin).
    rewrite getTrack_set_midiFile.
    rewrite getTrack_setTrack by exact Hin.
    set (tr := getTrack k p) in *.
    set (T := tr_set_window (bs ++ skipn (length bs) (buffer tr)) 0
                (Z.of_nat (length bs)) (filePosition tr) tr).
    assert (WT : windowInSync T fd).
    { unfold windowInSync, T, tr_set_window.
      cbn [bufferSize bufferPos bufferFilePos trackEndPos filePosition buffer
           trackStartPos].
      split; [lia|]. split; [lia|]. split; [lia|]. split; [lia|].
      split; [lia|]. intros j Hj. rewrite app_nth1 by lia.
      rewrite Hnth by lia. f_equal. lia. }
    cbn [bufferPos tr_set_cursor].
    apply cursor_step_inSync; [exact Hs|exact Hl|exact H32|exact WT|cbn; lia].
  - cbn [negb snd]. set (tr := getTrack k p) in *.
    assert (WT : windowInSync tr fd).
    { destruct Hw as [W|(W & W')]; [exact W|lia]. }
    rewrite getTrack_setTrack by exact Hin.
    cbn [bufferPos tr_set_cursor].
    apply cursor_step_inSync; [exact Hs|exact Hl|exact H32|exact WT|exact Hlive].
Qed.

(** Taking back the byte just read: the cursor stands before it again. *)
Lemma unread_coherent (T : TrackState) (fd : list Z) :
  trackCoherent T fd -> windowInSync T fd -> 1 <= bufferPos T ->
  trackCoherent
    (tr_set_cursor (u16 (bufferPos T - 1)) (u32 (filePosition T - 1)) T) fd
  /\ trackRest
       (tr_set_cursor (u16 (bufferPos T - 1)) (u32 (filePosition T - 1)) T) fd
     = byteAt fd (trackStartPos T + filePosition T - 1) :: trackRest T fd.
Proof.
  intros (Hs & Hp & Hl & H32 & _) (W1 & W2 & W3 & W4 & W5 & W6) Hb.
  rewrite (u16_small (bufferPos T - 1)) by lia.
  rewrite (u32_small (filePosition T - 1)) by lia.
  set (T' := tr_set_cursor (bufferPos T - 1) (filePosition T - 1) T).
  assert (C : trackCoherent T' fd).
  { unfold trackCoherent, T', tr_set_cursor.
    cbn [trackStartPos trackEndPos filePosition].
    split; [exact Hs|]. split; [lia|]. split; [exact Hl|].
    split; [exact H32|]. left. unfold windowInSync.
    cbn [bufferSize bufferPos bufferFilePos trackEndPos filePosition buffer
         trackStartPos].
    split; [exact W1|]. split; [lia|]. split; [exact W3|]. split; [exact W4|].
    split; [lia|exact W6]. }
  split; [exact C|].
  rewrite (trackRest_cons T' T fd C);
    [|unfold T'; cbn; lia|reflexivity|reflexivity|unfold T'; cbn; lia].
  unfold T'. cbn [trackStartPos filePosition tr_set_cursor]. f_equal. f_equal.
  lia.
Qed.

(** The status byte is a data byte: it is read and taken back. *)
Lemma readTrackByte_taken_back (k : Z) (p : t) (fd : list Z) (b : Z)
  (rest : list Z) :
  streamAt k p fd (b :: rest) ->
  exists p1,
    readTrackByte k p = (b, p1)
    /\ undisturbed k p p1
    /\ streamAt k
         (setTrack k
            (tr_set_cursor (u16 (bufferPos (getTrack k p1) - 1))
               (u32 (filePosition (getTrack k p1) - 1)) (getTrack k p1)) p1)
         fd (b :: rest).
Proof.
  intros St. pose proof St as [V E]. pose proof V as (_ & _ & _ & C).
  assert (Hlt : filePosition (getTrack k p) < trackEndPos (getTrack k p)).
  { destruct (Z.lt_ge_cases (filePosition (getTrack k p))
                (trackEndPos (getTrack k p))) as [H|H]; [exact H|].
    rewrite trackRest_nil in E by lia. discriminate. }
  destruct (readTrackByte_next_inSync k p fd V Hlt) as (W & Hb).
  destruct (readTrackByte_next k p fd V Hlt) as (p1 & R & V1 & I & M & F).
  rewrite R in W, Hb. cbn [snd] in W, Hb.
  rewrite (trackRest_cons _ (getTrack k p1) fd C Hlt) in E;
    [|apply M|apply M|exact F].
  injection E as Eb Er. rewrite Eb in R.
  exists p1. split; [exact R|]. split; [split; assumption|].
  destruct (unread_coherent (getTrack k p1) fd) as (C' & R');
    [apply V1|exact W|exact Hb|].
  split; [apply cursorView_setTrack; [exact V1|exact C']|].
  rewrite getTrack_setTrack by apply V1.
  rewrite R', Er. f_equal. rewrite <- Eb. f_equal.
  destruct M as (M1 & _). lia.
Qed.

(** Reading [n] bytes returns the next [n] bytes of the track. *)
Lemma readTrackBytes_stream (k : Z) (fd : list Z) (bytes : list Z) :
  forall (rest : list Z) (p : t),
  streamAt k p fd (bytes ++ rest) ->
  exists p',
    readTrackBytes (length bytes) k p = (bytes, p')
    /\ streamAt k p' fd rest /\ undisturbed k p p'.
Proof.
  induction bytes as [|b bytes IH]; intros rest p St.
  - exists p. split; [reflexivity|]. split; [exact St|apply undisturbed_refl].
  - cbn [app] in St.
    destruct (readTrackByte_cons _ _ _ _ _ St) as (p1 & R & S1 & U1).
    destruct (IH rest p1 S1) as (p2 & R2 & S2 & U2).
    exists p2. cbn [length readTrackBytes]. rewrite R, R2.
    split; [reflexivity|]. split; [exact S2|].
    eapply undisturbed_trans; eassumption.
Qed.

(** The delta time of an event: [readTrackEvent] up to the status byte. *)
Lemma readTrackEvent_delta (k : Z) (ev : MidiEvent) (p : t)
    (fd delta rest : list Z) :
  streamAt k p fd (delta ++ rest) ->
  endOfTrack (getTrack k p) = false ->
  isVlq delta ->
  exists p2,
    readTrackEvent k ev p
    = readTrackEvent_status k
        (ev_set_timing (u32 (vlqValue delta))
           (u32 (currentTick (getTrack k p) + u32 (vlqValue delta))) k ev) p2
    /\ streamAt k p2 fd rest
    /\ fileInfo p2 = fileInfo p
    /\ currentTick (getTrack k p2)
       = u32 (currentTick (getTrack k p) + u32 (vlqValue delta))
    /\ runningStatus (getTrack k p2) = runningStatus (getTrack k p)
    /\ endOfTrack (getTrack k p2) = false.
Proof.
  intros St Hend Hd.
  pose proof St as [V E]. pose proof V as (Hk & _ & _ & C).
  unfold readTrackEvent.
  destruct (Z.leb_spec (numTracks p) k) as [?|_]; [lia|].
  rewrite Hend.
  destruct (Z.leb_spec (trackEndPos (getTrack k p)) (filePosition (getTrack k p)))
    as [Hle|_].
  { rewrite trackRest_nil in E by exact Hle.
    destruct Hd as (cs & b & -> & _). destruct cs; discriminate. }
  destruct (readTrackVariableLength_stream k p fd delta _ Hd St)
    as (p1 & R1 & S1 & U1).
  rewrite R1.
  destruct U1 as (I1 & M1 & M2 & M3 & M4 & M5 & M6).
  rewrite M3.
  pose proof (streamAt_currentTick k
                (u32 (currentTick (getTrack k p) + u32 (vlqValue delta)))
                p1 fd _ S1) as S2.
  eexists. split; [reflexivity|]. split; [exact S2|]. split; [exact I1|].
  rewrite getTrack_setTrack by apply S1.
  cbn [currentTick runningStatus endOfTrack tr_set_currentTick].
  split; [reflexivity|]. split; [exact M4|]. rewrite M5. exact Hend.
Qed.

(** An explicit status byte becomes the running status. *)
Lemma status_byte_explicit (k : Z) (p : t) (fd : list Z) (st : Z)
  (rest : list Z) :
  streamAt k p fd (st :: rest) ->
  exists p1,
    readTrackByte k p = (st, p1)
    /\ streamAt k (setTrack k (tr_set_runningStatus st (getTrack k p1)) p1)
         fd rest
    /\ fileInfo p1 = fileInfo p
    /\ currentTick (getTrack k p1) = currentTick (getTrack k p)
    /\ endOfTrack (getTrack k p1) = endOfTrack (getTrack k p)
    /\ inRange k p1.
Proof.
  intros St.
  destruct (readTrackByte_cons _ _ _ _ _ St) as (p1 & R & S1 & U1).
  exists p1. split; [exact R|].
  split; [apply streamAt_runningStatus; exact S1|].
  destruct U1 as (I1 & M1 & M2 & M3 & M4 & M5 & M6).
  split; [exact I1|]. split; [exact M3|]. split; [exact M5|]. apply S1.
Qed.

End EventStream.

Section EventKinds.
Import MidiFileParser.

Lemma status_fields (ty ch : Z) :
  In ty [128; 144; 160; 176; 192; 208; 224] -> 0 <= ch < 16 ->
  Z.land (ty + ch) 240 = ty /\ Z.land (ty + ch) 15 = ch.
Proof.
  intros Hty Hch.
  assert (Hc : ch = 0 \/ ch = 1 \/ ch = 2 \/ ch = 3 \/ ch = 4 \/ ch = 5
               \/ ch = 6 \/ ch = 7 \/ ch = 8 \/ ch = 9 \/ ch = 10 \/ ch = 11
               \/ ch = 12 \/ ch = 13 \/ ch = 14 \/ ch = 15) by lia.
  cbn [In] in Hty.
  repeat (destruct Hty as [<-|Hty]; [|]);
    [..|destruct Hty];
    repeat (destruct Hc as [->|Hc]; [split; reflexivity|]);
    subst ch; split; reflexivity.
Qed.

(** X11. A note off, note on, polyphonic aftertouch, control change or
    pitch bend event: when the unread bytes of track [k] are a delta
    time, a status byte [ty + ch] and two data bytes, [readTrackEvent]
    returns true with the event (delta time, absolute time = the
    track's tick plus the delta in 32 bits, type [ty], channel [ch],
    the two data bytes, no SysEx data, not a meta event, track [k]);
    exactly these bytes are consumed, the status byte becomes the
    running status and the file information is unchanged. *)
Theorem channel_event_decoded (k : Z) (ev : MidiEvent) (p : t)
    (fd delta : list Z) (ty ch d1 d2 : Z) (rest : list Z) :
  streamAt k p fd (delta ++ (ty + ch) :: d1 :: d2 :: rest) ->
  endOfTrack (getTrack k p) = false ->
  isVlq delta ->
  In ty [MIDI_NOTE_OFF; MIDI_NOTE_ON; MIDI_POLY_AFTERTOUCH;
         MIDI_CONTROL_CHANGE; MIDI_PITCH_BEND] ->
  0 <= ch < 16 ->
  exists p',
    readTrackEvent k ev p
    = (true,
       mkEvent (u32 (vlqValue delta))
         (u32 (currentTick (getTrack k p) + u32 (vlqValue delta)))
         ty ch d1 d2 None 0 false k,
       p')
    /\ streamAt k p' fd rest
    /\ currentTick (getTrack k p')
       = u32 (currentTick (getTrack k p) + u32 (vlqValue delta))
    /\ runningStatus (getTrack k p') = ty + ch
    /\ fileInfo p' = fileInfo p.
Proof.
  intros St Hend Hd Hty Hch.
  assert (Hty7 : In ty [128; 144; 160; 176; 192; 208; 224]).
  { cbn [In] in *. unfold MIDI_NOTE_OFF, MIDI_NOTE_ON, MIDI_POLY_AFTERTOUCH,
      MIDI_CONTROL_CHANGE, MIDI_PITCH_BEND in Hty. intuition. }
  destruct (status_fields ty ch Hty7 Hch) as (L1 & L2).
  assert (Hr : 128 <= ty + ch < 240).
  { cbn [In] in Hty7. intuition lia. }
  assert (Hkind : (ty =? MIDI_NOTE_OFF) || (ty =? MIDI_NOTE_ON)
                  || (ty =? MIDI_POLY_AFTERTOUCH) || (ty =? MIDI_CONTROL_CHANGE)
                  || (ty =? MIDI_PITCH_BEND) = true).
  { cbn [In] in Hty.
    destruct Hty as [<-|[<-|[<-|[<-|[<-|[]]]]]]; reflexivity. }
  destruct (readTrackEvent_delta k ev p fd delta _ St Hend Hd)
    as (p2 & R2 & S2 & I2 & T2 & RS2 & E2).
  rewrite R2. unfold readTrackEvent_status.
  destruct (status_byte_explicit k p2 fd _ _ S2)
    as (p3 & R3 & S4 & I3 & T3 & E3 & In3).
  rewrite R3.
  destruct (Z.ltb_spec (ty + ch) 128) as [?|_]; [lia|].
  set (p4 := setTrack k (tr_set_runningStatus (ty + ch) (getTrack k p3)) p3)
    in *.
  change MIDI_SYSEX with 240. change MIDI_META_EVENT with 255.
  destruct (Z.eqb_spec (ty + ch) 240) as [?|_]; [lia|].
  destruct (Z.eqb_spec (ty + ch) 247) as [?|_]; [lia|].
  destruct (Z.eqb_spec (ty + ch) 255) as [?|_]; [lia|].
  cbn [orb type ev_set_status]. rewrite L1, L2, Hkind.
  destruct (readTrackByte_cons _ _ _ _ _ S4) as (p5 & R5 & S5 & U5).
  destruct (readTrackByte_cons _ _ _ _ _ S5) as (p6 & R6 & S6 & U6).
  rewrite R5, R6.
  exists p6. split; [reflexivity|]. split; [exact S6|].
  destruct U5 as (I5 & A1 & A2 & A3 & A4 & A5 & A6).
  destruct U6 as (I6 & B1 & B2 & B3 & B4 & B5 & B6).
  assert (G4 : getTrack k p4 = tr_set_runningStatus (ty + ch) (getTrack k p3))
    by (apply getTrack_setTrack; exact In3).
  split; [rewrite B3, A3, G4; cbn [currentTick tr_set_runningStatus];
          rewrite T3; exact T2|].
  split; [rewrite B4, A4, G4; reflexivity|].
  rewrite I6, I5. change (fileInfo p4) with (fileInfo p3).
  rewrite I3. exact I2.
Qed.

(** X12. A program change or channel aftertouch event takes one data
    byte: [readTrackEvent] returns it as data1 with data2 = 0 and the
    read position is behind that single data byte. *)
Theorem single_byte_event_decoded (k : Z) (ev : MidiEvent) (p : t)
    (fd delta : list Z) (ty ch d1 : Z) (rest : list Z) :
  streamAt k p fd (delta ++ (ty + ch) :: d1 :: rest) ->
  endOfTrack (getTrack k p) = false ->
  isVlq delta ->
  In ty [MIDI_PROGRAM_CHANGE; MIDI_CHANNEL_AFTERTOUCH] ->
  0 <= ch < 16 ->
  exists p',
    readTrackEvent k ev p
    = (true,
       mkEvent (u32 (vlqValue delta))
         (u32 (currentTick (getTrack k p) + u32 (vlqValue delta)))
         ty ch d1 0 None 0 false k,
       p')
    /\ streamAt k p' fd rest
    /\ currentTick (getTrack k p')
       = u32 (currentTick (getTrack k p) + u32 (vlqValue delta))
    /\ runningStatus (getTrack k p') = ty + ch
    /\ fileInfo p' = fileInfo p.
Proof.
  intros St Hend Hd Hty Hch.
  assert (Hty7 : In ty [128; 144; 160; 176; 192; 208; 224]).
  { cbn [In] in *. unfold MIDI_PROGRAM_CHANGE, MIDI_CHANNEL_AFTERTOUCH in Hty.
    intuition. }
  destruct (status_fields ty ch Hty7 Hch) as (L1 & L2).
  assert (Hr : 128 <= ty + ch < 240).
  { cbn [In] in Hty7. intuition lia. }
  assert (Hkind : (ty =? MIDI_NOTE_OFF) || (ty =? MIDI_NOTE_ON)
                  || (ty =? MIDI_POLY_AFTERTOUCH) || (ty =? MIDI_CONTROL_CHANGE)
                  || (ty =? MIDI_PITCH_BEND) = false
                  /\ (ty =? MIDI_PROGRAM_CHANGE)
                     || (ty =? MIDI_CHANNEL_AFTERTOUCH) = true).
  { cbn [In] in Hty.
    destruct Hty as [<-|[<-|[]]]; split; reflexivity. }
  destruct Hkind as (K1 & K2).
  destruct (readTrackEvent_delta k ev p fd delta _ St Hend Hd)
    as (p2 & R2 & S2 & I2 & T2 & RS2 & E2).
  rewrite R2. unfold readTrackEvent_status.
  destruct (status_byte_explicit k p2 fd _ _ S2)
    as (p3 & R3 & S4 & I3 & T3 & E3 & In3).
  rewrite R3.
  destruct (Z.ltb_spec (ty + ch) 128) as [?|_]; [lia|].
  set (p4 := setTrack k (tr_set_runningStatus (ty + ch) (getTrack k p3)) p3)
    in *.
  change MIDI_SYSEX with 240. change MIDI_META_EVENT with 255.
  destruct (Z.eqb_spec (ty + ch) 240) as [?|_]; [lia|].
  destruct (Z.eqb_spec (ty + ch) 247) as [?|_]; [lia|].
  destruct (Z.eqb_spec (ty + ch) 255) as [?|_]; [lia|].
  cbn [orb type ev_set_status]. rewrite L1, L2, K1, K2.
  destruct (readTrackByte_cons _ _ _ _ _ S4) as (p5 & R5 & S5 & U5).
  rewrite R5.
  exists p5. split; [reflexivity|]. split; [exact S5|].
  destruct U5 as (I5 & A1 & A2 & A3 & A4 & A5 & A6).
  assert (G4 : getTrack k p4 = tr_set_runningStatus (ty + ch) (getTrack k p3))
    by (apply getTrack_setTrack; exact In3).
  split; [rewrite A3, G4; cbn [currentTick tr_set_runningStatus];
          rewrite T3; exact T2|].
  split; [rewrite A4, G4; reflexivity|].
  rewrite I5. change (fileInfo p4) with (fileInfo p3).
  rewrite I3. exact I2.
Qed.

(** X13. Running status: when the byte behind the delta time is below
    0x80 and the track's running status is a two-data-byte channel
    status [ty + ch], the event is decoded with that status, the byte
    itself is data1 (it is taken back and read again) and the next one
    data2; the running status is kept. *)
Theorem running_status_event_decoded (k : Z) (ev : MidiEvent) (p : t)
    (fd delta : list Z) (ty ch d1 d2 : Z) (rest : list Z) :
  streamAt k p fd (delta ++ d1 :: d2 :: rest) ->
  endOfTrack (getTrack k p) = false ->
  isVlq delta ->
  0 <= d1 < 128 ->
  runningStatus (getTrack k p) = ty + ch ->
  In ty [MIDI_NOTE_OFF; MIDI_NOTE_ON; MIDI_POLY_AFTERTOUCH;
         MIDI_CONTROL_CHANGE; MIDI_PITCH_BEND] ->
  0 <= ch < 16 ->
  exists p',
    readTrackEvent k ev p
    = (true,
       mkEvent (u32 (vlqValue delta))
         (u32 (currentTick (getTrack k p) + u32 (vlqValue delta)))
         ty ch d1 d2 None 0 false k,
       p')
    /\ streamAt k p' fd rest
    /\ currentTick (getTrack k p')
       = u32 (currentTick (getTrack k p) + u32 (vlqValue delta))
    /\ runningStatus (getTrack k p') = ty + ch
    /\ fileInfo p' = fileInfo p.
Proof.
  intros St Hend Hd Hd1 Hrun Hty Hch.
  assert (Hty7 : In ty [128; 144; 160; 176; 192; 208; 224]).
  { cbn [In] in *. unfold MIDI_NOTE_OFF, MIDI_NOTE_ON, MIDI_POLY_AFTERTOUCH,
      MIDI_CONTROL_CHANGE, MIDI_PITCH_BEND in Hty. intuition. }
  destruct (status_fields ty ch Hty7 Hch) as (L1 & L2).
  assert (Hr : 128 <= ty + ch < 240).
  { cbn [In] in Hty7. intuition lia. }
  assert (Hkind : (ty =? MIDI_NOTE_OFF) || (ty =? MIDI_NOTE_ON)
                  || (ty =? MIDI_POLY_AFTERTOUCH) || (ty =? MIDI_CONTROL_CHANGE)
                  || (ty =? MIDI_PITCH_BEND) = true).
  { cbn [In] in Hty.
    destruct Hty as [<-|[<-|[<-|[<-|[<-|[]]]]]]; reflexivity. }
  destruct (readTrackEvent_delta k ev p fd delta _ St Hend Hd)
    as (p2 & R2 & S2 & I2 & T2 & RS2 & E2).
  rewrite R2. unfold readTrackEvent_status.
  destruct (readTrackByte_taken_back k p2 fd _ _ S2) as (p3 & R3 & U3 & S4).
  rewrite R3.
  destruct (Z.ltb_spec d1 128) as [_|?]; [|lia].
  destruct U3 as (I3 & C1 & C2 & C3 & C4 & C5 & C6).
  rewrite C4, RS2, Hrun.
  set (p4 := setTrack k _ p3) in *.
  change MIDI_SYSEX with 240. change MIDI_META_EVENT with 255.
  destruct (Z.eqb_spec (ty + ch) 240) as [?|_]; [lia|].
  destruct (Z.eqb_spec (ty + ch) 247) as [?|_]; [lia|].
  destruct (Z.eqb_spec (ty + ch) 255) as [?|_]; [lia|].
  cbn [orb type ev_set_status]. rewrite L1, L2, Hkind.
  destruct (readTrackByte_cons _ _ _ _ _ S4) as (p5 & R5 & S5 & U5).
  destruct (readTrackByte_cons _ _ _ _ _ S5) as (p6 & R6 & S6 & U6).
  rewrite R5, R6.
  exists p6. split; [reflexivity|]. split; [exact S6|].
  destruct U5 as (I5 & A1 & A2 & A3 & A4 & A5 & A6).
  destruct U6 as (I6 & B1 & B2 & B3 & B4 & B5 & B6).
  assert (G4 : getTrack k p4
               = tr_set_cursor (u16 (bufferPos (getTrack k p3) - 1))
                   (u32 (filePosition (getTrack k p3) - 1)) (getTrack k p3)).
  { apply getTrack_setTrack. unfold inRange.
    destruct S2 as [(_ & Hin & _) _].
    assert (Hlen : length (tracks p3) = length (tracks p2)).
    { pose proof (readTrackByte_advances k p2 Hin) as A.
      rewrite R3 in A. apply (adv_len _ _ _ A). }
    rewrite Hlen. exact Hin. }
  split; [rewrite B3, A3, G4; cbn [currentTick tr_set_cursor];
          rewrite C3; exact T2|].
  split; [rewrite B4, A4, G4; cbn [runningStatus tr_set_cursor];
          rewrite C4, RS2; exact Hrun|].
  rewrite I6, I5. change (fileInfo p4) with (fileInfo p3).
  rewrite I3. exact I2.
Qed.

Lemma streamAt_endOfTrack (k : Z) (b : bool) (p : t) (fd rest : list Z) :
  streamAt k p fd rest ->
  streamAt k (setTrack k (tr_set_endOfTrack b (getTrack k p)) p) fd rest.
Proof.
  intros St. apply streamAt_setTrack; [exact St| |apply St].
  destruct St as [(_ & _ & _ & C) _]. exact C.
Qed.

(** X14. A SysEx event (status 0xF0 or 0xF7): the length is a
    variable-length quantity, the payload of that many bytes is returned
    as the event's SysEx data, the event's type is 0xF0, its channel
    field the low nibble of the status, its sysexLength the length cut
    to 16 bits, data1 and data2 are those of the event passed in, and
    the track's running status is cleared. *)
Theorem sysex_event_decoded (k : Z) (ev : MidiEvent) (p : t)
    (fd delta : list Z) (st : Z) (len payload rest : list Z) :
  streamAt k p fd (delta ++ st :: len ++ payload ++ rest) ->
  endOfTrack (getTrack k p) = false ->
  isVlq delta -> isVlq len ->
  In st [0xF0; 0xF7] ->
  Z.of_nat (length payload) = u32 (vlqValue len) ->
  exists p',
    readTrackEvent k ev p
    = (true,
       mkEvent (u32 (vlqValue delta))
         (u32 (currentTick (getTrack k p) + u32 (vlqValue delta)))
         MIDI_SYSEX (st - 0xF0) (data1 ev) (data2 ev)
         (Some payload) (u16 (Z.of_nat (length payload))) false k,
       p')
    /\ streamAt k p' fd rest
    /\ runningStatus (getTrack k p') = 0
    /\ fileInfo p' = fileInfo p.
Proof.
  intros St Hend Hd Hl Hst Hlen.
  destruct (readTrackEvent_delta k ev p fd delta _ St Hend Hd)
    as (p2 & R2 & S2 & I2 & T2 & RS2 & E2).
  rewrite R2. unfold readTrackEvent_status.
  destruct (status_byte_explicit k p2 fd _ _ S2)
    as (p3 & R3 & S4 & I3 & T3 & E3 & In3).
  rewrite R3.
  set (p4 := setTrack k (tr_set_runningStatus st (getTrack k p3)) p3) in *.
  assert (Hst' : (st <? 128) = false
                 /\ (st =? MIDI_SYSEX) || (st =? 247) = true
                 /\ Z.land st 240 = MIDI_SYSEX /\ Z.land st 15 = st - 240).
  { cbn [In] in Hst. destruct Hst as [<-|[<-|[]]]; repeat split; reflexivity. }
  destruct Hst' as (H1 & H2 & H3 & H4). rewrite H1, H2, H3, H4.
  destruct (readTrackVariableLength_stream k p4 fd len _ Hl S4)
    as (p5 & R5 & S5 & U5).
  rewrite R5, <- Hlen, Nat2Z.id.
  destruct (readTrackBytes_stream k fd payload rest p5 S5)
    as (p6 & R6 & S6 & U6).
  rewrite R6.
  eexists. split; [reflexivity|].
  split; [apply streamAt_clearRunningStatus; exact S6|].
  split.
  - unfold clearRunningStatus. rewrite getTrack_setTrack by apply S6.
    reflexivity.
  - change (fileInfo (clearRunningStatus k p6)) with (fileInfo p6).
    destruct U5 as (I5 & _). destruct U6 as (I6 & _).
    rewrite I6, I5. change (fileInfo p4) with (fileInfo p3).
    rewrite I3. exact I2.
Qed.

(** A meta event up to its payload: the status byte FF, the type, the
    declared length. *)
Lemma readTrackEvent_status_meta (k : Z) (ev : MidiEvent) (p : t)
    (fd : list Z) (mt : Z) (len rest : list Z) :
  streamAt k p fd (0xFF :: mt :: len ++ rest) ->
  isVlq len ->
  exists p6,
    readTrackEvent_status k ev p
    = (if mt =? META_TEMPO then
         (true, ev_set_meta mt (ev_set_status 240 15 ev),
          clearRunningStatus k (metaTempo k (u32 (vlqValue len)) p6))
       else if mt =? META_TIME_SIGNATURE then
         (true, ev_set_meta mt (ev_set_status 240 15 ev),
          clearRunningStatus k (metaTimeSignature k (u32 (vlqValue len)) p6))
       else if mt =? META_TRACK_NAME then
         (true, ev_set_meta mt (ev_set_status 240 15 ev),
          clearRunningStatus k (metaTrackName k (u32 (vlqValue len)) p6))
       else if mt =? META_END_OF_TRACK then
         (false, ev_set_meta mt (ev_set_status 240 15 ev),
          setTrack k (tr_set_endOfTrack true (getTrack k p6)) p6)
       else
         (true, ev_set_meta mt (ev_set_status 240 15 ev),
          clearRunningStatus k
            (skipTrackBytes (Z.to_nat (u32 (vlqValue len))) k p6)))
    /\ streamAt k p6 fd rest
    /\ fileInfo p6 = fileInfo p
    /\ currentTick (getTrack k p6) = currentTick (getTrack k p).
Proof.
  intros St Hl. unfold readTrackEvent_status.
  destruct (status_byte_explicit k p fd _ _ St)
    as (p3 & R3 & S4 & I3 & T3 & E3 & In3).
  rewrite R3. change (255 <? 128) with false. cbv iota.
  set (p4 := setTrack k (tr_set_runningStatus 255 (getTrack k p3)) p3) in *.
  change ((255 =? MIDI_SYSEX) || (255 =? 247)) with false.
  change (255 =? MIDI_META_EVENT) with true. cbv iota.
  change (Z.land 255 240) with 240. change (Z.land 255 15) with 15.
  destruct (readTrackByte_cons _ _ _ _ _ S4) as (p5 & R5 & S5 & U5).
  rewrite R5.
  destruct (readTrackVariableLength_stream k p5 fd len _ Hl S5)
    as (p6 & R6 & S6 & U6).
  rewrite R6. exists p6. split; [reflexivity|]. split; [exact S6|].
  destruct U5 as (I5 & A1 & A2 & A3 & A4 & A5 & A6).
  destruct U6 as (I6 & B1 & B2 & B3 & B4 & B5 & B6).
  assert (G4 : getTrack k p4 = tr_set_runningStatus 255 (getTrack k p3))
    by (apply getTrack_setTrack; exact In3).
  split.
  - rewrite I6, I5. change (fileInfo p4) with (fileInfo p3). exact I3.
  - rewrite B3, A3, G4. cbn [currentTick tr_set_runningStatus]. exact T3.
Qed.

(** X15. The end-of-track meta event (FF 2F) makes [readTrackEvent]
    return false and sets the track's end flag; from then on every
    call for this track returns false and changes neither the parser
    nor the event passed in. *)
Theorem end_of_track_is_final (k : Z) (ev : MidiEvent) (p : t)
    (fd delta len rest : list Z) :
  streamAt k p fd (delta ++ 0xFF :: 0x2F :: len ++ rest) ->
  endOfTrack (getTrack k p) = false ->
  isVlq delta -> isVlq len ->
  exists ev' p',
    readTrackEvent k ev p = (false, ev', p')
    /\ endOfTrack (getTrack k p') = true
    /\ fileInfo p' = fileInfo p
    /\ forall ev2, readTrackEvent k ev2 p' = (false, ev2, p').
Proof.
  intros St Hend Hd Hl.
  destruct (readTrackEvent_delta k ev p fd delta _ St Hend Hd)
    as (p2 & R2 & S2 & I2 & T2 & RS2 & E2).
  rewrite R2.
  destruct (readTrackEvent_status_meta k
              (ev_set_timing (u32 (vlqValue delta))
                 (u32 (currentTick (getTrack k p) + u32 (vlqValue delta))) k ev)
              p2 fd 0x2F len rest S2 Hl)
    as (p6 & R6 & S6 & I6 & T6).
  rewrite R6. change (47 =? META_TEMPO) with false.
  change (47 =? META_TIME_SIGNATURE) with false.
  change (47 =? META_TRACK_NAME) with false.
  change (47 =? META_END_OF_TRACK) with true. cbv iota.
  eexists. eexists. split; [reflexivity|].
  pose proof (streamAt_endOfTrack k true p6 fd rest S6) as S7.
  set (p7 := setTrack k (tr_set_endOfTrack true (getTrack k p6)) p6) in *.
  assert (G7 : endOfTrack (getTrack k p7) = true).
  { unfold p7. rewrite getTrack_setTrack by apply S6. reflexivity. }
  split; [exact G7|].
  split; [change (fileInfo p7) with (fileInfo p6); rewrite I6; exact I2|].
  intros ev2. unfold readTrackEvent.
  destruct S7 as [(Hk & _) _].
  destruct (Z.leb_spec (numTracks p7) k) as [?|_]; [lia|].
  rewrite G7. reflexivity.
Qed.

(** X16. The time signature meta event (FF 58): with the length 4 the
    numerator is the first payload byte, the denominator is 1 shifted
    left by the second one (below 31, where the shift of an [int] is
    defined) and cut to 8 bits, and the four payload bytes are consumed;
    with any other length nothing is stored and the payload is NOT
    skipped: the read position stays directly behind the length. *)
Theorem time_signature_event (k : Z) (ev : MidiEvent) (p : t)
    (fd delta len tail : list Z) :
  streamAt k p fd (delta ++ 0xFF :: 0x58 :: len ++ tail) ->
  endOfTrack (getTrack k p) = false ->
  isVlq delta -> isVlq len ->
  exists ev' p',
    readTrackEvent k ev p = (true, ev', p')
    /\ (u32 (vlqValue len) <> 4 ->
        streamAt k p' fd tail /\ fileInfo p' = fileInfo p)
    /\ (u32 (vlqValue len) = 4 ->
        forall n d c b rest, tail = n :: d :: c :: b :: rest ->
        0 <= d < 31 ->
        streamAt k p' fd rest
        /\ numerator (fileInfo p') = n
        /\ denominator (fileInfo p') = u8 (Z.shiftl 1 d)
        /\ fileInfo p'
           = mkInfo (format (fileInfo p)) (info_numTracks (fileInfo p))
               (ticksPerQuarter (fileInfo p)) (tempo (fileInfo p))
               n (u8 (Z.shiftl 1 d)) (trackName (fileInfo p))).
Proof.
  intros St Hend Hd Hl.
  destruct (readTrackEvent_delta k ev p fd delta _ St Hend Hd)
    as (p2 & R2 & S2 & I2 & T2 & RS2 & E2).
  rewrite R2.
  destruct (readTrackEvent_status_meta k
              (ev_set_timing (u32 (vlqValue delta))
                 (u32 (currentTick (getTrack k p) + u32 (vlqValue delta))) k ev)
              p2 fd 0x58 len tail S2 Hl)
    as (p6 & R6 & S6 & I6 & T6).
  rewrite R6. change (88 =? META_TEMPO) with false.
  change (88 =? META_TIME_SIGNATURE) with true. cbv iota.
  eexists. eexists. split; [reflexivity|].
  unfold metaTimeSignature.
  destruct (Z.eqb_spec (u32 (vlqValue len)) 4) as [E4|N4].
  - split; [intros H; contradiction|]. intros _ n d c b rest -> _.
    destruct (readTrackByte_cons _ _ _ _ _ S6) as (q1 & Q1 & A1 & U1).
    destruct (readTrackByte_cons _ _ _ _ _ A1) as (q2 & Q2 & A2 & U2).
    rewrite Q1, Q2.
    assert (A2' : streamAt k
                    (set_fileInfo
                       (info_set_timesig n (u8 (Z.shiftl 1 d)) (fileInfo q2)) q2)
                    fd (c :: b :: rest)) by exact A2.
    destruct (readTrackByte_cons _ _ _ _ _ A2') as (q3 & Q3 & A3 & U3).
    destruct (readTrackByte_cons _ _ _ _ _ A3) as (q4 & Q4 & A4 & U4).
    rewrite Q3, Q4.
    split; [apply streamAt_clearRunningStatus; exact A4|].
    change (fileInfo (clearRunningStatus k q4)) with (fileInfo q4).
    destruct U1 as (J1 & _), U2 as (J2 & _), U3 as (J3 & _), U4 as (J4 & _).
    rewrite J4, J3. cbn [fileInfo set_fileInfo].
    rewrite J2, J1, I6, I2. split; [reflexivity|]. split; reflexivity.
  - split; [|intros H; contradiction]. intros _.
    split; [apply streamAt_clearRunningStatus; exact S6|].
    change (fileInfo (clearRunningStatus k p6)) with (fileInfo p6).
    rewrite I6. exact I2.
Qed.

(** X17. The track name meta event (FF 03): the payload is always
    consumed; when it is shorter than 64 bytes it is copied to the start
    of [trackName] followed by a 0 byte (the bytes behind are kept),
    when it is longer the name is left as it was. *)
Theorem track_name_event (k : Z) (ev : MidiEvent) (p : t)
    (fd delta len payload rest : list Z) :
  streamAt k p fd (delta ++ 0xFF :: 0x03 :: len ++ payload ++ rest) ->
  endOfTrack (getTrack k p) = false ->
  isVlq delta -> isVlq len ->
  Z.of_nat (length payload) = u32 (vlqValue len) ->
  exists ev' p',
    readTrackEvent k ev p = (true, ev', p')
    /\ streamAt k p' fd rest
    /\ ((length payload < 64)%nat ->
        trackName (fileInfo p')
        = payload ++ 0 :: skipn (S (length payload)) (trackName (fileInfo p))
        /\ fileInfo p'
           = mkInfo (format (fileInfo p)) (info_numTracks (fileInfo p))
               (ticksPerQuarter (fileInfo p)) (tempo (fileInfo p))
               (numerator (fileInfo p)) (denominator (fileInfo p))
               (payload ++ 0 :: skipn (S (length payload))
                                  (trackName (fileInfo p))))
    /\ ((64 <= length payload)%nat -> fileInfo p' = fileInfo p).
Proof.
  intros St Hend Hd Hl Hlen.
  destruct (readTrackEvent_delta k ev p fd delta _ St Hend Hd)
    as (p2 & R2 & S2 & I2 & T2 & RS2 & E2).
  rewrite R2.
  destruct (readTrackEvent_status_meta k
              (ev_set_timing (u32 (vlqValue delta))
                 (u32 (currentTick (getTrack k p) + u32 (vlqValue delta))) k ev)
              p2 fd 0x03 len (payload ++ rest) S2 Hl)
    as (p6 & R6 & S6 & I6 & T6).
  rewrite R6. change (3 =? META_TEMPO) with false.
  change (3 =? META_TIME_SIGNATURE) with false.
  change (3 =? META_TRACK_NAME) with true. cbv iota.
  eexists. eexists. split; [reflexivity|].
  unfold metaTrackName. rewrite <- Hlen, Nat2Z.id.
  destruct (Z.ltb_spec (Z.of_nat (length payload)) 64) as [H64|H64].
  - destruct (readTrackBytes_stream k fd payload rest p6 S6)
      as (q & Q & A & U).
    rewrite Q.
    split; [apply streamAt_clearRunningStatus; exact A|].
    change (fileInfo (clearRunningStatus k ?x)) with (fileInfo x).
    cbn [fileInfo set_fileInfo]. destruct U as (J & _).
    rewrite J, I6, I2.
    split; [intros _; split; reflexivity|intros H; lia].
  - destruct (skipTrackBytes_stream k fd payload rest p6 S6) as (A & U).
    split; [apply streamAt_clearRunningStatus; exact A|].
    change (fileInfo (clearRunningStatus k ?x)) with (fileInfo x).
    destruct U as (J & _). rewrite J, I6, I2.
    split; [intros H; lia|intros _; reflexivity].
Qed.

End EventKinds.

Lemma windowInSyncb_sound (tr : TrackState) (fd : list Z) :
  windowInSyncb tr fd = true -> windowInSync tr fd.
Proof.
  unfold windowInSyncb. intros H.
  apply andb_true_iff in H; destruct H as [H H8].
  apply andb_true_iff in H; destruct H as [H H7].
  apply andb_true_iff in H; destruct H as [H H6].
  apply andb_true_iff in H; destruct H as [H H5].
  apply andb_true_iff in H; destruct H as [H H4].
  apply andb_true_iff in H; destruct H as [H H3].
  apply andb_true_iff in H; destruct H as [H1 H2].
  apply Z.leb_le in H1, H2, H3, H4, H5, H6. apply Z.eqb_eq in H7.
  rewrite forallb_forall in H8.
  unfold windowInSync.
  split; [lia|]. split; [lia|]. split; [lia|]. split; [lia|]. split; [lia|].
  intros j Hj. specialize (H8 (Z.to_nat j)).
  rewrite Z2Nat.id in H8 by lia. apply Z.eqb_eq. apply H8.
  apply in_seq. lia.
Qed.

Lemma streamAtb_sound (k : Z) (p : MidiFileParser.t) (fd rest : list Z) :
  streamAtb k p fd rest = true -> streamAt k p fd rest.
Proof.
  unfold streamAtb. intros H.
  apply andb_true_iff in H; destruct H as [H H6].
  apply andb_true_iff in H; destruct H as [H H5].
  apply andb_true_iff in H; destruct H as [H H4].
  apply andb_true_iff in H; destruct H as [H H3].
  apply andb_true_iff in H; destruct H as [H1 H2].
  apply Z.leb_le in H1. apply Z.ltb_lt in H2. apply Nat.ltb_lt in H3.
  apply bytes_eqb_eq in H6.
  destruct (MidiFileParser.midiFile p) as [[d pos]|] eqn:Hf; [|discriminate].
  apply bytes_eqb_eq in H4. cbn [fdata] in H4. subst d.
  unfold trackCoherentb in H5.
  apply andb_true_iff in H5; destruct H5 as [H5 C6].
  apply andb_true_iff in H5; destruct H5 as [H5 C5].
  apply andb_true_iff in H5; destruct H5 as [H5 C4].
  apply andb_true_iff in H5; destruct H5 as [H5 C3].
  apply andb_true_iff in H5; destruct H5 as [C1 C2].
  apply Z.leb_le in C1, C2, C3, C4. apply Z.ltb_lt in C5.
  split; [|exact H6].
  split; [lia|]. split; [exact H3|].
  split; [exists pos; exact Hf|].
  unfold trackCoherent.
  split; [lia|]. split; [lia|]. split; [lia|]. split; [lia|].
  apply orb_true_iff in C6. destruct C6 as [W|W].
  - left. apply windowInSyncb_sound. exact W.
  - right. unfold windowEmptyb in W.
    apply andb_true_iff in W; destruct W as [W W3].
    apply andb_true_iff in W; destruct W as [W1 W2].
    apply Z.eqb_eq in W1. apply Z.leb_le in W2. apply Z.ltb_lt in W3.
    split; lia.
Qed.

Section ByteStream.
Import MidiFileParser.

(** X10. [readTrackByte] delivers the bytes of the track chunk in file
    order: on a track whose unread bytes are [s] it returns the first
    byte of [s] and leaves the rest unread; at the end of the chunk it
    returns 0 and stays there.  It changes neither the file
    information nor the track's tick, running status or end flag. *)
Theorem readTrackByte_reads_the_file (k : Z) (p : t) (fd s : list Z) :
  streamAt k p fd s ->
  exists p',
    readTrackByte k p = (hd 0 s, p')
    /\ streamAt k p' fd (tl s)
    /\ fileInfo p' = fileInfo p
    /\ currentTick (getTrack k p') = currentTick (getTrack k p)
    /\ runningStatus (getTrack k p') = runningStatus (getTrack k p)
    /\ endOfTrack (getTrack k p') = endOfTrack (getTrack k p).
Proof.
  intros St. destruct s as [|b rest].
  - destruct (readTrackByte_nil _ _ _ St) as (p' & R & S' & I & M).
    exists p'. split; [exact R|]. split; [exact S'|]. split; [exact I|].
    destruct M as (_ & _ & M3 & M4 & M5 & _).
    split; [exact M3|]. split; [exact M4|exact M5].
  - destruct (readTrackByte_cons _ _ _ _ _ St) as (p' & R & S' & I & M).
    exists p'. split; [exact R|]. split; [exact S'|]. split; [exact I|].
    destruct M as (_ & _ & M3 & M4 & M5 & _).
    split; [exact M3|]. split; [exact M4|exact M5].
Qed.

End ByteStream.

Lemma isVlq_single (b : Z) : 0 <= b < 128 -> isVlq [b].
Proof.
  intros H. exists [], b. split; [reflexivity|]. split; [constructor|exact H].
Qed.

Lemma readTrackByte_reads_the_file_witness :
  streamAt 0 (afterEvents 1 0 sample_kinds_ready) sample_kinds
    (skipn 4 sample_kinds_track)
  /\ exists p',
       MidiFileParser.readTrackByte 0 (afterEvents 1 0 sample_kinds_ready)
       = (hd 0 (skipn 4 sample_kinds_track), p')
       /\ streamAt 0 p' sample_kinds (tl (skipn 4 sample_kinds_track))
       /\ MidiFileParser.fileInfo p'
          = MidiFileParser.fileInfo (afterEvents 1 0 sample_kinds_ready)
       /\ currentTick (MidiFileParser.getTrack 0 p')
          = currentTick
              (MidiFileParser.getTrack 0 (afterEvents 1 0 sample_kinds_ready))
       /\ runningStatus (MidiFileParser.getTrack 0 p')
          = runningStatus
              (MidiFileParser.getTrack 0 (afterEvents 1 0 sample_kinds_ready))
       /\ endOfTrack (MidiFileParser.getTrack 0 p')
          = endOfTrack
              (MidiFileParser.getTrack 0 (afterEvents 1 0 sample_kinds_ready)).
Proof.
  assert (H : streamAt 0 (afterEvents 1 0 sample_kinds_ready) sample_kinds
                (skipn 4 sample_kinds_track))
    by (apply streamAtb_sound; vm_compute; reflexivity).
  split; [exact H|].
  exact (readTrackByte_reads_the_file 0 (afterEvents 1 0 sample_kinds_ready)
           sample_kinds (skipn 4 sample_kinds_track) H).
Defined.

Lemma channel_event_decoded_witness :
  streamAt 0 sample_kinds_ready sample_kinds
    ([0] ++ (0x90 + 3) :: 60 :: 100 :: skipn 4 sample_kinds_track)
  /\ endOfTrack (MidiFileParser.getTrack 0 sample_kinds_ready) = false
  /\ isVlq [0]
  /\ In 0x90 [MIDI_NOTE_OFF; MIDI_NOTE_ON; MIDI_POLY_AFTERTOUCH;
              MIDI_CONTROL_CHANGE; MIDI_PITCH_BEND]
  /\ 0 <= 3 < 16
  /\ exists p',
       MidiFileParser.readTrackEvent 0 MidiEvent_new sample_kinds_ready
       = (true,
          mkEvent (u32 (vlqValue [0]))
            (u32 (currentTick (MidiFileParser.getTrack 0 sample_kinds_ready)
                  + u32 (vlqValue [0])))
            0x90 3 60 100 None 0 false 0,
          p')
       /\ streamAt 0 p' sample_kinds (skipn 4 sample_kinds_track)
       /\ currentTick (MidiFileParser.getTrack 0 p')
          = u32 (currentTick (MidiFileParser.getTrack 0 sample_kinds_ready)
                 + u32 (vlqValue [0]))
       /\ runningStatus (MidiFileParser.getTrack 0 p') = 0x90 + 3
       /\ MidiFileParser.fileInfo p' = MidiFileParser.fileInfo sample_kinds_ready.
Proof.
  assert (H1 : streamAt 0 sample_kinds_ready sample_kinds
                 ([0] ++ (0x90 + 3) :: 60 :: 100 :: skipn 4 sample_kinds_track))
    by (apply streamAtb_sound; vm_compute; reflexivity).
  assert (H2 : endOfTrack (MidiFileParser.getTrack 0 sample_kinds_ready) = false)
    by (vm_compute; reflexivity).
  assert (H3 : isVlq [0]) by (apply isVlq_single; lia).
  assert (H4 : In 0x90 [MIDI_NOTE_OFF; MIDI_NOTE_ON; MIDI_POLY_AFTERTOUCH;
                        MIDI_CONTROL_CHANGE; MIDI_PITCH_BEND])
    by (right; left; reflexivity).
  assert (H5 : 0 <= 3 < 16) by lia.
  split; [exact H1|]. split; [exact H2|]. split; [exact H3|].
  split; [exact H4|]. split; [exact H5|].
  exact (channel_event_decoded 0 MidiEvent_new sample_kinds_ready sample_kinds
           [0] 0x90 3 60 100 _ H1 H2 H3 H4 H5).
Defined.

Lemma running_status_event_decoded_witness :
  streamAt 0 (afterEvents 1 0 sample_kinds_ready) sample_kinds
    ([0x60] ++ 62 :: 100 :: skipn 7 sample_kinds_track)
  /\ endOfTrack (MidiFileParser.getTrack 0 (afterEvents 1 0 sample_kinds_ready))
     = false
  /\ isVlq [0x60]
  /\ 0 <= 62 < 128
  /\ runningStatus (MidiFileParser.getTrack 0 (afterEvents 1 0 sample_kinds_ready))
     = 0x90 + 3
  /\ In 0x90 [MIDI_NOTE_OFF; MIDI_NOTE_ON; MIDI_POLY_AFTERTOUCH;
              MIDI_CONTROL_CHANGE; MIDI_PITCH_BEND]
  /\ 0 <= 3 < 16
  /\ exists p',
       MidiFileParser.readTrackEvent 0 MidiEvent_new
         (afterEvents 1 0 sample_kinds_ready)
       = (true,
          mkEvent (u32 (vlqValue [0x60]))
            (u32 (currentTick
                    (MidiFileParser.getTrack 0
                       (afterEvents 1 0 sample_kinds_ready))
                  + u32 (vlqValue [0x60])))
            0x90 3 62 100 None 0 false 0,
          p')
       /\ streamAt 0 p' sample_kinds (skipn 7 sample_kinds_track)
       /\ currentTick (MidiFileParser.getTrack 0 p')
          = u32 (currentTick
                   (MidiFileParser.getTrack 0
                      (afterEvents 1 0 sample_kinds_ready))
                 + u32 (vlqValue [0x60]))
       /\ runningStatus (MidiFileParser.getTrack 0 p') = 0x90 + 3
       /\ MidiFileParser.fileInfo p'
          = MidiFileParser.fileInfo (afterEvents 1 0 sample_kinds_ready).
Proof.
  assert (H1 : streamAt 0 (afterEvents 1 0 sample_kinds_ready) sample_kinds
                 ([0x60] ++ 62 :: 100 :: skipn 7 sample_kinds_track))
    by (apply streamAtb_sound; vm_compute; reflexivity).
  assert (H2 : endOfTrack
                 (MidiFileParser.getTrack 0 (afterEvents 1 0 sample_kinds_ready))
               = false) by (vm_compute; reflexivity).
  assert (H3 : isVlq [0x60]) by (apply isVlq_single; lia).
  assert (H4 : 0 <= 62 < 128) by lia.
  assert (H5 : runningStatus
                 (MidiFileParser.getTrack 0 (afterEvents 1 0 sample_kinds_ready))
               = 0x90 + 3) by (vm_compute; reflexivity).
  assert (H6 : In 0x90 [MIDI_NOTE_OFF; MIDI_NOTE_ON; MIDI_POLY_AFTERTOUCH;
                        MIDI_CONTROL_CHANGE; MIDI_PITCH_BEND])
    by (right; left; reflexivity).
  assert (H7 : 0 <= 3 < 16) by lia.
  split; [exact H1|]. split; [exact H2|]. split; [exact H3|].
  split; [exact H4|]. split; [exact H5|]. split; [exact H6|].
  split; [exact H7|].
  exact (running_status_event_decoded 0 MidiEvent_new
           (afterEvents 1 0 sample_kinds_ready) sample_kinds
           [0x60] 0x90 3 62 100 _ H1 H2 H3 H4 H5 H6 H7).
Defined.

Lemma single_byte_event_decoded_witness :
  streamAt 0 (afterEvents 2 0 sample_kinds_ready) sample_kinds
    ([0] ++ (0xC0 + 3) :: 5 :: skipn 10 sample_kinds_track)
  /\ endOfTrack (MidiFileParser.getTrack 0 (afterEvents 2 0 sample_kinds_ready))
     = false
  /\ isVlq [0]
  /\ In 0xC0 [MIDI_PROGRAM_CHANGE; MIDI_CHANNEL_AFTERTOUCH]
  /\ 0 <= 3 < 16
  /\ exists p',
       MidiFileParser.readTrackEvent 0 MidiEvent_new
         (afterEvents 2 0 sample_kinds_ready)
       = (true,
          mkEvent (u32 (vlqValue [0]))
            (u32 (currentTick
                    (MidiFileParser.getTrack 0
                       (afterEvents 2 0 sample_kinds_ready))
                  + u32 (vlqValue [0])))
            0xC0 3 5 0 None 0 false 0,
          p')
       /\ streamAt 0 p' sample_kinds (skipn 10 sample_kinds_track)
       /\ currentTick (MidiFileParser.getTrack 0 p')
          = u32 (currentTick
                   (MidiFileParser.getTrack 0
                      (afterEvents 2 0 sample_kinds_ready))
                 + u32 (vlqValue [0]))
       /\ runningStatus (MidiFileParser.getTrack 0 p') = 0xC0 + 3
       /\ MidiFileParser.fileInfo p'
          = MidiFileParser.fileInfo (afterEvents 2 0 sample_kinds_ready).
Proof.
  assert (H1 : streamAt 0 (afterEvents 2 0 sample_kinds_ready) sample_kinds
                 ([0] ++ (0xC0 + 3) :: 5 :: skipn 10 sample_kinds_track))
    by (apply streamAtb_sound; vm_compute; reflexivity).
  assert (H2 : endOfTrack
                 (MidiFileParser.getTrack 0 (afterEvents 2 0 sample_kinds_ready))
               = false) by (vm_compute; reflexivity).
  assert (H3 : isVlq [0]) by (apply isVlq_single; lia).
  assert (H4 : In 0xC0 [MIDI_PROGRAM_CHANGE; MIDI_CHANNEL_AFTERTOUCH])
    by (left; reflexivity).
  assert (H5 : 0 <= 3 < 16) by lia.
  split; [exact H1|]. split; [exact H2|]. split; [exact H3|].
  split; [exact H4|]. split; [exact H5|].
  exact (single_byte_event_decoded 0 MidiEvent_new
           (afterEvents 2 0 sample_kinds_ready) sample_kinds
           [0] 0xC0 3 5 _ H1 H2 H3 H4 H5).
Defined.

Lemma sysex_event_decoded_witness :
  streamAt 0 (afterEvents 3 0 sample_kinds_ready) sample_kinds
    ([0] ++ 0xF0 :: [3] ++ [0x41; 0x10; 0xF7] ++ skipn 16 sample_kinds_track)
  /\ endOfTrack (MidiFileParser.getTrack 0 (afterEvents 3 0 sample_kinds_ready))
     = false
  /\ isVlq [0] /\ isVlq [3]
  /\ In 0xF0 [0xF0; 0xF7]
  /\ Z.of_nat (length [0x41; 0x10; 0xF7]) = u32 (vlqValue [3])
  /\ exists p',
       MidiFileParser.readTrackEvent 0 MidiEvent_new
         (afterEvents 3 0 sample_kinds_ready)
       = (true,
          mkEvent (u32 (vlqValue [0]))
            (u32 (currentTick
                    (MidiFileParser.getTrack 0
                       (afterEvents 3 0 sample_kinds_ready))
                  + u32 (vlqValue [0])))
            MIDI_SYSEX (0xF0 - 0xF0) (data1 MidiEvent_new) (data2 MidiEvent_new)
            (Some [0x41; 0x10; 0xF7])
            (u16 (Z.of_nat (length [0x41; 0x10; 0xF7]))) false 0,
          p')
       /\ streamAt 0 p' sample_kinds (skipn 16 sample_kinds_track)
       /\ runningStatus (MidiFileParser.getTrack 0 p') = 0
       /\ MidiFileParser.fileInfo p'
          = MidiFileParser.fileInfo (afterEvents 3 0 sample_kinds_ready).
Proof.
  assert (H1 : streamAt 0 (afterEvents 3 0 sample_kinds_ready) sample_kinds
                 ([0] ++ 0xF0 :: [3] ++ [0x41; 0x10; 0xF7]
                  ++ skipn 16 sample_kinds_track))
    by (apply streamAtb_sound; vm_compute; reflexivity).
  assert (H2 : endOfTrack
                 (MidiFileParser.getTrack 0 (afterEvents 3 0 sample_kinds_ready))
               = false) by (vm_compute; reflexivity).
  assert (H3 : isVlq [0]) by (apply isVlq_single; lia).
  assert (H4 : isVlq [3]) by (apply isVlq_single; lia).
  assert (H5 : In 0xF0 [0xF0; 0xF7]) by (left; reflexivity).
  assert (H6 : Z.of_nat (length [0x41; 0x10; 0xF7]) = u32 (vlqValue [3]))
    by (vm_compute; reflexivity).
  split; [exact H1|]. split; [exact H2|]. split; [exact H3|].
  split; [exact H4|]. split; [exact H5|]. split; [exact H6|].
  exact (sysex_event_decoded 0 MidiEvent_new
           (afterEvents 3 0 sample_kinds_ready) sample_kinds
           [0] 0xF0 [3] [0x41; 0x10; 0xF7] _ H1 H2 H3 H4 H5 H6).
Defined.

Lemma time_signature_event_witness :
  streamAt 0 (afterEvents 4 0 sample_kinds_ready) sample_kinds
    ([0] ++ 0xFF :: 0x58 :: [4] ++ skipn 20 sample_kinds_track)
  /\ endOfTrack (MidiFileParser.getTrack 0 (afterEvents 4 0 sample_kinds_ready))
     = false
  /\ isVlq [0] /\ isVlq [4]
  /\ u32 (vlqValue [4]) = 4
  /\ skipn 20 sample_kinds_track = 6 :: 3 :: 24 :: 8 :: skipn 24 sample_kinds_track
  /\ 0 <= 3 < 31
  /\ exists ev' p',
       MidiFileParser.readTrackEvent 0 MidiEvent_new
         (afterEvents 4 0 sample_kinds_ready) = (true, ev', p')
       /\ streamAt 0 p' sample_kinds (skipn 24 sample_kinds_track)
       /\ numerator (MidiFileParser.fileInfo p') = 6
       /\ denominator (MidiFileParser.fileInfo p') = 8.
Proof.
  assert (H1 : streamAt 0 (afterEvents 4 0 sample_kinds_ready) sample_kinds
                 ([0] ++ 0xFF :: 0x58 :: [4] ++ skipn 20 sample_kinds_track))
    by (apply streamAtb_sound; vm_compute; reflexivity).
  assert (H2 : endOfTrack
                 (MidiFileParser.getTrack 0 (afterEvents 4 0 sample_kinds_ready))
               = false) by (vm_compute; reflexivity).
  assert (H3 : isVlq [0]) by (apply isVlq_single; lia).
  assert (H4 : isVlq [4]) by (apply isVlq_single; lia).
  assert (H5 : u32 (vlqValue [4]) = 4) by (vm_compute; reflexivity).
  assert (H6 : skipn 20 sample_kinds_track
               = 6 :: 3 :: 24 :: 8 :: skipn 24 sample_kinds_track)
    by reflexivity.
  assert (H7 : 0 <= 3 < 31) by lia.
  split; [exact H1|]. split; [exact H2|]. split; [exact H3|].
  split; [exact H4|]. split; [exact H5|]. split; [exact H6|].
  split; [exact H7|].
  destruct (time_signature_event 0 MidiEvent_new
              (afterEvents 4 0 sample_kinds_ready) sample_kinds
              [0] [4] _ H1 H2 H3 H4)
    as (ev' & p' & R & _ & A).
  destruct (A H5 6 3 24 8 _ H6 H7) as (S' & N & D & _).
  exists ev', p'. split; [exact R|]. split; [exact S'|].
  split; [exact N|exact D].
Defined.

Lemma track_name_event_witness :
  streamAt 0 (afterEvents 5 0 sample_kinds_ready) sample_kinds
    ([0] ++ 0xFF :: 0x03 :: [2] ++ [0x48; 0x69] ++ skipn 30 sample_kinds_track)
  /\ endOfTrack (MidiFileParser.getTrack 0 (afterEvents 5 0 sample_kinds_ready))
     = false
  /\ isVlq [0] /\ isVlq [2]
  /\ Z.of_nat (length [0x48; 0x69]) = u32 (vlqValue [2])
  /\ (length [0x48; 0x69] < 64)%nat
  /\ exists ev' p',
       MidiFileParser.readTrackEvent 0 MidiEvent_new
         (afterEvents 5 0 sample_kinds_ready) = (true, ev', p')
       /\ streamAt 0 p' sample_kinds (skipn 30 sample_kinds_track)
       /\ trackName (MidiFileParser.fileInfo p')
          = [0x48; 0x69]
            ++ 0 :: skipn (S (length [0x48; 0x69]))
                      (trackName
                         (MidiFileParser.fileInfo
                            (afterEvents 5 0 sample_kinds_ready))).
Proof.
  assert (H1 : streamAt 0 (afterEvents 5 0 sample_kinds_ready) sample_kinds
                 ([0] ++ 0xFF :: 0x03 :: [2] ++ [0x48; 0x69]
                  ++ skipn 30 sample_kinds_track))
    by (apply streamAtb_sound; vm_compute; reflexivity).
  assert (H2 : endOfTrack
                 (MidiFileParser.getTrack 0 (afterEvents 5 0 sample_kinds_ready))
               = false) by (vm_compute; reflexivity).
  assert (H3 : isVlq [0]) by (apply isVlq_single; lia).
  assert (H4 : isVlq [2]) by (apply isVlq_single; lia).
  assert (H5 : Z.of_nat (length [0x48; 0x69]) = u32 (vlqValue [2]))
    by (vm_compute; reflexivity).
  assert (H6 : (length [0x48; 0x69] < 64)%nat) by (cbn; lia).
  split; [exact H1|]. split; [exact H2|]. split; [exact H3|].
  split; [exact H4|]. split; [exact H5|]. split; [exact H6|].
  destruct (track_name_event 0 MidiEvent_new
              (afterEvents 5 0 sample_kinds_ready) sample_kinds
              [0] [2] [0x48; 0x69] _ H1 H2 H3 H4 H5)
    as (ev' & p' & R & S' & A & _).
  exists ev', p'. split; [exact R|]. split; [exact S'|].
  exact (proj1 (A H6)).
Defined.

Lemma end_of_track_is_final_witness :
  streamAt 0 (afterEvents 6 0 sample_kinds_ready) sample_kinds
    ([0] ++ 0xFF :: 0x2F :: [0] ++ [])
  /\ endOfTrack (MidiFileParser.getTrack 0 (afterEvents 6 0 sample_kinds_ready))
     = false
  /\ isVlq [0] /\ isVlq [0]
  /\ exists ev' p',
       MidiFileParser.readTrackEvent 0 MidiEvent_new
         (afterEvents 6 0 sample_kinds_ready) = (false, ev', p')
       /\ endOfTrack (MidiFileParser.getTrack 0 p') = true
       /\ MidiFileParser.fileInfo p'
          = MidiFileParser.fileInfo (afterEvents 6 0 sample_kinds_ready)
       /\ forall ev2,
            MidiFileParser.readTrackEvent 0 ev2 p' = (false, ev2, p').
Proof.
  assert (H1 : streamAt 0 (afterEvents 6 0 sample_kinds_ready) sample_kinds
                 ([0] ++ 0xFF :: 0x2F :: [0] ++ []))
    by (apply streamAtb_sound; vm_compute; reflexivity).
  assert (H2 : endOfTrack
                 (MidiFileParser.getTrack 0 (afterEvents 6 0 sample_kinds_ready))
               = false) by (vm_compute; reflexivity).
  assert (H3 : isVlq [0]) by (apply isVlq_single; lia).
  split; [exact H1|]. split; [exact H2|]. split; [exact H3|].
  split; [exact H3|].
  exact (end_of_track_is_final 0 MidiEvent_new
           (afterEvents 6 0 sample_kinds_ready) sample_kinds
           [0] [0] [] H1 H2 H3 H3).
Defined.

(** ** Events that are not decoded, and meta events that are skipped *)

Section MoreEventKinds.
Import MidiFileParser.

Lemma system_status_type (st : Z) :
  0xF1 <= st <= 0xFE -> Z.land st 240 = 240.
Proof.
  intros H.
  assert (Hc : st = 241 \/ st = 242 \/ st = 243 \/ st = 244 \/ st = 245
               \/ st = 246 \/ st = 247 \/ st = 248 \/ st = 249 \/ st = 250
               \/ st = 251 \/ st = 252 \/ st = 253 \/ st = 254) by lia.
  repeat (destruct Hc as [->|Hc]; [reflexivity|]). subst st. reflexivity.
Qed.

(** X18. A status byte F1..FE other than F7 (a system common or
    real-time status, which a track chunk should not contain) is not
    decoded: [readTrackEvent] consumes the delta time and the status byte
    and returns false, the byte becoming the running status; the end
    flag of the track is NOT set and the file information is unchanged. *)
Theorem system_status_not_decoded (k : Z) (ev : MidiEvent) (p : t)
    (fd delta : list Z) (st : Z) (rest : list Z) :
  streamAt k p fd (delta ++ st :: rest) ->
  endOfTrack (getTrack k p) = false ->
  isVlq delta ->
  0xF1 <= st <= 0xFE -> st <> 0xF7 ->
  exists ev' p',
    readTrackEvent k ev p = (false, ev', p')
    /\ streamAt k p' fd rest
    /\ endOfTrack (getTrack k p') = false
    /\ runningStatus (getTrack k p') = st
    /\ fileInfo p' = fileInfo p.
Proof.
  intros St Hend Hd Hst H7.
  destruct (readTrackEvent_delta k ev p fd delta _ St Hend Hd)
    as (p2 & R2 & S2 & I2 & T2 & RS2 & E2).
  rewrite R2. unfold readTrackEvent_status.
  destruct (status_byte_explicit k p2 fd _ _ S2)
    as (p3 & R3 & S4 & I3 & T3 & E3 & In3).
  rewrite R3.
  destruct (Z.ltb_spec st 128) as [?|_]; [lia|].
  set (p4 := setTrack k (tr_set_runningStatus st (getTrack k p3)) p3) in *.
  unfold MIDI_SYSEX, MIDI_META_EVENT.
  destruct (Z.eqb_spec st 240) as [?|_]; [lia|].
  destruct (Z.eqb_spec st 247) as [?|_]; [lia|].
  destruct (Z.eqb_spec st 255) as [?|_]; [lia|].
  cbn [orb]. cbn [type ev_set_status].
  rewrite (system_status_type st Hst).
  change ((240 =? MIDI_NOTE_OFF) || (240 =? MIDI_NOTE_ON)
          || (240 =? MIDI_POLY_AFTERTOUCH) || (240 =? MIDI_CONTROL_CHANGE)
          || (240 =? MIDI_PITCH_BEND)) with false.
  change ((240 =? MIDI_PROGRAM_CHANGE) || (240 =? MIDI_CHANNEL_AFTERTOUCH))
    with false.
  cbv iota.
  eexists. exists p4. split; [reflexivity|]. split; [exact S4|].
  assert (G4 : getTrack k p4 = tr_set_runningStatus st (getTrack k p3))
    by (apply getTrack_setTrack; exact In3).
  rewrite G4. cbn [endOfTrack runningStatus tr_set_runningStatus].
  split; [rewrite E3; exact E2|]. split; [reflexivity|].
  change (fileInfo p4) with (fileInfo p3). rewrite I3. exact I2.
Qed.

(** X19. A meta event of a type other than tempo, time signature,
    track name and end of track is skipped with its payload:
    [readTrackEvent] returns true with an event marked as meta event whose
    data1 is the meta type (type 0xF0, channel field 0x0F, data2 as passed
    in), the read position is behind the payload, the running status is
    cleared and the file information is unchanged. *)
Theorem unknown_meta_event_skipped (k : Z) (ev : MidiEvent) (p : t)
    (fd delta : list Z) (mt : Z) (len payload rest : list Z) :
  streamAt k p fd (delta ++ 0xFF :: mt :: len ++ payload ++ rest) ->
  endOfTrack (getTrack k p) = false ->
  isVlq delta -> isVlq len ->
  ~ In mt [META_TEMPO; META_TIME_SIGNATURE; META_TRACK_NAME;
           META_END_OF_TRACK] ->
  Z.of_nat (length payload) = u32 (vlqValue len) ->
  exists p',
    readTrackEvent k ev p
    = (true,
       mkEvent (u32 (vlqValue delta))
         (u32 (currentTick (getTrack k p) + u32 (vlqValue delta)))
         0xF0 0x0F mt (data2 ev) None 0 true k,
       p')
    /\ streamAt k p' fd rest
    /\ runningStatus (getTrack k p') = 0
    /\ fileInfo p' = fileInfo p.
Proof.
  intros St Hend Hd Hl Hmt Hlen.
  destruct (readTrackEvent_delta k ev p fd delta _ St Hend Hd)
    as (p2 & R2 & S2 & I2 & T2 & RS2 & E2).
  rewrite R2.
  destruct (readTrackEvent_status_meta k
              (ev_set_timing (u32 (vlqValue delta))
                 (u32 (currentTick (getTrack k p) + u32 (vlqValue delta))) k ev)
              p2 fd mt len (payload ++ rest) S2 Hl)
    as (p6 & R6 & S6 & I6 & T6).
  rewrite R6.
  cbn [In] in Hmt.
  destruct (Z.eqb_spec mt META_TEMPO) as [?|_]; [exfalso; apply Hmt; subst mt; auto 6|].
  destruct (Z.eqb_spec mt META_TIME_SIGNATURE) as [?|_]; [exfalso; apply Hmt; subst mt; auto 6|].
  destruct (Z.eqb_spec mt META_TRACK_NAME) as [?|_]; [exfalso; apply Hmt; subst mt; auto 6|].
  destruct (Z.eqb_spec mt META_END_OF_TRACK) as [?|_]; [exfalso; apply Hmt; subst mt; auto 6|].
  rewrite <- Hlen, Nat2Z.id.
  destruct (skipTrackBytes_stream k fd payload rest p6 S6) as (A & U).
  eexists. split; [reflexivity|].
  split; [apply streamAt_clearRunningStatus; exact A|].
  split.
  - unfold clearRunningStatus. rewrite getTrack_setTrack by apply A.
    reflexivity.
  - change (fileInfo (clearRunningStatus k ?x)) with (fileInfo x).
    destruct U as (J & _). rewrite J, I6. exact I2.
Qed.

End MoreEventKinds.

(** ** The header fields and the fixed-width reads *)

Section HeaderFields.
Import MidiFileParser.

Lemma readMidiHeader_result (p : t) (fd : list Z) :
  isBytes fd ->
  midiFile p = Some (mkFile fd 0) ->
  firstn 4 fd = tag_MThd -> declaredHeaderLength fd = 6 ->
  exists p',
    readMidiHeader p = (true, p')
    /\ midiFile p' = Some (mkFile fd (Z.min 14 (Z.of_nat (length fd))))
    /\ numTracks p' = Z.min (declaredTracks fd mod 256) 16
    /\ fileInfo p'
       = mkInfo (declaredFormat fd) (declaredTracks fd) (declaredDivision fd)
           (tempo (fileInfo p)) (numerator (fileInfo p))
           (denominator (fileInfo p)) (trackName (fileInfo p))
    /\ tracks p' = tracks p
    /\ headerJunk p' = headerJunk p.
Proof.
  intros Hb Hf Hsig Hlen. unfold readMidiHeader. rewrite Hf.
  rewrite (readTag_at_start p fd Hf).
  pose proof (firstn_4_length fd Hsig) as Hl.
  assert (Hhdr : firstn 4 (firstn 4 fd ++ skipn (length (firstn 4 fd))
                                            (headerJunk p)) = tag_MThd).
  { rewrite firstn_app.
    rewrite (firstn_all2 (n := 4) (firstn 4 fd))
      by (rewrite length_firstn; lia).
    replace (4 - length (firstn 4 fd))%nat with 0%nat
      by (rewrite length_firstn; lia).
    cbn [firstn]. rewrite app_nil_r. exact Hsig. }
  rewrite Hhdr. change (bytes_eqb tag_MThd tag_MThd) with true. cbn [negb].
  rewrite readTag_position.
  rewrite (read32_from _ fd 4 Hb) by (try reflexivity; lia).
  change (be32 (byteAt fd 4) (byteAt fd (4 + 1)) (byteAt fd (4 + 2))
            (byteAt fd (4 + 3))) with (declaredHeaderLength fd).
  rewrite Hlen. cbn [Z.eqb Pos.eqb negb].
  rewrite (read16_from _ fd (4 + 4) Hb) by (try reflexivity; lia).
  rewrite (read16_from _ fd (4 + 4 + 2) Hb) by (try reflexivity; lia).
  change (be16 (byteAt fd (4 + 4)) (byteAt fd (4 + 4 + 1)))
    with (declaredFormat fd).
  change (be16 (byteAt fd (4 + 4 + 2)) (byteAt fd (4 + 4 + 2 + 1)))
    with (declaredTracks fd).
  match goal with
  | |- context [read16 (if ?c then ?a else ?b)] =>
      assert (Hpos : midiFile (if c then a else b)
                     = Some (mkFile fd (Z.min (4 + 4 + 2 + 2)
                                          (Z.of_nat (length fd)))))
        by (destruct c; reflexivity);
      assert (Hinfo : fileInfo (if c then a else b)
                      = mkInfo (declaredFormat fd) (declaredTracks fd)
                          (ticksPerQuarter (fileInfo p))
                          (tempo (fileInfo p)) (numerator (fileInfo p))
                          (denominator (fileInfo p)) (trackName (fileInfo p)))
        by (destruct c; reflexivity);
      assert (Hnum : numTracks (if c then a else b)
                     = Z.min (declaredTracks fd mod 256) 16)
        by (unfold MAX_TRACKS;
            cbn [numTracks set_numTracks set_fileInfo set_midiFile];
            unfold u8;
            destruct (Z.ltb_spec 16 (declaredTracks fd mod 256));
            cbn [numTracks set_numTracks]; lia);
      assert (Htr : tracks (if c then a else b) = tracks p)
        by (destruct c; reflexivity);
      assert (Hj : headerJunk (if c then a else b) = headerJunk p)
        by (destruct c; reflexivity);
      set (q := if c then a else b) in *
  end.
  rewrite (read16_from q fd (4 + 4 + 2 + 2) Hb Hpos) by lia.
  eexists. split; [reflexivity|].
  cbn [midiFile numTracks fileInfo tracks headerJunk set_fileInfo set_midiFile].
  split; [reflexivity|]. split; [exact Hnum|].
  split; [rewrite Hinfo; reflexivity|]. split; [exact Htr|exact Hj].
Qed.

(** X20. The track count of the header.  For a file with the tag MThd
    and the header length 6, [readMidiHeader] stores the declared 16-bit
    track count in the file information, while the number of tracks the
    parser works with is the low byte of that count, limited to 16: a
    header declaring 256 tracks leaves no track, one declaring 258
    leaves 2. *)
Theorem header_track_count (p : t) (fd : list Z) :
  isBytes fd ->
  midiFile p = Some (mkFile fd 0) ->
  firstn 4 fd = tag_MThd -> declaredHeaderLength fd = 6 ->
  fst (readMidiHeader p) = true
  /\ info_numTracks (fileInfo (snd (readMidiHeader p))) = declaredTracks fd
  /\ numTracks (snd (readMidiHeader p))
     = Z.min (declaredTracks fd mod 256) 16.
Proof.
  intros Hb Hf Hsig Hlen.
  destruct (readMidiHeader_result p fd Hb Hf Hsig Hlen)
    as (p' & R & _ & Hn & Hi & _).
  rewrite R. cbn [fst snd]. split; [reflexivity|].
  split; [rewrite Hi; reflexivity|exact Hn].
Qed.

Lemma read24_from (p : t) (fd : list Z) (x : Z) :
  isBytes fd ->
  midiFile p = Some (mkFile fd (Z.min x (Z.of_nat (length fd)))) ->
  0 <= x ->
  read24 p = (byteAt fd x * 65536 + byteAt fd (x + 1) * 256 + byteAt fd (x + 2),
              set_midiFile
                (Some (mkFile fd (Z.min (x + 3) (Z.of_nat (length fd))))) p).
Proof.
  intros Hb Hf Hx. unfold read24.
  rewrite (read8_from p fd x Hf Hx).
  rewrite (read8_from _ fd (x + 1)) by (try reflexivity; lia).
  rewrite set_midiFile_twice.
  rewrite (read8_from _ fd (x + 1 + 1)) by (try reflexivity; lia).
  rewrite set_midiFile_twice.
  rewrite be24_value by (apply byteAt_range; exact Hb).
  replace (x + 1 + 1) with (x + 2) by lia.
  replace (x + 2 + 1) with (x + 3) by lia.
  reflexivity.
Qed.

(** X21. [read16], [read24] and [read32] return the big-endian value
    of the next 2, 3 and 4 bytes of the file and move the file behind
    them; bytes beyond the end of the file count as 0 and the position
    then stops at the end of the file. *)
Theorem reads_are_big_endian (p : t) (fd : list Z) (pos : Z) :
  isBytes fd ->
  midiFile p = Some (mkFile fd pos) ->
  0 <= pos <= Z.of_nat (length fd) ->
  read16 p
  = (byteAt fd pos * 256 + byteAt fd (pos + 1),
     set_midiFile
       (Some (mkFile fd (Z.min (pos + 2) (Z.of_nat (length fd))))) p)
  /\ read24 p
     = (byteAt fd pos * 65536 + byteAt fd (pos + 1) * 256
        + byteAt fd (pos + 2),
        set_midiFile
          (Some (mkFile fd (Z.min (pos + 3) (Z.of_nat (length fd))))) p)
  /\ read32 p
     = (byteAt fd pos * 16777216 + byteAt fd (pos + 1) * 65536
        + byteAt fd (pos + 2) * 256 + byteAt fd (pos + 3),
        set_midiFile
          (Some (mkFile fd (Z.min (pos + 4) (Z.of_nat (length fd))))) p)
  /\ (forall i, Z.of_nat (length fd) <= i -> byteAt fd i = 0).
Proof.
  intros Hb Hf Hpos.
  assert (Hf' : midiFile p
                = Some (mkFile fd (Z.min pos (Z.of_nat (length fd)))))
    by (rewrite Z.min_l by lia; exact Hf).
  split; [apply (read16_from p fd pos Hb Hf'); lia|].
  split; [apply (read24_from p fd pos Hb Hf'); lia|].
  split; [apply (read32_from p fd pos Hb Hf'); lia|].
  intros i Hi. apply byteAt_past_end. exact Hi.
Qed.

(** X22. [open] returns false for a file with a valid header that
    declares at least one track (low byte of the count not 0) when the
    four bytes behind the header are not the tag MTrk. *)
Theorem open_rejects_bad_track_tag (p : t) (fd : list Z) :
  isBytes fd ->
  firstn 4 fd = tag_MThd -> declaredHeaderLength fd = 6 ->
  0 < declaredTracks fd mod 256 ->
  (18 <= length fd)%nat ->
  firstn 4 (skipn 14 fd) <> tag_MTrk ->
  fst (open (Some (mkFile fd 0)) p) = false.
Proof.
  intros Hb Hsig Hlen Hn H18 Hbad. unfold open.
  set (pa := set_fileInfo _ _).
  destruct (readMidiHeader_result pa fd Hb eq_refl Hsig Hlen)
    as (p1 & R & Hf & Hnum & _).
  rewrite R. cbn [negb]. unfold initializeTracks. rewrite Hf.
  assert (Hpos : exists n, Z.to_nat (numTracks p1) = S n).
  { exists (Nat.pred (Z.to_nat (numTracks p1))). lia. }
  destruct Hpos as (n & ->). cbn [initTrackHeaders].
  unfold readTag. rewrite Hf. unfold fread. cbn [fdata curPosition].
  replace (Z.min 14 (Z.of_nat (length fd))) with 14 by lia.
  change (Z.to_nat 14) with 14%nat. change (Z.to_nat 4) with 4%nat.
  assert (L : length (firstn 4 (skipn 14 fd)) = 4%nat)
    by (rewrite length_firstn, length_skipn; lia).
  rewrite firstn_app, L. rewrite firstn_all2 by lia.
  replace (4 - 4)%nat with 0%nat by reflexivity.
  rewrite firstn_O, app_nil_r.
  destruct (bytes_eqb (firstn 4 (skipn 14 fd)) tag_MTrk) eqn:E.
  - apply bytes_eqb_eq in E. contradiction.
  - reflexivity.
Qed.

End HeaderFields.

(** ** The end of the file and the total of the ticks *)

Section EndOfFile.
Import MidiFileParser.

(** X23. The end of the file.  After a call of [readNextEvent],
    [isEndOfFile] is true exactly when the call returned false; a call
    that returned false left the caller's event alone, and every later
    call returns false again without changing the parser.  A successful
    [reset] clears the flag. *)
Theorem end_of_file_is_sticky (ev : MidiEvent) (p : t) :
  (Z.to_nat (numTracks p) <= length (tracks p))%nat ->
  isEndOfFile (snd (readNextEvent ev p)) = negb (fst (fst (readNextEvent ev p)))
  /\ (fst (fst (readNextEvent ev p)) = false ->
      snd (fst (readNextEvent ev p)) = ev
      /\ forall ev2,
           readNextEvent ev2 (snd (readNextEvent ev p))
           = (false, ev2, snd (readNextEvent ev p)))
  /\ (fst (reset p) = true -> isEndOfFile (snd (reset p)) = false).
Proof.
  intros Hlen. split; [|split].
  - unfold readNextEvent, isEndOfFile.
    destruct (allTracksEnded p) eqn:Hend; [cbn; exact Hend|].
    pose proof (findEarliest_all p) as Hs.
    destruct (findEarliest (Z.to_nat (numTracks p)) 0 p (-1) 0xFFFFFFFF)
      as [k time]. cbn [fst snd] in Hs.
    destruct (k =? -1) eqn:Hk; [reflexivity|]. apply Z.eqb_neq in Hk.
    destruct Hs as [(-> & _) | (Hr & _)]; [contradiction|].
    assert (Hin : inRange k p) by (unfold inRange; lia).
    destruct (readTrackEvent k (nextEvent (getTrack k p)) p)
      as [[ok1 ev1] p1] eqn:R.
    destruct (readTrackEvent_spec k _ p ok1 ev1 p1 Hin R)
      as (_ & _ & Rend & _).
    cbn [fst snd negb]. change (allTracksEnded (setTrack k ?x p1))
      with (allTracksEnded p1). rewrite Rend. exact Hend.
  - unfold readNextEvent.
    destruct (allTracksEnded p) eqn:Hend.
    { cbn [fst snd]. intros _. split; [reflexivity|].
      intros ev2. rewrite Hend. reflexivity. }
    destruct (findEarliest (Z.to_nat (numTracks p)) 0 p (-1) 0xFFFFFFFF)
      as [k time].
    destruct (k =? -1) eqn:Hk.
    { cbn [fst snd]. intros _. split; [reflexivity|].
      intros ev2. reflexivity. }
    destruct (readTrackEvent k (nextEvent (getTrack k p)) p)
      as [[ok1 ev1] p1].
    cbn [fst snd]. discriminate.
  - unfold reset, isEndOfFile.
    destruct (midiFile p) as [f|]; [|discriminate].
    destruct (seekSet 0 f) as [ok f']. destruct ok; [|discriminate].
    cbn [negb]. destruct (readMidiHeader _) as [o1 p1].
    destruct (initializeTracks p1) as [o2 p2]. reflexivity.
Qed.

Lemma getTotalTicks_loop_max (n : nat) :
  forall (i : Z) (p : t) (m : Z),
  m <= getTotalTicks_loop n i p m
  /\ (forall j, i <= j < i + Z.of_nat n ->
      currentTick (getTrack j p) <= getTotalTicks_loop n i p m)
  /\ (getTotalTicks_loop n i p m = m
      \/ exists j, i <= j < i + Z.of_nat n
                   /\ getTotalTicks_loop n i p m = currentTick (getTrack j p)).
Proof.
  induction n as [|n IH]; intros i p m.
  - cbn [getTotalTicks_loop]. split; [lia|]. split; [intros j Hj; lia|].
    left. reflexivity.
  - cbn [getTotalTicks_loop].
    set (m' := if m <? currentTick (getTrack i p)
               then currentTick (getTrack i p) else m).
    assert (Hm' : m <= m' /\ currentTick (getTrack i p) <= m'
                  /\ (m' = m \/ m' = currentTick (getTrack i p))).
    { unfold m'. destruct (Z.ltb_spec m (currentTick (getTrack i p))); lia. }
    destruct (IH (i + 1) p m') as (A & B & C).
    split; [lia|]. split.
    + intros j Hj. destruct (Z.eq_dec j i) as [->|Hne]; [lia|].
      apply B. lia.
    + destruct C as [C|(j & Hj & C)].
      * destruct Hm' as (_ & _ & [E|E]).
        { left. rewrite C. exact E. }
        { right. exists i. split; [lia|]. rewrite C. exact E. }
      * right. exists j. split; [lia|exact C].
Qed.

(** X24. [getTotalTicks] is the greatest tick counter among the tracks
    in use: it is at least every track's counter, and it is 0 or the
    counter of one of the tracks. *)
Theorem getTotalTicks_is_max (p : t) :
  0 <= getTotalTicks p
  /\ (forall i, 0 <= i < numTracks p ->
      currentTick (getTrack i p) <= getTotalTicks p)
  /\ (getTotalTicks p = 0
      \/ exists i, 0 <= i < numTracks p
                   /\ getTotalTicks p = currentTick (getTrack i p)).
Proof.
  unfold getTotalTicks.
  destruct (getTotalTicks_loop_max (Z.to_nat (numTracks p)) 0 p 0)
    as (A & B & C).
  split; [exact A|]. split.
  - intros i Hi. apply B. lia.
  - destruct C as [C|(j & Hj & C)]; [left; exact C|].
    right. exists j. split; [lia|exact C].
Qed.

End EndOfFile.

(** ** The capacity of the length cache *)

Section CacheCapacity.
Import LengthCache.

Lemma named_false_unnamed (name : String.string)
    (es : list FileLengthCacheEntry) :
  named name es = false <-> unnamed name es.
Proof.
  unfold named, unnamed. split.
  - intros H e He.
    destruct (strcmp0 (filename e) name) eqn:E; [|reflexivity].
    assert (X : existsb (fun e => strcmp0 (filename e) name) es = true)
      by (apply existsb_exists; exists e; split; assumption).
    congruence.
  - intros H.
    destruct (existsb (fun e => strcmp0 (filename e) name) es) eqn:E;
      [|reflexivity].
    apply existsb_exists in E. destruct E as (e & He & E).
    rewrite (H e He) in E. discriminate.
Qed.

Lemma updateExisting_named (es : list FileLengthCacheEntry) name m L S :
  match updateExisting es name m L S with
  | Some es' => named name es = true /\ length es' = length es
  | None => named name es = false
  end.
Proof.
  induction es as [|e es IH]; [reflexivity|].
  cbn [updateExisting named existsb].
  destruct (strcmp0 (filename e) name); cbn [orb].
  - split; reflexivity.
  - fold (named name es).
    destruct (updateExisting es name m L S) as [r|].
    + destruct IH as [A B]. split; [exact A|]. cbn [length]. rewrite B.
      reflexivity.
    + exact IH.
Qed.

Lemma ensureLoaded_size (c : t) :
  cacheLoaded c = false \/ cacheSize c <= 500 ->
  cacheSize (ensureLoaded c) <= 500.
Proof.
  intros H. unfold ensureLoaded.
  destruct (cacheLoaded c) eqn:E.
  - destruct H as [H|H]; [discriminate|exact H].
  - unfold loadLengthCache, cacheSize. cbn [lengthCache].
    rewrite length_map, length_firstn. unfold MAX_CACHE_ENTRIES. lia.
Qed.

(** X25. The size of the cache after [cacheFileLength], for a cache
    that is not yet loaded or holds at most 500 entries: unchanged when
    an entry of that name exists (it is overwritten in place), one more
    when the name is new and there is room, and still 500 when the cache
    is full; so the cache never holds more than 500 entries. *)
Theorem cacheFileLength_size (name : String.string) (m L S : Z) (c : t) :
  cacheLoaded c = false \/ cacheSize c <= 500 ->
  cacheSize (cacheFileLength name m L S c)
  = (if named name (lengthCache (ensureLoaded c))
     then cacheSize (ensureLoaded c)
     else Z.min (cacheSize (ensureLoaded c) + 1) 500)
  /\ cacheSize (cacheFileLength name m L S c) <= 500.
Proof.
  intros H. pose proof (ensureLoaded_size c H) as Hsz.
  assert (G : cacheSize (cacheFileLength name m L S c)
              = (if named name (lengthCache (ensureLoaded c))
                 then cacheSize (ensureLoaded c)
                 else Z.min (cacheSize (ensureLoaded c) + 1) 500)).
  { unfold cacheFileLength.
    pose proof (updateExisting_named (lengthCache (ensureLoaded c)) name m L S)
      as U.
    destruct (updateExisting (lengthCache (ensureLoaded c)) name m L S)
      as [es|].
    - destruct U as [-> U]. unfold cacheSize. cbn [lengthCache].
      rewrite U. reflexivity.
    - rewrite U. unfold MAX_CACHE_ENTRIES.
      destruct (Z.ltb_spec (cacheSize (ensureLoaded c)) 500) as [Hlt|Hge].
      + unfold cacheSize in *. cbn [lengthCache].
        rewrite length_app. cbn [length]. lia.
      + unfold cacheSize in *. cbn [lengthCache].
        rewrite length_app. cbn [length].
        rewrite length_firstn, length_skipn.
        destruct (lengthCache (ensureLoaded c)) as [|x l];
          cbn [length tl] in *; lia. }
  split; [exact G|]. rewrite G.
  destruct (named name (lengthCache (ensureLoaded c))); lia.
Qed.

(** X26. Eviction.  When the loaded cache holds 500 entries and the
    name is new, [cacheFileLength] drops the oldest entry (index 0), moves
    every other entry down by one and puts the new entry last.  If no
    other entry carries the dropped entry's name and that name is not the
    (truncated) new name, lookups of it now return 0 and leave
    [*outSysexCount] alone. *)
Theorem cache_full_evicts_oldest (name : String.string) (m L S : Z) (c : t)
    (e0 : FileLengthCacheEntry) (rest : list FileLengthCacheEntry) :
  cacheLoaded c = true ->
  lengthCache c = e0 :: rest -> length rest = 499%nat ->
  named name (e0 :: rest) = false ->
  lengthCache (cacheFileLength name m L S c)
  = rest ++ [mkEntry (strncpy63 name) m L S]
  /\ (named (filename e0) rest = false ->
      filename e0 <> strncpy63 name ->
      forall m' out,
        fst (getCachedFileLength (filename e0) m' out
               (cacheFileLength name m L S c)) = (0, out)).
Proof.
  intros Hld Hlc Hlen Hun.
  assert (El : ensureLoaded c = c) by (unfold ensureLoaded; rewrite Hld; reflexivity).
  assert (G : lengthCache (cacheFileLength name m L S c)
              = rest ++ [mkEntry (strncpy63 name) m L S]).
  { unfold cacheFileLength. rewrite El.
    pose proof (updateExisting_named (lengthCache c) name m L S) as U.
    destruct (updateExisting (lengthCache c) name m L S) as [es|].
    { destruct U as [U _]. rewrite Hlc in U. congruence. }
    unfold cacheSize, MAX_CACHE_ENTRIES. rewrite Hlc.
    cbn [length tl lengthCache]. rewrite Hlen.
    change (Z.of_nat 500 <? 500) with false. cbv iota. cbn [lengthCache].
    rewrite firstn_all2 by lia.
    rewrite (skipn_all2 (n := 500) (e0 :: rest)) by (cbn [length]; lia).
    reflexivity. }
  split; [exact G|].
  intros Hrest Hne m' out. unfold getCachedFileLength.
  assert (El' : ensureLoaded (cacheFileLength name m L S c)
                = cacheFileLength name m L S c).
  { unfold ensureLoaded. rewrite cacheFileLength_loaded. reflexivity. }
  rewrite El'. cbn [fst]. rewrite G.
  rewrite searchCache_skip by (apply named_false_unnamed; exact Hrest).
  cbn [searchCache filename].
  destruct (strcmp0 (strncpy63 name) (filename e0)) eqn:E; [|reflexivity].
  unfold strcmp0 in E. apply String.eqb_eq in E. congruence.
Qed.

Lemma searchCache_app_unnamed (l1 l2 : list FileLengthCacheEntry) name m out :
  unnamed name l2 ->
  searchCache (l1 ++ l2) name m out = searchCache l1 name m out.
Proof.
  intros H. induction l1 as [|e l1 IH].
  - cbn [app]. rewrite <- (app_nil_r l2).
    rewrite searchCache_skip by exact H. reflexivity.
  - cbn [app searchCache]. rewrite IH. reflexivity.
Qed.

(** X27. As long as the cache is not full, [cacheFileLength] under one
    name does not change what [getCachedFileLength] returns for any other
    name (other than the name given and than its first 63 characters,
    the form in which it is stored). *)
Theorem cache_insert_keeps_other_names (name : String.string) (m L S : Z)
    (c : t) (name' : String.string) (m' : Z) (out : option Z) :
  cacheSize (ensureLoaded c) < 500 ->
  name' <> name -> name' <> strncpy63 name ->
  fst (getCachedFileLength name' m' out (cacheFileLength name m L S c))
  = fst (getCachedFileLength name' m' out c).
Proof.
  intros Hsz Hn1 Hn2. unfold getCachedFileLength.
  assert (El' : ensureLoaded (cacheFileLength name m L S c)
                = cacheFileLength name m L S c).
  { unfold ensureLoaded. rewrite cacheFileLength_loaded. reflexivity. }
  rewrite El'. cbn [fst]. unfold cacheFileLength.
  destruct (updateExisting (lengthCache (ensureLoaded c)) name m L S)
    as [es|] eqn:U.
  - destruct (updateExisting_Some _ _ _ _ _ _ U)
      as (l1 & e & l2 & -> & -> & _ & He).
    cbn [lengthCache].
    assert (Hskip : strcmp0 (filename e) name' = false).
    { unfold strcmp0 in *. apply String.eqb_eq in He.
      apply String.eqb_neq. congruence. }
    clear U. induction l1 as [|x l1 IH].
    + cbn [app searchCache filename]. rewrite Hskip. reflexivity.
    + cbn [app searchCache]. rewrite IH. reflexivity.
  - unfold MAX_CACHE_ENTRIES.
    destruct (Z.ltb_spec (cacheSize (ensureLoaded c)) 500) as [_|?]; [|lia].
    cbn [lengthCache]. apply searchCache_app_unnamed.
    intros x [<-|[]]. cbn [filename]. unfold strcmp0.
    apply String.eqb_neq. congruence.
Qed.

End CacheCapacity.

Lemma cacheFileLength_size_witness :
  (LengthCache.cacheLoaded sample_full_cache = false
   \/ LengthCache.cacheSize sample_full_cache <= 500)
  /\ LengthCache.cacheSize
       (LengthCache.cacheFileLength sample_name 7 960 2 sample_full_cache)
     = (if named sample_name
             (LengthCache.lengthCache (LengthCache.ensureLoaded sample_full_cache))
        then LengthCache.cacheSize (LengthCache.ensureLoaded sample_full_cache)
        else Z.min
               (LengthCache.cacheSize (LengthCache.ensureLoaded sample_full_cache)
                + 1) 500)
  /\ LengthCache.cacheSize
       (LengthCache.cacheFileLength sample_name 7 960 2 sample_full_cache)
     <= 500.
Proof.
  assert (H : LengthCache.cacheLoaded sample_full_cache = false
              \/ LengthCache.cacheSize sample_full_cache <= 500)
    by (right; vm_compute; discriminate).
  split; [exact H|].
  exact (cacheFileLength_size sample_name 7 960 2 sample_full_cache H).
Defined.

Lemma cache_full_evicts_oldest_witness :
  LengthCache.cacheLoaded sample_full_cache = true
  /\ LengthCache.lengthCache sample_full_cache
     = sample_entry 0 :: map sample_entry (seq 1 499)
  /\ length (map sample_entry (seq 1 499)) = 499%nat
  /\ named sample_name (sample_entry 0 :: map sample_entry (seq 1 499)) = false
  /\ named (LengthCache.filename (sample_entry 0))
       (map sample_entry (seq 1 499)) = false
  /\ LengthCache.filename (sample_entry 0)
     <> LengthCache.strncpy63 sample_name
  /\ LengthCache.lengthCache
       (LengthCache.cacheFileLength sample_name 7 960 2 sample_full_cache)
     = map sample_entry (seq 1 499)
       ++ [LengthCache.mkEntry (LengthCache.strncpy63 sample_name) 7 960 2]
  /\ forall m' out,
       fst (LengthCache.getCachedFileLength
              (LengthCache.filename (sample_entry 0)) m' out
              (LengthCache.cacheFileLength sample_name 7 960 2
                 sample_full_cache)) = (0, out).
Proof.
  assert (H1 : LengthCache.cacheLoaded sample_full_cache = true)
    by reflexivity.
  assert (H2 : LengthCache.lengthCache sample_full_cache
               = sample_entry 0 :: map sample_entry (seq 1 499))
    by reflexivity.
  assert (H3 : length (map sample_entry (seq 1 499)) = 499%nat)
    by (vm_compute; reflexivity).
  assert (H4 : named sample_name
                 (sample_entry 0 :: map sample_entry (seq 1 499)) = false)
    by (vm_compute; reflexivity).
  assert (H5 : named (LengthCache.filename (sample_entry 0))
                 (map sample_entry (seq 1 499)) = false)
    by (vm_compute; reflexivity).
  assert (H6 : LengthCache.filename (sample_entry 0)
               <> LengthCache.strncpy63 sample_name)
    by (vm_compute; discriminate).
  split; [exact H1|]. split; [exact H2|]. split; [exact H3|].
  split; [exact H4|]. split; [exact H5|]. split; [exact H6|].
  destruct (cache_full_evicts_oldest sample_name 7 960 2 sample_full_cache
              (sample_entry 0) (map sample_entry (seq 1 499)) H1 H2 H3 H4)
    as [A B].
  split; [exact A|]. exact (B H5 H6).
Defined.

Lemma cache_insert_keeps_other_names_witness :
  LengthCache.cacheSize (LengthCache.ensureLoaded sample_cache) < 500
  /\ "other.mid"%string <> sample_name
  /\ "other.mid"%string <> LengthCache.strncpy63 sample_name
  /\ fst (LengthCache.getCachedFileLength "other.mid"%string 3 (Some 0)
            (LengthCache.cacheFileLength sample_name 7 960 2 sample_cache))
     = fst (LengthCache.getCachedFileLength "other.mid"%string 3 (Some 0)
              sample_cache).
Proof.
  assert (H1 : LengthCache.cacheSize (LengthCache.ensureLoaded sample_cache)
               < 500) by (vm_compute; reflexivity).
  assert (H2 : "other.mid"%string <> sample_name) by discriminate.
  assert (H3 : "other.mid"%string <> LengthCache.strncpy63 sample_name)
    by (vm_compute; discriminate).
  split; [exact H1|]. split; [exact H2|]. split; [exact H3|].
  exact (cache_insert_keeps_other_names sample_name 7 960 2 sample_cache
           "other.mid"%string 3 (Some 0) H1 H2 H3).
Defined.

(** ** What the player hands to the output *)

Section Emit.
Import MidiPlayer.




Lemma toOutput_out (f : MidiOutput.t -> MidiOutput.t) (p : t)
    (o : MidiOutput.t) :
  midiOut p = Some o -> midiOut (toOutput f p) = Some (f o).
Proof. intros H. unfold toOutput. cbn [midiOut set_midiOut]. rewrite H. reflexivity. Qed.




(** X29. A pitch bend event with data bytes in 0..127 on a channel
    that is not routed out of range is sent as the 14-bit value
    data2 * 128 + data1 moved to the signed range: the bend is
    data2 * 128 + data1 - 8192, between -8192 and 8191, on the routed
    channel; the mute mask does not matter. *)
Theorem pitch_bend_value (ev : MidiEvent) (p : t) (o : MidiOutput.t) :
  midiOut p = Some o ->
  isMetaEvent ev = false -> 0 <= channel ev < 16 ->
  type ev = MIDI_PITCH_BEND ->
  0 <= data1 ev < 128 -> 0 <= data2 ev < 128 ->
  1 <= outputChannel ev p <= 16 ->
  midiOut (sendMidiEvent ev p)
  = Some (o ++ [PitchBend (outputChannel ev p)
                  (data2 ev * 128 + data1 ev - 8192)])
  /\ -8192 <= data2 ev * 128 + data1 ev - 8192 <= 8191.
Proof.
  intros Ho Hm Hc Hty H1 H2 Hout. split; [|lia].
  unfold sendMidiEvent. rewrite Ho, Hm, Hty. cbn [andb].
  destruct (Z.leb_spec 16 (channel ev)) as [?|_]; [lia|].
  change (MIDI_PITCH_BEND =? MIDI_NOTE_ON) with false.
  change (MIDI_PITCH_BEND =? MIDI_NOTE_OFF) with false.
  change (MIDI_PITCH_BEND =? MIDI_POLY_AFTERTOUCH) with false.
  change (MIDI_PITCH_BEND =? MIDI_CONTROL_CHANGE) with false.
  change (MIDI_PITCH_BEND =? MIDI_PROGRAM_CHANGE) with false.
  change (MIDI_PITCH_BEND =? MIDI_CHANNEL_AFTERTOUCH) with false.
  change (MIDI_PITCH_BEND =? MIDI_PITCH_BEND) with true.
  cbn [orb]. rewrite andb_false_r. cbv iota.
  assert (Hch : (if negb (nth (Z.to_nat (channel ev)) (userChannelRouting p) 0
                          =? 255)
                 then u8 (nth (Z.to_nat (channel ev)) (userChannelRouting p) 0
                          + 1)
                 else u8 (channel ev + 1)) = outputChannel ev p).
  { unfold outputChannel.
    destruct (nth (Z.to_nat (channel ev)) (userChannelRouting p) 0 =? 255);
      reflexivity. }
  rewrite Hch.
  rewrite (toOutput_out _ p o Ho). unfold MidiOutput.sendPitchBend.
  assert (Hb : MidiOutput.badChannel (outputChannel ev p) = false).
  { unfold MidiOutput.badChannel. apply orb_false_iff.
    split; apply Z.ltb_ge; lia. }
  rewrite Hb.
  rewrite shiftl_lor_add by (change (2 ^ 7) with 128; lia).
  change (2 ^ 7) with 128.
  assert (Hs : forall x, -32768 <= x < 32768 -> s16 x = x).
  { intros x Hx. unfold s16. rewrite Z.mod_small by lia. lia. }
  rewrite (Hs (data2 ev * 128 + data1 ev)) by lia.
  rewrite Hs by lia. reflexivity.
Qed.

(** X30. Pause and resume.  [pause] on a playing player with an output
    gives the state Paused and a second [pause] changes nothing; [play]
    from there resumes without touching the parser: the position, the
    parser and the pending event are as before the pause.  The output
    receives Stop (when the clock is enabled), All Notes Off on the 16
    channels twice (once by [pause], once by [play]) and then Continue
    (when the clock is enabled), never Start. *)
Theorem pause_then_play_resumes (p : t) (o : MidiOutput.t) :
  state p = STATE_PLAYING -> midiOut p = Some o ->
  state (pause p) = STATE_PAUSED
  /\ pause (pause p) = pause p
  /\ state (play (pause p)) = STATE_PLAYING
  /\ ticksElapsed (play (pause p)) = ticksElapsed p
  /\ parser (play (pause p)) = parser p
  /\ nextEvent (play (pause p)) = nextEvent p
  /\ eventReady (play (pause p)) = eventReady p
  /\ midiOut (play (pause p))
     = Some (o ++ (if clockEnabled p then [Stop] else [])
               ++ allNotesOffMsgs ++ allNotesOffMsgs
               ++ (if clockEnabled p then [Continue] else [])).
Proof.
  intros Hs Ho.
  assert (Hp : pause p
               = set_midiOut
                   (Some (o ++ (if clockEnabled p then [Stop] else [])
                            ++ allNotesOffMsgs))
                   (set_state STATE_PAUSED p)).
  { unfold pause. rewrite Hs. cbn [PlayerState_eqb negb].
    cbn [clockEnabled set_state].
    destruct (clockEnabled p) eqn:Ec.
    - rewrite (stopAllNotes_out _ (o ++ [Stop])).
      + unfold toOutput. cbn [set_midiOut midiOut set_state].
        rewrite <- app_assoc. reflexivity.
      + unfold toOutput. cbn [set_midiOut midiOut set_state MidiOutput.sendStop].
        rewrite Ho. reflexivity.
    - rewrite (stopAllNotes_out _ o) by exact Ho.
      cbn [app]. reflexivity. }
  split; [rewrite Hp; reflexivity|].
  split; [rewrite Hp; reflexivity|].
  rewrite Hp. unfold play.
  cbn [state set_midiOut set_state PlayerState_eqb].
  rewrite (stopAllNotes_out _
             (o ++ (if clockEnabled p then [Stop] else []) ++ allNotesOffMsgs))
    by reflexivity.
  cbn [state set_midiOut set_state set_reachedEnd PlayerState_eqb andb].
  unfold play_start, micros, toOutput.
  cbn [clockEnabled set_state set_midiOut set_reachedEnd set_timerReads
       set_lastUpdateMicros set_lastClockMicros].
  destruct (clockEnabled p); psimpl;
    cbn [option_map MidiOutput.sendContinue];
    repeat split; try reflexivity.
  - unfold MidiOutput.sendContinue. rewrite <- !app_assoc. reflexivity.
  - rewrite <- !app_assoc, app_nil_r. reflexivity.
Qed.

End Emit.

Lemma unknown_meta_event_skipped_witness :
  streamAt 0 sample_odd_ready sample_odd
    ([0] ++ 0xFF :: 0x01 :: [2] ++ [0x48; 0x69] ++ skipn 6 sample_odd_track)
  /\ endOfTrack (MidiFileParser.getTrack 0 sample_odd_ready) = false
  /\ isVlq [0] /\ isVlq [2]
  /\ ~ In 0x01 [META_TEMPO; META_TIME_SIGNATURE; META_TRACK_NAME;
                META_END_OF_TRACK]
  /\ Z.of_nat (length [0x48; 0x69]) = u32 (vlqValue [2])
  /\ exists p',
       MidiFileParser.readTrackEvent 0 MidiEvent_new sample_odd_ready
       = (true,
          mkEvent (u32 (vlqValue [0]))
            (u32 (currentTick (MidiFileParser.getTrack 0 sample_odd_ready)
                  + u32 (vlqValue [0])))
            0xF0 0x0F 0x01 (data2 MidiEvent_new) None 0 true 0,
          p')
       /\ streamAt 0 p' sample_odd (skipn 6 sample_odd_track)
       /\ runningStatus (MidiFileParser.getTrack 0 p') = 0
       /\ MidiFileParser.fileInfo p' = MidiFileParser.fileInfo sample_odd_ready.
Proof.
  assert (H1 : streamAt 0 sample_odd_ready sample_odd
                 ([0] ++ 0xFF :: 0x01 :: [2] ++ [0x48; 0x69]
                  ++ skipn 6 sample_odd_track))
    by (apply streamAtb_sound; vm_compute; reflexivity).
  assert (H2 : endOfTrack (MidiFileParser.getTrack 0 sample_odd_ready) = false)
    by (vm_compute; reflexivity).
  assert (H3 : isVlq [0]) by (apply isVlq_single; lia).
  assert (H4 : isVlq [2]) by (apply isVlq_single; lia).
  assert (H5 : ~ In 0x01 [META_TEMPO; META_TIME_SIGNATURE; META_TRACK_NAME;
                          META_END_OF_TRACK])
    by (intros [H|[H|[H|[H|[]]]]]; discriminate H).
  assert (H6 : Z.of_nat (length [0x48; 0x69]) = u32 (vlqValue [2]))
    by (vm_compute; reflexivity).
  split; [exact H1|]. split; [exact H2|]. split; [exact H3|].
  split; [exact H4|]. split; [exact H5|]. split; [exact H6|].
  exact (unknown_meta_event_skipped 0 MidiEvent_new sample_odd_ready sample_odd
           [0] 0x01 [2] [0x48; 0x69] _ H1 H2 H3 H4 H5 H6).
Defined.

Lemma system_status_not_decoded_witness :
  streamAt 0 (afterEvents 1 0 sample_odd_ready) sample_odd
    ([0] ++ 0xF8 :: skipn 8 sample_odd_track)
  /\ endOfTrack (MidiFileParser.getTrack 0 (afterEvents 1 0 sample_odd_ready))
     = false
  /\ isVlq [0]
  /\ 0xF1 <= 0xF8 <= 0xFE /\ 0xF8 <> 0xF7
  /\ exists ev' p',
       MidiFileParser.readTrackEvent 0 MidiEvent_new
         (afterEvents 1 0 sample_odd_ready) = (false, ev', p')
       /\ streamAt 0 p' sample_odd (skipn 8 sample_odd_track)
       /\ endOfTrack (MidiFileParser.getTrack 0 p') = false
       /\ runningStatus (MidiFileParser.getTrack 0 p') = 0xF8
       /\ MidiFileParser.fileInfo p'
          = MidiFileParser.fileInfo (afterEvents 1 0 sample_odd_ready).
Proof.
  assert (H1 : streamAt 0 (afterEvents 1 0 sample_odd_ready) sample_odd
                 ([0] ++ 0xF8 :: skipn 8 sample_odd_track))
    by (apply streamAtb_sound; vm_compute; reflexivity).
  assert (H2 : endOfTrack
                 (MidiFileParser.getTrack 0 (afterEvents 1 0 sample_odd_ready))
               = false) by (vm_compute; reflexivity).
  assert (H3 : isVlq [0]) by (apply isVlq_single; lia).
  assert (H4 : 0xF1 <= 0xF8 <= 0xFE) by lia.
  assert (H5 : 0xF8 <> 0xF7) by lia.
  split; [exact H1|]. split; [exact H2|]. split; [exact H3|].
  split; [exact H4|]. split; [exact H5|].
  exact (system_status_not_decoded 0 MidiEvent_new
           (afterEvents 1 0 sample_odd_ready) sample_odd
           [0] 0xF8 _ H1 H2 H3 H4 H5).
Defined.

Lemma header_track_count_witness :
  isBytes sample_258_tracks
  /\ MidiFileParser.midiFile
       (MidiFileParser.set_midiFile (Some (mkFile sample_258_tracks 0))
          (MidiFileParser.new [0; 0; 0; 0]))
     = Some (mkFile sample_258_tracks 0)
  /\ firstn 4 sample_258_tracks = tag_MThd
  /\ declaredHeaderLength sample_258_tracks = 6
  /\ fst (MidiFileParser.readMidiHeader
            (MidiFileParser.set_midiFile (Some (mkFile sample_258_tracks 0))
               (MidiFileParser.new [0; 0; 0; 0]))) = true
  /\ info_numTracks
       (MidiFileParser.fileInfo
          (snd (MidiFileParser.readMidiHeader
                  (MidiFileParser.set_midiFile
                     (Some (mkFile sample_258_tracks 0))
                     (MidiFileParser.new [0; 0; 0; 0])))))
     = declaredTracks sample_258_tracks
  /\ MidiFileParser.numTracks
       (snd (MidiFileParser.readMidiHeader
               (MidiFileParser.set_midiFile
                  (Some (mkFile sample_258_tracks 0))
                  (MidiFileParser.new [0; 0; 0; 0]))))
     = Z.min (declaredTracks sample_258_tracks mod 256) 16.
Proof.
  assert (H1 : isBytes sample_258_tracks) by (repeat constructor; lia).
  assert (H2 : MidiFileParser.midiFile
                 (MidiFileParser.set_midiFile
                    (Some (mkFile sample_258_tracks 0))
                    (MidiFileParser.new [0; 0; 0; 0]))
               = Some (mkFile sample_258_tracks 0)) by reflexivity.
  assert (H3 : firstn 4 sample_258_tracks = tag_MThd) by reflexivity.
  assert (H4 : declaredHeaderLength sample_258_tracks = 6) by reflexivity.
  split; [exact H1|]. split; [exact H2|]. split; [exact H3|].
  split; [exact H4|].
  exact (header_track_count _ sample_258_tracks H1 H2 H3 H4).
Defined.

Lemma reads_are_big_endian_witness :
  isBytes sample_type0
  /\ MidiFileParser.midiFile
       (MidiFileParser.set_midiFile (Some (mkFile sample_type0 32))
          (MidiFileParser.new [0; 0; 0; 0]))
     = Some (mkFile sample_type0 32)
  /\ 0 <= 32 <= Z.of_nat (length sample_type0)
  /\ MidiFileParser.read32
       (MidiFileParser.set_midiFile (Some (mkFile sample_type0 32))
          (MidiFileParser.new [0; 0; 0; 0]))
     = (byteAt sample_type0 32 * 16777216 + byteAt sample_type0 (32 + 1) * 65536
        + byteAt sample_type0 (32 + 2) * 256 + byteAt sample_type0 (32 + 3),
        MidiFileParser.set_midiFile
          (Some (mkFile sample_type0
                   (Z.min (32 + 4) (Z.of_nat (length sample_type0)))))
          (MidiFileParser.set_midiFile (Some (mkFile sample_type0 32))
             (MidiFileParser.new [0; 0; 0; 0]))).
Proof.
  assert (H1 : isBytes sample_type0) by (repeat constructor; lia).
  assert (H2 : MidiFileParser.midiFile
                 (MidiFileParser.set_midiFile (Some (mkFile sample_type0 32))
                    (MidiFileParser.new [0; 0; 0; 0]))
               = Some (mkFile sample_type0 32)) by reflexivity.
  assert (H3 : 0 <= 32 <= Z.of_nat (length sample_type0))
    by (vm_compute; split; discriminate).
  split; [exact H1|]. split; [exact H2|]. split; [exact H3|].
  exact (proj1 (proj2 (proj2
           (reads_are_big_endian _ sample_type0 32 H1 H2 H3)))).
Defined.

Lemma open_rejects_bad_track_tag_witness :
  isBytes sample_258_tracks
  /\ firstn 4 sample_258_tracks = tag_MThd
  /\ declaredHeaderLength sample_258_tracks = 6
  /\ 0 < declaredTracks sample_258_tracks mod 256
  /\ (18 <= length sample_258_tracks)%nat
  /\ firstn 4 (skipn 14 sample_258_tracks) <> tag_MTrk
  /\ fst (MidiFileParser.open (Some (mkFile sample_258_tracks 0))
            (MidiFileParser.new [0; 0; 0; 0])) = false.
Proof.
  assert (H1 : isBytes sample_258_tracks) by (repeat constructor; lia).
  assert (H2 : firstn 4 sample_258_tracks = tag_MThd) by reflexivity.
  assert (H3 : declaredHeaderLength sample_258_tracks = 6) by reflexivity.
  assert (H4 : 0 < declaredTracks sample_258_tracks mod 256)
    by (vm_compute; reflexivity).
  assert (H5 : (18 <= length sample_258_tracks)%nat) by (cbn; lia).
  assert (H6 : firstn 4 (skipn 14 sample_258_tracks) <> tag_MTrk)
    by discriminate.
  split; [exact H1|]. split; [exact H2|]. split; [exact H3|].
  split; [exact H4|]. split; [exact H5|]. split; [exact H6|].
  exact (open_rejects_bad_track_tag (MidiFileParser.new [0; 0; 0; 0])
           sample_258_tracks H1 H2 H3 H4 H5 H6).
Defined.

Lemma end_of_file_is_sticky_witness :
  (Z.to_nat (MidiFileParser.numTracks (afterCalls 2 sample_parser))
   <= length (MidiFileParser.tracks (afterCalls 2 sample_parser)))%nat
  /\ MidiFileParser.isEndOfFile
       (snd (MidiFileParser.readNextEvent MidiEvent_new
               (afterCalls 2 sample_parser)))
     = negb (fst (fst (MidiFileParser.readNextEvent MidiEvent_new
                         (afterCalls 2 sample_parser)))).
Proof.
  assert (H : (Z.to_nat (MidiFileParser.numTracks (afterCalls 2 sample_parser))
               <= length (MidiFileParser.tracks (afterCalls 2 sample_parser)))%nat)
    by (vm_compute; lia).
  split; [exact H|].
  exact (proj1 (end_of_file_is_sticky MidiEvent_new
                  (afterCalls 2 sample_parser) H)).
Defined.


Lemma pitch_bend_value_witness :
  MidiPlayer.midiOut sample_ready = Some []
  /\ isMetaEvent sample_pitchBend = false
  /\ 0 <= channel sample_pitchBend < 16
  /\ type sample_pitchBend = MIDI_PITCH_BEND
  /\ 0 <= data1 sample_pitchBend < 128
  /\ 0 <= data2 sample_pitchBend < 128
  /\ 1 <= outputChannel sample_pitchBend sample_ready <= 16
  /\ MidiPlayer.midiOut (MidiPlayer.sendMidiEvent sample_pitchBend sample_ready)
     = Some ([] ++ [PitchBend (outputChannel sample_pitchBend sample_ready)
                      (data2 sample_pitchBend * 128 + data1 sample_pitchBend
                       - 8192)])
  /\ -8192 <= data2 sample_pitchBend * 128 + data1 sample_pitchBend - 8192
     <= 8191.
Proof.
  assert (H1 : MidiPlayer.midiOut sample_ready = Some [])
    by (vm_compute; reflexivity).
  assert (H2 : isMetaEvent sample_pitchBend = false) by reflexivity.
  assert (H3 : 0 <= channel sample_pitchBend < 16) by (cbn; lia).
  assert (H4 : type sample_pitchBend = MIDI_PITCH_BEND) by reflexivity.
  assert (H5 : 0 <= data1 sample_pitchBend < 128) by (cbn; lia).
  assert (H6 : 0 <= data2 sample_pitchBend < 128) by (cbn; lia).
  assert (H7 : 1 <= outputChannel sample_pitchBend sample_ready <= 16)
    by (vm_compute; split; discriminate).
  split; [exact H1|]. split; [exact H2|]. split; [exact H3|].
  split; [exact H4|]. split; [exact H5|]. split; [exact H6|].
  split; [exact H7|].
  exact (pitch_bend_value sample_pitchBend sample_ready [] H1 H2 H3 H4 H5 H6 H7).
Defined.

Lemma pause_then_play_resumes_witness :
  MidiPlayer.state sample_playing_clock = STATE_PLAYING
  /\ MidiPlayer.midiOut sample_playing_clock = Some (allNotesOffMsgs ++ [Start])
  /\ MidiPlayer.state (MidiPlayer.pause sample_playing_clock) = STATE_PAUSED
  /\ MidiPlayer.pause (MidiPlayer.pause sample_playing_clock)
     = MidiPlayer.pause sample_playing_clock
  /\ MidiPlayer.state (MidiPlayer.play (MidiPlayer.pause sample_playing_clock))
     = STATE_PLAYING
  /\ MidiPlayer.ticksElapsed
       (MidiPlayer.play (MidiPlayer.pause sample_playing_clock))
     = MidiPlayer.ticksElapsed sample_playing_clock
  /\ MidiPlayer.parser (MidiPlayer.play (MidiPlayer.pause sample_playing_clock))
     = MidiPlayer.parser sample_playing_clock
  /\ MidiPlayer.nextEvent
       (MidiPlayer.play (MidiPlayer.pause sample_playing_clock))
     = MidiPlayer.nextEvent sample_playing_clock
  /\ MidiPlayer.eventReady
       (MidiPlayer.play (MidiPlayer.pause sample_playing_clock))
     = MidiPlayer.eventReady sample_playing_clock
  /\ MidiPlayer.midiOut (MidiPlayer.play (MidiPlayer.pause sample_playing_clock))
     = Some ((allNotesOffMsgs ++ [Start])
             ++ (if MidiPlayer.clockEnabled sample_playing_clock
                 then [Stop] else [])
             ++ allNotesOffMsgs ++ allNotesOffMsgs
             ++ (if MidiPlayer.clockEnabled sample_playing_clock
                 then [Continue] else [])).
Proof.
  assert (H1 : MidiPlayer.state sample_playing_clock = STATE_PLAYING)
    by (vm_compute; reflexivity).
  assert (H2 : MidiPlayer.midiOut sample_playing_clock
               = Some (allNotesOffMsgs ++ [Start]))
    by (vm_compute; reflexivity).
  split; [exact H1|]. split; [exact H2|].
  exact (pause_then_play_resumes sample_playing_clock _ H1 H2).
Defined.
